(** * 4-track tape looper: a shallow embedding of the audio core

    The development follows the JavaScript sources of the looper:
    [Track] (recording, playback, bipolar speed, mute/solo),
    [CassetteTapeBus] (dropout scheduler and tape controls),
    [Recorder] (master bus, reverb impulse and its cache, solo
    handling, offline export and the WAV encoder), [Knob], the
    [Visualizer]'s VU meters and the page's handlers that reach the
    audio core.

    Numbers.  Every finite JavaScript number is a dyadic rational, so
    samples, gains, knob values and times are rationals ([Q]) and the
    arithmetic on them is exact.  IEEE rounding is modelled where a
    result is cut to a whole number afterwards and the last bit decides:
    [buffer.duration] and the frame count of the export are doubles
    ([JS.double]).  The results of [Math.pow], [Math.exp], [Math.tanh]
    and [Math.sqrt] are real numbers ([R]); a real number stored in a
    [Float32Array] is rounded ([JS.toFloat32]).  Array indices and
    lengths are [nat]; the bytes of an [ArrayBuffer] are integers in
    [0, 256). *)

From Stdlib Require Import ZArith QArith Qabs Qround Qpower Reals Qreals Lqa Lra Lia DecimalString.
From stdpp Require Import base list strings.

(** ** JavaScript numerics *)

Module JS.

(** [ToIntegerOrInfinity] on a finite number: truncation toward zero. *)
Definition trunc (x : Q) : Z := Z.quot (Qnum x) (Z.pos (Qden x)).

(** [ToUint8], [ToUint16], [ToUint32]: truncate, then reduce modulo [2^w]. *)
Definition ToUint (w : Z) (x : Q) : Z := (trunc x mod 2 ^ w)%Z.

(** [ToInt16]: the unsigned reduction read back as a signed 16-bit value. *)
Definition ToInt16 (x : Q) : Z :=
  let u := ToUint 16 x in
  if (u <? 2 ^ 15)%Z then u else (u - 2 ^ 16)%Z.

(** The comparisons [a <= b], [a < b], [a > b] and [a === b] on finite
    numbers. *)
Definition le (a b : Q) : bool := Qle_bool a b.
Definition lt (a b : Q) : bool := negb (Qle_bool b a).
Definition gt (a b : Q) : bool := negb (Qle_bool a b).
Definition eq (a b : Q) : bool := Qeq_bool a b.

(** [Math.max] and [Math.min] on two finite numbers. *)
Definition Math_max (a b : Q) : Q := if lt a b then b else a.
Definition Math_min (a b : Q) : Q := if lt b a then b else a.

(** [Math.abs] on a rational and on a real. *)
Definition Math_abs (a : Q) : Q := Qabs a.
Definition Math_abs_R (a : R) : R := Rabs a.

(** [Math.pow] with a positive base: [x^y = exp (y ln x)]. *)
Definition Math_pow (x y : Q) : R := Rpower (Q2R x) (Q2R y).

(** [for (let i = 0; i < n; i++) body], threading the mutated state. *)
Definition for_loop {S : Type} (n : nat) (body : nat -> S -> S) (s : S) : S :=
  fold_left (fun st i => body i st) (seq 0 n) s.

(** [string.charCodeAt(i)]; the sources only read indices below
    [string.length]. *)
Definition charCodeAt (s : string) (i : nat) : Q :=
  match String.get i s with
  | Some a => inject_Z (Z.of_N (Ascii.N_of_ascii a))
  | None => 0%Q
  end.

(** [a % b] on finite numbers: what is left of [a] after taking out
    [b] a whole number of times, counted toward zero; the result is
    [NaN] ([None]) when [b] is zero. *)
Definition rem (a b : Q) : option Q :=
  if eq b 0 then None else Some (a - b * inject_Z (trunc (a / b)))%Q.

(** The same on real numbers. *)
Definition trunc_R (x : R) : Z :=
  if Rle_dec 0 x then Int_part x else (- Int_part (- x))%Z.

Definition rem_R (a b : R) : option R :=
  if Req_dec_T b 0 then None else Some (a - b * IZR (trunc_R (a / b)))%R.

(** [Math.floor], [Math.exp], [Math.tanh] and [Math.sqrt]. *)
Definition Math_floor (x : Q) : Z := Qfloor x.
Definition Math_exp (x : R) : R := exp x.
Definition Math_tanh (x : R) : R := tanh x.
Definition Math_sqrt (x : R) : R := sqrt x.

(** [Math.min] on real numbers. *)
Definition Math_min_R (a b : R) : R := Rmin a b.

(** *** Doubles

    The binary exponent of a positive number: the [e] with
    [2^e <= x < 2^(e+1)]. *)
Definition exponent (x : Q) : Z :=
  let e := (Z.log2 (Qnum x) - Z.log2 (Z.pos (Qden x)))%Z in
  if Qle_bool (2 ^ e) x then e else (e - 1)%Z.

(** The nearest whole number, the even one of two that are equally
    near. *)
Definition roundTiesToEven (x : Q) : Z :=
  let f := Qfloor x in
  match ((x - inject_Z f) ?= (1 # 2))%Q with
  | Lt => f
  | Gt => (f + 1)%Z
  | Eq => if Z.even f then f else (f + 1)%Z
  end.

(** The double a number becomes as the result of an operation: the
    nearest number with 53 significant bits, ties to even.  The
    exponent range is not modelled: no number here comes near it. *)
Definition double (x : Q) : Q :=
  if Qeq_bool x 0 then 0%Q else
  let ulp := (2 ^ (exponent (Qabs x) - 52))%Q in
  (inject_Z (roundTiesToEven (x / ulp)) * ulp)%Q.

(** The value a real number takes in a [Float32Array]: the nearest
    number with 24 significant bits, ties to even (the exponent range
    is not modelled). *)
Definition toFloat32 (x : R) : Q :=
  if Req_dec_T x 0 then 0%Q else
  let e := Int_part (ln (Rabs x) / ln 2) in
  let ulp := (2 ^ (e - 23))%Q in
  let scaled := (x / Q2R ulp)%R in
  let f := Int_part scaled in
  let rest := (scaled - IZR f)%R in
  let n := if Rlt_dec rest (1 / 2) then f
           else if Rlt_dec (1 / 2) rest then (f + 1)%Z
           else if Z.even f then f else (f + 1)%Z in
  (inject_Z n * ulp)%Q.

End JS.

(** The completion of a call that can throw, with the state it leaves
    behind in either case. *)
Inductive Completion (A : Type) : Type :=
| Normal (a : A)
| Throw (a : A).

Arguments Normal {A} a.
Arguments Throw {A} a.

(** ** ArrayBuffer and DataView

    An [ArrayBuffer] is the list of its bytes.  The [DataView] setters
    convert their numeric argument and store it byte by byte. *)

Module DataView.

Abbreviation ArrayBuffer := (list Z).

(** [new ArrayBuffer(n)]: [n] zero bytes. *)
Definition alloc (n : nat) : ArrayBuffer := replicate n 0%Z.

(** Byte [k] (0 = least significant) of a non-negative integer. *)
Definition byteOf (k : Z) (v : Z) : Z := ((v / 2 ^ (8 * k)) mod 256)%Z.

Definition setUint8 (view : ArrayBuffer) (offset : nat) (value : Q) : ArrayBuffer :=
  <[offset := JS.ToUint 8 value]> view.

(** [view.setUint16(offset, value, true)]: little-endian. *)
Definition setUint16 (view : ArrayBuffer) (offset : nat) (value : Q) : ArrayBuffer :=
  let u := JS.ToUint 16 value in
  <[offset + 1 := byteOf 1 u]> (<[offset := byteOf 0 u]> view).

(** [view.setInt16(offset, value, true)]: the signed value in two's
    complement, little-endian. *)
Definition setInt16 (view : ArrayBuffer) (offset : nat) (value : Q) : ArrayBuffer :=
  let u := (JS.ToInt16 value mod 2 ^ 16)%Z in
  <[offset + 1 := byteOf 1 u]> (<[offset := byteOf 0 u]> view).

(** [view.setUint32(offset, value, true)]: little-endian. *)
Definition setUint32 (view : ArrayBuffer) (offset : nat) (value : Q) : ArrayBuffer :=
  let u := JS.ToUint 32 value in
  <[offset + 3 := byteOf 3 u]> (<[offset + 2 := byteOf 2 u]>
    (<[offset + 1 := byteOf 1 u]> (<[offset := byteOf 0 u]> view))).

(** Readers, used to state what a decoder sees in the file. *)
Definition getUint8 (view : ArrayBuffer) (offset : nat) : Z :=
  default 0%Z (view !! offset).

Definition getUint16 (view : ArrayBuffer) (offset : nat) : Z :=
  (getUint8 view offset + 2 ^ 8 * getUint8 view (offset + 1))%Z.

Definition getInt16 (view : ArrayBuffer) (offset : nat) : Z :=
  let u := getUint16 view offset in
  if (u <? 2 ^ 15)%Z then u else (u - 2 ^ 16)%Z.

Definition getUint32 (view : ArrayBuffer) (offset : nat) : Z :=
  (getUint8 view offset + 2 ^ 8 * getUint8 view (offset + 1)
   + 2 ^ 16 * getUint8 view (offset + 2) + 2 ^ 24 * getUint8 view (offset + 3))%Z.

(** The four characters at [offset], as character codes. *)
Definition getChars (view : ArrayBuffer) (offset n : nat) : list Z :=
  take n (drop offset view).

End DataView.

(** ** AudioBuffer *)

Record AudioBuffer : Type := mkAudioBuffer {
  numberOfChannels : nat;
  buf_length : nat;                (* [buffer.length], in sample frames *)
  sampleRate : Q;
  channelData : list (list Q)      (* one Float32Array per channel *)
}.

(** The invariant every Web Audio buffer satisfies: [numberOfChannels]
    channels of [length] samples each. *)
Definition wf_buffer (b : AudioBuffer) : Prop :=
  length (channelData b) = numberOfChannels b /\
  Forall (fun ch => length ch = buf_length b) (channelData b).

(** [buffer.duration]: the length over the sample rate, as a double. *)
Definition duration (b : AudioBuffer) : Q :=
  JS.double (inject_Z (Z.of_nat (buf_length b)) / sampleRate b)%Q.

(** [ctx.createBuffer(channels, length, sampleRate)]: silence.  (The
    sources only ask for buffers of positive length.) *)
Definition createBuffer (channels len : nat) (rate : Q) : AudioBuffer :=
  {| numberOfChannels := channels; buf_length := len; sampleRate := rate;
     channelData := replicate channels (replicate len 0%Q) |}.

(** [buffer.getChannelData(channel)] *)
Definition getChannelData (b : AudioBuffer) (channel : nat) : list Q :=
  default [] (channelData b !! channel).

(** [data[i]] on a Float32Array.  Every read in the sources is in range
    for a well-formed buffer. *)
Definition f32_get (data : list Q) (i : nat) : Q := default 0%Q (data !! i).

(** [buffer.getChannelData(channel)[i] = v]: the channel array is a
    live view, so the write lands in the buffer. *)
Definition f32_set (b : AudioBuffer) (channel i : nat) (v : Q) : AudioBuffer :=
  {| numberOfChannels := numberOfChannels b; buf_length := buf_length b;
     sampleRate := sampleRate b;
     channelData := alter (fun data => <[i := v]> data) channel (channelData b) |}.

(** Sample [i] of channel [c], when both exist. *)
Definition sampleAt (b : AudioBuffer) (c i : nat) : option Q :=
  channelData b !! c ≫= fun data => data !! i.

(** [Track.createReversedBuffer] *)
Definition createReversedBuffer (buffer : AudioBuffer) : AudioBuffer :=
  let reversed :=
    createBuffer (numberOfChannels buffer) (buf_length buffer) (sampleRate buffer) in
  JS.for_loop (numberOfChannels buffer) (fun channel reversed =>
    let originalData := getChannelData buffer channel in
    JS.for_loop (buf_length buffer) (fun i reversed =>
      f32_set reversed channel i
        (f32_get originalData (buf_length buffer - 1 - i))) reversed) reversed.

(** ** Track *)

Inductive Mode : Type := normal | loop.

(** Which buffer object a source node plays.  The sources compare
    [source.buffer] with [this.audioBuffer] and [this.reversedBuffer] by
    identity; [DetachedBuffer] is a buffer the track no longer holds
    (it was replaced while the source kept playing). *)
Inductive SourceBuffer : Type := ForwardBuffer | ReversedBuffer | DetachedBuffer.

#[global] Instance SourceBuffer_eq_dec : EqDecision SourceBuffer.
Proof. solve_decision. Defined.

Record BufferSource : Type := mkBufferSource {
  src_buffer : SourceBuffer;
  src_playbackRate : R;            (* source.playbackRate.value *)
  src_loop : bool;
  src_loopStart : Q;
  src_loopEnd : Q
}.

Module Track.

Record t : Type := mk {
  trackNumber : nat;
  isRecording : bool;
  audioBuffer : option AudioBuffer;   (* decoded PCM, or null *)
  reversedBuffer : option AudioBuffer;   (* pre-reversed copy, or null *)
  source : option BufferSource;   (* the playing source node, or null *)
  isPlaying : bool;
  isMuted : bool;
  isSolo : bool;
  mode : Mode;
  loopLength : Q;   (* seconds *)
  playbackRate : R;
  isReversed : bool;
  startTime : Q;
  hasAudio : bool;   (* set by Recorder.loadFileToTrack *)
  audioIndicator : bool;   (* the 'loaded' class of the track's indicator *)
  channelFader : Q;   (* channelFader.gain.value *)
  la2aThreshold : Q;   (* la2aCompressor.threshold.value *)
  la2aRatio : Q;   (* la2aCompressor.ratio.value *)
  la2aMakeupGain : R   (* la2aMakeupGain.gain.value *)
}.

(** Field updates ([this.f = v]). *)
Definition set_isRecording (v : bool) (tr : t) : t :=
  mk (trackNumber tr) v (audioBuffer tr) (reversedBuffer tr) (source tr)
     (isPlaying tr) (isMuted tr) (isSolo tr) (mode tr) (loopLength tr)
     (playbackRate tr) (isReversed tr) (startTime tr) (hasAudio tr)
     (audioIndicator tr) (channelFader tr) (la2aThreshold tr) (la2aRatio tr)
     (la2aMakeupGain tr).
Definition set_audioBuffer (v : option AudioBuffer) (tr : t) : t :=
  mk (trackNumber tr) (isRecording tr) v (reversedBuffer tr) (source tr)
     (isPlaying tr) (isMuted tr) (isSolo tr) (mode tr) (loopLength tr)
     (playbackRate tr) (isReversed tr) (startTime tr) (hasAudio tr)
     (audioIndicator tr) (channelFader tr) (la2aThreshold tr) (la2aRatio tr)
     (la2aMakeupGain tr).
Definition set_reversedBuffer (v : option AudioBuffer) (tr : t) : t :=
  mk (trackNumber tr) (isRecording tr) (audioBuffer tr) v (source tr) (isPlaying
     tr) (isMuted tr) (isSolo tr) (mode tr) (loopLength tr) (playbackRate tr)
     (isReversed tr) (startTime tr) (hasAudio tr) (audioIndicator tr)
     (channelFader tr) (la2aThreshold tr) (la2aRatio tr) (la2aMakeupGain tr).
Definition set_source (v : option BufferSource) (tr : t) : t :=
  mk (trackNumber tr) (isRecording tr) (audioBuffer tr) (reversedBuffer tr) v
     (isPlaying tr) (isMuted tr) (isSolo tr) (mode tr) (loopLength tr)
     (playbackRate tr) (isReversed tr) (startTime tr) (hasAudio tr)
     (audioIndicator tr) (channelFader tr) (la2aThreshold tr) (la2aRatio tr)
     (la2aMakeupGain tr).
Definition set_isPlaying (v : bool) (tr : t) : t :=
  mk (trackNumber tr) (isRecording tr) (audioBuffer tr) (reversedBuffer tr)
     (source tr) v (isMuted tr) (isSolo tr) (mode tr) (loopLength tr)
     (playbackRate tr) (isReversed tr) (startTime tr) (hasAudio tr)
     (audioIndicator tr) (channelFader tr) (la2aThreshold tr) (la2aRatio tr)
     (la2aMakeupGain tr).
Definition set_isMuted (v : bool) (tr : t) : t :=
  mk (trackNumber tr) (isRecording tr) (audioBuffer tr) (reversedBuffer tr)
     (source tr) (isPlaying tr) v (isSolo tr) (mode tr) (loopLength tr)
     (playbackRate tr) (isReversed tr) (startTime tr) (hasAudio tr)
     (audioIndicator tr) (channelFader tr) (la2aThreshold tr) (la2aRatio tr)
     (la2aMakeupGain tr).
Definition set_isSolo (v : bool) (tr : t) : t :=
  mk (trackNumber tr) (isRecording tr) (audioBuffer tr) (reversedBuffer tr)
     (source tr) (isPlaying tr) (isMuted tr) v (mode tr) (loopLength tr)
     (playbackRate tr) (isReversed tr) (startTime tr) (hasAudio tr)
     (audioIndicator tr) (channelFader tr) (la2aThreshold tr) (la2aRatio tr)
     (la2aMakeupGain tr).
Definition set_mode (v : Mode) (tr : t) : t :=
  mk (trackNumber tr) (isRecording tr) (audioBuffer tr) (reversedBuffer tr)
     (source tr) (isPlaying tr) (isMuted tr) (isSolo tr) v (loopLength tr)
     (playbackRate tr) (isReversed tr) (startTime tr) (hasAudio tr)
     (audioIndicator tr) (channelFader tr) (la2aThreshold tr) (la2aRatio tr)
     (la2aMakeupGain tr).
Definition set_loopLength (v : Q) (tr : t) : t :=
  mk (trackNumber tr) (isRecording tr) (audioBuffer tr) (reversedBuffer tr)
     (source tr) (isPlaying tr) (isMuted tr) (isSolo tr) (mode tr) v (playbackRate
     tr) (isReversed tr) (startTime tr) (hasAudio tr) (audioIndicator tr)
     (channelFader tr) (la2aThreshold tr) (la2aRatio tr) (la2aMakeupGain tr).
Definition set_playbackRate (v : R) (tr : t) : t :=
  mk (trackNumber tr) (isRecording tr) (audioBuffer tr) (reversedBuffer tr)
     (source tr) (isPlaying tr) (isMuted tr) (isSolo tr) (mode tr) (loopLength tr)
     v (isReversed tr) (startTime tr) (hasAudio tr) (audioIndicator tr)
     (channelFader tr) (la2aThreshold tr) (la2aRatio tr) (la2aMakeupGain tr).
Definition set_isReversed (v : bool) (tr : t) : t :=
  mk (trackNumber tr) (isRecording tr) (audioBuffer tr) (reversedBuffer tr)
     (source tr) (isPlaying tr) (isMuted tr) (isSolo tr) (mode tr) (loopLength tr)
     (playbackRate tr) v (startTime tr) (hasAudio tr) (audioIndicator tr)
     (channelFader tr) (la2aThreshold tr) (la2aRatio tr) (la2aMakeupGain tr).
Definition set_startTime (v : Q) (tr : t) : t :=
  mk (trackNumber tr) (isRecording tr) (audioBuffer tr) (reversedBuffer tr)
     (source tr) (isPlaying tr) (isMuted tr) (isSolo tr) (mode tr) (loopLength tr)
     (playbackRate tr) (isReversed tr) v (hasAudio tr) (audioIndicator tr)
     (channelFader tr) (la2aThreshold tr) (la2aRatio tr) (la2aMakeupGain tr).
Definition set_hasAudio (v : bool) (tr : t) : t :=
  mk (trackNumber tr) (isRecording tr) (audioBuffer tr) (reversedBuffer tr)
     (source tr) (isPlaying tr) (isMuted tr) (isSolo tr) (mode tr) (loopLength tr)
     (playbackRate tr) (isReversed tr) (startTime tr) v (audioIndicator tr)
     (channelFader tr) (la2aThreshold tr) (la2aRatio tr) (la2aMakeupGain tr).
Definition set_audioIndicator (v : bool) (tr : t) : t :=
  mk (trackNumber tr) (isRecording tr) (audioBuffer tr) (reversedBuffer tr)
     (source tr) (isPlaying tr) (isMuted tr) (isSolo tr) (mode tr) (loopLength tr)
     (playbackRate tr) (isReversed tr) (startTime tr) (hasAudio tr) v
     (channelFader tr) (la2aThreshold tr) (la2aRatio tr) (la2aMakeupGain tr).
Definition set_channelFader (v : Q) (tr : t) : t :=
  mk (trackNumber tr) (isRecording tr) (audioBuffer tr) (reversedBuffer tr)
     (source tr) (isPlaying tr) (isMuted tr) (isSolo tr) (mode tr) (loopLength tr)
     (playbackRate tr) (isReversed tr) (startTime tr) (hasAudio tr)
     (audioIndicator tr) v (la2aThreshold tr) (la2aRatio tr) (la2aMakeupGain tr).
Definition set_la2aThreshold (v : Q) (tr : t) : t :=
  mk (trackNumber tr) (isRecording tr) (audioBuffer tr) (reversedBuffer tr)
     (source tr) (isPlaying tr) (isMuted tr) (isSolo tr) (mode tr) (loopLength tr)
     (playbackRate tr) (isReversed tr) (startTime tr) (hasAudio tr)
     (audioIndicator tr) (channelFader tr) v (la2aRatio tr) (la2aMakeupGain tr).
Definition set_la2aRatio (v : Q) (tr : t) : t :=
  mk (trackNumber tr) (isRecording tr) (audioBuffer tr) (reversedBuffer tr)
     (source tr) (isPlaying tr) (isMuted tr) (isSolo tr) (mode tr) (loopLength tr)
     (playbackRate tr) (isReversed tr) (startTime tr) (hasAudio tr)
     (audioIndicator tr) (channelFader tr) (la2aThreshold tr) v (la2aMakeupGain
     tr).
Definition set_la2aMakeupGain (v : R) (tr : t) : t :=
  mk (trackNumber tr) (isRecording tr) (audioBuffer tr) (reversedBuffer tr)
     (source tr) (isPlaying tr) (isMuted tr) (isSolo tr) (mode tr) (loopLength tr)
     (playbackRate tr) (isReversed tr) (startTime tr) (hasAudio tr)
     (audioIndicator tr) (channelFader tr) (la2aThreshold tr) (la2aRatio tr) v.

(** [new Track(ctx, trackNumber, ...)], with the defaults of the
    constructor, [createAudioNodes] and [setupTapeEffects]. *)
Definition create (trackNumber : nat) : t :=
  {| trackNumber := trackNumber; isRecording := false;
     audioBuffer := None; reversedBuffer := None; source := None;
     isPlaying := false; isMuted := false; isSolo := false;
     mode := loop; loopLength := 4%Q; playbackRate := 1%R;
     isReversed := false; startTime := 0%Q; hasAudio := false;
     audioIndicator := false; channelFader := 0.8%Q; la2aThreshold := (-24)%Q; la2aRatio := 4%Q;
     la2aMakeupGain := 1%R |}.

(** [stop()] *)
Definition stop (tr : t) : t :=
  set_isPlaying false (set_source None tr).

(** [play(when)], at context time [currentTime]. *)
Definition play (when currentTime : Q) (tr : t) : t :=
  match audioBuffer tr with
  | None => tr
  | Some buffer =>
    if isPlaying tr then tr else
    let tr := stop tr in
    let which :=
      if isReversed tr && bool_decide (is_Some (reversedBuffer tr))
      then ReversedBuffer else ForwardBuffer in
    let src :=
      match mode tr with
      | loop =>
        {| src_buffer := which;
           src_playbackRate := JS.Math_abs_R (playbackRate tr);
           src_loop := true; src_loopStart := 0%Q;
           src_loopEnd := JS.Math_min (loopLength tr) (duration buffer) |}
      | normal =>
        {| src_buffer := which;
           src_playbackRate := JS.Math_abs_R (playbackRate tr);
           src_loop := false; src_loopStart := 0%Q; src_loopEnd := 0%Q |}
      end in
    (* const startTime = when || this.ctx.currentTime *)
    let startTime := if JS.eq when 0 then currentTime else when in
    set_isPlaying true (set_startTime startTime (set_source (Some src) tr))
  end.

(** [updateAudioIndicator(isLoaded)] *)
Definition updateAudioIndicator (isLoaded : bool) (tr : t) : t :=
  set_audioIndicator isLoaded tr.

(** [clear()] *)
Definition clear (tr : t) : t :=
  updateAudioIndicator false
    (set_reversedBuffer None (set_audioBuffer None (stop tr))).

(** A source that is still playing keeps the buffer it was started
    with; once the track's buffers are replaced that buffer is neither
    [this.audioBuffer] nor [this.reversedBuffer]. *)
Definition detach (s : BufferSource) : BufferSource :=
  {| src_buffer := DetachedBuffer; src_playbackRate := src_playbackRate s;
     src_loop := src_loop s; src_loopStart := src_loopStart s;
     src_loopEnd := src_loopEnd s |}.

(** [loadAudioFromBlob(blob)]; [decoded] is the outcome of
    [decodeAudioData]: [None] when decoding throws. *)
Definition loadAudioFromBlob (decoded : option AudioBuffer) (tr : t) : t :=
  match decoded with
  | Some buffer =>
    let tr := set_audioBuffer (Some buffer) tr in
    let tr := set_loopLength (duration buffer) tr in
    let tr := set_reversedBuffer (Some (createReversedBuffer buffer)) tr in
    let tr := set_source (detach <$> source tr) tr in
    updateAudioIndicator true tr
  | None => tr                       (* caught: 'Error decoding audio' *)
  end.

(** [startRecording(stream)] *)
Definition startRecording (tr : t) : t :=
  if isRecording tr then tr else set_isRecording true tr.

(** [mediaRecorder.onstop], reached through [stopRecording()]. *)
Definition onRecordingStop (decoded : option AudioBuffer) (tr : t) : t :=
  set_isRecording false (loadAudioFromBlob decoded tr).

(** [setFader(value)] *)
Definition setFader (value : Q) (tr : t) : t := set_channelFader value tr.

(** [setSpeed(normalizedValue)], at context time [currentTime]. *)
Definition setSpeed (normalizedValue currentTime : Q) (tr : t) : t :=
  let wasPlaying := isPlaying tr in
  let tr :=
    if JS.eq normalizedValue 0 then
      set_isReversed false (set_playbackRate 1%R tr)
    else if JS.gt normalizedValue 0 then
      let normalized := (normalizedValue / 100)%Q in
      set_isReversed false (set_playbackRate (JS.Math_pow 4 normalized) tr)
    else
      let normalized := (JS.Math_abs normalizedValue / 100)%Q in
      set_isReversed true (set_playbackRate (JS.Math_pow 4 normalized) tr) in
  match source tr with
  | Some src =>
    if isPlaying tr then
      let needsBufferSwitch :=
        wasPlaying &&
        ((isReversed tr && bool_decide (src_buffer src = ForwardBuffer)) ||
         (negb (isReversed tr) && bool_decide (src_buffer src = ReversedBuffer))) in
      if needsBufferSwitch then
        play 0 currentTime (stop tr)
      else
        set_source
          (Some {| src_buffer := src_buffer src;
                   src_playbackRate := JS.Math_abs_R (playbackRate tr);
                   src_loop := src_loop src; src_loopStart := src_loopStart src;
                   src_loopEnd := src_loopEnd src |}) tr
    else tr
  | None => tr
  end.

(** [setLA2APeakReduction(amount)] *)
Definition setLA2APeakReduction (amount : Q) (tr : t) : t :=
  let threshold := (-10 - amount * 30)%Q in
  let tr := set_la2aThreshold threshold tr in
  let ratio := (3 + amount * 5)%Q in
  set_la2aRatio ratio tr.

(** [setLA2AGain(amount)] *)
Definition setLA2AGain (amount : Q) (tr : t) : t :=
  let gainDb := (amount * 20)%Q in
  let gainLinear := JS.Math_pow 10 (gainDb / 20) in
  set_la2aMakeupGain gainLinear tr.

(** [setMute(muted)] *)
Definition setMute (muted : bool) (tr : t) : t :=
  set_channelFader (if muted then 0%Q else 0.8%Q) (set_isMuted muted tr).

(** [setSolo(solo)] *)
Definition setSolo (solo : bool) (tr : t) : t := set_isSolo solo tr.

(** [source.onended]: the handler reads [this.source] when the event
    arrives; with no source the read throws and nothing changes. *)
Definition onended (tr : t) : t :=
  match source tr with
  | Some src => if negb (src_loop src) then set_isPlaying false tr else tr
  | None => tr
  end.

(** [setSpeedLegacy(value)] *)
Definition setSpeedLegacy (value : Q) (tr : t) : t :=
  let tr := set_isReversed false (set_playbackRate (Q2R value) tr) in
  match source tr with
  | Some src =>
    set_source
      (Some {| src_buffer := src_buffer src; src_playbackRate := Q2R value;
               src_loop := src_loop src; src_loopStart := src_loopStart src;
               src_loopEnd := src_loopEnd src |}) tr
  | None => tr
  end.

(** [setMode(mode)], at context time [currentTime]. *)
Definition setMode (m : Mode) (currentTime : Q) (tr : t) : t :=
  let tr := set_mode m tr in
  if isPlaying tr then play 0 currentTime (stop tr) else tr.

(** [setLoopLength(length)]: [this.audioBuffer.duration] throws when
    the track holds no buffer. *)
Definition setLoopLength (length_ : Q) (tr : t) : Completion t :=
  let tr := set_loopLength length_ tr in
  match mode tr, source tr with
  | loop, Some src =>
    match audioBuffer tr with
    | Some buffer =>
      Normal
        (set_source
           (Some {| src_buffer := src_buffer src;
                    src_playbackRate := src_playbackRate src;
                    src_loop := src_loop src; src_loopStart := src_loopStart src;
                    src_loopEnd := JS.Math_min length_ (duration buffer) |}) tr)
    | None => Throw tr
    end
  | _, _ => Normal tr
  end.

(** [getCurrentTime()], at context time [currentTime]; [None] is
    [NaN]. *)
Definition getCurrentTime (currentTime : Q) (tr : t) : option R :=
  if negb (isPlaying tr) || negb (bool_decide (is_Some (source tr))) then Some 0%R
  else
    let elapsed := (currentTime - startTime tr)%Q in
    let adjustedTime := (Q2R elapsed * JS.Math_abs_R (playbackRate tr))%R in
    match mode tr, audioBuffer tr with
    | loop, Some buffer =>
      JS.rem_R adjustedTime (Q2R (JS.Math_min (loopLength tr) (duration buffer)))
    | _, _ => Some adjustedTime
    end.

End Track.

(** ** CassetteTapeBus: the dropout scheduler

    The bus keeps one timer id in [dropoutSchedulerId].  The timers
    themselves live in the JavaScript runtime; [timers] lists the
    pending callbacks of this bus with the time (ms) at which each is
    due, and [clock] is the current time.  [dropouts] logs every gain
    dip that [triggerDropout] has programmed.  A call to [Math.random()]
    is an explicit argument in [0, 1). *)

Module CassetteTapeBus.

Record Dropout : Type := mkDropout {
  d_time : Q;        (* when the callback ran (ms) *)
  d_duration : Q;    (* seconds *)
  d_depth : Q
}.

Record t : Type := mk {
  bypassed : bool;
  dropoutSchedulerId : option nat;
  dropoutIntensity : Q;
  timers : list (nat * Q);       (* runtime: pending (id, due time) *)
  nextTimerId : nat;             (* runtime: ids are positive, so truthy *)
  clock : Q;                     (* runtime: current time (ms) *)
  dropouts : list Dropout        (* newest first *)
}.

(** [new CassetteTapeBus(ctx)] at time [now]. *)
Definition create (now : Q) : t :=
  {| bypassed := false; dropoutSchedulerId := None; dropoutIntensity := 0%Q;
     timers := []; nextTimerId := 1; clock := now; dropouts := [] |}.

(** [clearTimeout(id)] *)
Definition clearTimeout (id : nat) (s : t) : t :=
  mk (bypassed s) (dropoutSchedulerId s) (dropoutIntensity s)
     (filter (fun p => p.1 ≠ id) (timers s)) (nextTimerId s) (clock s) (dropouts s).

Definition set_dropoutSchedulerId (v : option nat) (s : t) : t :=
  mk (bypassed s) v (dropoutIntensity s) (timers s) (nextTimerId s) (clock s)
     (dropouts s).

(** [this.dropoutSchedulerId = setTimeout(callback, interval)] *)
Definition setTimeout (interval : Q) (s : t) : t :=
  mk (bypassed s) (Some (nextTimerId s)) (dropoutIntensity s)
     (timers s ++ [(nextTimerId s, (clock s + interval)%Q)])
     (S (nextTimerId s)) (clock s) (dropouts s).

(** [scheduleDropout()] *)
Definition scheduleDropout (random : Q) (s : t) : t :=
  if JS.le (dropoutIntensity s) 0 || bypassed s then s else
  let baseInterval := (15000 - dropoutIntensity s * 12000)%Q in
  let interval := (baseInterval + random * 5000)%Q in
  setTimeout interval s.

(** [setDropouts(value)] *)
Definition setDropouts (value random : Q) (s : t) : t :=
  let s := mk (bypassed s) (dropoutSchedulerId s) (value / 100)%Q (timers s)
              (nextTimerId s) (clock s) (dropouts s) in
  let s :=
    match dropoutSchedulerId s with
    | Some id => set_dropoutSchedulerId None (clearTimeout id s)
    | None => s
    end in
  if JS.gt (dropoutIntensity s) 0 then scheduleDropout random s else s.

(** [triggerDropout()] *)
Definition triggerDropout (random1 random2 : Q) (s : t) : t :=
  if bypassed s then s else
  let duration := (0.01 + random1 * 0.07 * dropoutIntensity s)%Q in
  let depth := (0.1 + random2 * 0.6 * dropoutIntensity s)%Q in
  mk (bypassed s) (dropoutSchedulerId s) (dropoutIntensity s) (timers s)
     (nextTimerId s) (clock s)
     ({| d_time := clock s; d_duration := duration; d_depth := depth |} :: dropouts s).

(** The runtime runs the callback of timer [id] when it is due:
    [() => { this.triggerDropout(); this.scheduleDropout(); }].
    Nothing happens when [id] is not pending. *)
Definition fire (id : nat) (random1 random2 random3 : Q) (s : t) : t :=
  match list_find (fun p => p.1 = id) (timers s) with
  | Some (_, (_, due)) =>
    let s := mk (bypassed s) (dropoutSchedulerId s) (dropoutIntensity s)
                (filter (fun p => p.1 ≠ id) (timers s)) (nextTimerId s) due
                (dropouts s) in
    scheduleDropout random3 (triggerDropout random1 random2 s)
  | None => s
  end.

(** [setBypass(bypassed)] *)
Definition setBypass (bypass : bool) (random : Q) (s : t) : t :=
  let s := mk bypass (dropoutSchedulerId s) (dropoutIntensity s) (timers s)
              (nextTimerId s) (clock s) (dropouts s) in
  if bypass then
    match dropoutSchedulerId s with
    | Some id => set_dropoutSchedulerId None (clearTimeout id s)
    | None => s
    end
  else
    if JS.gt (dropoutIntensity s) 0 then scheduleDropout random s else s.

(** What can happen to the bus after a call: a timer comes due, or
    the bypass switch is operated. *)
Inductive Event : Type :=
| TimerDue (id : nat) (random1 random2 random3 : Q)
| Bypass (bypass : bool) (random : Q).

Definition step (e : Event) (s : t) : t :=
  match e with
  | TimerDue id r1 r2 r3 => fire id r1 r2 r3 s
  | Bypass b r => setBypass b r s
  end.

Definition run (es : list Event) (s : t) : t := fold_left (fun s e => step e s) es s.

(** The pending timer firing again and again, undisturbed. *)
Fixpoint chain (randoms : list (Q * Q * Q)) (s : t) : t :=
  match randoms with
  | [] => s
  | (r1, r2, r3) :: rest =>
    match timers s with
    | (id, _) :: _ => chain rest (fire id r1 r2 r3 s)
    | [] => s
    end
  end.

(** [dispose()]: the pending timer is cancelled; the id stays in
    [dropoutSchedulerId]. *)
Definition dispose (s : t) : t :=
  match dropoutSchedulerId s with
  | Some id => clearTimeout id s
  | None => s
  end.

(** The calls [triggerDropout] makes on [dropoutGain.gain] for a
    dropout of the given duration and depth, at audio time [now]. *)
Inductive AutomationEvent : Type :=
| setValueAtTime (value startTime : Q)
| linearRampToValueAtTime (value endTime : Q).

Definition dropoutAutomation (now : Q) (d : Dropout) : list AutomationEvent :=
  let duration := d_duration d in
  let depth := d_depth d in
  [ setValueAtTime 1.0 now;                                    (* quick fade down *)
    linearRampToValueAtTime (1 - depth) (now + 0.002);
    setValueAtTime (1 - depth) (now + duration - 0.002);       (* hold *)
    linearRampToValueAtTime 1.0 (now + duration) ]%Q.          (* quick fade back up *)

Definition eventValue (e : AutomationEvent) : Q :=
  match e with setValueAtTime v _ => v | linearRampToValueAtTime v _ => v end.

Definition eventTime (e : AutomationEvent) : Q :=
  match e with setValueAtTime _ t => t | linearRampToValueAtTime _ t => t end.

End CassetteTapeBus.

(** ** JavaScript [Map]

    A [Map] iterates in insertion order: [set] on a key that is present
    replaces the value where the entry already stands, [set] on a new
    key appends the entry. *)

Module JSMap.
Section Map.
Context {K V : Type} `{EqDecision K}.

Definition empty : list (K * V) := [].

Fixpoint set (k : K) (v : V) (m : list (K * V)) : list (K * V) :=
  match m with
  | [] => [(k, v)]
  | (k', v') :: m' =>
    if decide (k' = k) then (k, v) :: m' else (k', v') :: set k v m'
  end.

Fixpoint get (k : K) (m : list (K * V)) : option V :=
  match m with
  | [] => None
  | (k', v') :: m' => if decide (k' = k) then Some v' else get k m'
  end.

Definition has (k : K) (m : list (K * V)) : bool := bool_decide (is_Some (get k m)).

Definition size (m : list (K * V)) : nat := length m.

(** [m.keys().next().value]; [undefined] on an empty map. *)
Definition firstKey (m : list (K * V)) : option K := fst <$> head m.

Definition delete (k : K) (m : list (K * V)) : list (K * V) := filter (fun p => p.1 ≠ k) m.

Definition keys (m : list (K * V)) : list K := map fst m.
End Map.
End JSMap.

(** [x.toFixed(1)]: the nearest multiple of one tenth (the larger one
    on a tie), written with one digit after the point. *)
Definition toFixed1 (x : Q) : string :=
  let n := Qfloor (Qabs x * 10 + (1 # 2))%Q in
  let digits (z : Z) := NilZero.string_of_uint (N.to_uint (Z.to_N z)) in
  ((if JS.lt x 0 then "-" else "") +:+ digits (n / 10)%Z +:+ "." +:+ digits (n mod 10)%Z)%string.

(** ** The offline rendering context used by the export

    The parameters of a [DynamicsCompressorNode]. *)
Record CompressorParams : Type := mkCompressor {
  c_threshold : Q; c_knee : Q; c_ratio : Q; c_attack : Q; c_release : Q
}.

(** A signal: the sample of channel [c] at frame [i]. *)
Definition Signal : Type := nat -> nat -> Q.

(** One [source -> trackGain -> offlineMasterGain] branch of the graph. *)
Record OfflineSource : Type := mkOfflineSource {
  os_buffer : AudioBuffer;          (* source.buffer *)
  os_gain : Q                       (* trackGain.gain.value *)
}.

Record OfflineAudioContext : Type := mkOfflineCtx {
  oc_channels : nat;
  oc_length : nat;
  oc_sampleRate : Q;
  oc_masterGain : Q;                (* offlineMasterGain.gain.value *)
  oc_limiter : CompressorParams;    (* offlineLimiter *)
  oc_sources : list OfflineSource   (* started at time 0, in creation order *)
}.

(** [new OfflineAudioContext(channels, length, sampleRate)].  [length]
    is converted to an unsigned long; the constructor throws when the
    result is zero. *)
Definition newOfflineAudioContext (channels : nat) (length sampleRate : Q)
  : option OfflineAudioContext :=
  let frames := JS.ToUint 32 length in
  if (frames =? 0)%Z then None
  else Some {| oc_channels := channels; oc_length := Z.to_nat frames;
               oc_sampleRate := sampleRate; oc_masterGain := 1%Q;
               oc_limiter := mkCompressor (-24) 30 12 0.003 0.25;
               oc_sources := [] |}.

(** What a buffer source started at time 0 emits when no conversion is
    needed: the buffer's samples, then silence; a mono buffer feeds both
    output channels. *)
Definition bufferSignal (b : AudioBuffer) : Signal :=
  fun c i =>
    f32_get (getChannelData b (if (numberOfChannels b =? 1)%nat then 0%nat else c)) i.

Section Platform.

(** Two parts of the Web Audio implementation are left abstract: the
    dynamics compressor (a stateful non-linear processor) and the
    conversion a source node applies to a buffer whose sample rate
    differs from the context's or that has more than two channels. *)
Variable compressor : CompressorParams -> Signal -> Signal.
Variable resampler : AudioBuffer -> Q -> Signal.

Definition sourceSignal (rate : Q) (b : AudioBuffer) : Signal :=
  if JS.eq (sampleRate b) rate && (numberOfChannels b <=? 2)%nat
  then bufferSignal b else resampler b rate.

(** The sum arriving at [offlineMasterGain]: gain nodes multiply,
    several connections into one node add up. *)
Definition mixSignal (rate : Q) (sources : list OfflineSource) : Signal :=
  fun c i =>
    fold_right (fun s acc => (os_gain s * sourceSignal rate (os_buffer s) c i + acc)%Q)
               0%Q sources.

(** The signal at the destination:
    sources -> trackGain -> offlineMasterGain -> offlineLimiter. *)
Definition destinationSignal (ctx : OfflineAudioContext) : Signal :=
  compressor (oc_limiter ctx)
    (fun c i => (oc_masterGain ctx * mixSignal (oc_sampleRate ctx) (oc_sources ctx) c i)%Q).

(** [offlineCtx.startRendering()] *)
Definition startRendering (ctx : OfflineAudioContext) : AudioBuffer :=
  {| numberOfChannels := oc_channels ctx; buf_length := oc_length ctx;
     sampleRate := oc_sampleRate ctx;
     channelData :=
       map (fun c => map (fun i => destinationSignal ctx c i) (seq 0 (oc_length ctx)))
           (seq 0 (oc_channels ctx)) |}.

End Platform.

(** ** The first impulse response

    [generateReverbImpulse(decay, length)] fills both channels with
    decaying noise.  Its samples involve [Math.exp], so the channels are
    lists of real numbers; draw number [i] for channel [c] of
    [Math.random()] is [random c i]. *)

Module Impulse.

Definition generateReverbImpulse (sampleRate decay length_ : Q)
    (random : nat -> nat -> R) : list (list R) :=
  let lengthSamples := Z.to_nat (JS.Math_floor (sampleRate * length_)%Q) in
  let impulse := replicate 2 (replicate lengthSamples 0%R) in
  let decayRate := (1 / (sampleRate * decay))%Q in
  let decayMultiplier := JS.Math_exp (- Q2R decayRate) in
  JS.for_loop 2 (fun channel impulse =>
    let stereoShift := if (channel =? 0)%nat then 0.9%R else 1.1%R in
    fst
      (JS.for_loop lengthSamples (fun i '(impulse, envelope) =>
         (alter (fun data =>
                   <[i := ((random channel i * 2 - 1) * envelope * stereoShift * 0.4)%R]>
                     data) channel impulse,
          (envelope * decayMultiplier)%R))
         (impulse, 1.0%R))) impulse.

(** The buffer [generateReverbImpulse] returns: what its two
    [Float32Array]s hold of the values written to them. *)
Definition buffer (sampleRate decay length_ : Q) (random : nat -> nat -> R)
  : AudioBuffer :=
  {| numberOfChannels := 2;
     buf_length := Z.to_nat (JS.Math_floor (sampleRate * length_)%Q);
     sampleRate := sampleRate;
     channelData :=
       map (map JS.toFloat32)
           (generateReverbImpulse sampleRate decay length_ random) |}.

End Impulse.

(** ** Recorder *)

Inductive ExportResult : Type :=
| NoAudioToExport                       (* alert, nothing rendered *)
| ExportFailed                          (* an exception was caught *)
| MixExported (wav : DataView.ArrayBuffer).

Module Recorder.

Record t : Type := mk {
  ctxSampleRate : Q;   (* this.ctx.sampleRate *)
  tracks : list Track.t;
  isPlaying : bool;
  masterGain : Q;   (* masterGain.gain.value *)
  masterLimiter : CompressorParams;
  masterLA2AThreshold : Q;   (* masterLA2A.threshold.value *)
  masterLA2ARatio : Q;   (* masterLA2A.ratio.value *)
  masterLA2AMakeupGain : R;   (* masterLA2AMakeupGain.gain.value *)
  reverbMix : Q;
  reverbDry : Q;
  masterReverbSize : Q;
  masterReverbBuffer : option AudioBuffer;   (* masterReverb.buffer *)
  reverbCache : list (string * AudioBuffer);   (* a Map, in insertion order *)
  reverbSizeTimeout : option Q   (* decay of the debounced request, if one is pending *)
}.

Definition set_tracks (v : list Track.t) (r : t) : t :=
  mk (ctxSampleRate r) v (isPlaying r) (masterGain r) (masterLimiter r)
     (masterLA2AThreshold r) (masterLA2ARatio r) (masterLA2AMakeupGain r)
     (reverbMix r) (reverbDry r) (masterReverbSize r) (masterReverbBuffer r)
     (reverbCache r) (reverbSizeTimeout r).
Definition set_isPlaying (v : bool) (r : t) : t :=
  mk (ctxSampleRate r) (tracks r) v (masterGain r) (masterLimiter r)
     (masterLA2AThreshold r) (masterLA2ARatio r) (masterLA2AMakeupGain r)
     (reverbMix r) (reverbDry r) (masterReverbSize r) (masterReverbBuffer r)
     (reverbCache r) (reverbSizeTimeout r).
Definition set_masterGain (v : Q) (r : t) : t :=
  mk (ctxSampleRate r) (tracks r) (isPlaying r) v (masterLimiter r)
     (masterLA2AThreshold r) (masterLA2ARatio r) (masterLA2AMakeupGain r)
     (reverbMix r) (reverbDry r) (masterReverbSize r) (masterReverbBuffer r)
     (reverbCache r) (reverbSizeTimeout r).
Definition set_masterLimiter (v : CompressorParams) (r : t) : t :=
  mk (ctxSampleRate r) (tracks r) (isPlaying r) (masterGain r) v
     (masterLA2AThreshold r) (masterLA2ARatio r) (masterLA2AMakeupGain r)
     (reverbMix r) (reverbDry r) (masterReverbSize r) (masterReverbBuffer r)
     (reverbCache r) (reverbSizeTimeout r).
Definition set_masterLA2AThreshold (v : Q) (r : t) : t :=
  mk (ctxSampleRate r) (tracks r) (isPlaying r) (masterGain r) (masterLimiter r) v
     (masterLA2ARatio r) (masterLA2AMakeupGain r) (reverbMix r) (reverbDry r)
     (masterReverbSize r) (masterReverbBuffer r) (reverbCache r)
     (reverbSizeTimeout r).
Definition set_masterLA2ARatio (v : Q) (r : t) : t :=
  mk (ctxSampleRate r) (tracks r) (isPlaying r) (masterGain r) (masterLimiter r)
     (masterLA2AThreshold r) v (masterLA2AMakeupGain r) (reverbMix r) (reverbDry
     r) (masterReverbSize r) (masterReverbBuffer r) (reverbCache r)
     (reverbSizeTimeout r).
Definition set_masterLA2AMakeupGain (v : R) (r : t) : t :=
  mk (ctxSampleRate r) (tracks r) (isPlaying r) (masterGain r) (masterLimiter r)
     (masterLA2AThreshold r) (masterLA2ARatio r) v (reverbMix r) (reverbDry r)
     (masterReverbSize r) (masterReverbBuffer r) (reverbCache r)
     (reverbSizeTimeout r).
Definition set_reverbMix (v : Q) (r : t) : t :=
  mk (ctxSampleRate r) (tracks r) (isPlaying r) (masterGain r) (masterLimiter r)
     (masterLA2AThreshold r) (masterLA2ARatio r) (masterLA2AMakeupGain r) v
     (reverbDry r) (masterReverbSize r) (masterReverbBuffer r) (reverbCache r)
     (reverbSizeTimeout r).
Definition set_reverbDry (v : Q) (r : t) : t :=
  mk (ctxSampleRate r) (tracks r) (isPlaying r) (masterGain r) (masterLimiter r)
     (masterLA2AThreshold r) (masterLA2ARatio r) (masterLA2AMakeupGain r)
     (reverbMix r) v (masterReverbSize r) (masterReverbBuffer r) (reverbCache r)
     (reverbSizeTimeout r).
Definition set_masterReverbSize (v : Q) (r : t) : t :=
  mk (ctxSampleRate r) (tracks r) (isPlaying r) (masterGain r) (masterLimiter r)
     (masterLA2AThreshold r) (masterLA2ARatio r) (masterLA2AMakeupGain r)
     (reverbMix r) (reverbDry r) v (masterReverbBuffer r) (reverbCache r)
     (reverbSizeTimeout r).
Definition set_masterReverbBuffer (v : option AudioBuffer) (r : t) : t :=
  mk (ctxSampleRate r) (tracks r) (isPlaying r) (masterGain r) (masterLimiter r)
     (masterLA2AThreshold r) (masterLA2ARatio r) (masterLA2AMakeupGain r)
     (reverbMix r) (reverbDry r) (masterReverbSize r) v (reverbCache r)
     (reverbSizeTimeout r).
Definition set_reverbCache (v : list (string * AudioBuffer)) (r : t) : t :=
  mk (ctxSampleRate r) (tracks r) (isPlaying r) (masterGain r) (masterLimiter r)
     (masterLA2AThreshold r) (masterLA2ARatio r) (masterLA2AMakeupGain r)
     (reverbMix r) (reverbDry r) (masterReverbSize r) (masterReverbBuffer r) v
     (reverbSizeTimeout r).
Definition set_reverbSizeTimeout (v : option Q) (r : t) : t :=
  mk (ctxSampleRate r) (tracks r) (isPlaying r) (masterGain r) (masterLimiter r)
     (masterLA2AThreshold r) (masterLA2ARatio r) (masterLA2AMakeupGain r)
     (reverbMix r) (reverbDry r) (masterReverbSize r) (masterReverbBuffer r)
     (reverbCache r) v.

(** The state after [init()]: master bus created, four tracks.  The
    convolver starts with the half-second impulse that
    [createMasterBus] generates, from the draws [random]; the seven
    second impulse asked of the worker arrives later. *)
Definition init (sampleRate : Q) (random : nat -> nat -> R) : t :=
  {| ctxSampleRate := sampleRate;
     tracks := map Track.create (seq 0 4);
     isPlaying := false;
     masterGain := 0.8%Q;
     masterLimiter := mkCompressor (-0.5) 0 20 0.001 0.010;
     masterLA2AThreshold := (-24)%Q; masterLA2ARatio := 4%Q;
     masterLA2AMakeupGain := 1%R;
     reverbMix := 0.15%Q; reverbDry := 0.85%Q;
     masterReverbSize := 7%Q;
     masterReverbBuffer := Some (Impulse.buffer sampleRate 0.5 0.5 random);
     reverbCache := JSMap.empty;
     reverbSizeTimeout := None |}.

(** [play()], at context time [currentTime]. *)
Definition play (currentTime : Q) (r : t) : t :=
  if isPlaying r then r else
  let r := set_isPlaying true r in
  set_tracks
    (map (fun track =>
            if bool_decide (is_Some (Track.audioBuffer track)) && negb (Track.isMuted track)
            then Track.play 0 currentTime track else track) (tracks r)) r.

(** [stop()] *)
Definition stop (r : t) : t :=
  if negb (isPlaying r) then r else
  let r := set_isPlaying false r in
  set_tracks (map Track.stop (tracks r)) r.

(** [handleSolo(trackNumber)].  With no such track the call throws
    before anything is changed. *)
Definition handleSolo (trackNumber : nat) (r : t) : t :=
  match tracks r !! trackNumber with
  | None => r
  | Some track =>
    let ts := <[trackNumber := Track.setSolo (negb (Track.isSolo track)) track]> (tracks r) in
    let anySolo := existsb Track.isSolo ts in
    if anySolo then
      set_tracks
        (map (fun t => if negb (Track.isSolo t) then Track.setMute true t else t) ts) r
    else
      set_tracks (map (fun t => Track.setMute (Track.isMuted t) t) ts) r
  end.

(** [setMasterLA2APeakReduction(amount)] *)
Definition setMasterLA2APeakReduction (amount : Q) (r : t) : t :=
  let threshold := (-10 - amount * 30)%Q in
  let r := set_masterLA2AThreshold threshold r in
  let ratio := (3 + amount * 5)%Q in
  set_masterLA2ARatio ratio r.

(** [setMasterLA2AGain(amount)] *)
Definition setMasterLA2AGain (amount : Q) (r : t) : t :=
  let gainDb := (amount * 20)%Q in
  let gainLinear := JS.Math_pow 10 (gainDb / 20) in
  set_masterLA2AMakeupGain gainLinear r.

(** [buffer.copyToChannel(source, channelNumber)] *)
Definition copyToChannel (b : AudioBuffer) (src : list Q) (channel : nat) : AudioBuffer :=
  {| numberOfChannels := numberOfChannels b; buf_length := buf_length b;
     sampleRate := sampleRate b;
     channelData :=
       alter (fun data => take (length data) src ++ drop (length src) data)
             channel (channelData b) |}.

(** [reverbWorker.onmessage], for the response
    [{ leftChannel, rightChannel, length }]. *)
Definition onReverbWorkerMessage (leftChannel rightChannel : list Q) (length_ : Q)
    (r : t) : t :=
  let buffer := createBuffer 2 (length leftChannel) (ctxSampleRate r) in
  let buffer := copyToChannel buffer leftChannel 0 in
  let buffer := copyToChannel buffer rightChannel 1 in
  let r := set_masterReverbBuffer (Some buffer) r in
  (* Cache it *)
  let cacheKey := toFixed1 length_ in
  let r := set_reverbCache (JSMap.set cacheKey buffer (reverbCache r)) r in
  if (5 <? JSMap.size (reverbCache r))%nat then
    match JSMap.firstKey (reverbCache r) with
    | Some firstKey => set_reverbCache (JSMap.delete firstKey (reverbCache r)) r
    | None => r
    end
  else r.

(** [setMasterReverbSize(amount)]: a cache hit swaps the impulse at
    once, a miss (re)starts the 500 ms debounce timer. *)
Definition setMasterReverbSize (amount : Q) (r : t) : t :=
  let decayTime := (0.5 + amount * 44.5)%Q in
  let r := set_masterReverbSize decayTime r in
  let cacheKey := toFixed1 decayTime in
  match JSMap.get cacheKey (reverbCache r) with
  | Some buffer => set_masterReverbBuffer (Some buffer) r
  | None => set_reverbSizeTimeout (Some decayTime) r
  end.

(** [loadFileToTrack(trackNumber, file)], at context time
    [currentTime]; [decoded] is the outcome of [decodeAudioData]
    ([None] when it throws). *)
Definition loadFileToTrack (trackNumber : nat) (decoded : option AudioBuffer)
    (currentTime : Q) (r : t) : t :=
  match tracks r !! trackNumber with
  | None => r                          (* 'Invalid track number' *)
  | Some track =>
    match decoded with
    | None => r                        (* caught: 'Could not load audio file' *)
    | Some audioBuffer =>
      let track := Track.set_audioBuffer (Some audioBuffer) track in
      let track := Track.set_loopLength (duration audioBuffer) track in
      let track := Track.set_hasAudio true track in
      let track :=
        Track.set_reversedBuffer (Some (createReversedBuffer audioBuffer)) track in
      let track := Track.set_source (Track.detach <$> Track.source track) track in
      let track :=
        if negb (Track.isPlaying track) then Track.play 0 currentTime track
        else track in
      set_tracks (<[trackNumber := track]> (tracks r)) r
    end
  end.

(** [writeString(offset, string)] inside [bufferToWav] *)
Definition writeString (view : DataView.ArrayBuffer) (offset : nat) (s : string)
  : DataView.ArrayBuffer :=
  JS.for_loop (String.length s) (fun i view =>
    DataView.setUint8 view (offset + i) (JS.charCodeAt s i)) view.

(** [bufferToWav(buffer)] *)
Definition bufferToWav (buffer : AudioBuffer) : DataView.ArrayBuffer :=
  let length_ := (buf_length buffer * numberOfChannels buffer * 2)%nat in
  let num (n : nat) : Q := inject_Z (Z.of_nat n) in
  let view := DataView.alloc (44 + length_) in
  (* WAV header *)
  let view := writeString view 0 "RIFF" in
  let view := DataView.setUint32 view 4 (num (36 + length_)) in
  let view := writeString view 8 "WAVE" in
  let view := writeString view 12 "fmt " in
  let view := DataView.setUint32 view 16 16 in
  let view := DataView.setUint16 view 20 1 in
  let view := DataView.setUint16 view 22 (num (numberOfChannels buffer)) in
  let view := DataView.setUint32 view 24 (sampleRate buffer) in
  let view :=
    DataView.setUint32 view 28 (sampleRate buffer * num (numberOfChannels buffer) * 2)%Q in
  let view := DataView.setUint16 view 32 (num (numberOfChannels buffer) * 2)%Q in
  let view := DataView.setUint16 view 34 16 in
  let view := writeString view 36 "data" in
  let view := DataView.setUint32 view 40 (num length_) in
  (* Interleave channels and convert to 16-bit PCM *)
  fst
    (JS.for_loop (buf_length buffer) (fun i st =>
       JS.for_loop (numberOfChannels buffer) (fun channel '(view, offset) =>
         let sample := f32_get (getChannelData buffer channel) i in
         let clampedSample := JS.Math_max (-1) (JS.Math_min 1 sample) in
         (DataView.setInt16 view offset (clampedSample * 32767)%Q, (offset + 2)%nat))
         st)
       (view, 44%nat)).

Section OfflineExport.

Variable compressor : CompressorParams -> Signal -> Signal.
Variable resampler : AudioBuffer -> Q -> Signal.

(** The longest duration among the tracks that hold audio. *)
Definition maxDuration (r : t) : Q :=
  fold_left (fun m track =>
               match Track.audioBuffer track with
               | Some b => JS.Math_max m (duration b)
               | None => m
               end) (tracks r) 0%Q.

(** The offline graph that [exportMix] builds in [offlineCtx]. *)
Definition offlineGraph (r : t) (offlineCtx : OfflineAudioContext)
  : OfflineAudioContext :=
  (* Recreate master bus in offline context *)
  let offlineCtx :=
    mkOfflineCtx (oc_channels offlineCtx) (oc_length offlineCtx)
      (oc_sampleRate offlineCtx) (masterGain r) (masterLimiter r)
      (oc_sources offlineCtx) in
  (* Render each track *)
  fold_left (fun ctx track =>
    match Track.audioBuffer track with
    | Some b =>
      if negb (Track.isMuted track) then
        mkOfflineCtx (oc_channels ctx) (oc_length ctx) (oc_sampleRate ctx)
          (oc_masterGain ctx) (oc_limiter ctx)
          (oc_sources ctx ++
             [{| os_buffer := b; os_gain := Track.channelFader track |}])
      else ctx
    | None => ctx
    end) (tracks r) offlineCtx.

(** [exportMix()]: the recorder afterwards and the outcome. *)
Definition exportMix (r : t) : t * ExportResult :=
  let r := stop r in
  let maxDuration := maxDuration r in
  if JS.eq maxDuration 0 then (r, NoAudioToExport) else
  let sampleRate := 44100%Q in
  match newOfflineAudioContext 2 (JS.double (maxDuration * sampleRate)) sampleRate with
  | None => (r, ExportFailed)
  | Some offlineCtx =>
    let offlineCtx := offlineGraph r offlineCtx in
    let renderedBuffer := startRendering compressor resampler offlineCtx in
    let wav := bufferToWav renderedBuffer in
    (r, MixExported wav)
  end.

End OfflineExport.

(** [clearAll()] *)
Definition clearAll (r : t) : t :=
  let r := stop r in
  set_tracks (map Track.clear (tracks r)) r.

(** [setMasterVolume(value)] *)
Definition setMasterVolume (value : Q) (r : t) : t := set_masterGain value r.

(** [setMasterReverb(amount)] *)
Definition setMasterReverb (amount : Q) (r : t) : t :=
  set_reverbDry (1 - amount)%Q (set_reverbMix amount r).

(** The aliases [playAll()], [stopAll()] and [setMasterReverbAmount()]. *)
Definition playAll (currentTime : Q) (r : t) : t := play currentTime r.
Definition stopAll (r : t) : t := stop r.
Definition setMasterReverbAmount (amount : Q) (r : t) : t := setMasterReverb amount r.

(** [getTrack(trackNumber)] *)
Definition getTrack (trackNumber : nat) (r : t) : option Track.t :=
  tracks r !! trackNumber.

(** The message [setMasterReverbSize] posts to the reverb worker when
    its debounce timer runs out. *)
Record WorkerRequest : Type := mkRequest {
  wr_decay : Q; wr_length : Q; wr_sampleRate : Q
}.

Definition onReverbSizeTimeout (r : t) : t * option WorkerRequest :=
  match reverbSizeTimeout r with
  | Some decayTime =>
    (set_reverbSizeTimeout None r,
     Some {| wr_decay := decayTime; wr_length := decayTime;
             wr_sampleRate := ctxSampleRate r |})
  | None => (r, None)
  end.

End Recorder.

(** ** CassetteTapeBus: the audio nodes

    The parameters of the nodes the bus is made of.  The control
    methods below write them and leave the dropout scheduler alone. *)

Module TapeNodes.

Record t : Type := mk {
  saturationAmount : Q;
  saturationCurve : list R;        (* saturation.curve *)
  preEmphasisGain : Q;             (* preEmphasis.gain.value, dB *)
  deEmphasisGain : Q;              (* deEmphasis.gain.value, dB *)
  wowLFOFrequency : Q;             (* wowLFO.frequency.value, Hz *)
  wowDepthGain : Q;                (* wowDepth.gain.value, seconds *)
  flutterLFOFrequency : Q;         (* flutterLFO.frequency.value, Hz *)
  flutterDepthGain : Q;            (* flutterDepth.gain.value, seconds *)
  hissGain : R;                    (* hissGain.gain.value *)
  hfRolloffFrequency : Q;          (* hfRolloff.frequency.value, Hz *)
  headBumpGain : Q;                (* headBump.gain.value, dB *)
  headBumpFrequency : Q            (* headBump.frequency.value, Hz *)
}.

(** The number of points of the waveshaper curve. *)
Definition samples : nat := Z.to_nat 8192.

(** [updateSaturationCurve(amount)]: the curve it installs. *)
Definition updateSaturationCurve (amount : Q) : list R :=
  let curve := replicate samples 0%R in
  let drive := (1 + amount * 10)%Q in
  JS.for_loop samples (fun i curve =>
    let x := (inject_Z (Z.of_nat i) * 2 / inject_Z (Z.of_nat samples) - 1)%Q in
    if JS.eq amount 0 then
      <[i := Q2R x]> curve
    else
      <[i := (JS.Math_tanh (Q2R (x * drive)) / JS.Math_tanh (Q2R drive))%R]> curve)
    curve.

(** The state after [createNodes()] and [initDefaults()]. *)
Definition create : t :=
  {| saturationAmount := 0; saturationCurve := updateSaturationCurve 0;
     preEmphasisGain := 0; deEmphasisGain := 0;
     wowLFOFrequency := 1.0; wowDepthGain := 0;
     flutterLFOFrequency := 8.0; flutterDepthGain := 0;
     hissGain := 0%R;
     hfRolloffFrequency := 18000; headBumpGain := 0; headBumpFrequency := 80 |}%Q.

(** [setSaturation(value)] *)
Definition setSaturation (value : Q) (s : t) : t :=
  let normalized := (value / 100)%Q in
  mk normalized (updateSaturationCurve normalized)
     (normalized * 6)%Q (- normalized * 6)%Q
     (wowLFOFrequency s) (wowDepthGain s) (flutterLFOFrequency s)
     (flutterDepthGain s) (hissGain s) (hfRolloffFrequency s) (headBumpGain s)
     (headBumpFrequency s).

(** [setWow(value)] *)
Definition setWow (value : Q) (s : t) : t :=
  let normalized := (value / 100)%Q in
  mk (saturationAmount s) (saturationCurve s) (preEmphasisGain s) (deEmphasisGain s)
     (2.0 - normalized * 1.5)%Q (normalized * 0.003)%Q
     (flutterLFOFrequency s) (flutterDepthGain s) (hissGain s)
     (hfRolloffFrequency s) (headBumpGain s) (headBumpFrequency s).

(** [setFlutter(value)] *)
Definition setFlutter (value : Q) (s : t) : t :=
  let normalized := (value / 100)%Q in
  mk (saturationAmount s) (saturationCurve s) (preEmphasisGain s) (deEmphasisGain s)
     (wowLFOFrequency s) (wowDepthGain s)
     (4 + normalized * 8)%Q (normalized * 0.0015)%Q (hissGain s)
     (hfRolloffFrequency s) (headBumpGain s) (headBumpFrequency s).

(** [setHiss(value)] *)
Definition setHiss (value : Q) (s : t) : t :=
  let normalized := (value / 100)%Q in
  let minDb := (-70)%Q in
  let maxDb := (-40)%Q in
  let db := (minDb + normalized * (maxDb - minDb))%Q in
  let gain := if JS.eq normalized 0 then 0%R else JS.Math_pow 10 (db / 20) in
  mk (saturationAmount s) (saturationCurve s) (preEmphasisGain s) (deEmphasisGain s)
     (wowLFOFrequency s) (wowDepthGain s) (flutterLFOFrequency s)
     (flutterDepthGain s) gain
     (hfRolloffFrequency s) (headBumpGain s) (headBumpFrequency s).

(** [setAge(value)] *)
Definition setAge (value : Q) (s : t) : t :=
  let normalized := (value / 100)%Q in
  let hfFreq := (18000 - normalized * 14000)%Q in
  mk (saturationAmount s) (saturationCurve s) (preEmphasisGain s) (deEmphasisGain s)
     (wowLFOFrequency s) (wowDepthGain s) (flutterLFOFrequency s)
     (flutterDepthGain s) (hissGain s)
     hfFreq (normalized * 6)%Q (80 - normalized * 20)%Q.

(** [createHissBuffer()]: two seconds of noise; draw number [i] of
    [Math.random()] is [random i].  The context's sample rate is a
    whole number of hertz. *)
Definition createHissBuffer (sampleRate : nat) (random : nat -> Q) : AudioBuffer :=
  let bufferSize := (sampleRate * 2)%nat in
  let hissBuffer := createBuffer 1 bufferSize (inject_Z (Z.of_nat sampleRate)) in
  JS.for_loop bufferSize (fun i hissBuffer =>
    f32_set hissBuffer 0 i (random i * 2 - 1)%Q) hissBuffer.

End TapeNodes.

(** ** Knob

    A knob wraps an [<input type="range">].  The element and its value
    belong to the page: a handler that reads [this.element.value] takes
    the number read as the argument [elementValue], and a handler that
    ends in [this.setValue(newValue)] returns [newValue]. *)

Module Knob.

Record t : Type := mk {
  min : Q;
  max : Q;
  defaultValue : Q;
  sensitivity : Q;               (* pixels for the full range *)
  fineSensitivity : Q;
  isBipolar : bool;
  centerValue : Q;
  isDragging : bool;
  startY : Q;
  startValue : Q
}.

(** The [options] argument of the constructor; [None] is a missing
    property. *)
Record Options : Type := mkOptions {
  opt_defaultValue : option Q;
  opt_sensitivity : option Q;
  opt_bipolar : option bool;
  opt_centerValue : option Q
}.

(** [x || d] for a number that may be [NaN] or missing ([None]). *)
Definition or_else (x : option Q) (d : Q) : Q :=
  match x with
  | Some v => if JS.eq v 0 then d else v
  | None => d
  end.

(** [new Knob(element, options)]; [elementMin] and [elementMax] are
    [parseFloat(element.min)] and [parseFloat(element.max)], [None]
    when the result is [NaN]. *)
Definition create (elementMin elementMax : option Q) (elementValue : Q)
    (options : Options) : t :=
  let min := or_else elementMin 0 in
  let max := or_else elementMax 100 in
  {| min := min; max := max;
     defaultValue := default elementValue (opt_defaultValue options);
     sensitivity := or_else (opt_sensitivity options) 100;
     fineSensitivity := 10;
     isBipolar := default false (opt_bipolar options);
     centerValue := default ((min + max) / 2)%Q (opt_centerValue options);
     isDragging := false; startY := 0; startValue := 0 |}.

Definition set_drag (dragging : bool) (y value : Q) (k : t) : t :=
  mk (min k) (max k) (defaultValue k) (sensitivity k) (fineSensitivity k)
     (isBipolar k) (centerValue k) dragging y value.

(** [handleMouseDown(e)] *)
Definition handleMouseDown (button : Z) (clientY elementValue : Q) (k : t) : t :=
  if negb (button =? 0)%Z then k else set_drag true clientY elementValue k.

(** [handleMouseMove(e)] *)
Definition handleMouseMove (clientY : Q) (shiftKey : bool) (k : t) : option Q :=
  if negb (isDragging k) then None else
  let deltaY := (startY k - clientY)%Q in
  let sensitivity :=
    if shiftKey then (sensitivity k * fineSensitivity k)%Q else sensitivity k in
  let range := (max k - min k)%Q in
  let deltaValue := (deltaY / sensitivity * range)%Q in
  let newValue := (startValue k + deltaValue)%Q in
  let newValue := JS.Math_max (min k) (JS.Math_min (max k) newValue) in
  Some newValue.

(** [handleMouseUp()] *)
Definition handleMouseUp (k : t) : t := set_drag false (startY k) (startValue k) k.

(** [handleDoubleClick(e)] and [reset()] *)
Definition handleDoubleClick (k : t) : Q := defaultValue k.
Definition reset (k : t) : Q := defaultValue k.

(** [handleWheel(e)] *)
Definition handleWheel (deltaY : Q) (shiftKey : bool) (elementValue : Q) (k : t) : Q :=
  let sensitivity := if shiftKey then 0.1%Q else 1%Q in
  let range := (max k - min k)%Q in
  let step := (range / 100 * sensitivity)%Q in
  let newValue := elementValue in
  let newValue := (newValue + (if JS.lt deltaY 0 then step else - step))%Q in
  JS.Math_max (min k) (JS.Math_min (max k) newValue).

(** [handleTouchStart(e)]; [touches] lists the [clientY] of the
    touch points. *)
Definition handleTouchStart (touches : list Q) (elementValue : Q) (k : t) : t :=
  match touches with
  | [clientY] => set_drag true clientY elementValue k
  | _ => k
  end.

(** [handleTouchMove(e)] *)
Definition handleTouchMove (touches : list Q) (k : t) : option Q :=
  match touches with
  | [clientY] =>
    if negb (isDragging k) then None else
    let deltaY := (startY k - clientY)%Q in
    let range := (max k - min k)%Q in
    let deltaValue := (deltaY / sensitivity k * range)%Q in
    let newValue := (startValue k + deltaValue)%Q in
    Some (JS.Math_max (min k) (JS.Math_min (max k) newValue))
  | _ => None
  end.

(** [handleTouchEnd()] *)
Definition handleTouchEnd (k : t) : t := set_drag false (startY k) (startValue k) k.

(** [setValue(value)]: whether the ['input'] event is dispatched, the
    visual updated and [onChange] called. *)
Definition setValue (oldValue value : Q) : bool := negb (JS.eq oldValue value).

(** [updateVisual()]: the rotation angle in degrees and, on a bipolar
    knob, whether the direction attribute is ['reverse']. *)
Definition updateVisual (elementValue : Q) (k : t) : Q * option bool :=
  let value := elementValue in
  let percent := ((value - min k) / (max k - min k))%Q in
  let angle := (-135 + percent * 270)%Q in
  (angle, if isBipolar k then Some (JS.lt value (centerValue k)) else None).

End Knob.

(** ** Visualizer: the VU meters *)

Module Visualizer.

Record t : Type := mk {
  lastFrameTime : Q;             (* ms *)
  peakLeft : R;
  peakRight : R
}.

Definition targetFPS : Q := 30.
Definition frameInterval : Q := 1000 / targetFPS.
Definition peakDecay : R := 0.95.

(** The animation state of a new visualizer. *)
Definition create : t := {| lastFrameTime := 0; peakLeft := 0; peakRight := 0 |}.

(** Entry [i] of the analyser's byte array. *)
Definition byteAt (dataArray : list Z) (i : nat) : Q :=
  inject_Z (default 0%Z (dataArray !! i)).

(** The two sums of squares [updateVUMeters] accumulates.  The array
    has [frequencyBinCount] entries, an even number. *)
Definition sums (dataArray : list Z) : Q * Q :=
  let halfLength := (length dataArray / 2)%nat in
  JS.for_loop halfLength (fun i '(sumLeft, sumRight) =>
    let normalizedLeft := ((byteAt dataArray i - 128) / 128)%Q in
    let normalizedRight := ((byteAt dataArray (i + halfLength) - 128) / 128)%Q in
    ((sumLeft + normalizedLeft * normalizedLeft)%Q,
     (sumRight + normalizedRight * normalizedRight)%Q)) (0%Q, 0%Q).

(** The level of one meter, from its sum of squares. *)
Definition level (sum : Q) (halfLength : nat) : R :=
  let rms := JS.Math_sqrt (Q2R (sum / inject_Z (Z.of_nat halfLength))) in
  JS.Math_min_R 1 (rms * 3).

(** Peak hold. *)
Definition holdPeak (level peak : R) : R :=
  if Rlt_dec peak level then level else (peak * peakDecay)%R.

(** [updateVUMeters()]: the new state and the two levels drawn. *)
Definition updateVUMeters (dataArray : list Z) (v : t) : t * (R * R) :=
  let halfLength := (length dataArray / 2)%nat in
  let '(sumLeft, sumRight) := sums dataArray in
  let levelLeft := level sumLeft halfLength in
  let levelRight := level sumRight halfLength in
  (mk (lastFrameTime v) (holdPeak levelLeft (peakLeft v))
      (holdPeak levelRight (peakRight v)),
   (levelLeft, levelRight)).

(** [animate()], called at time [now] ([performance.now()]): the new
    state, and the levels when a frame is drawn. *)
Definition animate (now : Q) (dataArray : list Z) (v : t) : t * option (R * R) :=
  let elapsed := (now - lastFrameTime v)%Q in
  if JS.lt elapsed frameInterval then (v, None) else
  match JS.rem elapsed frameInterval with
  | Some over =>
    let v := mk (now - over)%Q (peakLeft v) (peakRight v) in
    let '(v, levels) := updateVUMeters dataArray v in
    (v, Some levels)
  | None => (v, None)            (* frameInterval is not zero *)
  end.

(** [clearVUMeters()] *)
Definition clearVUMeters (v : t) : t := mk (lastFrameTime v) 0 0.

End Visualizer.

(** ** The handlers of the user interface that reach the audio core *)

Module UI.

(** [handleMuteClick(trackNumber)] *)
Definition handleMuteClick (trackNumber : nat) (r : Recorder.t) : Recorder.t :=
  match Recorder.getTrack trackNumber r with
  | Some track =>
    let track := Track.set_isMuted (negb (Track.isMuted track)) track in
    let track := Track.setMute (Track.isMuted track) track in
    Recorder.set_tracks (<[trackNumber := track]> (Recorder.tracks r)) r
  | None => r
  end.

(** The ['input'] listeners of the track fader, the master fader, the
    speed knob and the reverb controls; [value] is [e.target.value]. *)
Definition onChannelFader (trackNumber : nat) (value : Q) (r : Recorder.t)
  : Recorder.t :=
  match Recorder.getTrack trackNumber r with
  | Some track =>
    Recorder.set_tracks
      (<[trackNumber := Track.setFader (value / 100)%Q track]> (Recorder.tracks r)) r
  | None => r
  end.

Definition onMasterFader (value : Q) (r : Recorder.t) : Recorder.t :=
  Recorder.setMasterVolume (value / 100)%Q r.

Definition onSpeedKnob (trackNumber : nat) (value currentTime : Q) (r : Recorder.t)
  : Recorder.t :=
  match Recorder.getTrack trackNumber r with
  | Some track =>
    Recorder.set_tracks
      (<[trackNumber := Track.setSpeed value currentTime track]> (Recorder.tracks r)) r
  | None => r
  end.

Definition onMasterReverbSize (value : Q) (r : Recorder.t) : Recorder.t :=
  Recorder.setMasterReverbSize (value / 100 * 45)%Q r.

Definition onMasterReverbMix (value : Q) (r : Recorder.t) : Recorder.t :=
  Recorder.setMasterReverbAmount (value / 100)%Q r.

(** The options [setupKnobManager()] registers a knob with;
    [inputValue] is [parseFloat(input.value)]. *)
Definition knobOptions (isSpeedKnob : bool) (inputValue : Q) : Knob.Options :=
  {| Knob.opt_bipolar := Some isSpeedKnob;
     Knob.opt_centerValue := if isSpeedKnob then Some 0%Q else None;
     Knob.opt_defaultValue := Some (if isSpeedKnob then 0%Q else inputValue);
     Knob.opt_sensitivity := None |}.

End UI.

(** * Specification vocabulary *)

(** The relation the specification asks for between a buffer and its
    reversed copy. *)
Definition mirrors (b rb : AudioBuffer) : Prop :=
  numberOfChannels rb = numberOfChannels b /\
  buf_length rb = buf_length b /\
  sampleRate rb = sampleRate b /\
  duration rb = duration b /\
  forall c i, (c < numberOfChannels b)%nat -> (i < buf_length b)%nat ->
    is_Some (sampleAt rb c i) /\
    sampleAt rb c i = sampleAt b c (buf_length b - 1 - i).

(** The shape of a buffer never changes under sample writes. *)
Definition same_shape (b b' : AudioBuffer) : Prop :=
  numberOfChannels b' = numberOfChannels b /\
  buf_length b' = buf_length b /\
  sampleRate b' = sampleRate b /\
  (wf_buffer b -> wf_buffer b').

(** A small stereo buffer used to exercise the statements below. *)
Definition demoBuffer : AudioBuffer :=
  {| numberOfChannels := 2; buf_length := 3; sampleRate := 44100%Q;
     channelData := [[1 # 2; 1 # 4; 1 # 8]; [-1 # 2; 2; -3]]%Q |}.

(** A run of solo-button presses, on the tracks [ks] in turn. *)
Definition pressSolo (ks : list nat) (r : Recorder.t) : Recorder.t :=
  fold_left (fun r k => Recorder.handleSolo k r) ks r.

(** Every muted track that is not solo has its fader at 0. *)
Definition silenced (r : Recorder.t) : Prop :=
  forall j t, Recorder.tracks r !! j = Some t ->
    Track.isSolo t = false -> Track.isMuted t = true -> Track.channelFader t = 0%Q.

(** A worker response [{ leftChannel, rightChannel, length }]. *)
Record ImpulseResponse : Type := mkResponse {
  ir_left : list Q; ir_right : list Q; ir_length : Q
}.

Definition receive (m : ImpulseResponse) (r : Recorder.t) : Recorder.t :=
  Recorder.onReverbWorkerMessage (ir_left m) (ir_right m) (ir_length m) r.

Definition cacheKey (m : ImpulseResponse) : string := toFixed1 (ir_length m).

Definition cached (k : string) (r : Recorder.t) : Prop :=
  JSMap.has k (Recorder.reverbCache r) = true.

(** Bookkeeping for the age of cache entries: [born k] is the index of
    the response that created the entry now stored under [k].  A
    response whose key is already cached replaces the value of the
    entry and does not create one. *)
Definition Stamps : Type := string -> option nat.

Definition stamp (n : nat) (m : ImpulseResponse) (r : Recorder.t) (born : Stamps)
  : Stamps :=
  fun k =>
    if decide (k = cacheKey m)
    then (if JSMap.has k (Recorder.reverbCache r) then born k else Some n)
    else born k.

(** The recorder and the stamps after the responses [ms], the first of
    which has index [n]. *)
Fixpoint history (n : nat) (ms : list ImpulseResponse) (r : Recorder.t) (born : Stamps)
  : Recorder.t * Stamps :=
  match ms with
  | [] => (r, born)
  | m :: ms' => history (S n) ms' (receive m r) (stamp n m r born)
  end.

(** Entry [e] is at least as old as entry [k]. *)
Definition older_eq (born : Stamps) (e k : string) : Prop :=
  exists se sk, born e = Some se /\ born k = Some sk /\ (se <= sk)%nat.

(** The entries appear in the cache in the order of their creation. *)
Definition cache_inv (n : nat) (ks : list string) (born : Stamps) : Prop :=
  NoDup ks /\ (length ks <= 5)%nat /\
  (forall i k, ks !! i = Some k -> exists s, born k = Some s /\ (s < n)%nat) /\
  (forall i j ki kj, (i < j)%nat -> ks !! i = Some ki -> ks !! j = Some kj ->
     exists si sj, born ki = Some si /\ born kj = Some sj /\ (si < sj)%nat).

(** Six responses with six different decay lengths. *)
Definition sixResponses : list ImpulseResponse :=
  map (fun len => mkResponse [0; 0]%Q [0; 0]%Q len) [1; 2; 3; 4; 5; 6]%Q.

(** The bus keeps track of its pending timer: at most one callback is
    pending, its id is the one in [dropoutSchedulerId], and none is
    pending while the bus is bypassed.  This holds when the bus is
    created and is kept by [setDropouts], by the timer callback and by
    switching the bypass on, or off after it was on. *)
Definition tracked (s : CassetteTapeBus.t) : Prop :=
  match CassetteTapeBus.timers s with
  | [] => True
  | [(id, _)] =>
    CassetteTapeBus.dropoutSchedulerId s = Some id /\ CassetteTapeBus.bypassed s = false
  | _ => False
  end.

(** A bus on which the bypass is switched off while a dropout is
    already scheduled: [setDropouts(100)], then [setBypass(false)];
    the draws of [Math.random()] are [draw1] and [draw2]. *)
Definition doubleScheduled (draw1 draw2 : Q) : CassetteTapeBus.t :=
  CassetteTapeBus.setBypass false draw2
    (CassetteTapeBus.setDropouts 100 draw1 (CassetteTapeBus.create 0)).

(** The ids of the pending timers and the times at which they are due. *)
Definition pendingIds (s : CassetteTapeBus.t) : list nat :=
  map fst (CassetteTapeBus.timers s).
Definition pendingDue (s : CassetteTapeBus.t) : list Q :=
  map (fun p => Qred (snd p)) (CassetteTapeBus.timers s).

(** The dropouts that fired, oldest first: time (ms), duration (s), depth. *)
Definition firedDropouts (s : CassetteTapeBus.t) : list (Q * Q * Q) :=
  map (fun d => (Qred (CassetteTapeBus.d_time d), Qred (CassetteTapeBus.d_duration d),
                 Qred (CassetteTapeBus.d_depth d)))
      (rev (CassetteTapeBus.dropouts s)).

(** A value that [Math.random()] can return. *)
Definition is_random (x : Q) : Prop := (0 <= x)%Q /\ (x < 1)%Q.

(** Every difference between neighbours of [times] lies in [lo, hi). *)
Fixpoint gaps_within (lo hi : Q) (times : list Q) : Prop :=
  match times with
  | t1 :: rest =>
    match rest with
    | t2 :: _ => (lo <= t2 - t1)%Q /\ (t2 - t1 < hi)%Q /\ gaps_within lo hi rest
    | [] => True
    end
  | [] => True
  end.

(** *** The layout of a WAV file, as the specification words it *)

(** Little-endian bytes of an unsigned 16-bit and 32-bit field. *)
Definition le16 (u : Z) : list Z := [DataView.byteOf 0 u; DataView.byteOf 1 u].
Definition le32 (u : Z) : list Z :=
  [DataView.byteOf 0 u; DataView.byteOf 1 u; DataView.byteOf 2 u; DataView.byteOf 3 u].

(** The character codes of a tag such as ['RIFF']. *)
Definition chars (s : string) : list Z :=
  map (fun i => JS.ToUint 8 (JS.charCodeAt s i)) (seq 0 (String.length s)).

Definition num (n : nat) : Q := inject_Z (Z.of_nat n).

(** [dataLength = frames * channels * 2] *)
Definition dataLength (b : AudioBuffer) : nat :=
  (buf_length b * numberOfChannels b * 2)%nat.

(** A sample clamped to [-1, 1] and scaled by 32767. *)
Definition clamp (sample : Q) : Q := JS.Math_max (-1) (JS.Math_min 1 sample).
Definition pcmSample (b : AudioBuffer) (i c : nat) : Q :=
  (clamp (f32_get (getChannelData b c) i) * 32767)%Q.

Definition wavHeader (b : AudioBuffer) : list Z :=
  chars "RIFF" ++ le32 (JS.ToUint 32 (num (36 + dataLength b)))
  ++ chars "WAVE"
  ++ chars "fmt " ++ le32 (JS.ToUint 32 16)
  ++ le16 (JS.ToUint 16 1)
  ++ le16 (JS.ToUint 16 (num (numberOfChannels b)))
  ++ le32 (JS.ToUint 32 (sampleRate b))
  ++ le32 (JS.ToUint 32 (sampleRate b * num (numberOfChannels b) * 2)%Q)
  ++ le16 (JS.ToUint 16 (num (numberOfChannels b) * 2)%Q)
  ++ le16 (JS.ToUint 16 16)
  ++ chars "data" ++ le32 (JS.ToUint 32 (num (dataLength b))).

(** Frame after frame, channel after channel: sample number [j] of the
    interleaved stream is channel [j mod channels] of frame
    [j / channels]. *)
Definition wavSample (b : AudioBuffer) (j : nat) : list Z :=
  le16 (JS.ToUint 16 (pcmSample b (j / numberOfChannels b) (j mod numberOfChannels b))).

Definition wavData (b : AudioBuffer) : list Z :=
  flat_map (wavSample b) (seq 0 (buf_length b * numberOfChannels b)).

(** The header of a 16-bit PCM WAV file, as a decoder reads it. *)
Record WavFields : Type := mkWavFields {
  riffTag : list Z; riffChunkSize : Z; waveTag : list Z;
  fmtTag : list Z; fmtChunkSize : Z; audioFormat : Z; channelCount : Z;
  wavSampleRate : Z; byteRate : Z; blockAlign : Z; bitsPerSample : Z;
  dataTag : list Z; dataChunkSize : Z
}.

Definition readWavFields (wav : list Z) : WavFields :=
  {| riffTag := DataView.getChars wav 0 4;
     riffChunkSize := DataView.getUint32 wav 4;
     waveTag := DataView.getChars wav 8 4;
     fmtTag := DataView.getChars wav 12 4;
     fmtChunkSize := DataView.getUint32 wav 16;
     audioFormat := DataView.getUint16 wav 20;
     channelCount := DataView.getUint16 wav 22;
     wavSampleRate := DataView.getUint32 wav 24;
     byteRate := DataView.getUint32 wav 28;
     blockAlign := DataView.getUint16 wav 32;
     bitsPerSample := DataView.getUint16 wav 34;
     dataTag := DataView.getChars wav 36 4;
     dataChunkSize := DataView.getUint32 wav 40 |}.

(** The character codes of the four tags. *)
Definition tag_RIFF : list Z := [82; 73; 70; 70]%Z.
Definition tag_WAVE : list Z := [87; 65; 86; 69]%Z.
Definition tag_fmt : list Z := [102; 109; 116; 32]%Z.
Definition tag_data : list Z := [100; 97; 116; 97]%Z.

(** *** Export *)

(** The source a track contributes to an export: it must hold audio
    and must not be muted. *)
Definition audible (track : Track.t) : option OfflineSource :=
  match Track.audioBuffer track with
  | Some b =>
    if Track.isMuted track then None
    else Some {| os_buffer := b; os_gain := Track.channelFader track |}
  | None => None
  end.

Definition audibleSources (r : Recorder.t) : list OfflineSource :=
  omap audible (Recorder.tracks r).

(** The unit roundoff of doubles, [2^-53]: rounding moves a number by
    at most this share of it. *)
Definition unitRoundoff : Q := 1 # 9007199254740992.

(** The number of frames an export renders: the product
    [maxDuration * sampleRate], a double, as an unsigned long. *)
Definition exportFrames (r : Recorder.t) : nat :=
  Z.to_nat (JS.ToUint 32 (JS.double (Recorder.maxDuration r * 44100))).

(** The mix of the sources [sources] over [frames] frames, through the
    recorder's master fader and limiter. *)
Definition mixGraph (r : Recorder.t) (frames : nat) (sources : list OfflineSource)
  : OfflineAudioContext :=
  {| oc_channels := 2; oc_length := frames; oc_sampleRate := 44100%Q;
     oc_masterGain := Recorder.masterGain r; oc_limiter := Recorder.masterLimiter r;
     oc_sources := sources |}.

(** The signal the offline limiter receives. *)
Definition limiterInput (resampler : AudioBuffer -> Q -> Signal)
    (ctx : OfflineAudioContext) : Signal :=
  fun c i =>
    (oc_masterGain ctx * mixSignal resampler (oc_sampleRate ctx) (oc_sources ctx) c i)%Q.

(** The mix of the tracks in the words of the specification: every
    track that holds audio and is not muted adds its signal scaled by
    its fader; every other track adds nothing. *)
Fixpoint trackSum (resampler : AudioBuffer -> Q -> Signal) (rate : Q)
    (tracks : list Track.t) (c i : nat) : Q :=
  match tracks with
  | [] => 0
  | track :: rest =>
    (match Track.audioBuffer track with
     | Some b =>
       if Track.isMuted track then 0
       else Track.channelFader track * sourceSignal resampler rate b c i
     | None => 0
     end + trackSum resampler rate rest c i)%Q
  end.

(** Two seconds of mono audio at 44.1 kHz, every sample 0.5. *)
Definition twoSeconds : nat := Z.to_nat (2 * 44100).

Definition halfBuffer : AudioBuffer :=
  {| numberOfChannels := 1; buf_length := twoSeconds; sampleRate := 44100%Q;
     channelData := [replicate twoSeconds 0.5%Q] |}.

(** Draws of [Math.random()] that are all 0, for the recorders of the
    examples. *)
Definition demoDraws : nat -> nat -> R := fun _ _ => 0%R.

(** A fresh recorder with [halfBuffer] loaded into track 0. *)
Definition halfSession : Recorder.t :=
  Recorder.loadFileToTrack 0 (Some halfBuffer) 0 (Recorder.init 44100 demoDraws).

(** Pressing the mute button of a track. *)
Definition pressMute (k : nat) (r : Recorder.t) : Recorder.t :=
  Recorder.set_tracks
    (alter (fun t => Track.setMute (negb (Track.isMuted t)) t) k (Recorder.tracks r)) r.

(** A recorder with two loaded tracks, the second one muted. *)
Definition demoSession : Recorder.t :=
  pressMute 1
    (Recorder.loadFileToTrack 1
       (Some {| numberOfChannels := 1; buf_length := 4; sampleRate := 44100%Q;
                channelData := [[1; 1; 1; 1]%Q] |}) 0
       (Recorder.loadFileToTrack 0 (Some demoBuffer) 0 (Recorder.init 44100 demoDraws))).

(** A fresh recorder with 15 frames of mono audio at 44.1 kHz in
    track 0. *)
Definition fifteenSession : Recorder.t :=
  Recorder.loadFileToTrack 0
    (Some {| numberOfChannels := 1; buf_length := 15; sampleRate := 44100%Q;
             channelData := [replicate 15 (1 # 4)%Q] |}) 0
    (Recorder.init 44100 demoDraws).

(** The offline graph of the two-second scenario. *)
Definition halfGraph : OfflineAudioContext :=
  mixGraph halfSession twoSeconds [{| os_buffer := halfBuffer; os_gain := 0.8%Q |}].

(** [demoSession] without the audio of its muted track. *)
Definition demoUnmuted : Recorder.t :=
  pressMute 1 (Recorder.loadFileToTrack 0 (Some demoBuffer) 0 (Recorder.init 44100 demoDraws)).

(** A recorder whose only audio is on a muted track. *)
Definition mutedOnly : Recorder.t :=
  pressMute 0 (Recorder.loadFileToTrack 0 (Some demoBuffer) 0 (Recorder.init 44100 demoDraws)).

(** *** Proof automation *)

(** Reduce the record projections of the bus, and nothing else. *)
Ltac bus_simpl :=
  cbn [CassetteTapeBus.bypassed CassetteTapeBus.dropoutSchedulerId
       CassetteTapeBus.dropoutIntensity CassetteTapeBus.timers
       CassetteTapeBus.nextTimerId CassetteTapeBus.clock CassetteTapeBus.dropouts
       CassetteTapeBus.set_dropoutSchedulerId CassetteTapeBus.clearTimeout
       CassetteTapeBus.setTimeout CassetteTapeBus.d_time fst snd].

(** Reduce reads at fixed offsets of the header. *)
Ltac header_simpl :=
  cbn [wavHeader chars le32 le16 map seq String.length app lookup list_lookup
       from_option Datatypes.id Nat.add take drop].

(** * Sessions: what can be done to a track and to the recorder *)

(** The calls a track accepts, with the values the environment
    supplies ([now] is the context time, [decoded] the outcome of
    [decodeAudioData]). *)
Inductive TrackOp : Type :=
| TPlay (when now : Q)
| TStop
| TClear
| TStartRecording
| TRecordingStop (decoded : option AudioBuffer)
| TLoadAudioFromBlob (decoded : option AudioBuffer)
| TSetFader (value : Q)
| TSetSpeed (value now : Q)
| TSetSpeedLegacy (value : Q)
| TSetMode (m : Mode) (now : Q)
| TSetLoopLength (length_ : Q)
| TSetLA2APeakReduction (amount : Q)
| TSetLA2AGain (amount : Q)
| TSetMute (muted : bool)
| TSetSolo (solo : bool)
| TEnded.

(** The state a call leaves behind, thrown or not. *)
Definition outcome {A : Type} (c : Completion A) : A :=
  match c with Normal a => a | Throw a => a end.

Definition trackStep (op : TrackOp) (tr : Track.t) : Track.t :=
  match op with
  | TPlay when now => Track.play when now tr
  | TStop => Track.stop tr
  | TClear => Track.clear tr
  | TStartRecording => Track.startRecording tr
  | TRecordingStop decoded => Track.onRecordingStop decoded tr
  | TLoadAudioFromBlob decoded => Track.loadAudioFromBlob decoded tr
  | TSetFader value => Track.setFader value tr
  | TSetSpeed value now => Track.setSpeed value now tr
  | TSetSpeedLegacy value => Track.setSpeedLegacy value tr
  | TSetMode m now => Track.setMode m now tr
  | TSetLoopLength length_ => outcome (Track.setLoopLength length_ tr)
  | TSetLA2APeakReduction amount => Track.setLA2APeakReduction amount tr
  | TSetLA2AGain amount => Track.setLA2AGain amount tr
  | TSetMute muted => Track.setMute muted tr
  | TSetSolo solo => Track.setSolo solo tr
  | TEnded => Track.onended tr
  end.

(** The calls the recorder accepts; [ROnTrack k op] is a call on
    [getTrack(k)]. *)
Inductive RecorderOp : Type :=
| RPlay (now : Q)
| RStop
| RHandleSolo (trackNumber : nat)
| RClearAll
| RLoadFileToTrack (trackNumber : nat) (decoded : option AudioBuffer) (now : Q)
| RExportMix (compressor : CompressorParams -> Signal -> Signal)
             (resampler : AudioBuffer -> Q -> Signal)
| RSetMasterVolume (value : Q)
| RSetMasterReverb (amount : Q)
| RSetMasterReverbSize (amount : Q)
| RReverbSizeTimeout
| RReverbResponse (m : ImpulseResponse)
| RSetMasterLA2APeakReduction (amount : Q)
| RSetMasterLA2AGain (amount : Q)
| RMuteClick (trackNumber : nat)
| ROnTrack (trackNumber : nat) (op : TrackOp).

Definition recorderStep (op : RecorderOp) (r : Recorder.t) : Recorder.t :=
  match op with
  | RPlay now => Recorder.play now r
  | RStop => Recorder.stop r
  | RHandleSolo k => Recorder.handleSolo k r
  | RClearAll => Recorder.clearAll r
  | RLoadFileToTrack k decoded now => Recorder.loadFileToTrack k decoded now r
  | RExportMix compressor resampler => fst (Recorder.exportMix compressor resampler r)
  | RSetMasterVolume value => Recorder.setMasterVolume value r
  | RSetMasterReverb amount => Recorder.setMasterReverb amount r
  | RSetMasterReverbSize amount => Recorder.setMasterReverbSize amount r
  | RReverbSizeTimeout => fst (Recorder.onReverbSizeTimeout r)
  | RReverbResponse m => receive m r
  | RSetMasterLA2APeakReduction amount => Recorder.setMasterLA2APeakReduction amount r
  | RSetMasterLA2AGain amount => Recorder.setMasterLA2AGain amount r
  | RMuteClick k => UI.handleMuteClick k r
  | ROnTrack k op =>
    match Recorder.getTrack k r with
    | Some track => Recorder.set_tracks (<[k := trackStep op track]> (Recorder.tracks r)) r
    | None => r
    end
  end.

(** The recorder after the calls [ops], starting from [init()] with the
    draws [random]. *)
Definition session (sampleRate : Q) (random : nat -> nat -> R)
    (ops : list RecorderOp) : Recorder.t :=
  fold_left (fun r op => recorderStep op r) ops (Recorder.init sampleRate random).

(** What holds of every track of a session:
    - a track that keeps a source node holds a buffer;
    - a track that counts as playing keeps a source node;
    - the reversed copy exists exactly when the buffer does;
    - the source of a playing track loops exactly in loop mode, its
      rate is the track's rate up to sign, and when it loops over one of
      the track's present buffers the loop ends at the loop length,
      capped by the duration of the buffer. *)
Definition follows_settings (t : Track.t) (src : BufferSource) : Prop :=
  src_loop src = match Track.mode t with loop => true | normal => false end /\
  Rabs (src_playbackRate src) = Rabs (Track.playbackRate t) /\
  (forall b, Track.audioBuffer t = Some b -> src_loop src = true ->
     src_buffer src <> DetachedBuffer ->
     src_loopEnd src = JS.Math_min (Track.loopLength t) (duration b)).

Definition track_ok (t : Track.t) : Prop :=
  (is_Some (Track.source t) -> is_Some (Track.audioBuffer t)) /\
  (Track.isPlaying t = true -> is_Some (Track.source t)) /\
  (is_Some (Track.audioBuffer t) <-> is_Some (Track.reversedBuffer t)) /\
  (Track.isPlaying t = true -> forall src, Track.source t = Some src ->
     follows_settings t src).

(** Every track of the recorder sits at its own index and is in order. *)
Definition tracks_ok (r : Recorder.t) : Prop :=
  length (Recorder.tracks r) = 4%nat /\
  forall k t, Recorder.tracks r !! k = Some t -> Track.trackNumber t = k /\ track_ok t.

(** Track 0 of a new recorder after [demoBuffer] was loaded into it,
    and the source it plays. *)
Definition demoSource : BufferSource :=
  {| src_buffer := ForwardBuffer; src_playbackRate := Rabs 1; src_loop := true;
     src_loopStart := 0;
     src_loopEnd := JS.Math_min (duration demoBuffer) (duration demoBuffer) |}.

Definition demoTrack : Track.t :=
  {| Track.trackNumber := 0; Track.isRecording := false;
     Track.audioBuffer := Some demoBuffer;
     Track.reversedBuffer := Some (createReversedBuffer demoBuffer);
     Track.source := Some demoSource;
     Track.isPlaying := true; Track.isMuted := false; Track.isSolo := false;
     Track.mode := loop; Track.loopLength := duration demoBuffer;
     Track.playbackRate := 1; Track.isReversed := false; Track.startTime := 0;
     Track.hasAudio := true; Track.audioIndicator := false;
     Track.channelFader := 0.8; Track.la2aThreshold := -24; Track.la2aRatio := 4;
     Track.la2aMakeupGain := 1 |}.

(** The buffer [reverbWorker.onmessage] builds from a response. *)
Definition delivered (m : ImpulseResponse) (r : Recorder.t) : AudioBuffer :=
  Recorder.copyToChannel
    (Recorder.copyToChannel
       (createBuffer 2 (length (ir_left m)) (Recorder.ctxSampleRate r))
       (ir_left m) 0)
    (ir_right m) 1.

(** The reverb size control moved through the amounts [amounts], with
    no timer running out in between. *)
Definition turnReverbSize (amounts : list Q) (r : Recorder.t) : Recorder.t :=
  fold_left (fun r amount => Recorder.setMasterReverbSize amount r) amounts r.

(** A well-formed stereo buffer at the given rate. *)
Definition stereo_at (rate : Q) (b : AudioBuffer) : Prop :=
  wf_buffer b /\ numberOfChannels b = 2%nat /\ sampleRate b = rate.

(** What holds of the master bus of a session at the rate [rate]. *)
Definition master_ok (rate : Q) (r : Recorder.t) : Prop :=
  Recorder.ctxSampleRate r = rate /\
  (Recorder.reverbMix r + Recorder.reverbDry r == 1)%Q /\
  Recorder.masterLimiter r = mkCompressor (-0.5) 0 20 0.001 0.010 /\
  NoDup (JSMap.keys (Recorder.reverbCache r)) /\
  (JSMap.size (Recorder.reverbCache r) <= 5)%nat /\
  Forall (fun entry => stereo_at rate entry.2) (Recorder.reverbCache r) /\
  (exists b, Recorder.masterReverbBuffer r = Some b /\ stereo_at rate b).

(** The random draws of an event are values [Math.random()] can
    return. *)
Definition valid_event (e : CassetteTapeBus.Event) : Prop :=
  match e with
  | CassetteTapeBus.TimerDue _ random1 random2 random3 =>
    is_random random1 /\ is_random random2 /\ is_random random3
  | CassetteTapeBus.Bypass _ random => is_random random
  end.

(** The times of a schedule rise strictly. *)
Fixpoint rising (times : list Q) : Prop :=
  match times with
  | t1 :: rest =>
    match rest with
    | t2 :: _ => (t1 < t2)%Q /\ rising rest
    | [] => True
    end
  | [] => True
  end.

(** The input the waveshaper curve has at its point [i]: the points
    divide [-1, 1) evenly. *)
Definition curveInput (i : nat) : Q :=
  (inject_Z (Z.of_nat i) * 2 / inject_Z (Z.of_nat TapeNodes.samples) - 1)%Q.

(** The visualizer after the animation callbacks [calls], each with the
    time it runs at and the data the analyser then holds, and the number
    of frames drawn. *)
Fixpoint animateAll (calls : list (Q * list Z)) (v : Visualizer.t)
  : Visualizer.t * nat :=
  match calls with
  | [] => (v, 0%nat)
  | (now, data) :: rest =>
    let '(v, levels) := Visualizer.animate now data v in
    let '(v, drawn) := animateAll rest v in
    (v, match levels with Some _ => S drawn | None => drawn end)
  end.

(** Entry [i] of the analyser's byte array as a sample in [-1, 1). *)
Definition normalized (dataArray : list Z) (i : nat) : Q :=
  ((Visualizer.byteAt dataArray i - 128) / 128)%Q.

(** * Properties *)

(** ** Loops *)

Lemma for_loop_S {S : Type} (n : nat) (body : nat -> S -> S) (s : S) :
  JS.for_loop (Datatypes.S n) body s = body n (JS.for_loop n body s).
Proof.
  unfold JS.for_loop. rewrite seq_S, fold_left_app. reflexivity.
Qed.

(** Invariant rule for a counting loop. *)
Lemma for_loop_ind {S : Type} (P : nat -> S -> Prop) (n : nat)
    (body : nat -> S -> S) (s : S) :
  P 0%nat s ->
  (forall i st, (i < n)%nat -> P i st -> P (Datatypes.S i) (body i st)) ->
  P n (JS.for_loop n body s).
Proof.
  intros H0 Hstep.
  assert (Hk : forall k, (k <= n)%nat -> P k (JS.for_loop k body s)).
  { induction k as [|k IH]; intros Hle; [exact H0|].
    rewrite for_loop_S. apply Hstep; [lia|]. apply IH. lia. }
  apply Hk. lia.
Qed.

(** ** Reversed buffers (C1) *)

Lemma sampleAt_f32_set (b : AudioBuffer) (c i c' i' : nat) (v : Q) :
  sampleAt (f32_set b c i v) c' i' =
  if decide (c = c' /\ i = i') then (fun _ => v) <$> sampleAt b c' i' else sampleAt b c' i'.
Proof.
  unfold sampleAt, f32_set; simpl.
  destruct (decide (c = c')) as [->|Hc].
  - rewrite list_lookup_alter_eq.
    destruct (channelData b !! c') as [data|] eqn:E; simpl.
    + destruct (decide (i = i')) as [->|Hi].
      * rewrite decide_True by done.
        destruct (data !! i') eqn:E'.
        -- rewrite list_lookup_insert_eq; [done|]. by eapply lookup_lt_Some.
        -- rewrite list_insert_ge; [by rewrite E'|]. by apply lookup_ge_None.
      * rewrite decide_False by (intros [_ ?]; done).
        by rewrite list_lookup_insert_ne.
    + by destruct (decide _).
  - rewrite list_lookup_alter_ne by done.
    rewrite decide_False by (intros [? _]; done). done.
Qed.

Lemma sampleAt_createBuffer (n len : nat) (rate : Q) (c i : nat) :
  (c < n)%nat -> (i < len)%nat -> sampleAt (createBuffer n len rate) c i = Some 0%Q.
Proof.
  intros Hc Hi. unfold sampleAt, createBuffer; simpl.
  rewrite lookup_replicate_2 by done. simpl. by rewrite lookup_replicate_2.
Qed.

Lemma sampleAt_wf (b : AudioBuffer) (c i : nat) :
  wf_buffer b -> (c < numberOfChannels b)%nat -> (i < buf_length b)%nat ->
  sampleAt b c i = Some (f32_get (getChannelData b c) i).
Proof.
  intros [Hn Hall] Hc Hi. unfold sampleAt, f32_get, getChannelData.
  destruct (lookup_lt_is_Some_2 (channelData b) c) as [data Hd]; [lia|].
  rewrite Hd; simpl.
  rewrite Forall_lookup in Hall. specialize (Hall _ _ Hd).
  destruct (lookup_lt_is_Some_2 data i) as [x Hx]; [lia|].
  by rewrite Hx.
Qed.

Lemma same_shape_refl b : same_shape b b.
Proof. unfold same_shape. auto. Qed.

Lemma same_shape_f32_set b b' c i v :
  same_shape b b' -> same_shape b (f32_set b' c i v).
Proof.
  intros (Hn & Hl & Hr & Hwf). split; [done|]. split; [done|]. split; [done|].
  intros Hb. destruct (Hwf Hb) as [Hlen Hall]. split; simpl.
  - by rewrite length_alter.
  - rewrite Forall_lookup in Hall |- *. intros k ch Hk.
    destruct (decide (k = c)) as [->|Hne].
    + rewrite list_lookup_alter_eq in Hk.
      destruct (channelData b' !! c) as [d|] eqn:E; simpl in Hk; [|done].
      inversion Hk; subst. rewrite length_insert. eauto.
    + rewrite list_lookup_alter_ne in Hk by done. eauto.
Qed.

Lemma createBuffer_wf n len rate : wf_buffer (createBuffer n len rate).
Proof.
  split; simpl; [by rewrite length_replicate|].
  apply Forall_replicate. by rewrite length_replicate.
Qed.

(** After the loop over [i] for one channel. *)
Lemma reverse_channel_loop (g : nat -> Q) (c n : nat) (rb : AudioBuffer) :
  let rb' := JS.for_loop n (fun i rb => f32_set rb c i (g i)) rb in
  same_shape rb rb' /\
  forall c' i', sampleAt rb' c' i' =
    if decide (c' = c /\ (i' < n)%nat) then (fun _ => g i') <$> sampleAt rb c' i'
    else sampleAt rb c' i'.
Proof.
  pose (P := fun (k : nat) (st : AudioBuffer) =>
    same_shape rb st /\
    forall c' i', sampleAt st c' i' =
      if decide (c' = c /\ (i' < k)%nat) then (fun _ => g i') <$> sampleAt rb c' i'
      else sampleAt rb c' i').
  apply (for_loop_ind P); unfold P; clear P.
  - split; [apply same_shape_refl|]. intros c' i'.
    rewrite decide_False by lia. done.
  - intros i st Hi [Hsh IH]. split; [by apply same_shape_f32_set|].
    intros c' i'. rewrite sampleAt_f32_set, IH.
    destruct (decide (c = c' /\ i = i')) as [[-> ->]|Hne].
    + rewrite decide_False by lia. by rewrite decide_True by (split; [done|lia]).
    + destruct (decide (c' = c /\ (i' < i)%nat)) as [[-> Hlt]|Hn1].
      * by rewrite decide_True by (split; [done|lia]).
      * rewrite decide_False; [done|]. intros [-> Hlt].
        destruct (decide (i' = i)) as [->|?]; [by apply Hne|].
        apply Hn1. split; [done|lia].
Qed.

Lemma createReversedBuffer_spec (b : AudioBuffer) :
  let rb := createReversedBuffer b in
  same_shape (createBuffer (numberOfChannels b) (buf_length b) (sampleRate b)) rb /\
  forall c i, (c < numberOfChannels b)%nat -> (i < buf_length b)%nat ->
    sampleAt rb c i =
    Some (f32_get (getChannelData b c) (buf_length b - 1 - i)).
Proof.
  unfold createReversedBuffer.
  set (rb0 := createBuffer _ _ _).
  set (body := fun channel reversed => JS.for_loop _ _ reversed).
  assert (H : same_shape rb0 (JS.for_loop (numberOfChannels b) body rb0) /\
    forall c i, (i < buf_length b)%nat ->
      sampleAt (JS.for_loop (numberOfChannels b) body rb0) c i =
      if decide (c < numberOfChannels b)%nat
      then (fun _ => f32_get (getChannelData b c) (buf_length b - 1 - i)) <$> sampleAt rb0 c i
      else sampleAt rb0 c i).
  { pose (P := fun (k : nat) (st : AudioBuffer) =>
      same_shape rb0 st /\
      forall c i, (i < buf_length b)%nat ->
        sampleAt st c i =
        if decide (c < k)%nat
        then (fun _ => f32_get (getChannelData b c) (buf_length b - 1 - i)) <$> sampleAt rb0 c i
        else sampleAt rb0 c i).
    apply (for_loop_ind P); unfold P; clear P.
    - split; [apply same_shape_refl|]. intros c i _. by rewrite decide_False by lia.
    - intros k st Hk [Hsh IH]. unfold body.
      destruct (reverse_channel_loop
                  (fun i => f32_get (getChannelData b k) (buf_length b - 1 - i))
                  k (buf_length b) st) as [Hsh' Hs].
      split.
      + destruct Hsh as (?&?&?&?), Hsh' as (?&?&?&?).
        split; [congruence|]. split; [congruence|]. split; [congruence|]. eauto.
      + intros c i Hi. rewrite Hs, IH by done.
        destruct (decide (c = k /\ (i < buf_length b)%nat)) as [[-> _]|Hn1].
        * rewrite decide_False by lia. by rewrite decide_True by lia.
        * destruct (decide (c < k)%nat) as [Hlt|Hge].
          -- by rewrite decide_True by lia.
          -- rewrite decide_False; [done|]. intros Hlt. apply Hn1.
             split; [lia|done]. }
  destruct H as [Hsh Hs]. split; [exact Hsh|].
  intros c i Hc Hi. rewrite Hs by done. rewrite decide_True by done.
  unfold rb0. by rewrite sampleAt_createBuffer.
Qed.

Lemma createReversedBuffer_mirrors (b : AudioBuffer) :
  wf_buffer b -> wf_buffer (createReversedBuffer b) /\ mirrors b (createReversedBuffer b).
Proof.
  intros Hwf. destruct (createReversedBuffer_spec b) as [(Hn & Hl & Hr & Hw) Hs].
  simpl in Hn, Hl, Hr.
  split; [apply Hw, createBuffer_wf|].
  repeat split; try done.
  - unfold duration. by rewrite Hl, Hr.
  - rewrite Hs by done. eauto.
  - rewrite Hs by done. symmetry. apply sampleAt_wf; [done|done|lia].
Qed.

Lemma demoBuffer_wf : wf_buffer demoBuffer.
Proof. split; [reflexivity|]. repeat constructor. Qed.

Example demoBuffer_reversed :
  channelData (createReversedBuffer demoBuffer)
  = [[1 # 8; 1 # 4; 1 # 2]; [-3; 2; -1 # 2]]%Q.
Proof. reflexivity. Qed.

Lemma Track_play_buffers (when now : Q) (tr : Track.t) :
  Track.audioBuffer (Track.play when now tr) = Track.audioBuffer tr /\
  Track.reversedBuffer (Track.play when now tr) = Track.reversedBuffer tr.
Proof.
  unfold Track.play.
  destruct (Track.audioBuffer tr) eqn:E; [|done].
  destruct (Track.isPlaying tr); [by rewrite E|].
  destruct (Track.mode (Track.stop tr)); simpl; by rewrite E.
Qed.

(** C1.  Whenever a decoded buffer [b] is installed on a track, by the
    end of a recording ([Track.onRecordingStop], through
    [loadAudioFromBlob]) or by a file load ([Recorder.loadFileToTrack]),
    the track holds [b] and a reversed buffer with the same length,
    channel count and sample rate (hence duration) whose sample [i] on
    every channel is sample [length - 1 - i] of [b]. *)
Theorem reversedBuffer_mirrors_audioBuffer (b : AudioBuffer) :
  wf_buffer b ->
  (forall tr : Track.t,
     let tr' := Track.onRecordingStop (Some b) tr in
     Track.audioBuffer tr' = Some b /\
     exists rb, Track.reversedBuffer tr' = Some rb /\ wf_buffer rb /\ mirrors b rb) /\
  (forall (r : Recorder.t) (trackNumber : nat) (now : Q),
     (trackNumber < length (Recorder.tracks r))%nat ->
     exists tr',
       Recorder.tracks (Recorder.loadFileToTrack trackNumber (Some b) now r)
         !! trackNumber = Some tr' /\
       Track.audioBuffer tr' = Some b /\
       exists rb, Track.reversedBuffer tr' = Some rb /\ wf_buffer rb /\ mirrors b rb).
Proof.
  intros Hwf. destruct (createReversedBuffer_mirrors b Hwf) as [Hrwf Hm]. split.
  - intros tr. simpl. split; [done|]. exists (createReversedBuffer b). by simpl.
  - intros r k now Hk. unfold Recorder.loadFileToTrack.
    destruct (lookup_lt_is_Some_2 (Recorder.tracks r) k Hk) as [track Ht].
    rewrite Ht. simpl.
    rewrite list_lookup_insert_eq by done.
    eexists; split; [reflexivity|].
    destruct (Track.isPlaying track); simpl.
    + split; [done|]. by exists (createReversedBuffer b).
    + match goal with |- context [Track.play ?w ?n ?t] =>
        destruct (Track_play_buffers w n t) as [-> ->] end.
      simpl. split; [done|]. by exists (createReversedBuffer b).
Qed.

Lemma reversedBuffer_mirrors_audioBuffer_witness :
  exists rb,
    Track.reversedBuffer (Track.onRecordingStop (Some demoBuffer) (Track.create 0))
      = Some rb /\ mirrors demoBuffer rb.
Proof.
  destruct (reversedBuffer_mirrors_audioBuffer demoBuffer) as [H _].
  - split; [reflexivity|]. repeat constructor.
  - destruct (H (Track.create 0)) as [_ (rb & Hrb & _ & Hm)]. exists rb. by split.
Defined.

(** ** Doubles *)

Lemma pow2_pos (z : Z) : (0 < 2 ^ z)%Q.
Proof. by apply Qpower_0_lt. Qed.

Lemma pow2_succ (z : Z) : (2 ^ (z + 1) == 2 * 2 ^ z)%Q.
Proof. rewrite Qpower_plus by done. rewrite Qpower_1_r. ring. Qed.

Lemma pow2_log2 (n : Z) :
  (0 < n)%Z -> (2 ^ Z.log2 n <= inject_Z n)%Q /\ (inject_Z n < 2 * 2 ^ Z.log2 n)%Q.
Proof.
  intros Hn. destruct (Z.log2_spec n Hn) as [A B].
  pose proof (Z.log2_nonneg n) as Hl.
  rewrite <- pow2_succ.
  change 2%Q with (inject_Z 2). rewrite <- !Zpower_Qpower by lia.
  split; [by rewrite <- Zle_Qle|]. rewrite <- Zlt_Qlt. by rewrite <- Z.add_1_r in B.
Qed.

Lemma exponent_spec (x : Q) :
  (0 < x)%Q -> (2 ^ JS.exponent x <= x)%Q /\ (x < 2 ^ (JS.exponent x + 1))%Q.
Proof.
  intros Hx. unfold JS.exponent. cbv zeta.
  set (e := (Z.log2 (Qnum x) - Z.log2 (Z.pos (Qden x)))%Z).
  assert (Hn : (0 < Qnum x)%Z).
  { destruct x as [n d]. unfold Qlt in Hx. cbn in *. lia. }
  destruct (pow2_log2 (Qnum x) Hn) as [A1 A2].
  destruct (pow2_log2 (Z.pos (Qden x)) ltac:(lia)) as [B1 B2].
  assert (Ex : x * inject_Z (Z.pos (Qden x)) == inject_Z (Qnum x)).
  { destruct x as [n d]. unfold Qeq, Qmult, inject_Z. cbn. lia. }
  assert (Ep : 2 ^ e * 2 ^ Z.log2 (Z.pos (Qden x)) == 2 ^ Z.log2 (Qnum x)).
  { unfold e. rewrite Qpower_minus by done. field.
    pose proof (pow2_pos (Z.log2 (Z.pos (Qden x)))). intros C. rewrite C in H. done. }
  pose proof (pow2_pos e) as Pe.
  pose proof (pow2_pos (Z.log2 (Z.pos (Qden x)))) as Pb.
  set (P := (2 ^ e)%Q) in *. set (A := (2 ^ Z.log2 (Qnum x))%Q) in *.
  set (B := (2 ^ Z.log2 (Z.pos (Qden x)))%Q) in *.
  set (N := inject_Z (Qnum x)) in *. set (D := inject_Z (Z.pos (Qden x))) in *.
  assert (Hlo : (P < 2 * x)%Q).
  { apply Qnot_le_lt. intros C.
    assert ((2 * x * B <= P * B)%Q) by (apply Qmult_le_compat_r; [done|Lqa.lra]).
    assert ((x * D < x * (2 * B))%Q).
    { rewrite !(Qmult_comm x). apply Qmult_lt_compat_r; done. }
    clearbody P A B N D. Lqa.lra. }
  assert (Hhi : (x < 2 * P)%Q).
  { apply Qnot_le_lt. intros C.
    assert ((2 * P * B <= x * B)%Q) by (apply Qmult_le_compat_r; [done|Lqa.lra]).
    assert ((x * B <= x * D)%Q).
    { rewrite !(Qmult_comm x). apply Qmult_le_compat_r; [done|Lqa.lra]. }
    clearbody P A B N D. Lqa.lra. }
  destruct (Qle_bool P x) eqn:E.
  - apply Qle_bool_iff in E. split; [done|]. rewrite pow2_succ. done.
  - assert (Hlt : (x < P)%Q).
    { apply Qnot_le_lt. intros C. apply Qle_bool_iff in C. congruence. }
    replace (e - 1 + 1)%Z with e by lia. split; [|done].
    assert (E1 : P == 2 * 2 ^ (e - 1)).
    { rewrite <- pow2_succ. replace (e - 1 + 1)%Z with e by lia. reflexivity. }
    set (Q1 := (2 ^ (e - 1))%Q) in *. clearbody P Q1. Lqa.lra.
Qed.

Lemma exponent_unique (x : Q) (e : Z) :
  (2 ^ e <= x)%Q -> (x < 2 ^ (e + 1))%Q -> JS.exponent x = e.
Proof.
  intros H1 H2.
  assert (Hx : (0 < x)%Q) by (pose proof (pow2_pos e); Lqa.lra).
  destruct (exponent_spec x Hx) as [A B].
  assert (C1 : (2 ^ e < 2 ^ (JS.exponent x + 1))%Q) by Lqa.lra.
  assert (C2 : (2 ^ JS.exponent x < 2 ^ (e + 1))%Q) by Lqa.lra.
  apply Qpower_lt_compat_l_inv in C1; [|done].
  apply Qpower_lt_compat_l_inv in C2; [|done]. lia.
Qed.

Lemma exponent_proper (x y : Q) : (0 < x)%Q -> x == y -> JS.exponent x = JS.exponent y.
Proof.
  intros Hx E. apply exponent_unique; rewrite E;
    apply exponent_spec; by rewrite <- E.
Qed.

Lemma roundTiesToEven_error (x : Q) :
  (Qabs (inject_Z (JS.roundTiesToEven x) - x) <= 1 # 2)%Q.
Proof.
  unfold JS.roundTiesToEven. cbv zeta.
  pose proof (Qfloor_le x) as L. pose proof (Qlt_floor x) as U.
  rewrite inject_Z_plus in U. change (inject_Z 1) with 1%Q in U.
  apply Qabs_Qle_condition.
  destruct (Qcompare_spec (x - inject_Z (Qfloor x)) (1 # 2)) as [E|E|E].
  - destruct (Z.even (Qfloor x)).
    + split; Lqa.lra.
    + rewrite inject_Z_plus. change (inject_Z 1) with 1%Q. split; Lqa.lra.
  - split; Lqa.lra.
  - rewrite inject_Z_plus. change (inject_Z 1) with 1%Q. split; Lqa.lra.
Qed.

Lemma roundTiesToEven_proper (x y : Q) :
  x == y -> JS.roundTiesToEven x = JS.roundTiesToEven y.
Proof.
  intros E. unfold JS.roundTiesToEven. cbv zeta.
  assert (F : Qfloor x = Qfloor y) by (by rewrite E).
  rewrite F.
  assert (C : ((x - inject_Z (Qfloor y)) ?= (1 # 2))%Q
            = ((y - inject_Z (Qfloor y)) ?= (1 # 2))%Q) by (by rewrite E).
  by rewrite C.
Qed.

Lemma Qabs_gt0 (x : Q) : ~ x == 0 -> (0 < Qabs x)%Q.
Proof.
  intros Hx. apply Qabs_case; intros H; apply Qle_lteq in H as [H|H];
    try Lqa.lra; exfalso; apply Hx; rewrite H; reflexivity.
Qed.

Lemma double_proper (x y : Q) : x == y -> JS.double x = JS.double y.
Proof.
  intros E. unfold JS.double.
  assert (Z0 : Qeq_bool x 0 = Qeq_bool y 0).
  { destruct (Qeq_bool x 0) eqn:A, (Qeq_bool y 0) eqn:B; try done.
    - apply Qeq_bool_iff in A. rewrite E in A. apply Qeq_bool_iff in A. congruence.
    - apply Qeq_bool_iff in B. rewrite <- E in B. apply Qeq_bool_iff in B. congruence. }
  rewrite <- Z0. destruct (Qeq_bool x 0) eqn:A; [done|].
  assert (Hx : ~ x == 0) by (intros C; apply Qeq_bool_iff in C; congruence).
  assert (Ee : JS.exponent (Qabs x) = JS.exponent (Qabs y)).
  { apply exponent_proper; [by apply Qabs_gt0|by apply Qabs_wd]. }
  rewrite <- Ee. cbv zeta.
  assert (Er : JS.roundTiesToEven (x / 2 ^ (JS.exponent (Qabs x) - 52))
             = JS.roundTiesToEven (y / 2 ^ (JS.exponent (Qabs x) - 52))).
  { apply roundTiesToEven_proper. unfold Qdiv. apply Qmult_comp; [exact E|reflexivity]. }
  by rewrite Er.
Qed.

(** Rounding moves a positive number by at most half a unit in the
    last place, which is at most [2^-53] of the number. *)
Lemma double_error (x : Q) :
  (0 < x)%Q -> (Qabs (JS.double x - x) <= x * unitRoundoff)%Q.
Proof.
  intros Hx. unfold JS.double.
  assert (A : Qeq_bool x 0 = false).
  { destruct (Qeq_bool x 0) eqn:A; [|done]. apply Qeq_bool_iff in A. Lqa.lra. }
  rewrite A. cbv zeta.
  assert (Ea : JS.exponent (Qabs x) = JS.exponent x).
  { apply exponent_proper; [apply Qabs_gt0; Lqa.lra|]. apply Qabs_pos. Lqa.lra. }
  rewrite Ea. destruct (exponent_spec x Hx) as [L _].
  set (e := JS.exponent x) in *.
  pose proof (pow2_pos (e - 52)) as Pu.
  assert (Eu : 2 ^ e == 2 ^ (e - 52) * 4503599627370496).
  { change 4503599627370496%Q with (2 ^ 52)%Q.
    rewrite <- Qpower_plus by done. by replace (e - 52 + 52)%Z with e by lia. }
  set (ulp := (2 ^ (e - 52))%Q) in *.
  pose proof (roundTiesToEven_error (x / ulp)) as R.
  set (m := inject_Z (JS.roundTiesToEven (x / ulp))) in *.
  assert (Ed : m * ulp - x == (m - x / ulp) * ulp).
  { field. intros C. rewrite C in Pu. done. }
  rewrite Ed, Qabs_Qmult, (Qabs_pos ulp) by Lqa.lra.
  assert (H1 : (Qabs (m - x / ulp) * ulp <= (1 # 2) * ulp)%Q).
  { apply Qmult_le_compat_r; [done|Lqa.lra]. }
  unfold unitRoundoff. set (E := (2 ^ e)%Q) in *.
  set (a := Qabs (m - x / ulp)) in *. clearbody a ulp E. 
  assert (H2 : (ulp * 4503599627370496 <= x)%Q) by (rewrite <- Eu; done).
  Lqa.lra.
Qed.

Lemma double_pos (x : Q) : (0 < x)%Q -> (0 < JS.double x)%Q.
Proof.
  intros Hx. pose proof (double_error x Hx) as H.
  apply Qabs_Qle_condition in H. unfold unitRoundoff in H. Lqa.lra.
Qed.

Lemma double_nonneg (x : Q) : (0 <= x)%Q -> (0 <= JS.double x)%Q.
Proof.
  intros Hx. apply Qle_lteq in Hx as [Hx|Hx].
  - apply Qlt_le_weak. by apply double_pos.
  - rewrite <- (double_proper 0 x Hx). done.
Qed.

Lemma double_bounds (x : Q) :
  (0 <= x)%Q ->
  (x * (1 - unitRoundoff) <= JS.double x)%Q /\ (JS.double x <= x * (1 + unitRoundoff))%Q.
Proof.
  intros Hx. apply Qle_lteq in Hx as [Hx|Hx].
  - pose proof (double_error x Hx) as H. apply Qabs_Qle_condition in H.
    unfold unitRoundoff in *. split; Lqa.lra.
  - rewrite <- (double_proper 0 x Hx). change (JS.double 0) with 0%Q.
    unfold unitRoundoff. split; Lqa.lra.
Qed.

(** ** Bipolar speed control (C2) *)

Lemma Track_play_speed (when now : Q) (tr : Track.t) :
  Track.playbackRate (Track.play when now tr) = Track.playbackRate tr /\
  Track.isReversed (Track.play when now tr) = Track.isReversed tr.
Proof.
  unfold Track.play.
  destruct (Track.audioBuffer tr); [|done].
  destruct (Track.isPlaying tr); [done|].
  by destruct (Track.mode (Track.stop tr)).
Qed.

(** The restart or rate update at the end of [setSpeed] leaves the
    rate and the direction it has just computed untouched. *)
Lemma setSpeed_fields (v now : Q) (tr : Track.t) :
  Track.playbackRate (Track.setSpeed v now tr) =
    (if JS.eq v 0 then 1%R
     else if JS.gt v 0 then JS.Math_pow 4 (v / 100)
     else JS.Math_pow 4 (JS.Math_abs v / 100)) /\
  Track.isReversed (Track.setSpeed v now tr) =
    (if JS.eq v 0 then false else if JS.gt v 0 then false else true).
Proof.
  unfold Track.setSpeed.
  set (tr1 := if JS.eq v 0 then _ else _).
  assert (H1 : Track.playbackRate tr1 =
            (if JS.eq v 0 then 1%R
             else if JS.gt v 0 then JS.Math_pow 4 (v / 100)
             else JS.Math_pow 4 (JS.Math_abs v / 100)) /\
          Track.isReversed tr1 =
            (if JS.eq v 0 then false else if JS.gt v 0 then false else true)).
  { unfold tr1. destruct (JS.eq v 0); [done|]. by destruct (JS.gt v 0). }
  destruct H1 as [<- <-].
  destruct (Track.source tr1) as [src|]; [|done].
  destruct (Track.isPlaying tr1); [|done].
  match goal with |- context [if ?c then _ else _] => destruct c end; [|done].
  destruct (Track_play_speed 0 now (Track.stop tr1)) as [-> ->]. done.
Qed.

Lemma JS_eq_true (a b : Q) : JS.eq a b = true <-> (a == b)%Q.
Proof. unfold JS.eq. apply Qeq_bool_iff. Qed.

Lemma JS_gt_true (a b : Q) : JS.gt a b = true <-> (b < a)%Q.
Proof.
  unfold JS.gt. rewrite negb_true_iff. split.
  - intros H. apply Qnot_le_lt. intros Hle. apply Qle_bool_iff in Hle. congruence.
  - intros H. destruct (Qle_bool a b) eqn:E; [|done].
    apply Qle_bool_iff in E. exfalso. by apply (Qlt_not_le _ _ H).
Qed.

Lemma JS_lt_true (a b : Q) : JS.lt a b = true <-> (a < b)%Q.
Proof. apply (JS_gt_true b a). Qed.

Lemma JS_le_true (a b : Q) : JS.le a b = true <-> (a <= b)%Q.
Proof. unfold JS.le. apply Qle_bool_iff. Qed.

Lemma JS_eq_false (a b : Q) : ~ (a == b)%Q -> JS.eq a b = false.
Proof. intros H. destruct (JS.eq a b) eqn:E; [|done]. by apply JS_eq_true in E. Qed.

Lemma JS_gt_false (a b : Q) : (a <= b)%Q -> JS.gt a b = false.
Proof.
  intros H. destruct (JS.gt a b) eqn:E; [|done].
  apply JS_gt_true in E. exfalso. by apply (Qlt_not_le _ _ E).
Qed.

Lemma JS_lt_false (a b : Q) : (b <= a)%Q -> JS.lt a b = false.
Proof. apply (JS_gt_false b a). Qed.

Lemma Math_pow_4 (x : Q) : JS.Math_pow 4 (x / 100) = Rpower 4 (Q2R x / 100).
Proof.
  unfold JS.Math_pow. f_equal.
  - unfold Q2R; simpl. lra.
  - rewrite Q2R_div by discriminate. f_equal. unfold Q2R; simpl. lra.
Qed.

Lemma Q2R_abs_neg (v : Q) : (v < 0)%Q -> Q2R (Qabs v) = Rabs (Q2R v).
Proof.
  intros Hv. rewrite (Qeq_eqR _ _ (Qabs_neg v (Qlt_le_weak _ _ Hv))).
  rewrite Q2R_opp. apply Qlt_Rlt in Hv. rewrite RMicromega.Q2R_0 in Hv.
  rewrite Rabs_left; lra.
Qed.

(** C2.  From any track state: [setSpeed(0)] gives rate exactly 1 and
    forward; [setSpeed(v)] with [0 < v <= 100] gives rate [4^(v/100)]
    and forward; with [-100 <= v < 0] it gives rate [4^(|v|/100)] and
    reverse; [setSpeed(100)] gives 4 forward and [setSpeed(-100)] gives
    4 reverse; and for [v <> 0], [setSpeed(v)] and [setSpeed(-v)] give
    the same rate with opposite directions. *)
Theorem setSpeed_bipolar (tr : Track.t) (now : Q) :
  let rate v := Track.playbackRate (Track.setSpeed v now tr) in
  let reversed v := Track.isReversed (Track.setSpeed v now tr) in
  (rate 0%Q = 1%R /\ reversed 0%Q = false) /\
  (forall v, (0 < v)%Q -> (v <= 100)%Q ->
     rate v = Rpower 4 (Q2R v / 100) /\ reversed v = false) /\
  (forall v, (-100 <= v)%Q -> (v < 0)%Q ->
     rate v = Rpower 4 (Rabs (Q2R v) / 100) /\ reversed v = true) /\
  (rate 100%Q = 4%R /\ reversed 100%Q = false) /\
  (rate (-100)%Q = 4%R /\ reversed (-100)%Q = true) /\
  (forall v, ~ (v == 0)%Q ->
     rate v = rate (- v)%Q /\ reversed v = negb (reversed (- v)%Q)).
Proof.
  intros rate reversed.
  assert (Hpos : forall v, (0 < v)%Q ->
            rate v = Rpower 4 (Q2R v / 100) /\ reversed v = false).
  { intros v Hv. unfold rate, reversed.
    destruct (setSpeed_fields v now tr) as [-> ->].
    rewrite JS_eq_false by (intros E; rewrite E in Hv; by apply (Qlt_irrefl 0)).
    rewrite (proj2 (JS_gt_true v 0) Hv). split; [apply Math_pow_4|done]. }
  assert (Hneg : forall v, (v < 0)%Q ->
            rate v = Rpower 4 (Rabs (Q2R v) / 100) /\ reversed v = true).
  { intros v Hv. unfold rate, reversed.
    destruct (setSpeed_fields v now tr) as [-> ->].
    rewrite JS_eq_false by (intros E; rewrite E in Hv; by apply (Qlt_irrefl 0)).
    rewrite JS_gt_false by (by apply Qlt_le_weak). split; [|done].
    unfold JS.Math_abs. rewrite Math_pow_4. by rewrite Q2R_abs_neg. }
  assert (H4 : forall x : R, x = 100%R -> Rpower 4 (x / 100) = 4%R).
  { intros x ->. replace (100 / 100)%R with 1%R by lra. apply Rpower_1. lra. }
  split; [|split; [|split; [|split; [|split]]]].
  - unfold rate, reversed. by destruct (setSpeed_fields 0 now tr) as [-> ->].
  - intros v Hv _. by apply Hpos.
  - intros v _ Hv. by apply Hneg.
  - destruct (Hpos 100%Q) as [-> ->]; [done|]. split; [|done].
    apply H4. unfold Q2R; simpl. lra.
  - destruct (Hneg (-100)%Q) as [-> ->]; [done|]. split; [|done].
    apply H4. unfold Q2R; simpl. rewrite Rabs_left; lra.
  - intros v Hv. destruct (Q_dec v 0) as [[Hlt|Hgt]|Heq]; [| |done].
    + assert (Hopp : (0 < - v)%Q) by (apply Qlt_minus_iff in Hlt; by rewrite Qplus_0_l in Hlt).
      destruct (Hneg v Hlt) as [-> ->]. destruct (Hpos (- v)%Q Hopp) as [-> ->].
      split; [|done]. rewrite Q2R_opp. f_equal. f_equal.
      apply Qlt_Rlt in Hlt. rewrite RMicromega.Q2R_0 in Hlt. rewrite Rabs_left; lra.
    + assert (Hopp : (- v < 0)%Q).
      { apply Qlt_minus_iff. rewrite Qopp_involutive, Qplus_0_l. done. }
      destruct (Hpos v Hgt) as [-> ->]. destruct (Hneg (- v)%Q Hopp) as [-> ->].
      split; [|done]. rewrite Q2R_opp. f_equal. f_equal.
      apply Qlt_Rlt in Hgt. rewrite RMicromega.Q2R_0 in Hgt.
      rewrite Rabs_left; lra.
Qed.

Lemma setSpeed_bipolar_witness :
  Track.playbackRate (Track.setSpeed 50 0 (Track.create 0)) = Rpower 4 (Q2R 50 / 100) /\
  Track.isReversed (Track.setSpeed (-50) 0 (Track.create 0)) = true.
Proof.
  destruct (setSpeed_bipolar (Track.create 0) 0) as (_ & Hpos & Hneg & _).
  split.
  - apply (Hpos 50%Q); [reflexivity | discriminate].
  - apply (Hneg (-50)%Q); [discriminate | reflexivity].
Defined.

(** ** LA-2A style compressor controls (C6) *)

Lemma Math_pow_10_db (amount : Q) :
  JS.Math_pow 10 (amount * 20 / 20) = Rpower 10 (Q2R amount).
Proof.
  unfold JS.Math_pow. f_equal.
  - unfold Q2R; simpl. lra.
  - apply Qeq_eqR. field.
Qed.

(** C6.  For every amount [a] in [0, 1], on a track and on the master
    bus alike, the peak-reduction setter stores threshold [-10 - 30 a]
    dB and ratio [3 + 5 a], and the makeup-gain setter stores the linear
    gain [10^a]; at the ends of the range: threshold -10 and ratio 3 at
    0, threshold -40 and ratio 8 at 1, gain 1 at 0 and gain 10 at 1. *)
Theorem la2a_control_curves (tr : Track.t) (r : Recorder.t) :
  (forall a : Q, (0 <= a)%Q -> (a <= 1)%Q ->
     (Track.la2aThreshold (Track.setLA2APeakReduction a tr) == -10 - 30 * a)%Q /\
     (Track.la2aRatio (Track.setLA2APeakReduction a tr) == 3 + 5 * a)%Q /\
     Track.la2aMakeupGain (Track.setLA2AGain a tr) = Rpower 10 (Q2R a) /\
     (Recorder.masterLA2AThreshold (Recorder.setMasterLA2APeakReduction a r)
        == -10 - 30 * a)%Q /\
     (Recorder.masterLA2ARatio (Recorder.setMasterLA2APeakReduction a r)
        == 3 + 5 * a)%Q /\
     Recorder.masterLA2AMakeupGain (Recorder.setMasterLA2AGain a r)
       = Rpower 10 (Q2R a)) /\
  ((Track.la2aThreshold (Track.setLA2APeakReduction 0 tr) == -10)%Q /\
   (Track.la2aRatio (Track.setLA2APeakReduction 0 tr) == 3)%Q /\
   (Track.la2aThreshold (Track.setLA2APeakReduction 1 tr) == -40)%Q /\
   (Track.la2aRatio (Track.setLA2APeakReduction 1 tr) == 8)%Q /\
   Track.la2aMakeupGain (Track.setLA2AGain 0 tr) = 1%R /\
   Track.la2aMakeupGain (Track.setLA2AGain 1 tr) = 10%R) /\
  ((Recorder.masterLA2AThreshold (Recorder.setMasterLA2APeakReduction 0 r) == -10)%Q /\
   (Recorder.masterLA2ARatio (Recorder.setMasterLA2APeakReduction 0 r) == 3)%Q /\
   (Recorder.masterLA2AThreshold (Recorder.setMasterLA2APeakReduction 1 r) == -40)%Q /\
   (Recorder.masterLA2ARatio (Recorder.setMasterLA2APeakReduction 1 r) == 8)%Q /\
   Recorder.masterLA2AMakeupGain (Recorder.setMasterLA2AGain 0 r) = 1%R /\
   Recorder.masterLA2AMakeupGain (Recorder.setMasterLA2AGain 1 r) = 10%R).
Proof.
  assert (H0 : Rpower 10 (Q2R 0) = 1%R).
  { rewrite RMicromega.Q2R_0. apply Rpower_O. lra. }
  assert (H1 : Rpower 10 (Q2R 1) = 10%R).
  { rewrite RMicromega.Q2R_1. apply Rpower_1. lra. }
  split; [|split].
  - intros a _ _. simpl. rewrite !Math_pow_10_db.
    repeat split; try reflexivity; ring.
  - simpl. rewrite !Math_pow_10_db, H0, H1. repeat split; reflexivity.
  - simpl. rewrite !Math_pow_10_db, H0, H1. repeat split; reflexivity.
Qed.

Lemma la2a_control_curves_witness :
  (Track.la2aThreshold (Track.setLA2APeakReduction (1 # 2) (Track.create 0)) == -25)%Q /\
  (Recorder.masterLA2ARatio (Recorder.setMasterLA2APeakReduction (1 # 2) (Recorder.init 44100 demoDraws))
     == 11 # 2)%Q.
Proof.
  destruct (la2a_control_curves (Track.create 0) (Recorder.init 44100 demoDraws)) as [H _].
  destruct (H (1 # 2)%Q) as (Ht & _ & _ & _ & Hr & _); [discriminate | discriminate |].
  split.
  - rewrite Ht. reflexivity.
  - rewrite Hr. reflexivity.
Defined.

(** ** Mute and solo (C9, C10) *)

(** C9.  Whatever the channel fader [f] was, [setMute(true)] puts the
    fader gain at 0 and a following [setMute(false)] puts it at the
    fixed level 0.8; the value [f] is not brought back. *)
Theorem unmute_sets_fixed_level (tr : Track.t) (f : Q) :
  let tr0 := Track.setFader f tr in
  let muted := Track.setMute true tr0 in
  let unmuted := Track.setMute false muted in
  Track.channelFader tr0 = f /\
  Track.isMuted muted = true /\ Track.channelFader muted = 0%Q /\
  Track.isMuted unmuted = false /\ Track.channelFader unmuted = 0.8%Q.
Proof. simpl. repeat split; reflexivity. Qed.

Example unmute_forgets_fader :
  Track.channelFader
    (Track.setMute false (Track.setMute true (Track.setFader 0.3 (Track.create 0))))
  = 0.8%Q.
Proof. reflexivity. Qed.

(** A run of solo-button presses. *)
Lemma handleSolo_length (k : nat) (r : Recorder.t) :
  length (Recorder.tracks (Recorder.handleSolo k r)) = length (Recorder.tracks r).
Proof.
  unfold Recorder.handleSolo.
  destruct (Recorder.tracks r !! k); [|done].
  destruct (existsb _ _); simpl; by rewrite length_map, length_insert.
Qed.

Lemma pressSolo_length (ks : list nat) (r : Recorder.t) :
  length (Recorder.tracks (pressSolo ks r)) = length (Recorder.tracks r).
Proof.
  revert r. induction ks as [|k ks IH]; intros r; simpl; [done|].
  by rewrite IH, handleSolo_length.
Qed.

(** [handleSolo] never clears a mute flag. *)
Lemma handleSolo_keeps_muted (k j : nat) (r : Recorder.t) (t : Track.t) :
  Recorder.tracks r !! j = Some t -> Track.isMuted t = true ->
  exists t', Recorder.tracks (Recorder.handleSolo k r) !! j = Some t' /\
             Track.isMuted t' = true.
Proof.
  intros Hj Hm. unfold Recorder.handleSolo.
  destruct (Recorder.tracks r !! k) as [tk|] eqn:Hk; [|eauto].
  set (ts := <[k := _]> (Recorder.tracks r)).
  assert (Hts : exists t0, ts !! j = Some t0 /\ Track.isMuted t0 = true).
  { unfold ts. destruct (decide (k = j)) as [->|Hne].
    - rewrite list_lookup_insert_eq by (by eapply lookup_lt_Some).
      eexists; split; [done|]. simpl. congruence.
    - rewrite list_lookup_insert_ne by done. eauto. }
  destruct Hts as (t0 & Ht0 & Hm0).
  destruct (existsb _ _); simpl; rewrite list_lookup_fmap, Ht0; simpl.
  - eexists; split; [done|]. by destruct (Track.isSolo t0).
  - eexists; split; [done|]. simpl. done.
Qed.

(** After a press that reaches a track, a muted track that is not solo
    has its fader at 0. *)
Lemma handleSolo_silences (k : nat) (r : Recorder.t) :
  (k < length (Recorder.tracks r))%nat ->
  silenced (Recorder.handleSolo k r).
Proof.
  intros Hk j t Hj Hs Hm. unfold Recorder.handleSolo in Hj.
  destruct (lookup_lt_is_Some_2 _ _ Hk) as [tk Htk]. rewrite Htk in Hj.
  destruct (existsb _ _); simpl in Hj; rewrite list_lookup_fmap in Hj;
    destruct (_ !! j) as [t0|]; simpl in Hj; try done;
    inversion Hj; subst; clear Hj.
  - destruct (Track.isSolo t0) eqn:E; simpl in *; [congruence|done].
  - simpl in *. by rewrite Hm.
Qed.

Lemma handleSolo_silenced (k : nat) (r : Recorder.t) :
  silenced r -> silenced (Recorder.handleSolo k r).
Proof.
  intros Hr. destruct (decide (k < length (Recorder.tracks r))%nat) as [Hk|Hk].
  - by apply handleSolo_silences.
  - unfold Recorder.handleSolo. rewrite lookup_ge_None_2 by lia. done.
Qed.

Lemma pressSolo_silenced (ks : list nat) (r : Recorder.t) :
  silenced r -> silenced (pressSolo ks r).
Proof.
  revert r. induction ks as [|k ks IH]; intros r Hr; simpl; [done|].
  by apply IH, handleSolo_silenced.
Qed.

Lemma pressSolo_keeps_muted (ks : list nat) (j : nat) (r : Recorder.t) (t : Track.t) :
  Recorder.tracks r !! j = Some t -> Track.isMuted t = true ->
  exists t', Recorder.tracks (pressSolo ks r) !! j = Some t' /\
             Track.isMuted t' = true.
Proof.
  revert r t. induction ks as [|k ks IH]; intros r t Hj Hm; simpl; [eauto|].
  destruct (handleSolo_keeps_muted k j r t Hj Hm) as (t' & Hj' & Hm').
  by apply (IH _ t').
Qed.

Lemma existsb_isSolo_false (ts : list Track.t) (j : nat) (t : Track.t) :
  existsb Track.isSolo ts = false -> ts !! j = Some t -> Track.isSolo t = false.
Proof.
  intros He Hj. destruct (Track.isSolo t) eqn:E; [|done].
  assert (existsb Track.isSolo ts = true); [|congruence].
  apply existsb_exists. exists t. split; [|done].
  apply list_elem_of_In, list_elem_of_lookup. eauto.
Qed.

(** C10.  Start with no track solo and engage solo on track [k]: every
    other track gets [setMute(true)], so its own [isMuted] flag becomes
    true and its fader 0, whatever they were.  After any further solo
    presses that end with no track solo, every track other than [k] is
    still muted with fader 0: clearing solo does not bring back the
    unmuted state from before the solo. *)
Theorem solo_leaves_others_muted (r : Recorder.t) (k : nat) :
  existsb Track.isSolo (Recorder.tracks r) = false ->
  (k < length (Recorder.tracks r))%nat ->
  let engaged := Recorder.handleSolo k r in
  (exists tk, Recorder.tracks engaged !! k = Some tk /\ Track.isSolo tk = true) /\
  (forall j, j <> k -> (j < length (Recorder.tracks r))%nat ->
     exists t, Recorder.tracks engaged !! j = Some t /\
       Track.isSolo t = false /\ Track.isMuted t = true /\
       Track.channelFader t = 0%Q) /\
  (forall ks, let cleared := pressSolo ks engaged in
     existsb Track.isSolo (Recorder.tracks cleared) = false ->
     forall j, j <> k -> (j < length (Recorder.tracks r))%nat ->
       exists t, Recorder.tracks cleared !! j = Some t /\
         Track.isMuted t = true /\ Track.channelFader t = 0%Q) /\
  (let cleared := Recorder.handleSolo k engaged in
   existsb Track.isSolo (Recorder.tracks cleared) = false).
Proof.
  intros Hno Hk engaged.
  destruct (lookup_lt_is_Some_2 _ _ Hk) as [tk Htk].
  assert (Hsk : Track.isSolo tk = false) by (by eapply existsb_isSolo_false).
  set (ts := <[k := Track.setSolo true tk]> (Recorder.tracks r)).
  assert (Hany : existsb Track.isSolo ts = true).
  { apply existsb_exists. exists (Track.setSolo true tk). split; [|done].
    apply list_elem_of_In, list_elem_of_lookup. exists k.
    unfold ts. by rewrite list_lookup_insert_eq. }
  assert (Heng : Recorder.tracks engaged =
            map (fun t => if negb (Track.isSolo t) then Track.setMute true t else t) ts).
  { unfold engaged, Recorder.handleSolo. rewrite Htk, Hsk. simpl negb.
    fold ts. by rewrite Hany. }
  assert (Hothers : forall j, j <> k -> (j < length (Recorder.tracks r))%nat ->
     exists t, Recorder.tracks engaged !! j = Some t /\
       Track.isSolo t = false /\ Track.isMuted t = true /\
       Track.channelFader t = 0%Q).
  { intros j Hj Hlt. destruct (lookup_lt_is_Some_2 _ _ Hlt) as [tj Htj].
    rewrite Heng, list_lookup_fmap. unfold ts.
    rewrite list_lookup_insert_ne by done. rewrite Htj. simpl.
    rewrite (existsb_isSolo_false _ _ _ Hno Htj). simpl.
    eexists; split; [done|]. simpl.
    by rewrite (existsb_isSolo_false _ _ _ Hno Htj). }
  split; [|split; [|split]].
  - rewrite Heng, list_lookup_fmap. unfold ts.
    rewrite list_lookup_insert_eq by done. simpl. eauto.
  - exact Hothers.
  - intros ks cleared Hclear j Hj Hlt.
    destruct (Hothers j Hj Hlt) as (t & Ht & _ & Hm & _).
    destruct (pressSolo_keeps_muted ks j engaged t Ht Hm) as (t' & Ht' & Hm').
    exists t'. split; [done|]. split; [done|].
    assert (Hsil : silenced (pressSolo ks engaged)).
    { apply pressSolo_silenced. by apply handleSolo_silences. }
    apply (Hsil j t' Ht'); [|done].
    by eapply existsb_isSolo_false.
  - unfold Recorder.handleSolo at 1. rewrite Heng, list_lookup_fmap. unfold ts at 1.
    rewrite list_lookup_insert_eq by done. simpl.
    set (ts' := <[k := _]> _).
    assert (Hnone : existsb Track.isSolo ts' = false).
    { apply not_true_is_false. intros He. apply existsb_exists in He.
      destruct He as (x & Hin & Hx).
      apply list_elem_of_In, list_elem_of_lookup in Hin. destruct Hin as [j Hjx].
      unfold ts' in Hjx. destruct (decide (j = k)) as [->|Hne].
      - rewrite list_lookup_insert_eq in Hjx.
        + inversion Hjx; subst. simpl in Hx. done.
        + rewrite length_map. unfold ts. by rewrite length_insert.
      - rewrite list_lookup_insert_ne in Hjx by done.
        rewrite list_lookup_fmap in Hjx. unfold ts in Hjx.
        rewrite list_lookup_insert_ne in Hjx by done.
        destruct (Recorder.tracks r !! j) as [tj|] eqn:Htj; simpl in Hjx; [|done].
        pose proof (existsb_isSolo_false _ _ _ Hno Htj) as Hs.
        rewrite Hs in Hjx. simpl in Hjx. inversion Hjx; subst. simpl in Hx.
        congruence. }
    rewrite Hnone. simpl.
    apply not_true_is_false. intros He. apply existsb_exists in He.
    destruct He as (x & Hin & Hx). apply in_map_iff in Hin.
    destruct Hin as (y & <- & Hy). simpl in Hx.
    assert (existsb Track.isSolo ts' = true); [|congruence].
    apply existsb_exists. eauto.
Qed.

Lemma solo_leaves_others_muted_witness :
  exists t,
    Recorder.tracks (Recorder.handleSolo 1 (Recorder.handleSolo 1 (Recorder.init 44100 demoDraws)))
      !! 0%nat = Some t /\
    Track.isMuted t = true /\ Track.channelFader t = 0%Q.
Proof.
  destruct (solo_leaves_others_muted (Recorder.init 44100 demoDraws) 1) as (_ & _ & H & _).
  - reflexivity.
  - simpl. lia.
  - apply (H [1%nat]); [reflexivity | lia | simpl; lia].
Defined.

(** ** The reverb impulse cache (C7) *)

Section MapFacts.
Context {V : Type}.
Implicit Types (m : list (string * V)) (k : string).

Lemma JSMap_has_keys k m : JSMap.has k m = true <-> k ∈ JSMap.keys m.
Proof.
  unfold JSMap.has. rewrite bool_decide_eq_true.
  induction m as [|[k' v'] m IH]; simpl.
  - split; [by intros [? ?]|]. by intros ?%elem_of_nil.
  - destruct (decide (k' = k)) as [->|Hne].
    + split; [intros _; apply elem_of_cons; by left|eauto].
    + rewrite IH, elem_of_cons. split; [by right|].
      intros [?|?]; [congruence|done].
Qed.

Lemma JSMap_set_present k (v : V) m :
  k ∈ JSMap.keys m ->
  JSMap.keys (JSMap.set k v m) = JSMap.keys m /\
  length (JSMap.set k v m) = length m.
Proof.
  induction m as [|[k' v'] m IH]; simpl; [by intros ?%elem_of_nil|].
  intros Hin. destruct (decide (k' = k)) as [->|Hne]; simpl; [done|].
  apply elem_of_cons in Hin as [->|Hin]; [done|].
  destruct (IH Hin) as [-> ->]. done.
Qed.

Lemma JSMap_set_absent k (v : V) m :
  k ∉ JSMap.keys m -> JSMap.set k v m = m ++ [(k, v)].
Proof.
  induction m as [|[k' v'] m IH]; simpl; [done|].
  intros Hin. apply not_elem_of_cons in Hin as [Hne Hin].
  rewrite decide_False by done. by rewrite IH.
Qed.

Lemma JSMap_delete_absent k m : k ∉ JSMap.keys m -> JSMap.delete k m = m.
Proof.
  unfold JSMap.delete. induction m as [|[k' v'] m IH]; [done|].
  intros Hin. simpl in Hin. apply not_elem_of_cons in Hin as [Hne Hin].
  rewrite filter_cons_True by (simpl; congruence). by rewrite IH.
Qed.

(** Deleting the first key of a map without repeated keys drops the
    first entry and nothing else. *)
Lemma JSMap_delete_first k (v : V) m :
  k ∉ JSMap.keys m -> JSMap.delete k ((k, v) :: m) = m.
Proof.
  intros Hin. unfold JSMap.delete.
  rewrite filter_cons_False by (simpl; intros H; by apply H).
  by apply JSMap_delete_absent.
Qed.
End MapFacts.

(** What one response does to the cache. *)
Lemma receive_cache (m : ImpulseResponse) (r : Recorder.t) :
  exists buffer,
    let m1 := JSMap.set (cacheKey m) buffer (Recorder.reverbCache r) in
    Recorder.reverbCache (receive m r) =
      if (5 <? JSMap.size m1)%nat then
        match JSMap.firstKey m1 with
        | Some firstKey => JSMap.delete firstKey m1
        | None => m1
        end
      else m1.
Proof.
  exists (Recorder.copyToChannel
            (Recorder.copyToChannel
               (createBuffer 2 (length (ir_left m)) (Recorder.ctxSampleRate r))
               (ir_left m) 0) (ir_right m) 1).
  unfold receive, Recorder.onReverbWorkerMessage, cacheKey. simpl.
  match goal with |- context [(5 <? ?n)%nat] => destruct (5 <? n)%nat end; [|done].
  by destruct (JSMap.firstKey _).
Qed.

(** The keys after one response, in map order. *)
Lemma receive_keys (m : ImpulseResponse) (r : Recorder.t) :
  let ks := JSMap.keys (Recorder.reverbCache r) in
  NoDup ks -> (length ks <= 5)%nat ->
  JSMap.keys (Recorder.reverbCache (receive m r)) =
    if decide (cacheKey m ∈ ks) then ks
    else if decide (length ks = 5%nat) then tail ks ++ [cacheKey m]
    else ks ++ [cacheKey m].
Proof.
  intros ks Hnd Hlen. destruct (receive_cache m r) as [buffer ->]. simpl.
  unfold ks in *. clear ks.
  set (cache := Recorder.reverbCache r) in *. set (key := cacheKey m).
  assert (Hl : length (JSMap.keys cache) = length cache)
    by (unfold JSMap.keys; apply length_map).
  rewrite Hl in *. unfold JSMap.size.
  destruct (decide (key ∈ JSMap.keys cache)) as [Hin|Hout].
  - destruct (JSMap_set_present key buffer cache Hin) as [Hk Hs]. rewrite Hs.
    replace (5 <? length cache)%nat with false by (symmetry; apply Nat.ltb_ge; lia).
    done.
  - rewrite (JSMap_set_absent key buffer cache Hout), length_app. simpl.
    destruct (decide (length cache = 5%nat)) as [Hfull|Hroom].
    + replace (5 <? length cache + 1)%nat with true by (symmetry; apply Nat.ltb_lt; lia).
      destruct cache as [|[e ve] rest]; [done|].
      change (JSMap.firstKey (((e, ve) :: rest) ++ [(key, buffer)])) with (Some e).
      change (((e, ve) :: rest) ++ [(key, buffer)])
        with ((e, ve) :: (rest ++ [(key, buffer)])).
      simpl in Hnd, Hout. apply NoDup_cons in Hnd as [Hnot _].
      apply not_elem_of_cons in Hout as [Hne _].
      rewrite JSMap_delete_first.
      * unfold JSMap.keys. by rewrite map_app.
      * unfold JSMap.keys. rewrite map_app. simpl. intros Hin.
        apply elem_of_app in Hin as [Hin|Hin]; [by apply Hnot|].
        apply list_elem_of_singleton in Hin. congruence.
    + replace (5 <? length cache + 1)%nat with false by (symmetry; apply Nat.ltb_ge; lia).
      unfold JSMap.keys. by rewrite map_app.
Qed.

Lemma firstKey_head {V : Type} (cache : list (string * V)) :
  JSMap.firstKey cache = head (JSMap.keys cache).
Proof. by destruct cache. Qed.

Lemma cached_keys (k : string) (r : Recorder.t) :
  cached k r <-> k ∈ JSMap.keys (Recorder.reverbCache r).
Proof. apply JSMap_has_keys. Qed.

Lemma cache_inv_snoc (n : nat) (ks : list string) (born born' : Stamps) (key : string) :
  cache_inv n ks born -> key ∉ ks -> (length ks < 5)%nat ->
  (forall k, k ∈ ks -> born' k = born k) -> born' key = Some n ->
  cache_inv (S n) (ks ++ [key]) born'.
Proof.
  intros (Hnd & Hlen & Hold & Hord) Hout Hroom Hsame Hnew.
  assert (Hcase : forall i k, (ks ++ [key]) !! i = Some k ->
    (ks !! i = Some k /\ (i < length ks)%nat) \/ (k = key /\ i = length ks)).
  { intros i k Hi. apply lookup_app_Some in Hi as [Hi|[Hge Hi]].
    - left. split; [done|]. by eapply lookup_lt_Some.
    - right. apply list_lookup_singleton_Some in Hi as [Hi ->]. split; [done|lia]. }
  split; [|split; [|split]].
  - apply NoDup_app. split; [done|]. split; [|apply NoDup_singleton].
    intros x Hx Hx'. apply list_elem_of_singleton in Hx'. by subst.
  - rewrite length_app. simpl. lia.
  - intros i k Hi. destruct (Hcase i k Hi) as [[Hi' _]|[-> _]].
    + destruct (Hold i k Hi') as (s & Hs & Hlt). exists s.
      rewrite Hsame by (apply list_elem_of_lookup; eauto). split; [done|lia].
    + exists n. split; [done|lia].
  - intros i j ki kj Hij Hi Hj.
    destruct (Hcase i ki Hi) as [[Hi' Hil]|[-> ->]];
      destruct (Hcase j kj Hj) as [[Hj' Hjl]|[-> ->]]; try lia.
    + destruct (Hord i j ki kj Hij Hi' Hj') as (si & sj & Hsi & Hsj & Hlt).
      exists si, sj. rewrite !Hsame by (apply list_elem_of_lookup; eauto). done.
    + destruct (Hold i ki Hi') as (s & Hs & Hlt). exists s, n.
      rewrite Hsame by (apply list_elem_of_lookup; eauto). done.
Qed.

Lemma cache_inv_tail (n : nat) (e : string) (ks : list string) (born : Stamps) :
  cache_inv n (e :: ks) born -> cache_inv n ks born.
Proof.
  intros (Hnd & Hlen & Hold & Hord). split; [|split; [|split]].
  - by apply NoDup_cons in Hnd as [_ ?].
  - simpl in Hlen. lia.
  - intros i k Hi. by apply (Hold (S i) k).
  - intros i j ki kj Hij Hi Hj. apply (Hord (S i) (S j) ki kj); [lia|done|done].
Qed.

(** One response: the cache invariant is kept, the new key is cached,
    nothing is evicted unless the cache was full and the key new, and
    in that case exactly the first, oldest, entry goes. *)
Lemma receive_step (n : nat) (m : ImpulseResponse) (r : Recorder.t) (born : Stamps) :
  cache_inv n (JSMap.keys (Recorder.reverbCache r)) born ->
  cache_inv (S n) (JSMap.keys (Recorder.reverbCache (receive m r))) (stamp n m r born) /\
  cached (cacheKey m) (receive m r) /\
  ((JSMap.size (Recorder.reverbCache r) < 5)%nat \/ cached (cacheKey m) r ->
   forall k, cached k r -> cached k (receive m r)) /\
  (JSMap.size (Recorder.reverbCache r) = 5%nat -> ~ cached (cacheKey m) r ->
   exists e, JSMap.firstKey (Recorder.reverbCache r) = Some e /\
     ~ cached e (receive m r) /\
     (forall k, cached k r -> k <> e -> cached k (receive m r)) /\
     (forall k, cached k r -> older_eq born e k)).
Proof.
  intros Hinv. pose proof Hinv as (Hnd & Hlen & Hold & Hord).
  pose proof (receive_keys m r Hnd Hlen) as Hk. simpl in Hk.
  assert (Hsz : JSMap.size (Recorder.reverbCache r)
                = length (JSMap.keys (Recorder.reverbCache r))).
  { unfold JSMap.size, JSMap.keys. by rewrite length_map. }
  rewrite Hsz, firstKey_head.
  setoid_rewrite cached_keys. rewrite Hk. clear Hk Hsz.
  set (ks := JSMap.keys (Recorder.reverbCache r)) in *.
  set (key := cacheKey m) in *.
  assert (Hsame : forall k, k ∈ ks -> k <> key \/ key ∈ ks -> stamp n m r born k = born k).
  { intros k Hk Hor. unfold stamp. fold key.
    destruct (decide (k = key)) as [->|?]; [|done].
    destruct Hor as [?|Hin]; [done|].
    by rewrite (proj2 (JSMap_has_keys key (Recorder.reverbCache r)) Hin). }
  assert (Hnew : key ∉ ks -> stamp n m r born key = Some n).
  { intros Hout. unfold stamp. fold key. rewrite decide_True by done.
    destruct (JSMap.has key (Recorder.reverbCache r)) eqn:E; [|done].
    by apply JSMap_has_keys in E. }
  clearbody ks key.
  destruct (decide (key ∈ ks)) as [Hin|Hout].
  - (* the key is cached already: the entry is updated where it stands *)
    split; [|split; [done|split]].
    + split; [done|]. split; [done|]. split.
      * intros i k Hi. destruct (Hold i k Hi) as (s & Hs & Hlt). exists s.
        rewrite Hsame; [split; [done|lia]| |by right].
        apply list_elem_of_lookup; eauto.
      * intros i j ki kj Hij Hi Hj.
        destruct (Hord i j ki kj Hij Hi Hj) as (si & sj & Hsi & Hsj & Hlt).
        exists si, sj.
        rewrite !Hsame; [done| |by right| |by right]; apply list_elem_of_lookup; eauto.
    + done.
    + intros _ Hno. by exfalso.
  - (* a new key *)
    assert (Hsame' : forall k, k ∈ ks -> stamp n m r born k = born k).
    { intros k Hk. apply Hsame; [done|]. left. intros ->. done. }
    destruct (decide (length ks = 5%nat)) as [Hfull|Hroom].
    + (* full: the first entry is evicted, the new one appended *)
      destruct ks as [|e rest]; [done|]. simpl tail. simpl head.
      apply not_elem_of_cons in Hout as [Hne Hout'].
      pose proof Hnd as [Hnot Hnd']%NoDup_cons.
      split; [|split; [|split]].
      * apply cache_inv_snoc with (born := born).
        -- by apply cache_inv_tail with (e := e).
        -- done.
        -- simpl in Hfull. lia.
        -- intros k Hk. apply Hsame'. apply elem_of_cons. by right.
        -- apply Hnew. apply not_elem_of_cons. done.
      * apply elem_of_app. right. apply elem_of_cons. by left.
      * intros [Hlt|Hin]; [lia|]. exfalso.
        apply elem_of_cons in Hin as [?|?]; [congruence|done].
      * intros _ _. exists e. split; [done|]. split; [|split].
        -- intros Hin. apply elem_of_app in Hin as [?|Hin]; [done|].
           apply list_elem_of_singleton in Hin. congruence.
        -- intros k Hk Hke. apply elem_of_cons in Hk as [?|Hk]; [done|].
           apply elem_of_app. by left.
        -- intros k Hk. apply list_elem_of_lookup in Hk as [j Hj].
           destruct j as [|j].
           ++ simpl in Hj. inversion Hj; subst k.
              destruct (Hold 0%nat e) as (s & Hs & _); [done|].
              exists s, s. split; [done|]. split; [done|lia].
           ++ destruct (Hord 0%nat (S j) e k) as (se & sk & Hse & Hsk & Hlt);
                [lia|done|done|].
              exists se, sk. split; [done|]. split; [done|lia].
    + (* room left: nothing is evicted *)
      split; [|split; [|split]].
      * apply cache_inv_snoc with (born := born); try done; [lia|by apply Hnew].
      * apply elem_of_app. right. apply elem_of_cons. by left.
      * intros _ k Hk. apply elem_of_app. by left.
      * intros Hsz. done.
Qed.

Lemma history_app (n : nat) (ms ms' : list ImpulseResponse) (r : Recorder.t)
    (born : Stamps) :
  history n (ms ++ ms') r born =
  history (n + length ms) ms' (history n ms r born).1 (history n ms r born).2.
Proof.
  revert n r born. induction ms as [|m ms IH]; intros n r born; simpl.
  - by rewrite Nat.add_0_r.
  - rewrite IH. by replace (S n + length ms)%nat with (n + S (length ms))%nat by lia.
Qed.

Lemma history_inv (n : nat) (ms : list ImpulseResponse) (r : Recorder.t) (born : Stamps) :
  cache_inv n (JSMap.keys (Recorder.reverbCache r)) born ->
  cache_inv (n + length ms)
    (JSMap.keys (Recorder.reverbCache (history n ms r born).1)) (history n ms r born).2.
Proof.
  revert n r born. induction ms as [|m ms IH]; intros n r born Hinv; simpl.
  - by rewrite Nat.add_0_r.
  - replace (n + S (length ms))%nat with (S n + length ms)%nat by lia.
    apply IH. by apply receive_step.
Qed.

(** C7.  Start from an empty impulse cache and let any sequence of
    worker responses arrive.  After each one the cache holds at most 5
    entries and the new key is cached.  Nothing is evicted unless the
    response would take the cache past 5 entries (cache full, key not
    cached yet); in that case exactly one entry goes, the first in the
    map, and it is the oldest: its creation index is no larger than
    that of any entry cached before the response. *)
Theorem impulse_cache_bounded_fifo (r0 : Recorder.t) (ms : list ImpulseResponse)
    (n : nat) (m : ImpulseResponse) :
  Recorder.reverbCache r0 = JSMap.empty ->
  ms !! n = Some m ->
  let before := (history 0 (take n ms) r0 (fun _ => None)).1 in
  let born := (history 0 (take n ms) r0 (fun _ => None)).2 in
  let after := receive m before in
  (JSMap.size (Recorder.reverbCache before) <= 5)%nat /\
  (JSMap.size (Recorder.reverbCache after) <= 5)%nat /\
  cached (cacheKey m) after /\
  ((JSMap.size (Recorder.reverbCache before) < 5)%nat \/ cached (cacheKey m) before ->
   forall k, cached k before -> cached k after) /\
  (JSMap.size (Recorder.reverbCache before) = 5%nat -> ~ cached (cacheKey m) before ->
   exists e, JSMap.firstKey (Recorder.reverbCache before) = Some e /\
     ~ cached e after /\
     (forall k, cached k before -> k <> e -> cached k after) /\
     (forall k, cached k before -> older_eq born e k)).
Proof.
  intros Hempty Hm before born after.
  assert (H0 : cache_inv 0 (JSMap.keys (Recorder.reverbCache r0)) (fun _ => None)).
  { rewrite Hempty. split; [apply NoDup_nil_2|]. split; [simpl; lia|].
    split; intros; by rewrite ?lookup_nil in *. }
  assert (Hsz : forall r, JSMap.size (Recorder.reverbCache r)
                  = length (JSMap.keys (Recorder.reverbCache r))).
  { intros r. unfold JSMap.size, JSMap.keys. by rewrite length_map. }
  pose proof (history_inv 0 (take n ms) r0 _ H0) as Hinv. fold before born in Hinv.
  destruct (receive_step _ m before born Hinv) as (Hinv' & Hnew & Hkeep & Hevict).
  fold after in Hinv', Hnew, Hkeep, Hevict.
  rewrite !Hsz. split; [apply Hinv|]. split; [apply Hinv'|]. rewrite <- !Hsz. done.
Qed.

Example sixResponses_keys :
  JSMap.keys (Recorder.reverbCache
                (history 0 sixResponses (Recorder.init 44100 demoDraws) (fun _ => None)).1)
  = ["2.0"; "3.0"; "4.0"; "5.0"; "6.0"]%string.
Proof. lazy. reflexivity. Qed.

(** A response for a key that is cached keeps the entry in its place:
    the next eviction still takes it first. *)
Example repeated_key_keeps_place :
  JSMap.keys (Recorder.reverbCache
                (history 0 (take 5 sixResponses
                            ++ [mkResponse [1]%Q [1]%Q 1; mkResponse [0]%Q [0]%Q 6])
                   (Recorder.init 44100 demoDraws) (fun _ => None)).1)
  = ["2.0"; "3.0"; "4.0"; "5.0"; "6.0"]%string.
Proof. lazy. reflexivity. Qed.

Lemma impulse_cache_bounded_fifo_witness :
  exists e,
    JSMap.firstKey
      (Recorder.reverbCache
         (history 0 (take 5 sixResponses) (Recorder.init 44100 demoDraws) (fun _ => None)).1)
    = Some e /\
    ~ cached e
        (receive (mkResponse [0; 0]%Q [0; 0]%Q 6)
           (history 0 (take 5 sixResponses) (Recorder.init 44100 demoDraws) (fun _ => None)).1).
Proof.
  destruct (impulse_cache_bounded_fifo (Recorder.init 44100 demoDraws) sixResponses 5
              (mkResponse [0; 0]%Q [0; 0]%Q 6) eq_refl eq_refl)
    as (_ & _ & _ & _ & H).
  destruct H as (e & He & Hgone & _).
  - lazy. reflexivity.
  - unfold cached. lazy. discriminate.
  - exists e. split; [exact He | exact Hgone].
Defined.

(** ** Dropout scheduling (C8) *)

Lemma scheduleDropout_off (random : Q) (s : CassetteTapeBus.t) :
  (CassetteTapeBus.dropoutIntensity s <= 0)%Q ->
  CassetteTapeBus.scheduleDropout random s = s.
Proof.
  intros H. unfold CassetteTapeBus.scheduleDropout.
  by rewrite (proj2 (JS_le_true _ _) H).
Qed.

Lemma scheduleDropout_on (random : Q) (s : CassetteTapeBus.t) :
  (0 < CassetteTapeBus.dropoutIntensity s)%Q -> CassetteTapeBus.bypassed s = false ->
  CassetteTapeBus.scheduleDropout random s =
  CassetteTapeBus.setTimeout
    (15000 - CassetteTapeBus.dropoutIntensity s * 12000 + random * 5000) s.
Proof.
  intros H Hb. unfold CassetteTapeBus.scheduleDropout. rewrite Hb.
  destruct (JS.le _ 0) eqn:E; [|done].
  apply JS_le_true in E. exfalso. by apply (Qlt_not_le _ _ H).
Qed.

(** The tracked timer is the only one: clearing it empties the table. *)
Lemma tracked_clear (s : CassetteTapeBus.t) :
  tracked s ->
  match CassetteTapeBus.dropoutSchedulerId s with
  | Some id => filter (fun p : nat * Q => p.1 ≠ id) (CassetteTapeBus.timers s) = []
  | None => CassetteTapeBus.timers s = []
  end.
Proof.
  unfold tracked. destruct (CassetteTapeBus.timers s) as [|[id due] [|? ?]]; try done.
  - by destruct (CassetteTapeBus.dropoutSchedulerId s).
  - intros [-> _]. rewrite filter_cons_False; [done|]. simpl. intros H. by apply H.
Qed.

(** With the intensity at 0 and no timer pending, neither timer events
    nor the bypass switch change the timers or the dropout log. *)
Lemma quiet_step (e : CassetteTapeBus.Event) (s : CassetteTapeBus.t) :
  CassetteTapeBus.timers s = [] -> (CassetteTapeBus.dropoutIntensity s <= 0)%Q ->
  CassetteTapeBus.timers (CassetteTapeBus.step e s) = [] /\
  (CassetteTapeBus.dropoutIntensity (CassetteTapeBus.step e s) <= 0)%Q /\
  CassetteTapeBus.dropouts (CassetteTapeBus.step e s) = CassetteTapeBus.dropouts s.
Proof.
  intros Ht Hi. destruct e as [id r1 r2 r3|b r]; simpl.
  - unfold CassetteTapeBus.fire. rewrite Ht. simpl. done.
  - unfold CassetteTapeBus.setBypass. simpl. destruct b.
    + destruct (CassetteTapeBus.dropoutSchedulerId s); simpl; by rewrite ?Ht.
    + rewrite JS_gt_false by done. simpl. done.
Qed.

Lemma quiet_run (es : list CassetteTapeBus.Event) (s : CassetteTapeBus.t) :
  CassetteTapeBus.timers s = [] -> (CassetteTapeBus.dropoutIntensity s <= 0)%Q ->
  CassetteTapeBus.timers (CassetteTapeBus.run es s) = [] /\
  CassetteTapeBus.dropouts (CassetteTapeBus.run es s) = CassetteTapeBus.dropouts s.
Proof.
  revert s. induction es as [|e es IH]; intros s Ht Hi; [done|].
  destruct (quiet_step e s Ht Hi) as (Ht' & Hi' & Hd').
  destruct (IH _ Ht' Hi') as [Ht'' Hd''].
  change (CassetteTapeBus.run (e :: es) s)
    with (CassetteTapeBus.run es (CassetteTapeBus.step e s)).
  split; [done|]. by rewrite Hd'', Hd'.
Qed.

(** [setDropouts(value)] with a positive value on a bus that is not
    bypassed: the tracked timer is replaced by a fresh one. *)
Lemma setDropouts_on (value random : Q) (s : CassetteTapeBus.t) :
  tracked s -> CassetteTapeBus.bypassed s = false -> (0 < value)%Q ->
  let s' := CassetteTapeBus.setDropouts value random s in
  CassetteTapeBus.timers s' =
    [(CassetteTapeBus.nextTimerId s,
      (CassetteTapeBus.clock s + (15000 - value / 100 * 12000 + random * 5000))%Q)] /\
  CassetteTapeBus.dropoutSchedulerId s' = Some (CassetteTapeBus.nextTimerId s) /\
  CassetteTapeBus.bypassed s' = false /\
  CassetteTapeBus.dropoutIntensity s' = (value / 100)%Q /\
  CassetteTapeBus.clock s' = CassetteTapeBus.clock s /\
  CassetteTapeBus.dropouts s' = CassetteTapeBus.dropouts s.
Proof.
  intros Htr Hb Hv. pose proof (tracked_clear s Htr) as Hc.
  assert (Hpos : (0 < value / 100)%Q).
  { apply Qlt_shift_div_l; [done|]. by rewrite Qmult_0_l. }
  unfold CassetteTapeBus.setDropouts. bus_simpl.
  destruct (CassetteTapeBus.dropoutSchedulerId s) as [id|]; bus_simpl;
    rewrite (proj2 (JS_gt_true _ _) Hpos);
    (rewrite scheduleDropout_on by done); bus_simpl; rewrite Hc; done.
Qed.

(** One callback of an undisturbed chain at full intensity. *)
Lemma fire_full (id : nat) (due r1 r2 r3 : Q) (s : CassetteTapeBus.t) :
  CassetteTapeBus.timers s = [(id, due)] -> CassetteTapeBus.bypassed s = false ->
  (CassetteTapeBus.dropoutIntensity s == 1)%Q ->
  let s' := CassetteTapeBus.fire id r1 r2 r3 s in
  exists ev id',
    CassetteTapeBus.dropouts s' = ev :: CassetteTapeBus.dropouts s /\
    CassetteTapeBus.d_time ev = due /\ CassetteTapeBus.clock s' = due /\
    CassetteTapeBus.timers s' =
      [(id', (due + (15000 - CassetteTapeBus.dropoutIntensity s * 12000 + r3 * 5000))%Q)] /\
    CassetteTapeBus.bypassed s' = false /\
    CassetteTapeBus.dropoutIntensity s' = CassetteTapeBus.dropoutIntensity s.
Proof.
  intros Ht Hb Hi. unfold CassetteTapeBus.fire. rewrite Ht.
  cbn [list_find]. rewrite decide_True by done.
  rewrite filter_cons_False by (intros H; by apply H). rewrite filter_nil.
  unfold CassetteTapeBus.triggerDropout. bus_simpl. rewrite Hb.
  rewrite scheduleDropout_on; bus_simpl; [|by rewrite Hi|done].
  eexists _, _. repeat split; reflexivity.
Qed.

Lemma chain_gaps (rs : list (Q * Q * Q)) (s : CassetteTapeBus.t) (id : nat) (due : Q) :
  Forall (fun r => is_random r.2) rs ->
  CassetteTapeBus.timers s = [(id, due)] -> CassetteTapeBus.bypassed s = false ->
  (CassetteTapeBus.dropoutIntensity s == 1)%Q ->
  (3000 <= due - CassetteTapeBus.clock s)%Q -> (due - CassetteTapeBus.clock s < 8000)%Q ->
  exists evs,
    CassetteTapeBus.dropouts (CassetteTapeBus.chain rs s) =
      evs ++ CassetteTapeBus.dropouts s /\
    length evs = length rs /\
    gaps_within 3000 8000
      (CassetteTapeBus.clock s :: rev (map CassetteTapeBus.d_time evs)).
Proof.
  revert s id due. induction rs as [|[[r1 r2] r3] rs IH];
    intros s id due Hrs Ht Hb Hi Hlo Hhi.
  - exists []. simpl. done.
  - apply Forall_cons in Hrs as [[Hr0 Hr1] Hrs]. simpl in Hr0, Hr1.
    simpl. rewrite Ht.
    destruct (fire_full id due r1 r2 r3 s Ht Hb Hi)
      as (ev & id' & Hd & Hev & Hclk & Ht' & Hb' & Hi').
    set (s' := CassetteTapeBus.fire id r1 r2 r3 s) in *.
    destruct (IH s' id' _ Hrs Ht' Hb') as (evs & Hevs & Hlen & Hgaps).
    + by rewrite Hi'.
    + rewrite Hclk. Lqa.lra.
    + rewrite Hclk. Lqa.lra.
    + exists (evs ++ [ev]). split; [|split].
      * rewrite Hevs, Hd. by rewrite <- app_assoc.
      * rewrite length_app. simpl. lia.
      * rewrite map_app, rev_app_distr. simpl.
        rewrite Hev. rewrite Hclk in Hgaps. done.
Qed.

(** The schedule as long as the bus tracks its pending timer.  On a bus
    whose only pending timer is the one it tracks:
    - [setDropouts(0)] cancels the pending timer and schedules nothing;
      from then on no dropout fires, whatever timer events and bypass
      switches follow;
    - with the bus not bypassed, [setDropouts(v)] for [v > 0] schedules
      one callback after [baseInterval + random * 5000] ms, where
      [baseInterval = 15000 - 120 v];
    - at [v = 100], for every series of callbacks of the chain, the
      time from the call to the first dropout and between any two
      consecutive dropouts lies in [3000, 8000) ms. *)
Lemma dropout_schedule (s : CassetteTapeBus.t) :
  tracked s ->
  (forall random, let s0 := CassetteTapeBus.setDropouts 0 random s in
     CassetteTapeBus.dropoutSchedulerId s0 = None /\
     CassetteTapeBus.timers s0 = [] /\
     CassetteTapeBus.dropouts s0 = CassetteTapeBus.dropouts s /\
     forall es, CassetteTapeBus.timers (CassetteTapeBus.run es s0) = [] /\
       CassetteTapeBus.dropouts (CassetteTapeBus.run es s0) = CassetteTapeBus.dropouts s) /\
  (CassetteTapeBus.bypassed s = false ->
   forall value random, (0 < value)%Q -> is_random random ->
     exists id due,
       CassetteTapeBus.timers (CassetteTapeBus.setDropouts value random s) = [(id, due)] /\
       CassetteTapeBus.dropoutSchedulerId (CassetteTapeBus.setDropouts value random s)
         = Some id /\
       (due - CassetteTapeBus.clock s == (15000 - 120 * value) + random * 5000)%Q) /\
  (CassetteTapeBus.bypassed s = false ->
   forall random rs, is_random random -> Forall (fun r => is_random r.2) rs ->
     let s1 := CassetteTapeBus.setDropouts 100 random s in
     exists evs,
       CassetteTapeBus.dropouts (CassetteTapeBus.chain rs s1) =
         evs ++ CassetteTapeBus.dropouts s /\
       length evs = length rs /\
       gaps_within 3000 8000
         (CassetteTapeBus.clock s :: rev (map CassetteTapeBus.d_time evs))).
Proof.
  intros Htr. split; [|split].
  - intros random s0.
    assert (H0 : CassetteTapeBus.dropoutSchedulerId s0 = None /\
                 CassetteTapeBus.timers s0 = [] /\
                 CassetteTapeBus.dropouts s0 = CassetteTapeBus.dropouts s /\
                 (CassetteTapeBus.dropoutIntensity s0 <= 0)%Q).
    { pose proof (tracked_clear s Htr) as Hc.
      unfold s0, CassetteTapeBus.setDropouts. bus_simpl.
      destruct (CassetteTapeBus.dropoutSchedulerId s); bus_simpl;
        rewrite JS_gt_false by done; bus_simpl; by rewrite ?Hc. }
    destruct H0 as (Hid & Ht & Hd & Hi). repeat split; try done.
    + by apply quiet_run.
    + destruct (quiet_run es s0 Ht Hi) as [_ ->]. done.
  - intros Hb value random Hv _.
    destruct (setDropouts_on value random s Htr Hb Hv) as (Ht & Hid & _).
    eexists _, _. split; [exact Ht|]. split; [exact Hid|]. field.
  - intros Hb random rs [Hr0 Hr1] Hrs s1.
    destruct (setDropouts_on 100 random s Htr Hb) as (Ht & _ & Hb1 & Hi1 & Hc1 & Hd1);
      [done|].
    fold s1 in Ht, Hb1, Hi1, Hc1, Hd1.
    assert (E : (100 / 100 == 1)%Q) by reflexivity.
    destruct (chain_gaps rs s1 _ _ Hrs Ht Hb1) as (evs & Hevs & Hlen & Hgaps).
    + by rewrite Hi1.
    + rewrite Hc1, E. Lqa.lra.
    + rewrite Hc1, E. Lqa.lra.
    + exists evs. rewrite Hevs, Hd1, <- Hc1. done.
Qed.

Lemma tracked_create (now : Q) : tracked (CassetteTapeBus.create now).
Proof. exact I. Qed.

Lemma tracked_scheduleDropout (random : Q) (s : CassetteTapeBus.t) :
  CassetteTapeBus.timers s = [] -> tracked (CassetteTapeBus.scheduleDropout random s).
Proof.
  intros Ht. unfold CassetteTapeBus.scheduleDropout.
  destruct (JS.le _ 0); destruct (CassetteTapeBus.bypassed s) eqn:Hb; cbn [orb];
    unfold tracked; bus_simpl; rewrite Ht; done.
Qed.

(** The operations of the bus keep the timer tracked. *)
Lemma tracked_kept (s : CassetteTapeBus.t) :
  tracked s ->
  (forall value random : Q, tracked (CassetteTapeBus.setDropouts value random s)) /\
  (forall (id : nat) (r1 r2 r3 : Q), tracked (CassetteTapeBus.fire id r1 r2 r3 s)) /\
  (forall random : Q, tracked (CassetteTapeBus.setBypass true random s)) /\
  (CassetteTapeBus.bypassed s = true ->
   forall random : Q, tracked (CassetteTapeBus.setBypass false random s)).
Proof.
  intros Htr. pose proof (tracked_clear s Htr) as Hc. split; [|split; [|split]].
  - intros value random. unfold CassetteTapeBus.setDropouts. bus_simpl.
    destruct (CassetteTapeBus.dropoutSchedulerId s); bus_simpl;
      (destruct (JS.gt _ 0);
       [apply tracked_scheduleDropout; bus_simpl; by rewrite Hc
       |unfold tracked; bus_simpl; by rewrite Hc]).
  - intros id r1 r2 r3. unfold CassetteTapeBus.fire.
    destruct (list_find _ _) as [[? [? due]]|] eqn:E; [|done].
    apply tracked_scheduleDropout.
    assert (Hid : filter (fun p : nat * Q => p.1 ≠ id) (CassetteTapeBus.timers s) = []).
    { unfold tracked in Htr.
      destruct (CassetteTapeBus.timers s) as [|[id' due'] [|? ?]]; try done.
      cbn [list_find] in E. destruct (decide ((id', due').1 = id)) as [Heq|?]; [|done].
      simpl in Heq. subst. rewrite filter_cons_False; [done|]. intros H. by apply H. }
    unfold CassetteTapeBus.triggerDropout. bus_simpl.
    destruct (CassetteTapeBus.bypassed s); bus_simpl; done.
  - intros random. unfold CassetteTapeBus.setBypass. bus_simpl.
    destruct (CassetteTapeBus.dropoutSchedulerId s); unfold tracked; bus_simpl;
      by rewrite Hc.
  - intros Hb random.
    assert (Ht : CassetteTapeBus.timers s = []).
    { unfold tracked in Htr.
      destruct (CassetteTapeBus.timers s) as [|[id' due'] [|? ?]]; try done.
      destruct Htr as [_ ?]. congruence. }
    unfold CassetteTapeBus.setBypass. bus_simpl.
    destruct (JS.gt _ 0); [by apply tracked_scheduleDropout|].
    unfold tracked. bus_simpl. by rewrite Ht.
Qed.

Example dropout_cancelled_when_tracked :
  CassetteTapeBus.timers
    (CassetteTapeBus.setDropouts 0 0
       (CassetteTapeBus.setDropouts 100 (1 # 2) (CassetteTapeBus.create 0))) = [].
Proof.
  destruct (dropout_schedule
              (CassetteTapeBus.setDropouts 100 (1 # 2) (CassetteTapeBus.create 0)))
    as [H _].
  - vm_compute. split; reflexivity.
  - destruct (H 0%Q) as (_ & Ht & _). exact Ht.
Qed.

Example dropout_timer_at_full_intensity :
  map (fun p => Qred p.2)
      (CassetteTapeBus.timers
         (CassetteTapeBus.setDropouts 100 (1 # 2) (CassetteTapeBus.create 0)))
  = [5500%Q].
Proof. reflexivity. Qed.

(** C8.  A dropout can fire at intensity 0, and at intensity 100 two
    dropouts can come less than 3000 ms apart: [setBypass(false)]
    schedules a dropout without cancelling the one already pending and
    overwrites [dropoutSchedulerId], where [setDropouts] and
    [setBypass(true)] call [clearTimeout] first.  On a new bus, after
    [setDropouts(100)] (draw 0) timer 1 is due at 3000 ms; after
    [setBypass(false)] (draw 1/5) timer 2, due at 4000 ms, is pending
    too and is the only one the bus remembers.  Then:
    - [setDropouts(0)] cancels timer 2 only: timer 1 stays pending and,
      when due, fires a dropout of 10 ms and depth 0.1 at intensity 0;
    - left at intensity 100, the two timers fire dropouts at 3000 ms
      and 4000 ms, 1000 ms apart, and both chains go on. *)
Theorem setBypass_leaves_stray_timer :
  pendingIds (CassetteTapeBus.setDropouts 100 0 (CassetteTapeBus.create 0)) = [1%nat] /\
  pendingDue (CassetteTapeBus.setDropouts 100 0 (CassetteTapeBus.create 0)) = [3000%Q] /\
  pendingIds (doubleScheduled 0 (1 # 5)) = [1%nat; 2%nat] /\
  pendingDue (doubleScheduled 0 (1 # 5)) = [3000%Q; 4000%Q] /\
  CassetteTapeBus.dropoutSchedulerId (doubleScheduled 0 (1 # 5)) = Some 2%nat /\
  ~ tracked (doubleScheduled 0 (1 # 5)) /\
  (let off := CassetteTapeBus.setDropouts 0 0 (doubleScheduled 0 (1 # 5)) in
   (CassetteTapeBus.dropoutIntensity off == 0)%Q /\
   CassetteTapeBus.dropoutSchedulerId off = None /\
   pendingIds off = [1%nat] /\ pendingDue off = [3000%Q] /\
   firedDropouts off = [] /\
   firedDropouts (CassetteTapeBus.fire 1 0 0 0 off) = [(3000, 1 # 100, 1 # 10)%Q] /\
   pendingIds (CassetteTapeBus.fire 1 0 0 0 off) = []) /\
  (let twice := CassetteTapeBus.fire 2 0 0 0
                  (CassetteTapeBus.fire 1 0 0 0 (doubleScheduled 0 (1 # 5))) in
   firedDropouts twice = [(3000, 1 # 100, 1 # 10)%Q; (4000, 1 # 100, 1 # 10)%Q] /\
   ~ gaps_within 3000 8000 (map (fun d => d.1.1) (firedDropouts twice)) /\
   pendingIds twice = [3%nat; 4%nat] /\ pendingDue twice = [6000%Q; 7000%Q]).
Proof.
  repeat apply conj; try (vm_compute; reflexivity).
  - vm_compute. intros H. exact H.
  - vm_compute. intros [H _]. apply H. reflexivity.
Qed.

(** ** The WAV encoder (C3) *)

Lemma write16_at_end (pre rest : list Z) (x y a b : Z) (off : nat) :
  off = length pre ->
  <[(off + 1)%nat := b]> (<[off := a]> (pre ++ x :: y :: rest)) = pre ++ a :: b :: rest.
Proof.
  intros ->. induction pre as [|p pre IH]; simpl; [done|]. by rewrite IH.
Qed.

Lemma flat_map_seq_S {A : Type} (g : nat -> list A) (n : nat) :
  flat_map g (seq 0 (S n)) = flat_map g (seq 0 n) ++ g n.
Proof. rewrite seq_S, flat_map_app. simpl. by rewrite app_nil_r. Qed.

Lemma wavSample_length (b : AudioBuffer) (j : nat) : length (wavSample b j) = 2%nat.
Proof. reflexivity. Qed.

Lemma flat_map_wavSample_length (b : AudioBuffer) (n : nat) :
  length (flat_map (wavSample b) (seq 0 n)) = (2 * n)%nat.
Proof.
  induction n as [|n IH]; [done|].
  rewrite flat_map_seq_S, length_app, IH, wavSample_length. lia.
Qed.

(** The header writes, on a buffer of 44 bytes and more. *)
Lemma header_writes (b : AudioBuffer) (rest : list Z) :
  let length_ := dataLength b in
  let view := replicate 44 0%Z ++ rest in
  let view := Recorder.writeString view 0 "RIFF" in
  let view := DataView.setUint32 view 4 (num (36 + length_)) in
  let view := Recorder.writeString view 8 "WAVE" in
  let view := Recorder.writeString view 12 "fmt " in
  let view := DataView.setUint32 view 16 16 in
  let view := DataView.setUint16 view 20 1 in
  let view := DataView.setUint16 view 22 (num (numberOfChannels b)) in
  let view := DataView.setUint32 view 24 (sampleRate b) in
  let view :=
    DataView.setUint32 view 28 (sampleRate b * num (numberOfChannels b) * 2)%Q in
  let view := DataView.setUint16 view 32 (num (numberOfChannels b) * 2)%Q in
  let view := DataView.setUint16 view 34 16 in
  let view := Recorder.writeString view 36 "data" in
  let view := DataView.setUint32 view 40 (num length_) in
  view = wavHeader b ++ rest.
Proof.
  cbv zeta.
  cbn [Recorder.writeString JS.for_loop String.length fold_left seq Nat.add
       DataView.setUint8 DataView.setUint16 DataView.setUint32
       replicate app insert list_insert].
  reflexivity.
Qed.

Lemma interleave_index (i k n : nat) :
  (k < n)%nat -> ((i * n + k) / n = i)%nat /\ ((i * n + k) mod n = k)%nat.
Proof.
  intros Hk. split.
  - rewrite Nat.div_add_l by lia. rewrite Nat.div_small by lia. lia.
  - rewrite Nat.add_comm, Nat.Div0.mod_add. by apply Nat.mod_small.
Qed.

(** The two's complement of a signed 16-bit value is its unsigned
    reduction. *)
Lemma ToInt16_twos_complement (x : Q) :
  (JS.ToInt16 x mod 2 ^ 16)%Z = JS.ToUint 16 x.
Proof.
  unfold JS.ToInt16. cbv zeta.
  pose proof (Z.mod_pos_bound (JS.trunc x) (2 ^ 16) eq_refl) as Hu.
  fold (JS.ToUint 16 x) in Hu.
  destruct (JS.ToUint 16 x <? 2 ^ 15)%Z.
  - by apply Z.mod_small.
  - change (2 ^ 16)%Z with 65536%Z in *.
    Z.to_euclidean_division_equations; lia.
Qed.

(** One [setInt16] of the interleaving loop. *)
Lemma data_write_step (b : AudioBuffer) (hdr : list Z) (total j : nat) (value : Q) :
  length hdr = 44%nat -> (j < total)%nat ->
  wavSample b j = le16 (JS.ToUint 16 value) ->
  DataView.setInt16
    (hdr ++ flat_map (wavSample b) (seq 0 j) ++ replicate (2 * (total - j)) 0%Z)
    (44 + 2 * j) value
  = hdr ++ flat_map (wavSample b) (seq 0 (S j)) ++ replicate (2 * (total - S j)) 0%Z.
Proof.
  intros Hh Hj Hs. unfold DataView.setInt16. cbv zeta.
  rewrite ToInt16_twos_complement.
  replace (total - j)%nat with (S (total - S j)) by lia.
  replace (2 * S (total - S j))%nat with (S (S (2 * (total - S j)))) by lia.
  cbn [replicate]. rewrite app_assoc.
  rewrite write16_at_end
    by (rewrite length_app, flat_map_wavSample_length; lia).
  rewrite flat_map_seq_S, Hs. unfold le16. by rewrite <- !app_assoc.
Qed.

(** The interleaving loop fills the data area with [wavData]. *)
Lemma data_writes (b : AudioBuffer) (hdr : list Z) :
  length hdr = 44%nat ->
  fst
    (JS.for_loop (buf_length b) (fun i st =>
       JS.for_loop (numberOfChannels b) (fun channel '(view, offset) =>
         let sample := f32_get (getChannelData b channel) i in
         let clampedSample := JS.Math_max (-1) (JS.Math_min 1 sample) in
         (DataView.setInt16 view offset (clampedSample * 32767)%Q, (offset + 2)%nat))
         st)
       (hdr ++ replicate (dataLength b) 0%Z, 44%nat))
  = hdr ++ wavData b.
Proof.
  intros Hh.
  set (n := numberOfChannels b). set (total := (buf_length b * n)%nat).
  pose (state := fun j : nat =>
    (hdr ++ flat_map (wavSample b) (seq 0 j) ++ replicate (2 * (total - j)) 0%Z,
     (44 + 2 * j)%nat)).
  match goal with |- fst (JS.for_loop _ ?body ?s0) = _ =>
    assert (H : JS.for_loop (buf_length b) body s0 = state total) end.
  { pose (P := fun (i : nat) (st : list Z * nat) => st = state (i * n)%nat).
    apply (for_loop_ind P); unfold P; clear P.
    - unfold state, dataLength. fold n. fold total. simpl.
      f_equal. f_equal. f_equal. lia.
    - intros i st Hi ->.
      pose (Pin := fun (k : nat) (st : list Z * nat) => st = state (i * n + k)%nat).
      replace (S i * n)%nat with (i * n + n)%nat by lia.
      apply (for_loop_ind Pin); unfold Pin; clear Pin.
      + f_equal. lia.
      + intros k st Hk ->.
        replace (i * n + S k)%nat with (S (i * n + k)) by lia.
        unfold state. cbv zeta.
        rewrite (data_write_step b hdr total (i * n + k)).
        * f_equal. lia.
        * done.
        * unfold total. nia.
        * unfold wavSample, pcmSample, clamp. fold n.
          destruct (interleave_index i k n Hk) as [-> ->]. done. }
  rewrite H. unfold state. simpl. rewrite Nat.sub_diag. simpl.
  unfold wavData. fold n. fold total. by rewrite app_nil_r.
Qed.

(** The encoder writes exactly the specified layout. *)
Lemma bufferToWav_layout (b : AudioBuffer) :
  Recorder.bufferToWav b = wavHeader b ++ wavData b.
Proof.
  unfold Recorder.bufferToWav. cbv zeta.
  change (DataView.alloc (44 + buf_length b * numberOfChannels b * 2))
    with (replicate 44 0%Z ++ replicate (dataLength b) 0%Z).
  pose proof (header_writes b (replicate (dataLength b) 0%Z)) as Hh.
  cbv zeta in Hh. unfold num, dataLength in Hh.
  unfold dataLength at 1. rewrite Hh.
  apply (data_writes b). reflexivity.
Qed.

Example demoBuffer_wav :
  Recorder.bufferToWav demoBuffer =
  [82; 73; 70; 70; 48; 0; 0; 0; 87; 65; 86; 69; 102; 109; 116; 32; 16; 0; 0; 0;
   1; 0; 2; 0; 68; 172; 0; 0; 16; 177; 2; 0; 4; 0; 16; 0; 100; 97; 116; 97;
   12; 0; 0; 0; 255; 63; 1; 192; 255; 31; 255; 127; 255; 15; 1; 128]%Z.
Proof. vm_compute. reflexivity. Qed.

(** Reading the fields back. *)
Lemma le16_roundtrip (u : Z) :
  (0 <= u < 2 ^ 16)%Z ->
  (DataView.byteOf 0 u + 2 ^ 8 * DataView.byteOf 1 u = u)%Z.
Proof.
  intros H. unfold DataView.byteOf.
  change (2 ^ (8 * 0))%Z with 1%Z. change (2 ^ (8 * 1))%Z with 256%Z.
  change (2 ^ 8)%Z with 256%Z. change (2 ^ 16)%Z with 65536%Z in H.
  Z.to_euclidean_division_equations; lia.
Qed.

Lemma le32_roundtrip (u : Z) :
  (0 <= u < 2 ^ 32)%Z ->
  (DataView.byteOf 0 u + 2 ^ 8 * DataView.byteOf 1 u
   + 2 ^ 16 * DataView.byteOf 2 u + 2 ^ 24 * DataView.byteOf 3 u = u)%Z.
Proof.
  intros H. unfold DataView.byteOf.
  change (2 ^ (8 * 0))%Z with 1%Z. change (2 ^ (8 * 1))%Z with 256%Z.
  change (2 ^ (8 * 2))%Z with 65536%Z. change (2 ^ (8 * 3))%Z with 16777216%Z.
  change (2 ^ 8)%Z with 256%Z. change (2 ^ 16)%Z with 65536%Z.
  change (2 ^ 24)%Z with 16777216%Z. change (2 ^ 32)%Z with 4294967296%Z in H.
  rewrite Z.div_1_r.
  assert (E1 : (u / 65536 = u / 256 / 256)%Z)
    by (rewrite Z.div_div by lia; reflexivity).
  assert (E2 : (u / 16777216 = u / 256 / 256 / 256)%Z)
    by (rewrite !Z.div_div by lia; reflexivity).
  rewrite E1, E2. Z.to_euclidean_division_equations; lia.
Qed.

Lemma trunc_inject_Z (z : Z) : JS.trunc (inject_Z z) = z.
Proof. unfold JS.trunc. simpl. apply Z.quot_1_r. Qed.

Lemma ToUint_small (w : Z) (z : Z) :
  (0 <= z < 2 ^ w)%Z -> JS.ToUint w (inject_Z z) = z.
Proof. intros H. unfold JS.ToUint. rewrite trunc_inject_Z. by apply Z.mod_small. Qed.

Lemma ToUint_range (w : Z) (x : Q) : (0 <= w)%Z -> (0 <= JS.ToUint w x < 2 ^ w)%Z.
Proof. intros Hw. unfold JS.ToUint. apply Z.mod_pos_bound. by apply Z.pow_pos_nonneg. Qed.

Lemma clamp_range (x : Q) : (-1 <= clamp x)%Q /\ (clamp x <= 1)%Q.
Proof.
  unfold clamp, JS.Math_max, JS.Math_min.
  destruct (JS.lt x 1) eqn:E1.
  - rewrite JS_lt_true in E1. destruct (JS.lt (-1) x) eqn:E2.
    + rewrite JS_lt_true in E2. split; Lqa.lra.
    + split; Lqa.lra.
  - change (JS.lt (-1) 1) with true. cbv iota. split; Lqa.lra.
Qed.

(** A clamped sample scaled by 32767 fits a signed 16-bit integer. *)
Lemma pcm_range (q : Q) :
  (-1 <= q)%Q -> (q <= 1)%Q -> (-32767 <= JS.trunc (q * 32767) <= 32767)%Z.
Proof.
  destruct q as [n d]. unfold Qle, JS.trunc. simpl.
  rewrite !Z.mul_1_r, Pos.mul_1_r. intros Hlo Hhi.
  assert (Hd : (0 < Z.pos d)%Z) by lia.
  split.
  - apply Z.quot_le_lower_bound; lia.
  - apply Z.quot_le_upper_bound; lia.
Qed.

Lemma ToInt16_small (x : Q) :
  (- 2 ^ 15 <= JS.trunc x < 2 ^ 15)%Z ->
  let u := JS.ToUint 16 x in
  (if (u <? 2 ^ 15)%Z then u else (u - 2 ^ 16)%Z) = JS.trunc x.
Proof.
  intros H u. unfold u, JS.ToUint.
  change (2 ^ 15)%Z with 32768%Z in *. change (2 ^ 16)%Z with 65536%Z.
  destruct (Z.ltb_spec (JS.trunc x mod 65536) 32768);
    Z.to_euclidean_division_equations; lia.
Qed.

Lemma wavHeader_length (b : AudioBuffer) : length (wavHeader b) = 44%nat.
Proof. reflexivity. Qed.

Lemma wavData_lookup (b : AudioBuffer) (j t : nat) :
  (j < buf_length b * numberOfChannels b)%nat -> (t < 2)%nat ->
  wavData b !! (2 * j + t)%nat = wavSample b j !! t.
Proof.
  unfold wavData. generalize (buf_length b * numberOfChannels b)%nat as total.
  induction total as [|total IH]; intros Hj Ht; [lia|].
  rewrite flat_map_seq_S.
  destruct (decide (j = total)) as [->|Hne].
  - rewrite lookup_app_r by (rewrite flat_map_wavSample_length; lia).
    rewrite flat_map_wavSample_length. f_equal. lia.
  - rewrite lookup_app_l by (rewrite flat_map_wavSample_length; lia).
    apply IH; lia.
Qed.

(** The two bytes of interleaved sample [j], read as a signed integer. *)
Lemma wav_sample_readback (b : AudioBuffer) (i c : nat) :
  (i < buf_length b)%nat -> (c < numberOfChannels b)%nat ->
  DataView.getInt16 (Recorder.bufferToWav b) (44 + 2 * (i * numberOfChannels b + c))
  = JS.trunc (pcmSample b i c).
Proof.
  intros Hi Hc. rewrite bufferToWav_layout.
  set (j := (i * numberOfChannels b + c)%nat).
  assert (Hj : (j < buf_length b * numberOfChannels b)%nat) by (unfold j; nia).
  unfold DataView.getInt16, DataView.getUint16, DataView.getUint8.
  rewrite !lookup_app_r by (rewrite wavHeader_length; lia).
  rewrite wavHeader_length.
  replace (44 + 2 * j - 44)%nat with (2 * j + 0)%nat by lia.
  replace (44 + 2 * j + 1 - 44)%nat with (2 * j + 1)%nat by lia.
  rewrite !wavData_lookup by (done || lia).
  unfold wavSample. destruct (interleave_index i c _ Hc) as [Ei Ec].
  fold j in Ei, Ec. rewrite Ei, Ec. cbn [le16 lookup list_lookup from_option Datatypes.id].
  rewrite le16_roundtrip by (apply ToUint_range; lia).
  apply ToInt16_small.
  destruct (clamp_range (f32_get (getChannelData b c) i)) as [Hlo Hhi].
  pose proof (pcm_range _ Hlo Hhi) as Hr. unfold pcmSample.
  change (2 ^ 15)%Z with 32768%Z. lia.
Qed.

(** The header fields of the encoded file of a stereo buffer whose
    sizes fit the 32-bit fields. *)
Lemma wav_fields (b : AudioBuffer) (rate : Z) :
  numberOfChannels b = 2%nat -> sampleRate b = inject_Z rate ->
  (0 <= rate)%Z -> (rate * 4 < 2 ^ 32)%Z ->
  (36 + Z.of_nat (dataLength b) < 2 ^ 32)%Z ->
  readWavFields (Recorder.bufferToWav b) =
  {| riffTag := tag_RIFF; riffChunkSize := 36 + Z.of_nat (dataLength b);
     waveTag := tag_WAVE;
     fmtTag := tag_fmt; fmtChunkSize := 16; audioFormat := 1; channelCount := 2;
     wavSampleRate := rate; byteRate := rate * 2 * 2; blockAlign := 2 * 2;
     bitsPerSample := 16;
     dataTag := tag_data; dataChunkSize := Z.of_nat (dataLength b) |}.
Proof.
  intros Hn Hr Hr0 Hr1 Hsz. rewrite bufferToWav_layout.
  assert (E1 : JS.ToUint 32 (num (36 + dataLength b)) = (36 + Z.of_nat (dataLength b))%Z).
  { unfold num. rewrite ToUint_small; lia. }
  assert (E2 : JS.ToUint 32 (num (dataLength b)) = Z.of_nat (dataLength b)).
  { unfold num. rewrite ToUint_small; lia. }
  assert (E3 : JS.ToUint 32 (inject_Z rate) = rate).
  { apply ToUint_small. lia. }
  assert (E4 : JS.ToUint 32 (inject_Z rate * num 2 * 2)%Q = (rate * 2 * 2)%Z).
  { change (inject_Z rate * num 2 * 2)%Q with (Qmake (rate * 2 * 2) 1).
    change (Qmake (rate * 2 * 2) 1) with (inject_Z (rate * 2 * 2)).
    apply ToUint_small. lia. }
  unfold wavHeader. rewrite Hn, Hr, E1, E2, E3, E4.
  unfold readWavFields, DataView.getChars, DataView.getUint32, DataView.getUint16,
    DataView.getUint8.
  header_simpl.
  rewrite !le32_roundtrip by (first [lia | apply ToUint_range; lia]).
  rewrite !le16_roundtrip by (apply ToUint_range; lia).
  reflexivity.
Qed.

Lemma bufferToWav_length (b : AudioBuffer) :
  length (Recorder.bufferToWav b) = (44 + dataLength b)%nat.
Proof.
  rewrite bufferToWav_layout, length_app, wavHeader_length. f_equal.
  unfold wavData, dataLength. rewrite flat_map_wavSample_length. lia.
Qed.

(** C3.  For a rendered stereo buffer (two channels of [frames]
    samples, an integral sample rate, sizes that fit the 32-bit fields of
    the header) the encoder returns [44 + frames * 2 * 2] bytes that read
    back as: 'RIFF', chunk size [36 + dataLength], 'WAVE', 'fmt ' with
    sub-chunk size 16, PCM format 1, 2 channels, the sample rate, byte
    rate [sampleRate * channels * 2], block align [channels * 2], 16 bits
    per sample, 'data' with length [frames * channels * 2]; and the
    16-bit little-endian signed integer at interleaved position
    [frame * channels + channel] of the data is the sample clamped to
    [-1, 1], scaled by 32767 and truncated. *)
Theorem bufferToWav_pcm16 (b : AudioBuffer) (rate : Z) :
  wf_buffer b -> numberOfChannels b = 2%nat -> sampleRate b = inject_Z rate ->
  (0 <= rate)%Z -> (rate * 4 < 2 ^ 32)%Z ->
  (36 + Z.of_nat (buf_length b * 2 * 2) < 2 ^ 32)%Z ->
  let wav := Recorder.bufferToWav b in
  let frames := buf_length b in
  let channels := numberOfChannels b in
  length wav = (44 + frames * channels * 2)%nat /\
  readWavFields wav =
    {| riffTag := tag_RIFF;
       riffChunkSize := 36 + Z.of_nat (frames * channels * 2);
       waveTag := tag_WAVE;
       fmtTag := tag_fmt; fmtChunkSize := 16; audioFormat := 1;
       channelCount := 2; wavSampleRate := rate;
       byteRate := rate * Z.of_nat channels * 2;
       blockAlign := Z.of_nat channels * 2; bitsPerSample := 16;
       dataTag := tag_data;
       dataChunkSize := Z.of_nat (frames * channels * 2) |} /\
  forall i c x, (i < frames)%nat -> (c < channels)%nat -> sampleAt b c i = Some x ->
    (-1 <= clamp x)%Q /\ (clamp x <= 1)%Q /\
    DataView.getInt16 wav (44 + 2 * (i * channels + c)) = JS.trunc (clamp x * 32767).
Proof.
  intros Hwf Hn Hr Hr0 Hr1 Hsz wav frames channels.
  assert (Hd : dataLength b = (frames * channels * 2)%nat) by reflexivity.
  split; [|split].
  - unfold wav. by rewrite bufferToWav_length, Hd.
  - unfold wav. rewrite (wav_fields b rate); try done.
    + rewrite Hd. unfold channels. rewrite Hn. reflexivity.
    + rewrite Hd. unfold channels, frames. by rewrite Hn.
  - intros i c x Hi Hc Hx.
    destruct (clamp_range x) as [Hlo Hhi]. split; [done|]. split; [done|].
    unfold wav. rewrite wav_sample_readback by done.
    unfold pcmSample. rewrite (sampleAt_wf b c i Hwf Hc Hi) in Hx.
    by inversion Hx.
Qed.

Lemma bufferToWav_pcm16_witness :
  DataView.getInt16 (Recorder.bufferToWav demoBuffer) (44 + 2 * (1 * 2 + 1))
  = JS.trunc (clamp 2 * 32767).
Proof.
  destruct (bufferToWav_pcm16 demoBuffer 44100) as (_ & _ & H).
  - split; [reflexivity|]. repeat constructor.
  - reflexivity.
  - reflexivity.
  - discriminate.
  - reflexivity.
  - reflexivity.
  - apply (H 1%nat 1%nat 2%Q); [simpl; lia | simpl; lia | reflexivity].
Defined.

(** ** Truncation, minimum, maximum and the longest buffer *)

Lemma trunc_opp (q : Q) : JS.trunc (- q) = (- JS.trunc q)%Z.
Proof. unfold JS.trunc. cbn. apply Z.quot_opp_l. lia. Qed.

Lemma trunc_nonneg (q : Q) :
  (0 <= q)%Q ->
  (0 <= JS.trunc q)%Z /\ (inject_Z (JS.trunc q) <= q)%Q /\ (q < inject_Z (JS.trunc q) + 1)%Q.
Proof.
  intros Hq.
  assert (Hn : (0 <= Qnum q)%Z).
  { destruct q as [n d]. unfold Qle in Hq. cbn in *. lia. }
  assert (E : JS.trunc q = Qfloor q).
  { unfold JS.trunc. destruct q as [n d]. cbn in *. apply Z.quot_div_nonneg; lia. }
  rewrite E. split; [|split].
  - replace 0%Z with (Qfloor 0) by reflexivity. by apply Qfloor_resp_le.
  - apply Qfloor_le.
  - pose proof (Qlt_floor q) as H. rewrite inject_Z_plus in H. exact H.
Qed.

Lemma trunc_nonpos (q : Q) :
  (q <= 0)%Q ->
  (JS.trunc q <= 0)%Z /\ (q <= inject_Z (JS.trunc q))%Q /\ (inject_Z (JS.trunc q) - 1 < q)%Q.
Proof.
  intros Hq.
  destruct (trunc_nonneg (- q)) as (H0 & H1 & H2); [Lqa.lra|].
  rewrite trunc_opp in *. rewrite inject_Z_opp in *.
  split; [lia|]. split; Lqa.lra.
Qed.

Lemma inject_Z_lt_succ (a b : Z) : (inject_Z a < inject_Z b + 1)%Q -> (a <= b)%Z.
Proof.
  intros H. replace 1%Q with (inject_Z 1) in H by reflexivity.
  rewrite <- inject_Z_plus in H. rewrite <- Zlt_Qlt in H. lia.
Qed.

Lemma trunc_mono (x y : Q) : (x <= y)%Q -> (JS.trunc x <= JS.trunc y)%Z.
Proof.
  intros Hxy.
  destruct (Qlt_le_dec x 0) as [Hx|Hx], (Qlt_le_dec y 0) as [Hy|Hy].
  - destruct (trunc_nonpos x) as (_ & _ & A); [Lqa.lra|].
    destruct (trunc_nonpos y) as (_ & B & _); [Lqa.lra|].
    apply inject_Z_lt_succ. Lqa.lra.
  - destruct (trunc_nonpos x) as (A & _); [Lqa.lra|].
    destruct (trunc_nonneg y) as (B & _); [Lqa.lra|]. lia.
  - Lqa.lra.
  - destruct (trunc_nonneg x) as (_ & A & _); [Lqa.lra|].
    destruct (trunc_nonneg y) as (_ & _ & B); [Lqa.lra|].
    apply inject_Z_lt_succ. Lqa.lra.
Qed.

Lemma trunc_error (q : Q) : (Qabs (inject_Z (JS.trunc q) - q) < 1)%Q.
Proof.
  apply Qabs_Qlt_condition.
  destruct (Qlt_le_dec q 0) as [Hq|Hq].
  - destruct (trunc_nonpos q) as (_ & A & B); [Lqa.lra|]. split; Lqa.lra.
  - destruct (trunc_nonneg q) as (_ & A & B); [Lqa.lra|]. split; Lqa.lra.
Qed.

Lemma Math_min_spec (a b : Q) :
  (JS.Math_min a b <= a)%Q /\ (JS.Math_min a b <= b)%Q /\
  ((JS.Math_min a b == a)%Q \/ (JS.Math_min a b == b)%Q).
Proof.
  unfold JS.Math_min. destruct (JS.lt b a) eqn:E.
  - apply JS_lt_true in E. repeat split; [Lqa.lra|Lqa.lra|right; reflexivity].
  - assert (~ (b < a)%Q) by (intros H; apply JS_lt_true in H; congruence).
    repeat split; [Lqa.lra|Lqa.lra|left; reflexivity].
Qed.

Lemma Math_max_spec (a b : Q) :
  (a <= JS.Math_max a b)%Q /\ (b <= JS.Math_max a b)%Q /\
  ((JS.Math_max a b == a)%Q \/ (JS.Math_max a b == b)%Q).
Proof.
  unfold JS.Math_max. destruct (JS.lt a b) eqn:E.
  - apply JS_lt_true in E. repeat split; [Lqa.lra|Lqa.lra|right; reflexivity].
  - assert (~ (a < b)%Q) by (intros H; apply JS_lt_true in H; congruence).
    repeat split; [Lqa.lra|Lqa.lra|left; reflexivity].
Qed.

Lemma maxDuration_fold (ts : list Track.t) (m : Q) :
  let f := fun m track =>
             match Track.audioBuffer track with
             | Some b => JS.Math_max m (duration b)
             | None => m
             end in
  (m <= fold_left f ts m)%Q /\
  (forall t b, t ∈ ts -> Track.audioBuffer t = Some b -> (duration b <= fold_left f ts m)%Q) /\
  ((fold_left f ts m == m)%Q \/
   exists t b, t ∈ ts /\ Track.audioBuffer t = Some b /\ (fold_left f ts m == duration b)%Q).
Proof.
  intros f. revert m. induction ts as [|t ts IH]; intros m; cbn [fold_left].
  - split; [Lqa.lra|]. split; [intros t b Ht; by apply elem_of_nil in Ht|].
    left. reflexivity.
  - destruct (IH (f m t)) as (A & B & C).
    assert (Hm : (m <= f m t)%Q).
    { unfold f. destruct (Track.audioBuffer t); [apply Math_max_spec|Lqa.lra]. }
    split; [Lqa.lra|]. split.
    + intros t' b Ht' Hb. apply elem_of_cons in Ht' as [->|Ht']; [|by eapply B].
      assert ((duration b <= f m t)%Q); [|Lqa.lra].
      unfold f. rewrite Hb. apply Math_max_spec.
    + destruct C as [C|(t' & b & Ht' & Hb & C)].
      * assert (Hv : (f m t == m)%Q \/
                     exists b, Track.audioBuffer t = Some b /\ (f m t == duration b)%Q).
        { unfold f. destruct (Track.audioBuffer t) as [b|]; [|left; reflexivity].
          destruct (Math_max_spec m (duration b)) as (_ & _ & [E|E]);
            [by left|right; eauto]. }
        destruct Hv as [E|(b & Hb & E)].
        -- left. rewrite C. exact E.
        -- right. exists t, b. split; [apply elem_of_cons; by left|].
           split; [done|]. rewrite C. exact E.
      * right. exists t', b. split; [apply elem_of_cons; by right|done].
Qed.

Lemma maxDuration_nonneg (r : Recorder.t) : (0 <= Recorder.maxDuration r)%Q.
Proof. apply (maxDuration_fold (Recorder.tracks r) 0). Qed.

(** ** Export (C4, C5) *)

Lemma stop_tracks (r : Recorder.t) :
  Recorder.tracks (Recorder.stop r) = Recorder.tracks r \/
  Recorder.tracks (Recorder.stop r) = map Track.stop (Recorder.tracks r).
Proof. unfold Recorder.stop. destruct (Recorder.isPlaying r); simpl; auto. Qed.

Lemma stop_master (r : Recorder.t) :
  Recorder.masterGain (Recorder.stop r) = Recorder.masterGain r /\
  Recorder.masterLimiter (Recorder.stop r) = Recorder.masterLimiter r.
Proof. unfold Recorder.stop. by destruct (Recorder.isPlaying r). Qed.

Lemma maxDuration_fold_stop (ts : list Track.t) (m : Q) :
  fold_left (fun m track =>
               match Track.audioBuffer track with
               | Some b => JS.Math_max m (duration b)
               | None => m
               end) (map Track.stop ts) m
  = fold_left (fun m track =>
               match Track.audioBuffer track with
               | Some b => JS.Math_max m (duration b)
               | None => m
               end) ts m.
Proof. revert m. induction ts as [|t ts IH]; intros m; simpl; [done|]. apply IH. Qed.

Lemma stop_maxDuration (r : Recorder.t) :
  Recorder.maxDuration (Recorder.stop r) = Recorder.maxDuration r.
Proof.
  unfold Recorder.maxDuration. destruct (stop_tracks r) as [-> | ->]; [done|].
  apply maxDuration_fold_stop.
Qed.

Lemma stop_audibleSources (r : Recorder.t) :
  audibleSources (Recorder.stop r) = audibleSources r.
Proof.
  unfold audibleSources. destruct (stop_tracks r) as [-> | ->]; [done|].
  induction (Recorder.tracks r) as [|t ts IH]; [done|].
  simpl. unfold omap in *. simpl. rewrite IH. done.
Qed.

(** The graph after the [forEach] over the tracks: master settings
    copied, one source per audible track, in track order. *)
Lemma offlineGraph_sources (r : Recorder.t) (ctx : OfflineAudioContext) :
  Recorder.offlineGraph r ctx =
  mkOfflineCtx (oc_channels ctx) (oc_length ctx) (oc_sampleRate ctx)
    (Recorder.masterGain r) (Recorder.masterLimiter r)
    (oc_sources ctx ++ audibleSources r).
Proof.
  unfold Recorder.offlineGraph, audibleSources.
  generalize (Recorder.masterGain r) as g, (Recorder.masterLimiter r) as lim,
    (oc_sources ctx) as srcs, (oc_channels ctx) as ch, (oc_length ctx) as len,
    (oc_sampleRate ctx) as rate.
  induction (Recorder.tracks r) as [|t ts IH]; intros g lim srcs ch len rate.
  - simpl. by rewrite app_nil_r.
  - cbn [fold_left].
    assert (E : omap audible (t :: ts) =
                match audible t with
                | Some s => s :: omap audible ts
                | None => omap audible ts
                end) by reflexivity.
    rewrite E. clear E. unfold audible at 1.
    destruct (Track.audioBuffer t) as [b|]; [|apply IH].
    destruct (Track.isMuted t); cbn [negb].
    + apply IH.
    + cbn [oc_channels oc_length oc_sampleRate oc_masterGain oc_limiter oc_sources].
      rewrite IH. by rewrite <- app_assoc.
Qed.

(** What [exportMix] hands to the download. *)
Lemma exportMix_outcome (compressor : CompressorParams -> Signal -> Signal)
    (resampler : AudioBuffer -> Q -> Signal) (r : Recorder.t) :
  snd (Recorder.exportMix compressor resampler r) =
  if JS.eq (Recorder.maxDuration r) 0 then NoAudioToExport
  else if (exportFrames r =? 0)%nat then ExportFailed
  else MixExported
         (Recorder.bufferToWav
            (startRendering compressor resampler
               (mixGraph r (exportFrames r) (audibleSources r)))).
Proof.
  unfold Recorder.exportMix. cbv zeta.
  rewrite stop_maxDuration.
  destruct (JS.eq (Recorder.maxDuration r) 0); [done|].
  unfold newOfflineAudioContext, exportFrames. cbv zeta.
  pose proof (ToUint_range 32 (JS.double (Recorder.maxDuration r * 44100))) as Hrange.
  destruct (Z.eqb_spec (JS.ToUint 32 (JS.double (Recorder.maxDuration r * 44100))) 0)
    as [E|E].
  { by rewrite E. }
  rewrite (proj2 (Nat.eqb_neq _ 0)) by lia.
  cbn [snd]. rewrite offlineGraph_sources.
  cbn [oc_channels oc_length oc_sampleRate oc_sources app].
  rewrite stop_audibleSources.
  destruct (stop_master r) as [-> ->]. reflexivity.
Qed.

Lemma audible_elem (r : Recorder.t) (s : OfflineSource) :
  s ∈ audibleSources r <->
  exists t, t ∈ Recorder.tracks r /\ Track.audioBuffer t = Some (os_buffer s) /\
            Track.isMuted t = false /\ os_gain s = Track.channelFader t.
Proof.
  unfold audibleSources. rewrite list_elem_of_omap. split.
  - intros (t & Ht & Ha). exists t. split; [done|]. unfold audible in Ha.
    destruct (Track.audioBuffer t) as [b|]; [|done].
    destruct (Track.isMuted t); [done|]. inversion Ha; subst. done.
  - intros (t & Ht & Hb & Hm & Hg). exists t. split; [done|]. unfold audible.
    rewrite Hb, Hm. destruct s as [b g]. simpl in *. by subst.
Qed.

Lemma startRendering_sample (compressor : CompressorParams -> Signal -> Signal)
    (resampler : AudioBuffer -> Q -> Signal) (ctx : OfflineAudioContext) (c i : nat) :
  (c < oc_channels ctx)%nat -> (i < oc_length ctx)%nat ->
  f32_get (getChannelData (startRendering compressor resampler ctx) c) i
  = compressor (oc_limiter ctx) (limiterInput resampler ctx) c i.
Proof.
  intros Hc Hi. unfold f32_get, getChannelData, startRendering. cbn [channelData].
  rewrite list_lookup_fmap, lookup_seq_lt by done. cbn [fmap option_fmap option_map from_option Datatypes.id].
  rewrite list_lookup_fmap, lookup_seq_lt by done. reflexivity.
Qed.

(** The sum the offline graph forms over its sources is the sum over
    the tracks in which a track without audio and a muted track count
    for nothing. *)
Lemma mixSignal_trackSum (resampler : AudioBuffer -> Q -> Signal) (rate : Q)
    (ts : list Track.t) (c i : nat) :
  (mixSignal resampler rate (omap audible ts) c i == trackSum resampler rate ts c i)%Q.
Proof.
  induction ts as [|t ts IH]; [reflexivity|].
  assert (E : omap audible (t :: ts) =
              match audible t with
              | Some s => s :: omap audible ts
              | None => omap audible ts
              end) by reflexivity.
  rewrite E. clear E. cbn [trackSum]. unfold audible at 1.
  destruct (Track.audioBuffer t) as [b|].
  - destruct (Track.isMuted t).
    + rewrite IH. Lqa.lra.
    + unfold mixSignal in *. cbn [fold_right os_gain os_buffer]. rewrite IH. reflexivity.
  - rewrite IH. Lqa.lra.
Qed.

Lemma JS_eq_proper (a b c : Q) : (a == b)%Q -> JS.eq a c = JS.eq b c.
Proof.
  intros E. destruct (JS.eq a c) eqn:Ha, (JS.eq b c) eqn:Hb; try done.
  - apply JS_eq_true in Ha. assert (H : (b == c)%Q) by (rewrite <- E; exact Ha).
    apply JS_eq_true in H. congruence.
  - apply JS_eq_true in Hb. assert (H : (a == c)%Q) by (rewrite E; exact Hb).
    apply JS_eq_true in H. congruence.
Qed.

Lemma exportFrames_proper (r r' : Recorder.t) :
  (Recorder.maxDuration r' == Recorder.maxDuration r)%Q -> exportFrames r' = exportFrames r.
Proof.
  intros E. unfold exportFrames. f_equal. f_equal. apply double_proper.
  by apply Qmult_comp.
Qed.

(** C4, as the code has it.  For every recorder:
    - the offline graph holds one source for every track that has audio
      and is not muted, and no other source: a muted track contributes
      none, whatever its fader;
    - the export is the encoding of the rendering of those sources
      through the master fader and the limiter; the signal the limiter
      receives is the master fader times the sum, over the tracks that
      have audio and are not muted, of fader times track signal, and
      each rendered sample is what the limiter returns for that signal;
    - the length of the rendering follows the longest buffer of all
      the tracks, muted or not: [maxDuration] is the greatest duration
      among the loaded tracks (0 without any), and it decides between
      no export and an export and fixes the number of frames;
    - a recorder with the same unmuted sources, the same master
      settings and the same longest duration exports the same. *)
Theorem exportMix_excludes_muted
    (compressor : CompressorParams -> Signal -> Signal)
    (resampler : AudioBuffer -> Q -> Signal) (r : Recorder.t) :
  (forall ctx0, oc_sources ctx0 = [] ->
     oc_sources (Recorder.offlineGraph r ctx0) = audibleSources r) /\
  (forall s, s ∈ audibleSources r <->
     exists t, t ∈ Recorder.tracks r /\ Track.audioBuffer t = Some (os_buffer s) /\
               Track.isMuted t = false /\ os_gain s = Track.channelFader t) /\
  (forall t, t ∈ Recorder.tracks r -> Track.isMuted t = true -> audible t = None) /\
  snd (Recorder.exportMix compressor resampler r) =
    (if JS.eq (Recorder.maxDuration r) 0 then NoAudioToExport
     else if (exportFrames r =? 0)%nat then ExportFailed
     else MixExported
            (Recorder.bufferToWav
               (startRendering compressor resampler
                  (mixGraph r (exportFrames r) (audibleSources r))))) /\
  (forall c i,
     (limiterInput resampler (mixGraph r (exportFrames r) (audibleSources r)) c i ==
      Recorder.masterGain r * trackSum resampler 44100 (Recorder.tracks r) c i)%Q) /\
  (forall c i, (c < 2)%nat -> (i < exportFrames r)%nat ->
     f32_get (getChannelData
                (startRendering compressor resampler
                   (mixGraph r (exportFrames r) (audibleSources r))) c) i =
     compressor (Recorder.masterLimiter r)
       (limiterInput resampler (mixGraph r (exportFrames r) (audibleSources r))) c i) /\
  (forall t b, t ∈ Recorder.tracks r -> Track.audioBuffer t = Some b ->
     (duration b <= Recorder.maxDuration r)%Q) /\
  ((Recorder.maxDuration r == 0)%Q \/
   exists t b, t ∈ Recorder.tracks r /\ Track.audioBuffer t = Some b /\
               (Recorder.maxDuration r == duration b)%Q) /\
  (forall r', Recorder.masterGain r' = Recorder.masterGain r ->
     Recorder.masterLimiter r' = Recorder.masterLimiter r ->
     (Recorder.maxDuration r' == Recorder.maxDuration r)%Q ->
     audibleSources r' = audibleSources r ->
     snd (Recorder.exportMix compressor resampler r') =
     snd (Recorder.exportMix compressor resampler r)).
Proof.
  split; [|split; [|split; [|split; [|split; [|split; [|split; [|split]]]]]]].
  - intros ctx0 H0. rewrite offlineGraph_sources. simpl. by rewrite H0.
  - apply audible_elem.
  - intros t _ Hm. unfold audible. rewrite Hm. by destruct (Track.audioBuffer t).
  - apply exportMix_outcome.
  - intros c i. unfold limiterInput, mixGraph.
    cbn [oc_masterGain oc_sampleRate oc_sources]. unfold audibleSources.
    by rewrite mixSignal_trackSum.
  - intros c i Hc Hi. by rewrite startRendering_sample.
  - intros t b Ht Hb.
    by apply (proj1 (proj2 (maxDuration_fold (Recorder.tracks r) 0)) t b).
  - apply (proj2 (proj2 (maxDuration_fold (Recorder.tracks r) 0))).
  - intros r' Hg Hl Hd Hs. rewrite !exportMix_outcome.
    rewrite (JS_eq_proper _ _ 0 Hd), (exportFrames_proper r r' Hd).
    unfold mixGraph. by rewrite Hg, Hl, Hs.
Qed.

Example demoSession_sources :
  audibleSources demoSession = [{| os_buffer := demoBuffer; os_gain := 0.8%Q |}].
Proof. reflexivity. Qed.

(** The muted track is the longest one: it adds no source, yet the
    export is as long as that track. *)
Example demoSession_frames : exportFrames demoSession = 4%nat.
Proof. lazy. reflexivity. Qed.

Example demoUnmuted_frames : exportFrames demoUnmuted = 3%nat.
Proof. lazy. reflexivity. Qed.

Example mutedOnly_frames : exportFrames mutedOnly = 3%nat.
Proof. lazy. reflexivity. Qed.

(** What reaches the limiter in [demoSession]: the samples of track 0
    through its fader and the master fader; the muted track, all ones,
    adds nothing. *)
Example demoSession_limiterInput (resampler : AudioBuffer -> Q -> Signal) :
  let input := limiterInput resampler (mixGraph demoSession 4 (audibleSources demoSession)) in
  (input 0 0 == 0.8 * (0.8 * (1 # 2)) /\ input 0 1 == 0.8 * (0.8 * (1 # 4)) /\
   input 0 2 == 0.8 * (0.8 * (1 # 8)) /\ input 0 3 == 0 /\
   input 1 0 == 0.8 * (0.8 * (-1 # 2)) /\ input 1 1 == 0.8 * (0.8 * 2) /\
   input 1 2 == 0.8 * (0.8 * -3) /\ input 1 3 == 0)%nat%Q.
Proof. lazy. repeat split; reflexivity. Qed.

(** The output is not settled by the unmuted tracks alone.
    [demoSession] and [demoUnmuted] have the same
    unmuted track and the same master settings and differ in the audio
    of a muted track only; the first exports 4 frames (60 bytes), the
    second 3 frames (56 bytes); the samples of the muted track (all
    ones) are in neither.  A recorder whose only audio sits on a muted
    track exports a file of 3 frames rendered from no source, the
    limiter being fed silence, where a recorder without audio exports
    nothing. *)
Lemma muted_track_sets_export_length :
  (audibleSources demoSession = audibleSources demoUnmuted /\
   Recorder.masterGain demoSession = Recorder.masterGain demoUnmuted /\
   Recorder.masterLimiter demoSession = Recorder.masterLimiter demoUnmuted /\
   audibleSources mutedOnly = [] /\
   audibleSources (Recorder.init 44100 demoDraws) = []) /\
  forall (compressor : CompressorParams -> Signal -> Signal)
         (resampler : AudioBuffer -> Q -> Signal),
    (exists wav wav',
       snd (Recorder.exportMix compressor resampler demoSession) = MixExported wav /\
       snd (Recorder.exportMix compressor resampler demoUnmuted) = MixExported wav' /\
       length wav = 60%nat /\ length wav' = 56%nat /\ wav <> wav') /\
    (let input :=
       limiterInput resampler (mixGraph demoSession 4 (audibleSources demoSession)) in
     (input 0 0 == 0.8 * (0.8 * (1 # 2)) /\ input 0 1 == 0.8 * (0.8 * (1 # 4)) /\
      input 0 2 == 0.8 * (0.8 * (1 # 8)) /\ input 0 3 == 0 /\
      input 1 0 == 0.8 * (0.8 * (-1 # 2)) /\ input 1 1 == 0.8 * (0.8 * 2) /\
      input 1 2 == 0.8 * (0.8 * -3) /\ input 1 3 == 0)%nat%Q) /\
    (exists wav,
       snd (Recorder.exportMix compressor resampler mutedOnly) = MixExported wav /\
       length wav = 56%nat /\
       wav = Recorder.bufferToWav
                   (startRendering compressor resampler (mixGraph mutedOnly 3 [])) /\
       forall c i, (limiterInput resampler (mixGraph mutedOnly 3 []) c i == 0)%Q) /\
    snd (Recorder.exportMix compressor resampler (Recorder.init 44100 demoDraws))
      = NoAudioToExport.
Proof.
  split; [repeat apply conj; lazy; reflexivity|].
  intros compressor resampler.
  assert (Hz : forall r, exportFrames r <> 0%nat ->
                 JS.eq (Recorder.maxDuration r) 0 = false).
  { intros r Hr. destruct (JS.eq (Recorder.maxDuration r) 0) eqn:E; [|done].
    apply JS_eq_true in E. exfalso. apply Hr. unfold exportFrames.
    rewrite (double_proper _ 0) by (rewrite E; reflexivity). reflexivity. }
  split; [|split; [apply demoSession_limiterInput|split]].
  - eexists _, _.
    rewrite !exportMix_outcome, demoSession_frames, demoUnmuted_frames.
    rewrite (Hz demoSession) by (rewrite demoSession_frames; lia).
    rewrite (Hz demoUnmuted) by (rewrite demoUnmuted_frames; lia).
    cbn [Nat.eqb]. split; [reflexivity|]. split; [reflexivity|].
    rewrite !bufferToWav_length.
    assert (L1 : length (Recorder.bufferToWav (startRendering compressor resampler
                   (mixGraph demoSession 4 (audibleSources demoSession)))) = 60%nat)
      by (rewrite bufferToWav_length; reflexivity).
    assert (L2 : length (Recorder.bufferToWav (startRendering compressor resampler
                   (mixGraph demoUnmuted 3 (audibleSources demoUnmuted)))) = 56%nat)
      by (rewrite bufferToWav_length; reflexivity).
    split; [reflexivity|]. split; [reflexivity|].
    intros E. rewrite E in L1. rewrite L1 in L2. discriminate.
  - eexists. rewrite exportMix_outcome, mutedOnly_frames.
    rewrite (Hz mutedOnly) by (rewrite mutedOnly_frames; lia).
    cbn [Nat.eqb]. split; [reflexivity|].
    split; [rewrite bufferToWav_length; reflexivity|]. split; [reflexivity|].
    intros c i. lazy. reflexivity.
  - rewrite exportMix_outcome. reflexivity.
Qed.

(** *** The two-second scenario (C5) *)

Lemma twoSeconds_Z : Z.of_nat twoSeconds = 88200%Z.
Proof. unfold twoSeconds. rewrite Z2Nat.id; [reflexivity|discriminate]. Qed.

Lemma twoSeconds_pos : (0 < twoSeconds)%nat.
Proof. apply Nat2Z.inj_lt. rewrite twoSeconds_Z. reflexivity. Qed.

Opaque twoSeconds.

Lemma halfSession_sources :
  audibleSources halfSession = [{| os_buffer := halfBuffer; os_gain := 0.8%Q |}].
Proof. reflexivity. Qed.

Lemma halfSession_maxDuration :
  Recorder.maxDuration halfSession = JS.Math_max 0 (duration halfBuffer).
Proof. reflexivity. Qed.

Lemma halfSession_master :
  Recorder.masterGain halfSession = 0.8%Q /\
  Recorder.masterLimiter halfSession = mkCompressor (-0.5) 0 20 0.001 0.010.
Proof. split; reflexivity. Qed.

(** 88200 frames at 44.1 kHz last two seconds, a number doubles hold
    exactly. *)
Lemma halfBuffer_duration : (duration halfBuffer == 2)%Q.
Proof.
  unfold duration. cbn [buf_length sampleRate halfBuffer]. rewrite twoSeconds_Z.
  vm_compute. reflexivity.
Qed.

Lemma halfSession_longest : (Recorder.maxDuration halfSession == 2)%Q.
Proof.
  rewrite halfSession_maxDuration.
  pose proof halfBuffer_duration as D.
  destruct (Math_max_spec 0 (duration halfBuffer)) as (_ & H & [E|E]); Lqa.lra.
Qed.

Lemma halfSession_frames : exportFrames halfSession = twoSeconds.
Proof.
  unfold exportFrames.
  rewrite (double_proper _ (2 * 44100)) by (rewrite halfSession_longest; reflexivity).
  change (JS.ToUint 32 (JS.double (2 * 44100))) with 88200%Z.
  rewrite <- twoSeconds_Z. apply Nat2Z.id.
Qed.

Lemma halfSession_outcome (compressor : CompressorParams -> Signal -> Signal)
    (resampler : AudioBuffer -> Q -> Signal) :
  snd (Recorder.exportMix compressor resampler halfSession) =
  MixExported (Recorder.bufferToWav (startRendering compressor resampler halfGraph)).
Proof.
  rewrite exportMix_outcome, halfSession_frames, halfSession_sources.
  rewrite (JS_eq_proper _ 2 0 halfSession_longest).
  rewrite (proj2 (Nat.eqb_neq twoSeconds 0)) by (pose proof twoSeconds_pos; lia).
  reflexivity.
Qed.

(** Before the limiter every sample is 0.5 scaled by the track fader
    and by the master fader while the buffer lasts, and 0 afterwards. *)
Lemma halfGraph_limiterInput (resampler : AudioBuffer -> Q -> Signal) (c i : nat) :
  limiterInput resampler halfGraph c i =
  if decide (i < twoSeconds)%nat then (0.8 * (0.8 * 0.5 + 0))%Q
  else (0.8 * (0.8 * 0 + 0))%Q.
Proof.
  unfold limiterInput, halfGraph, mixGraph.
  cbn [oc_masterGain oc_sampleRate oc_sources mixSignal fold_right os_gain os_buffer].
  rewrite (proj1 halfSession_master).
  change (sourceSignal resampler 44100 halfBuffer c i)
    with (f32_get (replicate twoSeconds 0.5%Q) i).
  unfold f32_get. destruct (decide (i < twoSeconds)%nat) as [Hi|Hi].
  - by rewrite lookup_replicate_2.
  - rewrite (proj1 (lookup_replicate_None _ _ _)) by lia. done.
Qed.

(** The length and the header of the exported file do not depend on the
    limiter; the samples are those the limiter returns. *)
Lemma halfSession_wav (compressor : CompressorParams -> Signal -> Signal)
    (resampler : AudioBuffer -> Q -> Signal) :
  let wav := Recorder.bufferToWav (startRendering compressor resampler halfGraph) in
  length wav = (44 + twoSeconds * 2 * 2)%nat /\
  dataChunkSize (readWavFields wav) = (2 * 44100 * 2 * 2)%Z /\
  forall i c, (i < twoSeconds)%nat -> (c < 2)%nat ->
    DataView.getInt16 wav (44 + 2 * (i * 2 + c)) =
    JS.trunc (clamp (compressor (oc_limiter halfGraph)
                       (limiterInput resampler halfGraph) c i) * 32767).
Proof.
  intros wav. unfold wav. clear wav.
  pose proof (fun c i => startRendering_sample compressor resampler halfGraph c i)
    as Hsample.
  set (rendered := startRendering compressor resampler halfGraph) in *.
  assert (Hn : numberOfChannels rendered = 2%nat) by reflexivity.
  assert (Hl : buf_length rendered = twoSeconds) by reflexivity.
  assert (Hr : sampleRate rendered = inject_Z 44100) by reflexivity.
  change (oc_channels halfGraph) with 2%nat in Hsample.
  change (oc_length halfGraph) with twoSeconds in Hsample.
  clearbody rendered.
  assert (Hdl : Z.of_nat (dataLength rendered) = 352800%Z).
  { unfold dataLength. rewrite Hn, Hl, !Nat2Z.inj_mul, twoSeconds_Z. reflexivity. }
  split; [|split].
  - rewrite bufferToWav_length. unfold dataLength. by rewrite Hn, Hl.
  - rewrite (wav_fields rendered 44100 Hn Hr);
      [ cbn [dataChunkSize]; rewrite Hdl; reflexivity
      | discriminate | reflexivity | rewrite Hdl; reflexivity ].
  - intros i c Hi Hc.
    pose proof (wav_sample_readback rendered i c) as Hread.
    rewrite Hn, Hl in Hread. rewrite Hread by assumption.
    unfold pcmSample. by rewrite Hsample.
Qed.

(** A 16-bit sample that decodes to within 0.01 of 0.4 comes from a
    value of at least 0.39. *)
Lemma decodes_near_track_fader_only (y : Q) :
  (Qabs (inject_Z (JS.trunc (clamp y * 32767)) / 32767 - 0.5 * 0.8) <= 0.01)%Q ->
  (0.39 <= y)%Q.
Proof.
  intros H. apply Qabs_Qle_condition in H. destruct H as [H _].
  assert (Ht : (0.39 * 32767 <= inject_Z (JS.trunc (clamp y * 32767)))%Q).
  { unfold Qdiv in H. change (/ 32767)%Q with (1 # 32767)%Q in H. Lqa.lra. }
  destruct (Qlt_le_dec (clamp y * 32767) 0) as [Hn|Hp].
  - destruct (trunc_nonpos (clamp y * 32767)) as (A & _); [Lqa.lra|].
    assert (B : (inject_Z (JS.trunc (clamp y * 32767)) <= 0)%Q).
    { change 0%Q with (inject_Z 0). by rewrite <- Zle_Qle. }
    Lqa.lra.
  - destruct (trunc_nonneg (clamp y * 32767) Hp) as (_ & A & _).
    assert (Hc : (0.39 <= clamp y)%Q) by Lqa.lra.
    unfold clamp in Hc.
    destruct (Math_min_spec 1 y) as (_ & M & _).
    destruct (Math_max_spec (-1) (JS.Math_min 1 y)) as (_ & _ & [E|E]);
      rewrite E in Hc; Lqa.lra.
Qed.



(** * Further properties of the audio core *)

(** ** Buffers *)

(** Two well-formed buffers of the same shape with the same samples
    are the same buffer. *)
Lemma buffer_ext (b b' : AudioBuffer) :
  wf_buffer b -> wf_buffer b' ->
  numberOfChannels b' = numberOfChannels b -> buf_length b' = buf_length b ->
  sampleRate b' = sampleRate b ->
  (forall c i, (c < numberOfChannels b)%nat -> (i < buf_length b)%nat ->
     sampleAt b' c i = sampleAt b c i) ->
  b' = b.
Proof.
  destruct b as [n len rate data], b' as [n' len' rate' data'].
  unfold wf_buffer, sampleAt. cbn. intros [Hn Hl] [Hn' Hl'] -> -> -> Hs.
  f_equal. apply list_eq. intros c.
  destruct (decide (c < n)%nat) as [Hc|Hc].
  - destruct (lookup_lt_is_Some_2 data c ltac:(lia)) as [ch Hch].
    destruct (lookup_lt_is_Some_2 data' c ltac:(lia)) as [ch' Hch'].
    rewrite Hch, Hch'. f_equal. apply list_eq. intros i.
    pose proof (proj1 (Forall_lookup _ _) Hl c ch Hch) as Lc.
    pose proof (proj1 (Forall_lookup _ _) Hl' c ch' Hch') as Lc'.
    cbn in Lc, Lc'.
    destruct (decide (i < len)%nat) as [Hi|Hi].
    + specialize (Hs c i Hc Hi). rewrite Hch, Hch' in Hs. exact Hs.
    + rewrite !lookup_ge_None_2; [done|lia|lia].
  - rewrite !lookup_ge_None_2; [done|lia|lia].
Qed.

(** X1.  Reversing a buffer twice gives the buffer back: the copy kept
    for reverse playback loses nothing of the recording. *)
Theorem createReversedBuffer_involutive (b : AudioBuffer) :
  wf_buffer b -> createReversedBuffer (createReversedBuffer b) = b.
Proof.
  intros Hwf.
  destruct (createReversedBuffer_mirrors b Hwf) as [Hwf1 (Hn1 & Hl1 & Hr1 & _ & Hs1)].
  destruct (createReversedBuffer_mirrors _ Hwf1) as [Hwf2 (Hn2 & Hl2 & Hr2 & _ & Hs2)].
  apply buffer_ext; try done; try congruence.
  intros c i Hc Hi.
  destruct (Hs2 c i) as [_ E2]; [lia|lia|]. rewrite E2, Hl1.
  destruct (Hs1 c (buf_length b - 1 - i)%nat) as [_ E1]; [lia|lia|]. rewrite E1.
  f_equal. lia.
Qed.

Lemma createReversedBuffer_involutive_witness :
  createReversedBuffer (createReversedBuffer demoBuffer) = demoBuffer.
Proof. apply createReversedBuffer_involutive. apply demoBuffer_wf. Defined.

(** ** The WAV encoder: quantisation *)

(** Clamping to [lo, hi]: the value itself inside the interval, the
    nearer end outside. *)
Lemma clamp_between (lo hi x : Q) :
  (lo <= hi)%Q ->
  let y := JS.Math_max lo (JS.Math_min hi x) in
  (lo <= y)%Q /\ (y <= hi)%Q /\
  ((lo <= x)%Q -> (x <= hi)%Q -> (y == x)%Q) /\
  ((x <= lo)%Q -> (y == lo)%Q) /\ ((hi <= x)%Q -> (y == hi)%Q).
Proof.
  intros Hlh y. subst y.
  destruct (Math_min_spec hi x) as (A1 & A2 & A3).
  destruct (Math_max_spec lo (JS.Math_min hi x)) as (B1 & B2 & B3).
  set (m := JS.Math_min hi x) in *. set (y := JS.Math_max lo m) in *.
  clearbody y m.
  repeat split; try intros; destruct A3, B3; Lqa.lra.
Qed.

Lemma clamp_mono (x y : Q) : (x <= y)%Q -> (clamp x <= clamp y)%Q.
Proof.
  intros Hxy. unfold clamp.
  destruct (clamp_between (-1) 1 x) as (X1 & X2 & X3 & X4 & X5); [Lqa.lra|].
  destruct (clamp_between (-1) 1 y) as (Y1 & Y2 & Y3 & Y4 & Y5); [Lqa.lra|].
  cbv zeta in *.
  set (cx := JS.Math_max (-1) (JS.Math_min 1 x)) in *.
  set (cy := JS.Math_max (-1) (JS.Math_min 1 y)) in *. clearbody cx cy.
  destruct (Qlt_le_dec x (-1)); [specialize (X4 ltac:(Lqa.lra)); Lqa.lra|].
  destruct (Qlt_le_dec 1 y); [specialize (Y5 ltac:(Lqa.lra)); Lqa.lra|].
  specialize (X3 ltac:(Lqa.lra) ltac:(Lqa.lra)).
  specialize (Y3 ltac:(Lqa.lra) ltac:(Lqa.lra)). Lqa.lra.
Qed.

Lemma sampleAt_f32_get (b : AudioBuffer) (c i : nat) (x : Q) :
  sampleAt b c i = Some x -> f32_get (getChannelData b c) i = x.
Proof.
  unfold sampleAt, f32_get, getChannelData. intros H.
  destruct (channelData b !! c) as [data|]; [|done]. cbn in *. by rewrite H.
Qed.

Lemma trunc_proper (x y : Q) : (x == y)%Q -> JS.trunc x = JS.trunc y.
Proof.
  intros E. apply Z.le_antisymm; apply trunc_mono; rewrite E; apply Qle_refl.
Qed.

(** X2.  What a decoder reads back for a sample of the buffer: a
    value between -32767 and 32767 (never -32768) that, divided by
    32767, is within one step of the clamped sample; full scale for
    samples at or beyond 1 and -1, zero for silence, the sign of the
    sample, and an order that follows the order of the samples. *)
Theorem wav_sample_quantisation (b : AudioBuffer) (i c i' c' : nat) (x y : Q) :
  (i < buf_length b)%nat -> (c < numberOfChannels b)%nat ->
  (i' < buf_length b)%nat -> (c' < numberOfChannels b)%nat ->
  sampleAt b c i = Some x -> sampleAt b c' i' = Some y ->
  let wav := Recorder.bufferToWav b in
  let d := DataView.getInt16 wav (44 + 2 * (i * numberOfChannels b + c)) in
  let e := DataView.getInt16 wav (44 + 2 * (i' * numberOfChannels b + c')) in
  (-32767 <= d <= 32767)%Z /\
  (Qabs (inject_Z d / 32767 - clamp x) < 1 / 32767)%Q /\
  ((1 <= x)%Q -> d = 32767%Z) /\
  ((x <= -1)%Q -> d = (-32767)%Z) /\
  ((x == 0)%Q -> d = 0%Z) /\
  ((0 <= x)%Q -> (0 <= d)%Z) /\
  ((x <= 0)%Q -> (d <= 0)%Z) /\
  ((x <= y)%Q -> (d <= e)%Z).
Proof.
  intros Hi Hc Hi' Hc' Hx Hy wav d e. subst wav d e.
  rewrite !wav_sample_readback by done. unfold pcmSample.
  rewrite (sampleAt_f32_get _ _ _ _ Hx), (sampleAt_f32_get _ _ _ _ Hy).
  destruct (clamp_range x) as [L U].
  destruct (clamp_between (-1) 1 x) as (_ & _ & In & Lo & Hi_); [Lqa.lra|].
  cbv zeta in In, Lo, Hi_. fold (clamp x) in In, Lo, Hi_.
  split; [by apply pcm_range|]. split.
  { pose proof (trunc_error (clamp x * 32767)) as He.
    apply Qabs_Qlt_condition in He. apply Qabs_Qlt_condition.
    set (t := inject_Z (JS.trunc (clamp x * 32767))) in *. clearbody t.
    set (cx := clamp x) in *. clearbody cx.
    unfold Qdiv. change (/ 32767)%Q with (1 # 32767)%Q.
    split; Lqa.lra. }
  split; [|split; [|split; [|split; [|split]]]].
  - intros H1. rewrite (trunc_proper _ 32767); [reflexivity|].
    rewrite (Hi_ H1). reflexivity.
  - intros H1. rewrite (trunc_proper _ (-32767)); [reflexivity|].
    rewrite (Lo H1). reflexivity.
  - intros H0. rewrite (trunc_proper _ 0); [reflexivity|].
    rewrite In by Lqa.lra. rewrite H0. reflexivity.
  - intros H0. apply trunc_nonneg.
    destruct (Qlt_le_dec 1 x) as [H1|H1].
    + rewrite Hi_ by Lqa.lra. Lqa.lra.
    + rewrite In by Lqa.lra. Lqa.lra.
  - intros H0. apply trunc_nonpos.
    destruct (Qlt_le_dec x (-1)) as [H1|H1].
    + rewrite Lo by Lqa.lra. Lqa.lra.
    + rewrite In by Lqa.lra. Lqa.lra.
  - intros Hxy. apply trunc_mono. pose proof (clamp_mono x y Hxy). Lqa.lra.
Qed.

Lemma wav_sample_quantisation_witness :
  DataView.getInt16 (Recorder.bufferToWav demoBuffer) (44 + 2 * (2 * 2 + 1)) = (-32767)%Z /\
  DataView.getInt16 (Recorder.bufferToWav demoBuffer) (44 + 2 * (1 * 2 + 1)) = 32767%Z.
Proof.
  split.
  - apply (wav_sample_quantisation demoBuffer 2 1 2 1 (-3) (-3));
      try (cbn; lia); try reflexivity. Lqa.lra.
  - apply (wav_sample_quantisation demoBuffer 1 1 1 1 2 2);
      try (cbn; lia); try reflexivity. Lqa.lra.
Defined.

(** ** Export: what [exportMix] produces *)

Lemma ToUint32_floor (x : Q) :
  (0 <= x)%Q -> (x < 4294967296)%Q -> JS.ToUint 32 x = Qfloor x.
Proof.
  intros H0 H1. destruct (trunc_nonneg x H0) as (A & B & C).
  assert (E : JS.trunc x = Qfloor x).
  { apply Z.le_antisymm.
    - apply inject_Z_lt_succ. pose proof (Qlt_floor x) as F.
      rewrite inject_Z_plus in F. change (inject_Z 1) with 1%Q in F. Lqa.lra.
    - apply inject_Z_lt_succ. pose proof (Qfloor_le x). Lqa.lra. }
  unfold JS.ToUint. rewrite E. apply Z.mod_small. split; [lia|].
  rewrite Zlt_Qlt, <- E. change (inject_Z (2 ^ 32)) with 4294967296%Q. Lqa.lra.
Qed.

(** X3.  The three outcomes of [exportMix], by the longest buffer the
    tracks hold (muted or not): nothing to export exactly when no track
    holds a buffer of positive duration; otherwise the length handed to
    the offline context is the product of that duration and 44100,
    rounded to a double (so within one part in [2^53] of the exact
    product); the export fails when this is less than one frame, and
    else gives a 16-bit stereo file at 44.1 kHz, whatever the formats
    of the buffers, with the whole part of the product as its number of
    frames.  For a longest buffer of [n] frames recorded at 44.1 kHz
    that is [n] or [n - 1] frames: the duration [n / 44100] is itself
    rounded, and the product can fall just short of [n]. *)
Theorem exportMix_outcomes
    (compressor : CompressorParams -> Signal -> Signal)
    (resampler : AudioBuffer -> Q -> Signal) (r : Recorder.t) :
  let longest := Recorder.maxDuration r in
  let product := JS.double (longest * 44100) in
  let result := snd (Recorder.exportMix compressor resampler r) in
  (0 <= longest)%Q /\
  (result = NoAudioToExport <->
   forall t b, t ∈ Recorder.tracks r -> Track.audioBuffer t = Some b ->
     (duration b <= 0)%Q) /\
  (longest * 44100 * (1 - unitRoundoff) <= product)%Q /\
  (product <= longest * 44100 * (1 + unitRoundoff))%Q /\
  ((0 < longest)%Q -> (product < 1)%Q -> result = ExportFailed) /\
  ((1 <= product)%Q -> (product < 1000000000)%Q ->
   let frames := Z.to_nat (Qfloor product) in
   exportFrames r = frames /\
   exists wav,
     result = MixExported wav /\
     length wav = (44 + frames * 4)%nat /\
     readWavFields wav =
       {| riffTag := tag_RIFF; riffChunkSize := 36 + Z.of_nat (frames * 4);
          waveTag := tag_WAVE;
          fmtTag := tag_fmt; fmtChunkSize := 16; audioFormat := 1; channelCount := 2;
          wavSampleRate := 44100; byteRate := 176400; blockAlign := 4;
          bitsPerSample := 16;
          dataTag := tag_data; dataChunkSize := Z.of_nat (frames * 4) |}) /\
  (forall t b, t ∈ Recorder.tracks r -> Track.audioBuffer t = Some b ->
     (duration b == longest)%Q -> (sampleRate b == 44100)%Q ->
     (1 <= buf_length b)%nat -> (Z.of_nat (buf_length b) < 1000000000)%Z ->
     exportFrames r = buf_length b \/ exportFrames r = (buf_length b - 1)%nat).
Proof.
  intros longest product result. subst result. rewrite exportMix_outcome. fold longest.
  pose proof (maxDuration_nonneg r) as Hpos. fold longest in Hpos.
  destruct (maxDuration_fold (Recorder.tracks r) 0) as (_ & Hall & Hex).
  fold (Recorder.maxDuration r) in Hall, Hex. fold longest in Hall, Hex.
  assert (Hprod : (0 <= longest * 44100)%Q) by Lqa.lra.
  destruct (double_bounds (longest * 44100) Hprod) as [Blo Bhi]. fold product in Blo, Bhi.
  assert (Hframes : (0 <= product)%Q -> (product < 4294967296)%Q ->
                    exportFrames r = Z.to_nat (Qfloor product)).
  { intros H0 H1. unfold exportFrames. fold longest. fold product.
    by rewrite ToUint32_floor. }
  split; [done|]. split; [|split; [done|split; [done|split; [|split]]]].
  - destruct (JS.eq longest 0) eqn:E.
    + apply JS_eq_true in E. split; [|done]. intros _ t b Ht Hb.
      specialize (Hall t b Ht Hb). Lqa.lra.
    + assert (Hne : ~ (longest == 0)%Q) by (intros K; apply JS_eq_true in K; congruence).
      split.
      * by destruct (exportFrames r =? 0)%nat.
      * intros Hle. exfalso. apply Hne.
        destruct Hex as [E0|(t & b & Ht & Hb & E0)]; [done|].
        specialize (Hle t b Ht Hb). Lqa.lra.
  - intros H0 H1.
    assert (E : JS.eq longest 0 = false).
    { destruct (JS.eq longest 0) eqn:E; [|done]. apply JS_eq_true in E. Lqa.lra. }
    rewrite E.
    assert (Hp0 : (0 <= product)%Q) by (unfold unitRoundoff in Blo; Lqa.lra).
    rewrite Hframes by Lqa.lra.
    assert (F : Qfloor product = 0%Z).
    { apply Z.le_antisymm.
      - apply inject_Z_lt_succ. pose proof (Qfloor_le product).
        change (inject_Z 0) with 0%Q. Lqa.lra.
      - replace 0%Z with (Qfloor 0) by reflexivity. by apply Qfloor_resp_le. }
    by rewrite F.
  - intros H1 H2 frames.
    assert (Hl : (0 < longest)%Q).
    { unfold unitRoundoff in Bhi. Lqa.lra. }
    assert (E : JS.eq longest 0 = false).
    { destruct (JS.eq longest 0) eqn:E; [|done]. apply JS_eq_true in E. Lqa.lra. }
    rewrite E.
    assert (F1 : (1 <= Qfloor product)%Z).
    { replace 1%Z with (Qfloor 1) by reflexivity. by apply Qfloor_resp_le. }
    assert (F2 : (Qfloor product < 1000000000)%Z).
    { rewrite Zlt_Qlt. pose proof (Qfloor_le product).
      change (inject_Z 1000000000) with 1000000000%Q. Lqa.lra. }
    assert (Hfr : exportFrames r = frames) by (apply Hframes; Lqa.lra).
    split; [exact Hfr|]. rewrite Hfr.
    rewrite (proj2 (Nat.eqb_neq frames 0)) by (subst frames; lia).
    set (rendered := startRendering compressor resampler
                       (mixGraph r frames (audibleSources r))).
    assert (Hch : numberOfChannels rendered = 2%nat) by reflexivity.
    assert (Hlen : buf_length rendered = frames) by reflexivity.
    assert (Hrate : sampleRate rendered = inject_Z 44100) by reflexivity.
    clearbody rendered. exists (Recorder.bufferToWav rendered).
    assert (Hd : dataLength rendered = (frames * 4)%nat).
    { unfold dataLength. rewrite Hch, Hlen. lia. }
    split; [done|]. split.
    + rewrite bufferToWav_length, Hd. reflexivity.
    + rewrite (wav_fields rendered 44100 Hch Hrate); [|lia|lia|rewrite Hd; lia].
      rewrite Hd. reflexivity.
  - intros t b _ _ Hd Hrate Hn1 Hn2.
    set (n := inject_Z (Z.of_nat (buf_length b))).
    assert (Hn : (1 <= n)%Q /\ (n < 1000000000)%Q).
    { subst n. change 1%Q with (inject_Z 1).
      change 1000000000%Q with (inject_Z 1000000000).
      rewrite <- Zle_Qle, <- Zlt_Qlt. lia. }
    assert (Hexact : (n / sampleRate b * 44100 == n)%Q) by (rewrite Hrate; field).
    assert (Hq : (0 <= n / sampleRate b)%Q).
    { rewrite Hrate. unfold Qdiv. change (/ 44100)%Q with (1 # 44100)%Q. Lqa.lra. }
    destruct (double_bounds (n / sampleRate b) Hq) as [Dlo Dhi].
    assert (Hdur : duration b = JS.double (n / sampleRate b)) by reflexivity.
    rewrite Hdur in Hd.
    set (x := (n / sampleRate b)%Q) in *. set (d := JS.double x) in *.
    clearbody d. clearbody x.
    unfold unitRoundoff in *.
    assert (P1 : (inject_Z (Z.of_nat (buf_length b)) - 1 < product)%Q) by (fold n; Lqa.lra).
    assert (P2 : (product < inject_Z (Z.of_nat (buf_length b)) + 1)%Q) by (fold n; Lqa.lra).
    rewrite Hframes by (fold n in P1, P2; Lqa.lra).
    assert (G1 : (Z.of_nat (buf_length b) - 1 <= Qfloor product)%Z).
    { replace (Z.of_nat (buf_length b) - 1)%Z
        with (Qfloor (inject_Z (Z.of_nat (buf_length b) - 1))) by apply Qfloor_Z.
      apply Qfloor_resp_le. unfold Z.sub. rewrite inject_Z_plus.
      change (inject_Z (- (1))) with (-1)%Q. Lqa.lra. }
    assert (G2 : (Qfloor product <= Z.of_nat (buf_length b))%Z).
    { apply inject_Z_lt_succ. pose proof (Qfloor_le product). Lqa.lra. }
    lia.
Qed.

(** A buffer of 15 frames at 44.1 kHz: its duration [15 / 44100] as a
    double times 44100 is just below 15, and the export has 14 frames
    (100 bytes). *)
Lemma exportMix_outcomes_witness :
  exportFrames fifteenSession = 14%nat /\
  forall (compressor : CompressorParams -> Signal -> Signal)
         (resampler : AudioBuffer -> Q -> Signal),
    exists wav,
      snd (Recorder.exportMix compressor resampler fifteenSession) = MixExported wav /\
      length wav = 100%nat.
Proof.
  assert (H1 : (1 <= JS.double (Recorder.maxDuration fifteenSession * 44100))%Q)
    by (lazy; discriminate).
  assert (H2 : (JS.double (Recorder.maxDuration fifteenSession * 44100) < 1000000000)%Q)
    by (lazy; reflexivity).
  assert (F : Z.to_nat (Qfloor (JS.double (Recorder.maxDuration fifteenSession * 44100)))
              = 14%nat) by (lazy; reflexivity).
  split.
  - destruct (exportMix_outcomes (fun _ sig => sig) (fun _ _ _ _ => 0%Q) fifteenSession)
      as (_ & _ & _ & _ & _ & H & _).
    destruct (H H1 H2) as [E _]. rewrite E. exact F.
  - intros compressor resampler.
    destruct (exportMix_outcomes compressor resampler fifteenSession)
      as (_ & _ & _ & _ & _ & H & _).
    destruct (H H1 H2) as (_ & wav & E & L & _). exists wav. split; [exact E|].
    rewrite L, F. reflexivity.
Defined.

(** The frames exported for buffers of some lengths at 44.1 kHz. *)
Example frames_after_rounding :
  map (fun n => JS.ToUint 32 (JS.double (JS.double (inject_Z n / 44100) * 44100)))
      [1; 2; 3; 7; 15; 49; 98; 100; 22050; 44100; 88200]%Z
  = [1; 2; 3; 7; 14; 49; 98; 100; 22050; 44100; 88200]%Z.
Proof. vm_compute. reflexivity. Qed.

(** ** Transport: playing, stopping, clearing *)

(** What [play] does to a track that holds audio and is not playing. *)
Lemma play_starts (when now : Q) (tr : Track.t) (b : AudioBuffer) :
  Track.audioBuffer tr = Some b -> Track.isPlaying tr = false ->
  let tr' := Track.play when now tr in
  Track.isPlaying tr' = true /\
  (exists src, Track.source tr' = Some src /\
     src_buffer src =
       (if Track.isReversed tr && bool_decide (is_Some (Track.reversedBuffer tr))
        then ReversedBuffer else ForwardBuffer) /\
     src_playbackRate src = Rabs (Track.playbackRate tr) /\
     src_loop src = match Track.mode tr with loop => true | normal => false end /\
     (Track.mode tr = loop ->
      src_loopEnd src = JS.Math_min (Track.loopLength tr) (duration b))) /\
  Track.audioBuffer tr' = Some b /\
  Track.reversedBuffer tr' = Track.reversedBuffer tr /\
  Track.mode tr' = Track.mode tr /\
  Track.playbackRate tr' = Track.playbackRate tr /\
  Track.isReversed tr' = Track.isReversed tr /\
  Track.isMuted tr' = Track.isMuted tr /\
  Track.isSolo tr' = Track.isSolo tr /\
  Track.channelFader tr' = Track.channelFader tr /\
  Track.loopLength tr' = Track.loopLength tr.
Proof.
  intros Hb Hp tr'. subst tr'. unfold Track.play. rewrite Hb, Hp.
  destruct (Track.mode tr) eqn:Hm; cbn; rewrite ?Hm;
    (split; [done|]); (split; [eexists; split; [reflexivity|]; cbn; done|]); done.
Qed.

(** [play] leaves alone a track without audio, or one that plays. *)
Lemma play_idle (when now : Q) (tr : Track.t) :
  Track.audioBuffer tr = None \/ Track.isPlaying tr = true ->
  Track.play when now tr = tr.
Proof.
  intros [H|H]; unfold Track.play; rewrite H; [done|].
  by destruct (Track.audioBuffer tr).
Qed.

Lemma stop_fields (tr : Track.t) :
  Track.isPlaying (Track.stop tr) = false /\ Track.source (Track.stop tr) = None /\
  Track.audioBuffer (Track.stop tr) = Track.audioBuffer tr /\
  Track.reversedBuffer (Track.stop tr) = Track.reversedBuffer tr /\
  Track.mode (Track.stop tr) = Track.mode tr /\
  Track.playbackRate (Track.stop tr) = Track.playbackRate tr /\
  Track.isReversed (Track.stop tr) = Track.isReversed tr /\
  Track.loopLength (Track.stop tr) = Track.loopLength tr.
Proof. done. Qed.

Lemma recorder_stop_idle (r : Recorder.t) :
  Recorder.isPlaying r = false -> Recorder.stop r = r.
Proof. intros H. unfold Recorder.stop. by rewrite H. Qed.

Lemma exportMix_state (compressor : CompressorParams -> Signal -> Signal)
    (resampler : AudioBuffer -> Q -> Signal) (r : Recorder.t) :
  fst (Recorder.exportMix compressor resampler r) = Recorder.stop r.
Proof.
  unfold Recorder.exportMix.
  destruct (JS.eq _ _); [done|].
  by destruct (newOfflineAudioContext _ _ _).
Qed.

(** X4.  [clearAll] empties the recorder: transport stopped, every
    track without buffers and without a source, mute, solo and fader
    settings kept; after it there is nothing to export and [play]
    starts nothing. *)
Theorem clearAll_empties
    (compressor : CompressorParams -> Signal -> Signal)
    (resampler : AudioBuffer -> Q -> Signal) (r : Recorder.t) :
  let r' := Recorder.clearAll r in
  Recorder.isPlaying r' = false /\
  length (Recorder.tracks r') = length (Recorder.tracks r) /\
  (forall k t', Recorder.tracks r' !! k = Some t' ->
     Track.audioBuffer t' = None /\ Track.reversedBuffer t' = None /\
     Track.source t' = None /\ Track.isPlaying t' = false /\
     exists t, Recorder.tracks r !! k = Some t /\
       Track.isMuted t' = Track.isMuted t /\ Track.isSolo t' = Track.isSolo t /\
       Track.channelFader t' = Track.channelFader t /\
       Track.mode t' = Track.mode t /\ Track.playbackRate t' = Track.playbackRate t /\
       Track.isReversed t' = Track.isReversed t) /\
  snd (Recorder.exportMix compressor resampler r') = NoAudioToExport /\
  (forall now, Recorder.tracks (Recorder.play now r') = Recorder.tracks r').
Proof.
  intros r'.
  assert (Hplay : Recorder.isPlaying r' = false).
  { subst r'. unfold Recorder.clearAll, Recorder.stop.
    by destruct (Recorder.isPlaying r) eqn:E; cbn; rewrite ?E. }
  assert (Htracks : forall k t', Recorder.tracks r' !! k = Some t' ->
            exists t, Recorder.tracks r !! k = Some t /\
              (t' = Track.clear t \/ t' = Track.clear (Track.stop t))).
  { intros k t'. subst r'. unfold Recorder.clearAll. cbn.
    rewrite list_lookup_fmap.
    destruct (stop_tracks r) as [E|E]; rewrite E.
    - intros H. destruct (Recorder.tracks r !! k) as [t|]; [|done].
      inversion H. eauto.
    - rewrite list_lookup_fmap. intros H.
      destruct (Recorder.tracks r !! k) as [t|]; [|done]. inversion H. eauto. }
  assert (Hnone : forall t', t' ∈ Recorder.tracks r' -> Track.audioBuffer t' = None).
  { intros t' Ht'. apply list_elem_of_lookup in Ht' as [k Hk].
    destruct (Htracks k t' Hk) as (t & _ & [->| ->]); done. }
  split; [done|]. split.
  { subst r'. unfold Recorder.clearAll. cbn. rewrite length_map.
    destruct (stop_tracks r) as [E|E]; rewrite E; [done|]. by rewrite length_map. }
  split.
  { intros k t' Hk. destruct (Htracks k t' Hk) as (t & Ht & [->| ->]);
      (repeat (split; [done|])); exists t; done. }
  split.
  - rewrite exportMix_outcome.
    destruct (maxDuration_fold (Recorder.tracks r') 0) as (_ & _ & [E|(t & b & Ht & Hb & _)]).
    + fold (Recorder.maxDuration r') in E. apply JS_eq_true in E. by rewrite E.
    + rewrite (Hnone t Ht) in Hb. done.
  - intros now. unfold Recorder.play. rewrite Hplay. cbn.
    transitivity (map (fun t : Track.t => t) (Recorder.tracks r')); [|apply map_id].
    apply map_ext_in. intros t Ht. apply list_elem_of_In in Ht.
    rewrite (Hnone t Ht). done.
Qed.

(** X5.  [stop] acts only after [play].  A file loaded into an idle
    track starts playing at once while the recorder's own flag stays
    off, so [stop] (also the one [exportMix] begins with) leaves the
    track playing; once [play] has been pressed, [stop] stops every
    track. *)
Theorem stop_needs_play
    (compressor : CompressorParams -> Signal -> Signal)
    (resampler : AudioBuffer -> Q -> Signal)
    (r : Recorder.t) (k : nat) (t : Track.t) (b : AudioBuffer) (now : Q) :
  Recorder.isPlaying r = false ->
  Recorder.tracks r !! k = Some t -> Track.isPlaying t = false ->
  let loaded := Recorder.loadFileToTrack k (Some b) now r in
  (exists t1, Recorder.tracks loaded !! k = Some t1 /\
     Track.isPlaying t1 = true /\ is_Some (Track.source t1)) /\
  Recorder.isPlaying loaded = false /\
  Recorder.stop loaded = loaded /\
  fst (Recorder.exportMix compressor resampler loaded) = loaded /\
  (forall now' j t2,
     Recorder.tracks (Recorder.stop (Recorder.play now' loaded)) !! j = Some t2 ->
     Track.isPlaying t2 = false /\ Track.source t2 = None).
Proof.
  intros Hr Hk Ht loaded.
  assert (Hflag : Recorder.isPlaying loaded = false).
  { subst loaded. unfold Recorder.loadFileToTrack. by rewrite Hk. }
  split.
  { subst loaded. unfold Recorder.loadFileToTrack. rewrite Hk. cbn [Recorder.tracks Recorder.set_tracks].
    rewrite list_lookup_insert_eq by (by eapply lookup_lt_Some).
    eexists. split; [reflexivity|].
    cbn [Track.isPlaying Track.set_source Track.set_reversedBuffer Track.set_hasAudio
         Track.set_loopLength Track.set_audioBuffer]. rewrite Ht. cbn [negb].
    match goal with |- context [Track.play 0 now ?x] =>
      destruct (play_starts 0 now x b eq_refl Ht) as (A & (src & B & _) & _) end.
    split; [exact A|]. rewrite B. eauto. }
  split; [done|]. split; [by apply recorder_stop_idle|].
  split; [rewrite exportMix_state; by apply recorder_stop_idle|].
  intros now' j t2. unfold Recorder.play. rewrite Hflag.
  unfold Recorder.stop. cbn. rewrite !list_lookup_fmap.
  destruct (Recorder.tracks loaded !! j) as [t0|]; [|done].
  cbn. intros H. inversion H. done.
Qed.

Lemma stop_needs_play_witness :
  Recorder.isPlaying (Recorder.init 44100 demoDraws) = false /\
  forall (compressor : CompressorParams -> Signal -> Signal)
         (resampler : AudioBuffer -> Q -> Signal),
    Recorder.stop (Recorder.loadFileToTrack 0 (Some demoBuffer) 0
                     (Recorder.init 44100 demoDraws))
    = Recorder.loadFileToTrack 0 (Some demoBuffer) 0 (Recorder.init 44100 demoDraws).
Proof.
  split; [reflexivity|]. intros compressor resampler.
  destruct (stop_needs_play compressor resampler (Recorder.init 44100 demoDraws) 0
              (Track.create 0) demoBuffer 0) as (_ & _ & H & _);
    [reflexivity|reflexivity|reflexivity|exact H].
Defined.

(** ** Tracks: what a session keeps in order *)

(** Split on the condition of the first conditional of the goal. *)
Ltac case_if :=
  match goal with |- context [if ?c then _ else _] => destruct c eqn:? end.

(** [setSpeed] in one piece: the new rate and direction are written,
    then a playing source is either restarted or has its rate updated. *)
Lemma setSpeed_shape (v now : Q) (t : Track.t) :
  exists rho,
    let t1 := Track.set_isReversed (JS.lt v 0) (Track.set_playbackRate rho t) in
    Track.setSpeed v now t =
    match Track.source t with
    | Some src =>
      if Track.isPlaying t then
        if (JS.lt v 0 && bool_decide (src_buffer src = ForwardBuffer))
           || (negb (JS.lt v 0) && bool_decide (src_buffer src = ReversedBuffer))
        then Track.play 0 now (Track.stop t1)
        else Track.set_source
               (Some {| src_buffer := src_buffer src;
                        src_playbackRate := Rabs rho;
                        src_loop := src_loop src; src_loopStart := src_loopStart src;
                        src_loopEnd := src_loopEnd src |}) t1
      else t1
    | None => t1
    end.
Proof.
  unfold Track.setSpeed.
  destruct (JS.eq v 0) eqn:E0; [|destruct (JS.gt v 0) eqn:E1].
  - assert (L : JS.lt v 0 = false).
    { apply JS_eq_true in E0. destruct (JS.lt v 0) eqn:L; [|done].
      apply JS_lt_true in L. Lqa.lra. }
    rewrite L. eexists. cbn. destruct (Track.source t); [|done].
    destruct (Track.isPlaying t); reflexivity.
  - assert (L : JS.lt v 0 = false).
    { apply JS_gt_true in E1. destruct (JS.lt v 0) eqn:L; [|done].
      apply JS_lt_true in L. Lqa.lra. }
    rewrite L. eexists. cbn. destruct (Track.source t); [|done].
    destruct (Track.isPlaying t); reflexivity.
  - assert (L : JS.lt v 0 = true).
    { apply JS_lt_true.
      assert (~ (v == 0)%Q) by (intros K; apply JS_eq_true in K; congruence).
      assert (~ (0 < v)%Q) by (intros K; apply JS_gt_true in K; congruence).
      destruct (Q_dec v 0) as [[K|K]|K]; [done|done|done]. }
    rewrite L. eexists. cbn. destruct (Track.source t); [|done].
    destruct (Track.isPlaying t); reflexivity.
Qed.

(** [track_ok] looks at six fields only. *)
Lemma track_ok_same (t t' : Track.t) :
  Track.source t' = Track.source t -> Track.audioBuffer t' = Track.audioBuffer t ->
  Track.reversedBuffer t' = Track.reversedBuffer t ->
  Track.isPlaying t' = Track.isPlaying t -> Track.mode t' = Track.mode t ->
  Track.playbackRate t' = Track.playbackRate t ->
  Track.loopLength t' = Track.loopLength t ->
  track_ok t -> track_ok t'.
Proof.
  unfold track_ok, follows_settings. intros -> -> -> -> -> -> ->. done.
Qed.

Lemma track_ok_idle (t : Track.t) :
  Track.source t = None -> Track.isPlaying t = false ->
  (is_Some (Track.audioBuffer t) <-> is_Some (Track.reversedBuffer t)) ->
  track_ok t.
Proof.
  intros Hs Hp Hb. unfold track_ok. rewrite Hs, Hp.
  split; [by intros [? ?]|]. split; [done|]. split; [done|]. done.
Qed.

Lemma track_ok_stop (t : Track.t) : track_ok t -> track_ok (Track.stop t).
Proof. intros (_ & _ & H & _). by apply track_ok_idle. Qed.

Lemma track_ok_play (when now : Q) (t : Track.t) :
  track_ok t -> track_ok (Track.play when now t).
Proof.
  intros Hok.
  destruct (Track.audioBuffer t) as [b|] eqn:Hb;
    [|by rewrite play_idle by (by left)].
  destruct (Track.isPlaying t) eqn:Hp; [by rewrite play_idle by (by right)|].
  destruct (play_starts when now t b Hb Hp)
    as (A & (src & B1 & B2 & B3 & B4 & B5) & C1 & C2 & C3 & C4 & C5 & _ & _ & _ & C6).
  destruct Hok as (_ & _ & Hrev & _).
  unfold track_ok, follows_settings. rewrite A, B1, C1, C2, C3, C4, C6.
  split; [by eauto|]. split; [by eauto|]. split; [by rewrite <- Hrev, Hb|].
  intros _ src' E. inversion E; subst src'. split; [done|].
  split; [by rewrite B3, Rabs_Rabsolu|].
  intros b' Eb Hl _. inversion Eb; subst b'. apply B5.
  rewrite B4 in Hl. by destruct (Track.mode t).
Qed.

Lemma track_ok_restart (now : Q) (t : Track.t) :
  track_ok t -> track_ok (Track.play 0 now (Track.stop t)).
Proof. intros H. by apply track_ok_play, track_ok_stop. Qed.

Lemma track_ok_settings (t t1 : Track.t) :
  Track.source t1 = Track.source t -> Track.audioBuffer t1 = Track.audioBuffer t ->
  Track.reversedBuffer t1 = Track.reversedBuffer t ->
  track_ok t -> track_ok (Track.stop t1).
Proof.
  intros _ Ha Hr (_ & _ & H & _). apply track_ok_idle; try done.
  cbn. by rewrite Ha, Hr.
Qed.

Lemma track_ok_setSpeed (v now : Q) (t : Track.t) :
  track_ok t -> track_ok (Track.setSpeed v now t).
Proof.
  intros Hok. destruct (setSpeed_shape v now t) as [rho E]. cbv zeta in E. rewrite E.
  set (t1 := Track.set_isReversed (JS.lt v 0) (Track.set_playbackRate rho t)).
  assert (Hnp : Track.isPlaying t = false -> track_ok t1).
  { intros Hp. destruct Hok as (A & B & C & D). unfold track_ok. cbn.
    rewrite Hp. done. }
  destruct (Track.source t) as [src|] eqn:Hs.
  - destruct (Track.isPlaying t) eqn:Hp; [|by apply Hnp].
    destruct (_ || _).
    + apply track_ok_play. destruct Hok as (_ & _ & H & _). by apply track_ok_idle.
    + destruct Hok as (A & B & C & D). destruct (D Hp src Hs) as (D1 & D2 & D3).
      unfold track_ok, follows_settings. cbn. rewrite Hp.
      split; [intros _; apply A; by rewrite Hs|]. split; [by eauto|]. split; [done|].
      intros _ src' E'. inversion E'; subst src'. cbn.
      split; [done|]. split; [by rewrite Rabs_Rabsolu|]. done.
  - destruct Hok as (A & B & C & D).
    destruct (Track.isPlaying t) eqn:Hp; [|by apply Hnp].
    destruct (B eq_refl) as [? ?]. congruence.
Qed.

Lemma track_ok_setMode (m : Mode) (now : Q) (t : Track.t) :
  track_ok t -> track_ok (Track.setMode m now t).
Proof.
  intros Hok. unfold Track.setMode. cbn.
  destruct (Track.isPlaying t) eqn:Hp.
  - apply track_ok_play. destruct Hok as (_ & _ & H & _). by apply track_ok_idle.
  - destruct Hok as (A & B & C & D). unfold track_ok. cbn. rewrite Hp. done.
Qed.

Lemma track_ok_setLoopLength (len : Q) (t : Track.t) :
  track_ok t ->
  (exists t', Track.setLoopLength len t = Normal t') /\
  track_ok (outcome (Track.setLoopLength len t)).
Proof.
  intros (A & B & C & D). unfold Track.setLoopLength. cbn.
  destruct (Track.mode t) eqn:Hm.
  { split; [eauto|]. cbn. unfold track_ok, follows_settings in *. cbn.
    rewrite Hm in *.
    split; [done|]. split; [done|]. split; [done|].
    intros Hp src Hs. destruct (D Hp src Hs) as (D1 & D2 & D3).
    split; [done|]. split; [done|]. intros b Hb Hl. congruence. }
  destruct (Track.source t) as [src|] eqn:Hs.
  - destruct (A ltac:(eauto)) as [b Hb]. rewrite Hb. split; [eauto|]. cbn.
    unfold track_ok, follows_settings in *. cbn. rewrite Hb, Hm in *.
    split; [eauto|]. split; [eauto|]. split; [done|].
    intros Hp src' E. inversion E; subst src'. cbn.
    destruct (D Hp src eq_refl) as (D1 & D2 & D3).
    split; [done|]. split; [done|]. intros b' E' _ _. by inversion E'.
  - split; [eauto|]. cbn. unfold track_ok, follows_settings in *. cbn.
    rewrite Hs in *. split; [done|]. split; [done|]. split; [done|].
    intros Hp. destruct (B Hp) as [? ?]. done.
Qed.

Lemma track_ok_load (b : AudioBuffer) (t t' : Track.t) :
  Track.audioBuffer t' = Some b ->
  Track.reversedBuffer t' = Some (createReversedBuffer b) ->
  Track.source t' = Track.detach <$> Track.source t ->
  Track.isPlaying t' = Track.isPlaying t -> Track.mode t' = Track.mode t ->
  Track.playbackRate t' = Track.playbackRate t ->
  track_ok t -> track_ok t'.
Proof.
  intros Ha Hr Hs Hp Hm Hrate (A & B & C & D).
  unfold track_ok, follows_settings. rewrite Ha, Hr, Hs, Hp, Hm, Hrate.
  split; [eauto|]. split.
  { intros H. destruct (B H) as [src E]. rewrite E. by eexists. }
  split; [split; eauto|].
  intros H src' E. destruct (Track.source t) as [src|] eqn:Es; [|done].
  cbn in E. inversion E; subst src'. cbn.
  destruct (D H src eq_refl) as (D1 & D2 & _). done.
Qed.

Lemma track_ok_loadAudioFromBlob (decoded : option AudioBuffer) (t : Track.t) :
  track_ok t -> track_ok (Track.loadAudioFromBlob decoded t).
Proof.
  intros Hok. destruct decoded as [b|]; [|done].
  by eapply (track_ok_load b t).
Qed.

Lemma track_ok_onended (t : Track.t) : track_ok t -> track_ok (Track.onended t).
Proof.
  intros (A & B & C & D). unfold Track.onended.
  destruct (Track.source t) as [src|] eqn:Hs; [|by rewrite <- Hs in *].
  destruct (src_loop src); cbn; [by rewrite <- Hs in *|].
  unfold track_ok. cbn. rewrite Hs. done.
Qed.

Lemma track_ok_setSpeedLegacy (v : Q) (t : Track.t) :
  track_ok t -> track_ok (Track.setSpeedLegacy v t).
Proof.
  intros (A & B & C & D). unfold Track.setSpeedLegacy. cbn.
  destruct (Track.source t) as [src|] eqn:Hs.
  - unfold track_ok, follows_settings. cbn.
    split; [intros _; apply A; rewrite ?Hs; eauto|]. split; [eauto|]. split; [done|].
    intros Hp src' E. inversion E; subst src'. cbn.
    destruct (D Hp src ltac:(done)) as (D1 & D2 & D3). done.
  - unfold track_ok. cbn. rewrite ?Hs. split; [by intros [? ?]|].
    split; [intros Hp; destruct (B Hp) as [? ?]; congruence|]. split; [done|].
    done.
Qed.

Lemma trackStep_ok (op : TrackOp) (t : Track.t) :
  track_ok t -> track_ok (trackStep op t).
Proof.
  intros Hok. destruct op; cbn [trackStep].
  - by apply track_ok_play.
  - by apply track_ok_stop.
  - apply track_ok_idle; done.
  - unfold Track.startRecording. destruct (Track.isRecording t); [done|].
    by eapply track_ok_same.
  - unfold Track.onRecordingStop.
    eapply track_ok_same; [..|apply (track_ok_loadAudioFromBlob decoded t Hok)]; done.
  - by apply track_ok_loadAudioFromBlob.
  - by eapply track_ok_same.
  - by apply track_ok_setSpeed.
  - by apply track_ok_setSpeedLegacy.
  - by apply track_ok_setMode.
  - by apply track_ok_setLoopLength.
  - by eapply track_ok_same.
  - by eapply track_ok_same.
  - by eapply track_ok_same.
  - by eapply track_ok_same.
  - by apply track_ok_onended.
Qed.

Lemma trackStep_number (op : TrackOp) (t : Track.t) :
  Track.trackNumber (trackStep op t) = Track.trackNumber t.
Proof.
  destruct op; cbn [trackStep]; try done.
  - unfold Track.play. destruct (Track.audioBuffer t); [|done].
    destruct (Track.isPlaying t); [done|]. by destruct (Track.mode t).
  - unfold Track.startRecording. by destruct (Track.isRecording t).
  - unfold Track.onRecordingStop. by destruct decoded.
  - by destruct decoded.
  - destruct (setSpeed_shape value now t) as [rho E]. cbv zeta in E. rewrite E.
    destruct (Track.source t); [|done]. destruct (Track.isPlaying t); [|done].
    destruct (_ || _); [|done].
    unfold Track.play. cbn. destruct (Track.audioBuffer t); [|done].
    by destruct (Track.mode t).
  - unfold Track.setSpeedLegacy. cbn. by destruct (Track.source t).
  - unfold Track.setMode. cbn. destruct (Track.isPlaying t); [|done].
    unfold Track.play. cbn. destruct (Track.audioBuffer t); [|done]. by destruct m.
  - unfold Track.setLoopLength. cbn. destruct (Track.mode t); [done|].
    destruct (Track.source t); [|done]. by destruct (Track.audioBuffer t).
  - unfold Track.onended. destruct (Track.source t) as [src|]; [|done].
    by destruct (src_loop src).
Qed.

(** The same for the recorder. *)
Lemma tracks_ok_tracks (r r' : Recorder.t) :
  Recorder.tracks r' = Recorder.tracks r -> tracks_ok r -> tracks_ok r'.
Proof. unfold tracks_ok. by intros ->. Qed.

Lemma tracks_ok_map (f : Track.t -> Track.t) (r r' : Recorder.t) :
  (forall t, track_ok t -> track_ok (f t)) ->
  (forall t, Track.trackNumber (f t) = Track.trackNumber t) ->
  Recorder.tracks r' = map f (Recorder.tracks r) ->
  tracks_ok r -> tracks_ok r'.
Proof.
  intros Hf Hn E [Hlen Hall]. unfold tracks_ok. rewrite E, length_map.
  split; [done|]. intros k t'. rewrite list_lookup_fmap.
  destruct (Recorder.tracks r !! k) as [t|] eqn:Hk; [|done].
  cbn. intros H. inversion H; subst t'. destruct (Hall k t Hk) as [A B].
  split; [by rewrite Hn|by apply Hf].
Qed.

Lemma tracks_ok_insert (k : nat) (t t' : Track.t) (r r' : Recorder.t) :
  Recorder.tracks r !! k = Some t ->
  Track.trackNumber t' = Track.trackNumber t -> (track_ok t -> track_ok t') ->
  Recorder.tracks r' = <[k := t']> (Recorder.tracks r) ->
  tracks_ok r -> tracks_ok r'.
Proof.
  intros Hk Hn Hok E [Hlen Hall]. unfold tracks_ok. rewrite E, length_insert.
  split; [done|]. intros j tj. destruct (decide (j = k)) as [->|Hjk].
  - rewrite list_lookup_insert_eq by (by eapply lookup_lt_Some).
    intros H. inversion H; subst tj. destruct (Hall k t Hk) as [A B].
    split; [congruence|by apply Hok].
  - rewrite list_lookup_insert_ne by done. apply Hall.
Qed.

Lemma tracks_ok_stop (r : Recorder.t) : tracks_ok r -> tracks_ok (Recorder.stop r).
Proof.
  intros Hok. destruct (stop_tracks r) as [E|E].
  - by eapply tracks_ok_tracks.
  - eapply (tracks_ok_map Track.stop); [apply track_ok_stop|done|exact E|done].
Qed.

Lemma receive_tracks (m : ImpulseResponse) (r : Recorder.t) :
  Recorder.tracks (receive m r) = Recorder.tracks r.
Proof.
  unfold receive, Recorder.onReverbWorkerMessage. cbn.
  case_if; [|done]. by destruct (JSMap.firstKey _).
Qed.

Lemma recorderStep_ok (op : RecorderOp) (r : Recorder.t) :
  tracks_ok r -> tracks_ok (recorderStep op r).
Proof.
  intros Hok. destruct op; cbn [recorderStep].
  - unfold Recorder.play. destruct (Recorder.isPlaying r); [done|].
    eapply (tracks_ok_map _ r); cycle 2; [reflexivity|exact Hok| |].
    + intros t Ht. cbv beta. case_if; [by apply track_ok_play|done].
    + intros t. cbv beta. case_if; [|done]. apply (trackStep_number (TPlay 0 now)).
  - by apply tracks_ok_stop.
  - unfold Recorder.handleSolo.
    destruct (Recorder.tracks r !! trackNumber) as [t|] eqn:Hk; [|done].
    set (r1 := Recorder.set_tracks
                 (<[trackNumber := Track.setSolo (negb (Track.isSolo t)) t]>
                    (Recorder.tracks r)) r).
    assert (H1 : tracks_ok r1).
    { eapply (tracks_ok_insert trackNumber t _ r); cycle 3;
        [reflexivity|exact Hok|exact Hk|done|].
      intros H. by eapply track_ok_same. }
    case_if.
    + eapply (tracks_ok_map _ r1); cycle 2; [reflexivity|exact H1| |].
      * intros t0 H0. cbv beta. case_if; [|done]. by eapply track_ok_same.
      * intros t0. cbv beta. by case_if.
    + eapply (tracks_ok_map _ r1); cycle 2; [reflexivity|exact H1| |].
      * intros t0 H0. by eapply track_ok_same.
      * done.
  - unfold Recorder.clearAll.
    eapply (tracks_ok_map Track.clear (Recorder.stop r)); cycle 2;
      [reflexivity|apply (tracks_ok_stop r Hok)| |].
    + intros t _. by apply track_ok_idle.
    + done.
  - unfold Recorder.loadFileToTrack.
    destruct (Recorder.tracks r !! trackNumber) as [t|] eqn:Hk; [|done].
    destruct decoded as [b|]; [|done].
    eapply (tracks_ok_insert trackNumber t _ r); cycle 3;
      [reflexivity|exact Hok|exact Hk| |].
    + case_if; [|done].
      etransitivity; [apply (trackStep_number (TPlay 0 now))|done].
    + intros Ht.
      assert (H1 : track_ok
                (Track.set_source (Track.detach <$> Track.source t)
                   (Track.set_reversedBuffer (Some (createReversedBuffer b))
                      (Track.set_hasAudio true
                         (Track.set_loopLength (duration b)
                            (Track.set_audioBuffer (Some b) t)))))).
      { by eapply (track_ok_load b t). }
      case_if; [by apply track_ok_play|done].
  - rewrite exportMix_state. by apply tracks_ok_stop.
  - by eapply tracks_ok_tracks.
  - by eapply tracks_ok_tracks.
  - eapply tracks_ok_tracks; [|exact Hok]. unfold Recorder.setMasterReverbSize. cbn.
    by destruct (JSMap.get _ _).
  - eapply tracks_ok_tracks; [|exact Hok]. unfold Recorder.onReverbSizeTimeout.
    by destruct (Recorder.reverbSizeTimeout r).
  - eapply tracks_ok_tracks; [|exact Hok]. apply receive_tracks.
  - by eapply tracks_ok_tracks.
  - by eapply tracks_ok_tracks.
  - unfold UI.handleMuteClick, Recorder.getTrack.
    destruct (Recorder.tracks r !! trackNumber) as [t|] eqn:Hk; [|done].
    eapply (tracks_ok_insert trackNumber t _ r); cycle 3;
      [reflexivity|exact Hok|exact Hk|done|].
    intros H. by eapply track_ok_same.
  - unfold Recorder.getTrack.
    destruct (Recorder.tracks r !! trackNumber) as [t|] eqn:Hk; [|done].
    eapply (tracks_ok_insert trackNumber t _ r); cycle 3;
      [reflexivity|exact Hok|exact Hk| |].
    + apply trackStep_number.
    + apply trackStep_ok.
Qed.

Lemma init_ok (sampleRate : Q) (random : nat -> nat -> R) :
  tracks_ok (Recorder.init sampleRate random).
Proof.
  split; [done|]. intros k t. cbn.
  destruct k as [|[|[|[|k]]]]; cbn; intros H; inversion H; subst t;
    (split; [done|]); by apply track_ok_idle.
Qed.

Lemma session_snoc (sampleRate : Q) (random : nat -> nat -> R)
    (ops : list RecorderOp) (op : RecorderOp) :
  session sampleRate random (ops ++ [op])
  = recorderStep op (session sampleRate random ops).
Proof. unfold session. by rewrite fold_left_app. Qed.

Lemma session_ok (sampleRate : Q) (random : nat -> nat -> R)
    (ops : list RecorderOp) :
  tracks_ok (session sampleRate random ops).
Proof.
  induction ops as [|op ops IH] using rev_ind.
  - apply init_ok.
  - rewrite session_snoc. by apply recorderStep_ok.
Qed.

(** A restart ([stop()] then [play()]) of a track that holds audio
    ends with the track playing. *)
Lemma restart_plays (now : Q) (t1 : Track.t) :
  is_Some (Track.audioBuffer t1) ->
  Track.isPlaying (Track.play 0 now (Track.stop t1)) = true.
Proof.
  intros [b Hb]. by destruct (play_starts 0 now (Track.stop t1) b Hb eq_refl) as (A & _).
Qed.

(** X6.  In every state a session can reach, whatever calls were made
    and in whatever order: there are four tracks, each at its own
    index; a track that keeps a source node holds a buffer, a track
    that counts as playing keeps a source node, and the reversed copy
    exists exactly when the buffer does.  So [setLoopLength] never
    throws, and neither a change of mode nor a change of speed stops a
    playing track or starts a stopped one. *)
Theorem session_tracks_in_order (sampleRate : Q) (random : nat -> nat -> R)
    (ops : list RecorderOp) (k : nat) (t : Track.t) :
  Recorder.tracks (session sampleRate random ops) !! k = Some t ->
  length (Recorder.tracks (session sampleRate random ops)) = 4%nat /\
  Track.trackNumber t = k /\
  (is_Some (Track.source t) -> is_Some (Track.audioBuffer t)) /\
  (Track.isPlaying t = true -> is_Some (Track.source t)) /\
  (is_Some (Track.audioBuffer t) <-> is_Some (Track.reversedBuffer t)) /\
  (forall length_, exists t', Track.setLoopLength length_ t = Normal t') /\
  (forall m now, Track.isPlaying (Track.setMode m now t) = Track.isPlaying t) /\
  (forall v now, Track.isPlaying (Track.setSpeed v now t) = Track.isPlaying t).
Proof.
  intros Hk. destruct (session_ok sampleRate random ops) as [Hlen Hall].
  destruct (Hall k t Hk) as [Hn Hok]. pose proof Hok as (A & B & C & D).
  split; [done|]. split; [done|]. split; [done|]. split; [done|]. split; [done|].
  split; [intros len; by apply track_ok_setLoopLength|]. split.
  - intros m now. unfold Track.setMode. cbn.
    destruct (Track.isPlaying t) eqn:Hp; [|done].
    apply restart_plays. cbn. auto.
  - intros v now. destruct (setSpeed_shape v now t) as [rho E]. cbv zeta in E.
    rewrite E. destruct (Track.source t) as [src|] eqn:Hs; [|done].
    destruct (Track.isPlaying t) eqn:Hp; [|done].
    destruct (_ || _); [|done]. apply restart_plays. cbn. apply A. eauto.
Qed.

Lemma session_tracks_in_order_witness :
  exists t', Track.setLoopLength 2 demoTrack = Normal t'.
Proof.
  destruct (session_tracks_in_order 44100 demoDraws
              [RLoadFileToTrack 0 (Some demoBuffer) 0] 0 demoTrack)
    as (_ & _ & _ & _ & _ & H & _); [reflexivity|exact (H 2%Q)].
Defined.

(** X7.  In every state a session can reach, the source of a playing
    track follows the track's settings: it loops exactly when the track
    is in loop mode, its rate is the track's rate up to sign, and when
    it loops over a buffer the track still holds, the loop ends at the
    loop length capped by the buffer's duration. *)
Theorem playing_source_follows_settings (sampleRate : Q)
    (random : nat -> nat -> R) (ops : list RecorderOp)
    (k : nat) (t : Track.t) (src : BufferSource) :
  Recorder.tracks (session sampleRate random ops) !! k = Some t ->
  Track.isPlaying t = true -> Track.source t = Some src ->
  src_loop src = match Track.mode t with loop => true | normal => false end /\
  Rabs (src_playbackRate src) = Rabs (Track.playbackRate t) /\
  (forall b, Track.audioBuffer t = Some b -> src_loop src = true ->
     src_buffer src <> DetachedBuffer ->
     src_loopEnd src = JS.Math_min (Track.loopLength t) (duration b)).
Proof.
  intros Hk Hp Hs. destruct (session_ok sampleRate random ops) as [_ Hall].
  destruct (Hall k t Hk) as [_ (_ & _ & _ & D)]. exact (D Hp src Hs).
Qed.

Lemma playing_source_follows_settings_witness : src_loop demoSource = true.
Proof.
  destruct (playing_source_follows_settings 44100 demoDraws
              [RLoadFileToTrack 0 (Some demoBuffer) 0] 0 demoTrack demoSource)
    as (H & _); [reflexivity|reflexivity|reflexivity|exact H].
Defined.

(** ** Speed and direction of a playing track *)

(** X8.  [setSpeed] on a playing track whose source plays the buffer
    of the track's current direction: the track keeps playing, from the
    reversed buffer exactly when the value is negative and at the new
    rate.  When the direction does not change the source is the same
    one with a new rate (same start time and loop points); when it
    changes, playback restarts at the current time. *)
Theorem setSpeed_follows_direction (t : Track.t) (src : BufferSource)
    (b rb : AudioBuffer) (v now : Q) :
  Track.isPlaying t = true -> Track.source t = Some src ->
  Track.audioBuffer t = Some b -> Track.reversedBuffer t = Some rb ->
  src_buffer src = (if Track.isReversed t then ReversedBuffer else ForwardBuffer) ->
  let t' := Track.setSpeed v now t in
  Track.isPlaying t' = true /\
  Track.isReversed t' = JS.lt v 0 /\
  exists src',
    Track.source t' = Some src' /\
    src_buffer src' = (if JS.lt v 0 then ReversedBuffer else ForwardBuffer) /\
    src_playbackRate src' = Rabs (Track.playbackRate t') /\
    (JS.lt v 0 = Track.isReversed t ->
     Track.startTime t' = Track.startTime t /\
     src_loop src' = src_loop src /\ src_loopStart src' = src_loopStart src /\
     src_loopEnd src' = src_loopEnd src) /\
    (JS.lt v 0 <> Track.isReversed t ->
     Track.startTime t' = now /\
     src_loop src' = match Track.mode t with loop => true | normal => false end).
Proof.
  intros Hp Hs Hb Hr Hdir t'. subst t'.
  destruct (setSpeed_shape v now t) as [rho E]. cbv zeta in E. rewrite E, Hs, Hp.
  set (t1 := Track.set_isReversed (JS.lt v 0) (Track.set_playbackRate rho t)).
  destruct (JS.lt v 0) eqn:L, (Track.isReversed t) eqn:R; rewrite Hdir;
    cbn [andb orb negb];
    rewrite ?bool_decide_eq_false_2 by done; rewrite ?bool_decide_eq_true_2 by done;
    cbn [andb orb negb].
  - cbn.
    split; [done|]. split; [done|]. eexists. split; [reflexivity|]. cbn.
    split; [done|]. split; [done|]. split; [done|]. done.
  - destruct (play_starts 0 now (Track.stop t1) b Hb eq_refl)
      as (A & (src' & B1 & B2 & B3 & B4 & _) & _ & _ & _ & C4 & _).
    split; [done|]. split.
    { unfold Track.play. cbn. rewrite Hb. destruct (Track.mode t); cbn; by rewrite ?L. }
    exists src'. split; [done|]. split.
    { rewrite B2. cbn. rewrite Hr, ?L. cbn. try rewrite bool_decide_eq_true_2 by eauto. done. }
    split; [by rewrite B3, C4|]. split; [done|]. intros _. split; [|exact B4].
    unfold Track.play. cbn. rewrite Hb. by destruct (Track.mode t).
  - destruct (play_starts 0 now (Track.stop t1) b Hb eq_refl)
      as (A & (src' & B1 & B2 & B3 & B4 & _) & _ & _ & _ & C4 & _).
    split; [done|]. split.
    { unfold Track.play. cbn. rewrite Hb. destruct (Track.mode t); cbn; by rewrite ?L. }
    exists src'. split; [done|]. split.
    { rewrite B2. cbn. by rewrite ?L. }
    split; [by rewrite B3, C4|]. split; [done|]. intros _. split; [|exact B4].
    unfold Track.play. cbn. rewrite Hb. by destruct (Track.mode t).
  - cbn.
    split; [done|]. split; [done|]. eexists. split; [reflexivity|]. cbn.
    split; [done|]. split; [done|]. split; [done|]. done.
Qed.

Lemma setSpeed_follows_direction_witness :
  Track.isReversed (Track.setSpeed (-50) 1 demoTrack) = JS.lt (-50) 0.
Proof.
  destruct (setSpeed_follows_direction demoTrack demoSource demoBuffer
              (createReversedBuffer demoBuffer) (-50) 1) as (_ & H & _);
    [reflexivity|reflexivity|reflexivity|reflexivity|reflexivity|exact H].
Defined.

(** ** The master reverb *)

Section MapLookup.
Context {V : Type}.
Implicit Types (m : list (string * V)) (k : string).

Lemma JSMap_get_set k (v : V) m : JSMap.get k (JSMap.set k v m) = Some v.
Proof.
  induction m as [|[k' v'] m IH]; cbn.
  - by rewrite decide_True.
  - destruct (decide (k' = k)) as [->|Hne]; cbn.
    + by rewrite decide_True.
    + by rewrite decide_False.
Qed.

Lemma JSMap_get_delete k k' m :
  k <> k' -> JSMap.get k (JSMap.delete k' m) = JSMap.get k m.
Proof.
  intros Hne. unfold JSMap.delete. induction m as [|[k0 v0] m IH]; [done|].
  destruct (decide (k0 = k')) as [->|H0].
  - rewrite filter_cons_False by (cbn; intros H; by apply H).
    cbn. rewrite decide_False by congruence. exact IH.
  - rewrite filter_cons_True by done. cbn. by rewrite IH.
Qed.

Lemma JSMap_get_keys k m : is_Some (JSMap.get k m) <-> k ∈ JSMap.keys m.
Proof.
  rewrite <- JSMap_has_keys. unfold JSMap.has. by rewrite bool_decide_eq_true.
Qed.
End MapLookup.

Lemma receive_buffer (m : ImpulseResponse) (r : Recorder.t) :
  Recorder.masterReverbBuffer (receive m r) = Some (delivered m r) /\
  Recorder.reverbSizeTimeout (receive m r) = Recorder.reverbSizeTimeout r /\
  Recorder.masterReverbSize (receive m r) = Recorder.masterReverbSize r /\
  Recorder.ctxSampleRate (receive m r) = Recorder.ctxSampleRate r /\
  let m1 := JSMap.set (cacheKey m) (delivered m r) (Recorder.reverbCache r) in
  Recorder.reverbCache (receive m r) =
    if (5 <? JSMap.size m1)%nat then
      match JSMap.firstKey m1 with
      | Some firstKey => JSMap.delete firstKey m1
      | None => m1
      end
    else m1.
Proof.
  unfold receive, Recorder.onReverbWorkerMessage, cacheKey, delivered. simpl.
  match goal with |- context [(5 <? ?n)%nat] => destruct (5 <? n)%nat end; [|done].
  by destruct (JSMap.firstKey _).
Qed.

(** X9.  A response of the reverb worker becomes the impulse of the
    convolver and is filed under its key: a stereo buffer at the
    context's rate holding the two channels of the response.  Turning
    the size control to an amount with that key afterwards installs the
    same buffer at once, asks the worker for nothing and leaves a
    request that is already pending as it is. *)
Theorem reverb_response_cached (r : Recorder.t) (m : ImpulseResponse) :
  (JSMap.size (Recorder.reverbCache r) <= 5)%nat ->
  let r1 := receive m r in
  Recorder.masterReverbBuffer r1 = Some (delivered m r) /\
  JSMap.get (cacheKey m) (Recorder.reverbCache r1) = Some (delivered m r) /\
  (length (ir_right m) = length (ir_left m) ->
   delivered m r =
     {| numberOfChannels := 2; buf_length := length (ir_left m);
        sampleRate := Recorder.ctxSampleRate r;
        channelData := [ir_left m; ir_right m] |}) /\
  (forall amount, toFixed1 (0.5 + amount * 44.5) = cacheKey m ->
     let r2 := Recorder.setMasterReverbSize amount r1 in
     Recorder.masterReverbBuffer r2 = Some (delivered m r) /\
     Recorder.masterReverbSize r2 = (0.5 + amount * 44.5)%Q /\
     Recorder.reverbSizeTimeout r2 = Recorder.reverbSizeTimeout r /\
     Recorder.reverbCache r2 = Recorder.reverbCache r1).
Proof.
  intros Hsize r1.
  destruct (receive_buffer m r) as (Hb & Ht & _ & _ & Hc). cbv zeta in Hc.
  fold r1 in Hb, Ht, Hc.
  assert (Hget : JSMap.get (cacheKey m) (Recorder.reverbCache r1) = Some (delivered m r)).
  { rewrite Hc. set (cache := Recorder.reverbCache r) in *.
    set (key := cacheKey m). set (v := delivered m r).
    destruct (5 <? JSMap.size (JSMap.set key v cache))%nat eqn:E;
      [|apply JSMap_get_set].
    apply Nat.ltb_lt in E.
    destruct (decide (key ∈ JSMap.keys cache)) as [Hin|Hout].
    { destruct (JSMap_set_present key v cache Hin) as [_ Hl].
      unfold JSMap.size in *. lia. }
    rewrite (JSMap_set_absent key v cache Hout) in *.
    destruct cache as [|[e ve] rest]; [cbn in E; lia|].
    change (JSMap.firstKey (((e, ve) :: rest) ++ [(key, v)])) with (Some e).
    cbn in Hout. apply not_elem_of_cons in Hout as [Hne Hout].
    rewrite JSMap_get_delete by done.
    rewrite <- (JSMap_set_absent key v ((e, ve) :: rest)).
    - apply JSMap_get_set.
    - cbn. apply not_elem_of_cons. done. }
  split; [done|]. split; [done|]. split.
  - intros Hlen. unfold delivered, Recorder.copyToChannel, createBuffer. cbn.
    f_equal. rewrite !length_replicate, Hlen.
    rewrite !drop_ge by (rewrite length_replicate; lia).
    rewrite !app_nil_r, firstn_all. rewrite <- Hlen. by rewrite firstn_all.
  - intros amount Hkey r2. subst r2. unfold Recorder.setMasterReverbSize.
    cbn [Recorder.reverbCache Recorder.set_masterReverbSize].
    rewrite Hkey, Hget. cbn. by rewrite Ht.
Qed.

Lemma reverb_response_cached_witness :
  JSMap.get "7.0"
    (Recorder.reverbCache (receive (mkResponse [1; 0]%Q [0; 1]%Q 7) (Recorder.init 44100 demoDraws)))
  = Some (delivered (mkResponse [1; 0]%Q [0; 1]%Q 7) (Recorder.init 44100 demoDraws)).
Proof.
  destruct (reverb_response_cached (Recorder.init 44100 demoDraws) (mkResponse [1; 0]%Q [0; 1]%Q 7))
    as (_ & H & _); [cbn; lia|exact H].
Defined.

Lemma setMasterReverbSize_miss (amount : Q) (r : Recorder.t) :
  ~ cached (toFixed1 (0.5 + amount * 44.5)) r ->
  Recorder.setMasterReverbSize amount r =
  Recorder.set_reverbSizeTimeout (Some (0.5 + amount * 44.5)%Q)
    (Recorder.set_masterReverbSize (0.5 + amount * 44.5)%Q r).
Proof.
  intros Hno. unfold Recorder.setMasterReverbSize.
  cbn [Recorder.reverbCache Recorder.set_masterReverbSize].
  destruct (JSMap.get _ _) as [b|] eqn:E; [|done].
  exfalso. apply Hno. unfold cached, JSMap.has. rewrite bool_decide_eq_true, E. eauto.
Qed.

(** X10.  The size control is debounced.  While it is turned through
    sizes that are not cached, the impulse in use and the cache stay as
    they are; when the timer then runs out the worker is asked once,
    for the last size only, with decay and length both equal to it. *)
Theorem reverb_size_debounced (r : Recorder.t) (amounts : list Q) (last : Q) :
  (forall a, a ∈ amounts ++ [last] -> ~ cached (toFixed1 (0.5 + a * 44.5)) r) ->
  let r' := turnReverbSize (amounts ++ [last]) r in
  let size := (0.5 + last * 44.5)%Q in
  Recorder.masterReverbBuffer r' = Recorder.masterReverbBuffer r /\
  Recorder.reverbCache r' = Recorder.reverbCache r /\
  Recorder.masterReverbSize r' = size /\
  snd (Recorder.onReverbSizeTimeout r') =
    Some {| Recorder.wr_decay := size; Recorder.wr_length := size;
            Recorder.wr_sampleRate := Recorder.ctxSampleRate r |} /\
  snd (Recorder.onReverbSizeTimeout (fst (Recorder.onReverbSizeTimeout r'))) = None.
Proof.
  intros Hmiss r' size.
  assert (Hkeep : forall as_ r0,
            Recorder.reverbCache r0 = Recorder.reverbCache r ->
            (forall a, a ∈ as_ -> ~ cached (toFixed1 (0.5 + a * 44.5)) r) ->
            Recorder.masterReverbBuffer (turnReverbSize as_ r0)
              = Recorder.masterReverbBuffer r0 /\
            Recorder.reverbCache (turnReverbSize as_ r0) = Recorder.reverbCache r /\
            Recorder.ctxSampleRate (turnReverbSize as_ r0) = Recorder.ctxSampleRate r0).
  { induction as_ as [|a as_ IH]; intros r0 Hc Hall; [done|].
    cbn [turnReverbSize fold_left]. fold (turnReverbSize as_).
    assert (Ha : ~ cached (toFixed1 (0.5 + a * 44.5)) r0).
    { unfold cached. rewrite Hc. apply Hall. apply elem_of_cons. by left. }
    rewrite (setMasterReverbSize_miss a r0 Ha).
    destruct (IH (Recorder.set_reverbSizeTimeout (Some (0.5 + a * 44.5)%Q)
                    (Recorder.set_masterReverbSize (0.5 + a * 44.5)%Q r0)))
      as (A & B & C); [done| |done].
    intros a' Ha'. apply Hall. apply elem_of_cons. by right. }
  subst r'. unfold turnReverbSize. rewrite fold_left_app. cbn [fold_left].
  fold (turnReverbSize amounts r).
  destruct (Hkeep amounts r eq_refl) as (A & B & C).
  { intros a Ha. apply Hmiss. apply elem_of_app. by left. }
  rewrite setMasterReverbSize_miss.
  - cbn. rewrite A, B, C. done.
  - unfold cached. rewrite B. apply Hmiss. apply elem_of_app. right.
    by apply list_elem_of_singleton.
Qed.

Lemma reverb_size_debounced_witness :
  snd (Recorder.onReverbSizeTimeout
         (turnReverbSize ([0; 1 # 2] ++ [1])%Q (Recorder.init 44100 demoDraws)))
  = Some {| Recorder.wr_decay := 0.5 + 1 * 44.5; Recorder.wr_length := 0.5 + 1 * 44.5;
            Recorder.wr_sampleRate := 44100 |}%Q.
Proof.
  destruct (reverb_size_debounced (Recorder.init 44100 demoDraws) [0; 1 # 2]%Q 1)
    as (_ & _ & _ & H & _); [|exact H].
  intros a _ H. unfold cached in H. cbn in H. done.
Defined.

(** ** The playback position *)

Lemma Int_part_bounds (x : R) : (IZR (Int_part x) <= x < IZR (Int_part x) + 1)%R.
Proof. destruct (base_Int_part x) as [A B]. split; lra. Qed.

(** The remainder of a non-negative number by a positive one. *)
Lemma rem_R_range (a b : R) :
  (0 <= a)%R -> (0 < b)%R ->
  exists m, JS.rem_R a b = Some m /\ (0 <= m < b)%R /\
    exists n : Z, (0 <= n)%Z /\ (a = m + IZR n * b)%R.
Proof.
  intros Ha Hb. unfold JS.rem_R.
  destruct (Req_dec_T b 0) as [E|_]; [lra|].
  eexists. split; [reflexivity|].
  assert (Hq : (0 <= a / b)%R).
  { apply Rmult_le_pos; [done|]. left. by apply Rinv_0_lt_compat. }
  unfold JS.trunc_R. destruct (Rle_dec 0 (a / b)) as [_|H]; [|done].
  destruct (Int_part_bounds (a / b)) as [L U].
  set (n := Int_part (a / b)) in *.
  assert (Ea : (a = a / b * b)%R) by (field; lra).
  pose proof (Rmult_le_compat_r b _ _ (Rlt_le _ _ Hb) L) as L'.
  pose proof (Rmult_lt_compat_r b _ _ Hb U) as U'.
  rewrite <- Ea in L', U'.
  split; [split; lra|]. exists n. split; [|lra].
  apply le_IZR. apply Rnot_lt_le. intros Hn.
  assert (IZR n <= -1)%R; [|lra].
  replace (-1)%R with (IZR (-1)) by reflexivity. apply IZR_le.
  apply lt_IZR in Hn. lia.
Qed.

(** X11.  The position [getCurrentTime] reports: zero for a track that
    is not playing; for a playing track in loop mode, the time played
    since the start, scaled by the rate, reduced to the loop - it lies
    in [0, loop end) and differs from the scaled time by a whole number
    of loop lengths; the scaled time itself in normal mode; and not a
    number when the loop has length zero. *)
Theorem getCurrentTime_in_loop (t : Track.t) (now : Q) :
  (Track.isPlaying t = false -> Track.getCurrentTime now t = Some 0%R) /\
  (forall src, Track.isPlaying t = true -> Track.source t = Some src ->
     let played := (Q2R (now - Track.startTime t) * Rabs (Track.playbackRate t))%R in
     (Track.mode t = normal -> Track.getCurrentTime now t = Some played) /\
     (forall b, Track.mode t = loop -> Track.audioBuffer t = Some b ->
        let loopEnd := JS.Math_min (Track.loopLength t) (duration b) in
        ((loopEnd == 0)%Q -> Track.getCurrentTime now t = None) /\
        ((Track.startTime t <= now)%Q -> (0 < loopEnd)%Q ->
         exists position,
           Track.getCurrentTime now t = Some position /\
           (0 <= position < Q2R loopEnd)%R /\
           exists n : Z, (0 <= n)%Z /\ (played = position + IZR n * Q2R loopEnd)%R))).
Proof.
  split.
  - intros Hp. unfold Track.getCurrentTime. by rewrite Hp.
  - intros src Hp Hs played. unfold Track.getCurrentTime. rewrite Hp, Hs.
    rewrite bool_decide_eq_true_2 by eauto. cbn [negb orb].
    split.
    + intros Hm. by rewrite Hm.
    + intros b Hm Hb. cbv zeta. rewrite Hm, Hb.
      set (loopEnd := JS.Math_min (Track.loopLength t) (duration b)). split.
      * intros Hz. unfold JS.rem_R.
        destruct (Req_dec_T (Q2R loopEnd) 0) as [_|H]; [done|].
        exfalso. apply H. rewrite (Qeq_eqR _ _ Hz). apply RMicromega.Q2R_0.
      * intros Hstart Hpos. apply rem_R_range.
        -- apply Rmult_le_pos; [|apply Rabs_pos].
           rewrite <- RMicromega.Q2R_0. apply Qle_Rle. Lqa.lra.
        -- rewrite <- RMicromega.Q2R_0. by apply Qlt_Rlt.
Qed.

Lemma getCurrentTime_in_loop_witness :
  exists position,
    Track.getCurrentTime 5 demoTrack = Some position /\
    (0 <= position < Q2R (JS.Math_min (duration demoBuffer) (duration demoBuffer)))%R.
Proof.
  destruct (getCurrentTime_in_loop demoTrack 5) as (_ & H).
  destruct (H demoSource eq_refl eq_refl) as (_ & H').
  destruct (H' demoBuffer eq_refl eq_refl) as (_ & H'').
  destruct H'' as (position & E & Hr & _); [vm_compute; discriminate|reflexivity|].
  exists position. split; [exact E|exact Hr].
Defined.

(** ** The cassette bus: dropouts and bypass *)

Lemma scheduleDropout_keeps (random : Q) (s : CassetteTapeBus.t) :
  CassetteTapeBus.dropouts (CassetteTapeBus.scheduleDropout random s)
    = CassetteTapeBus.dropouts s /\
  CassetteTapeBus.dropoutIntensity (CassetteTapeBus.scheduleDropout random s)
    = CassetteTapeBus.dropoutIntensity s /\
  CassetteTapeBus.bypassed (CassetteTapeBus.scheduleDropout random s)
    = CassetteTapeBus.bypassed s.
Proof. unfold CassetteTapeBus.scheduleDropout. by case_if. Qed.

(** One event logs at most one dropout, of the duration and depth
    [triggerDropout] computes, and leaves the intensity alone. *)
Lemma step_dropouts (e : CassetteTapeBus.Event) (s : CassetteTapeBus.t) :
  CassetteTapeBus.dropoutIntensity (CassetteTapeBus.step e s)
    = CassetteTapeBus.dropoutIntensity s /\
  (CassetteTapeBus.dropouts (CassetteTapeBus.step e s) = CassetteTapeBus.dropouts s \/
   exists id random1 random2 random3 time,
     e = CassetteTapeBus.TimerDue id random1 random2 random3 /\
     CassetteTapeBus.dropouts (CassetteTapeBus.step e s) =
       {| CassetteTapeBus.d_time := time;
          CassetteTapeBus.d_duration :=
            0.01 + random1 * 0.07 * CassetteTapeBus.dropoutIntensity s;
          CassetteTapeBus.d_depth :=
            0.1 + random2 * 0.6 * CassetteTapeBus.dropoutIntensity s |}%Q
       :: CassetteTapeBus.dropouts s).
Proof.
  destruct e as [id r1 r2 r3|b r]; cbn [CassetteTapeBus.step].
  - unfold CassetteTapeBus.fire.
    destruct (list_find _ _) as [[i [id' due]]|]; [|by split; [|left]].
    match goal with |- context [CassetteTapeBus.scheduleDropout ?r ?x] =>
      destruct (scheduleDropout_keeps r x) as (A & B & C); rewrite A, B end.
    unfold CassetteTapeBus.triggerDropout. bus_simpl.
    destruct (CassetteTapeBus.bypassed s); bus_simpl; (split; [done|]); [by left|].
    right. by exists id, r1, r2, r3, due.
  - unfold CassetteTapeBus.setBypass. bus_simpl. destruct b.
    + destruct (CassetteTapeBus.dropoutSchedulerId s); bus_simpl; split; try done; by left.
    + case_if; bus_simpl; [|split; [done|by left]].
      match goal with |- context [CassetteTapeBus.scheduleDropout ?r ?x] =>
        destruct (scheduleDropout_keeps r x) as (A & B & C); rewrite A, B end.
      bus_simpl. split; [done|by left].
Qed.

(** X13.  Every dropout is brief and partial.  With the intensity
    between 0 and 1 (the control between 0 and 100), every dropout a run
    of the bus adds lasts at least 10 ms and less than 80 ms, with a
    depth of at least 0.1 and less than 0.7; the four automation points
    programmed for it come at strictly rising times, take the gain from
    1 down to a value above 0.3, hold it, and end back at 1. *)
Theorem dropouts_brief_and_partial (s : CassetteTapeBus.t)
    (es : list CassetteTapeBus.Event) (d : CassetteTapeBus.Dropout) :
  (0 <= CassetteTapeBus.dropoutIntensity s)%Q ->
  (CassetteTapeBus.dropoutIntensity s <= 1)%Q ->
  Forall valid_event es ->
  d ∈ CassetteTapeBus.dropouts (CassetteTapeBus.run es s) ->
  d ∈ CassetteTapeBus.dropouts s \/
  ((0.01 <= CassetteTapeBus.d_duration d)%Q /\ (CassetteTapeBus.d_duration d < 0.08)%Q /\
   (0.1 <= CassetteTapeBus.d_depth d)%Q /\ (CassetteTapeBus.d_depth d < 0.7)%Q /\
   forall now,
     let points := CassetteTapeBus.dropoutAutomation now d in
     rising (map CassetteTapeBus.eventTime points) /\
     map CassetteTapeBus.eventValue points =
       [1.0; 1 - CassetteTapeBus.d_depth d; 1 - CassetteTapeBus.d_depth d; 1.0]%Q /\
     (0.3 < 1 - CassetteTapeBus.d_depth d)%Q /\
     (1 - CassetteTapeBus.d_depth d <= 0.9)%Q /\
     (last (map CassetteTapeBus.eventTime points)
        = Some (now + CassetteTapeBus.d_duration d)%Q)).
Proof.
  intros H0 H1 Hes. revert s H0 H1.
  induction Hes as [|e es He Hes IH]; intros s H0 H1 Hd; [by left|].
  change (CassetteTapeBus.run (e :: es) s)
    with (CassetteTapeBus.run es (CassetteTapeBus.step e s)) in Hd.
  destruct (step_dropouts e s) as (Hi & Hstep).
  destruct (IH (CassetteTapeBus.step e s)) as [Hold|Hnew];
    [by rewrite Hi|by rewrite Hi|done| |by right].
  destruct Hstep as [E|(id & r1 & r2 & r3 & time & -> & E)]; rewrite E in Hold;
    [by left|].
  apply elem_of_cons in Hold as [->|Hold]; [|by left].
  right. destruct He as ([A1 A2] & [B1 B2] & _). cbn.
  set (i := CassetteTapeBus.dropoutIntensity s) in *. clearbody i.
  assert (0 <= r1 * i)%Q by (apply Qmult_le_0_compat; done).
  assert (0 <= r2 * i)%Q by (apply Qmult_le_0_compat; done).
  assert (r1 * i < 1)%Q.
  { apply Qle_lt_trans with (r1 * 1)%Q; [|Lqa.lra].
    rewrite !(Qmult_comm r1). apply Qmult_le_compat_r; done. }
  assert (r2 * i < 1)%Q.
  { apply Qle_lt_trans with (r2 * 1)%Q; [|Lqa.lra].
    rewrite !(Qmult_comm r2). apply Qmult_le_compat_r; done. }
  assert (E1 : (r1 * 0.07 * i == 0.07 * (r1 * i))%Q) by ring.
  assert (E2 : (r2 * 0.6 * i == 0.6 * (r2 * i))%Q) by ring.
  set (x1 := (r1 * i)%Q) in *. set (x2 := (r2 * i)%Q) in *. clearbody x1 x2.
  set (y1 := (r1 * 0.07 * i)%Q) in *. set (y2 := (r2 * 0.6 * i)%Q) in *.
  clearbody y1 y2.
  do 4 (split; [Lqa.lra|]). intros now. cbn.
  split; [repeat split; Lqa.lra|]. split; [done|]. split; [Lqa.lra|]. split; [Lqa.lra|].
  done.
Qed.

Lemma dropouts_brief_and_partial_witness :
  (0.01 <= 0.01 + (1 # 2) * 0.07 * (100 / 100))%Q /\
  (0.01 + (1 # 2) * 0.07 * (100 / 100) < 0.08)%Q.
Proof.
  pose (s := CassetteTapeBus.setDropouts 100 (1 # 2) (CassetteTapeBus.create 0)).
  destruct (dropouts_brief_and_partial s
              [CassetteTapeBus.TimerDue 1 (1 # 2) (1 # 4) (3 # 4)]
              {| CassetteTapeBus.d_time := 1100000 # 200;
                 CassetteTapeBus.d_duration := 0.01 + (1 # 2) * 0.07 * (100 / 100);
                 CassetteTapeBus.d_depth := 0.1 + (1 # 4) * 0.6 * (100 / 100) |}%Q)
    as [H|(H1 & H2 & _)].
  - vm_compute. discriminate.
  - vm_compute. discriminate.
  - constructor; [|constructor]. vm_compute. repeat split; discriminate.
  - vm_compute. apply elem_of_cons. left. reflexivity.
  - vm_compute in H. apply elem_of_nil in H. destruct H.
  - split; [exact H1|exact H2].
Defined.

Lemma filter_all {A : Type} (P : A -> Prop) `{forall x, Decision (P x)} (l : list A) :
  Forall P l -> filter P l = l.
Proof.
  induction 1 as [|x l Hx Hl IH]; [done|].
  rewrite filter_cons_True by done. by rewrite IH.
Qed.

(** X14.  The bypass suspends dropouts and resumes them, for the timer
    the bus remembers.  Switching the bypass on cancels the timer whose
    id is in [dropoutSchedulerId] and no other: timers the bus has lost
    track of stay pending.  While bypassed, a dropout setting is stored
    but schedules nothing, and a timer that comes due is used up
    without a dropout and without a successor.  Switching the bypass
    off again adds one timer, at the interval of the stored setting,
    and the bus remembers that one.  On a bus whose only pending timer
    is the remembered one, nothing is pending while bypassed, timer
    events change nothing, and afterwards the new timer is again the
    only one. *)
Theorem bypass_suspends_dropouts (s : CassetteTapeBus.t) (value r0 r1 r2 : Q) :
  (0 < value)%Q ->
  let kept :=
    match CassetteTapeBus.dropoutSchedulerId s with
    | Some id => filter (fun p : nat * Q => p.1 ≠ id) (CassetteTapeBus.timers s)
    | None => CassetteTapeBus.timers s
    end in
  let s1 := CassetteTapeBus.setBypass true r0 s in
  let s2 := CassetteTapeBus.setDropouts value r1 s1 in
  let s3 := CassetteTapeBus.setBypass false r2 s2 in
  (CassetteTapeBus.timers s1 = kept /\ CassetteTapeBus.dropoutSchedulerId s1 = None /\
   CassetteTapeBus.dropouts s1 = CassetteTapeBus.dropouts s) /\
  (CassetteTapeBus.timers s2 = kept /\ CassetteTapeBus.dropoutSchedulerId s2 = None /\
   CassetteTapeBus.dropoutIntensity s2 = (value / 100)%Q /\
   forall id q1 q2 q3,
     CassetteTapeBus.timers (CassetteTapeBus.fire id q1 q2 q3 s2)
       = filter (fun p : nat * Q => p.1 ≠ id) kept /\
     CassetteTapeBus.dropoutSchedulerId (CassetteTapeBus.fire id q1 q2 q3 s2) = None /\
     CassetteTapeBus.dropouts (CassetteTapeBus.fire id q1 q2 q3 s2)
       = CassetteTapeBus.dropouts s) /\
  (CassetteTapeBus.timers s3 =
     kept ++ [(CassetteTapeBus.nextTimerId s,
               (CassetteTapeBus.clock s + (15000 - value / 100 * 12000 + r2 * 5000))%Q)] /\
   CassetteTapeBus.dropoutSchedulerId s3 = Some (CassetteTapeBus.nextTimerId s) /\
   CassetteTapeBus.dropouts s3 = CassetteTapeBus.dropouts s) /\
  (tracked s ->
   kept = [] /\ (forall id q1 q2 q3, CassetteTapeBus.fire id q1 q2 q3 s2 = s2) /\
   tracked s3).
Proof.
  intros Hv kept s1 s2 s3.
  assert (Hpos : (0 < value / 100)%Q).
  { apply Qlt_shift_div_l; [done|]. by rewrite Qmult_0_l. }
  assert (H1 : s1 = CassetteTapeBus.mk true None (CassetteTapeBus.dropoutIntensity s) kept
                      (CassetteTapeBus.nextTimerId s) (CassetteTapeBus.clock s)
                      (CassetteTapeBus.dropouts s)).
  { subst s1 kept. unfold CassetteTapeBus.setBypass. bus_simpl.
    by destruct (CassetteTapeBus.dropoutSchedulerId s). }
  assert (H2 : s2 = CassetteTapeBus.mk true None (value / 100)%Q kept
                      (CassetteTapeBus.nextTimerId s) (CassetteTapeBus.clock s)
                      (CassetteTapeBus.dropouts s)).
  { subst s2. rewrite H1. unfold CassetteTapeBus.setDropouts. bus_simpl.
    rewrite (proj2 (JS_gt_true _ _) Hpos).
    unfold CassetteTapeBus.scheduleDropout. bus_simpl. by rewrite orb_true_r. }
  assert (H3 : s3 = CassetteTapeBus.mk false (Some (CassetteTapeBus.nextTimerId s))
                      (value / 100)%Q
                      (kept ++ [(CassetteTapeBus.nextTimerId s,
                                 (CassetteTapeBus.clock s
                                  + (15000 - value / 100 * 12000 + r2 * 5000))%Q)])
                      (S (CassetteTapeBus.nextTimerId s)) (CassetteTapeBus.clock s)
                      (CassetteTapeBus.dropouts s)).
  { subst s3. rewrite H2. unfold CassetteTapeBus.setBypass. bus_simpl.
    rewrite (proj2 (JS_gt_true _ _) Hpos).
    rewrite scheduleDropout_on by done. reflexivity. }
  split; [by rewrite H1|]. split; [|split; [by rewrite H3|]].
  - rewrite H2. bus_simpl. repeat (split; [done|]). intros id q1 q2 q3.
    unfold CassetteTapeBus.fire. bus_simpl.
    destruct (list_find _ kept) as [[? [? due]]|] eqn:E.
    + unfold CassetteTapeBus.triggerDropout, CassetteTapeBus.scheduleDropout.
      bus_simpl. by rewrite orb_true_r.
    + bus_simpl. split; [|done]. symmetry. apply filter_all.
      by apply list_find_None in E.
  - intros Htr. pose proof (tracked_clear s Htr) as Hc.
    assert (Hk : kept = []).
    { subst kept. by destruct (CassetteTapeBus.dropoutSchedulerId s). }
    split; [exact Hk|]. split.
    + intros id q1 q2 q3. rewrite H2, Hk. reflexivity.
    + rewrite H3, Hk. unfold tracked. bus_simpl. done.
Qed.

(** On the bus with a timer it has lost track of, switching the bypass
    on leaves that timer pending. *)
Lemma bypass_suspends_dropouts_witness :
  pendingIds (CassetteTapeBus.setBypass true 0 (doubleScheduled 0 (1 # 5))) = [1%nat] /\
  CassetteTapeBus.timers
    (CassetteTapeBus.setDropouts 50 (1 # 2)
       (CassetteTapeBus.setBypass true 0 (CassetteTapeBus.create 0))) = [].
Proof.
  split.
  - destruct (bypass_suspends_dropouts (doubleScheduled 0 (1 # 5)) 50 0 (1 # 2) 0)
      as ((H & _) & _); [reflexivity|].
    unfold pendingIds. rewrite H. reflexivity.
  - destruct (bypass_suspends_dropouts (CassetteTapeBus.create 0) 50 0 (1 # 2) 0)
      as (_ & (H & _) & _); [reflexivity|exact H].
Defined.

(** X15.  Switching the bypass off on a bus that is not bypassed and
    has a timer pending schedules a second timer and keeps the first:
    the bus then tracks only the new one, so [setDropouts(0)] cancels
    the new one alone, and the old one still fires one dropout, of the
    least duration and depth, before the chain ends. *)
Theorem bypass_off_starts_second_timer (s : CassetteTapeBus.t) (id : nat)
    (due random : Q) :
  CassetteTapeBus.timers s = [(id, due)] ->
  CassetteTapeBus.dropoutSchedulerId s = Some id ->
  CassetteTapeBus.bypassed s = false ->
  (0 < CassetteTapeBus.dropoutIntensity s)%Q ->
  (id < CassetteTapeBus.nextTimerId s)%nat ->
  let s1 := CassetteTapeBus.setBypass false random s in
  CassetteTapeBus.timers s1 =
    [(id, due);
     (CassetteTapeBus.nextTimerId s,
      (CassetteTapeBus.clock s
       + (15000 - CassetteTapeBus.dropoutIntensity s * 12000 + random * 5000))%Q)] /\
  CassetteTapeBus.dropoutSchedulerId s1 = Some (CassetteTapeBus.nextTimerId s) /\
  ~ tracked s1 /\
  forall random',
    let s2 := CassetteTapeBus.setDropouts 0 random' s1 in
    CassetteTapeBus.timers s2 = [(id, due)] /\
    CassetteTapeBus.dropoutSchedulerId s2 = None /\
    forall q1 q2 q3,
      let s3 := CassetteTapeBus.fire id q1 q2 q3 s2 in
      CassetteTapeBus.dropouts s3 =
        {| CassetteTapeBus.d_time := due;
           CassetteTapeBus.d_duration := 0.01 + q1 * 0.07 * (0 / 100);
           CassetteTapeBus.d_depth := 0.1 + q2 * 0.6 * (0 / 100) |}%Q
        :: CassetteTapeBus.dropouts s /\
      CassetteTapeBus.timers s3 = [].
Proof.
  intros Ht Hid Hb Hi Hlt s1.
  assert (E1 : s1 = CassetteTapeBus.mk false (Some (CassetteTapeBus.nextTimerId s))
                      (CassetteTapeBus.dropoutIntensity s)
                      [(id, due);
                       (CassetteTapeBus.nextTimerId s,
                        (CassetteTapeBus.clock s
                         + (15000 - CassetteTapeBus.dropoutIntensity s * 12000
                            + random * 5000))%Q)]
                      (S (CassetteTapeBus.nextTimerId s)) (CassetteTapeBus.clock s)
                      (CassetteTapeBus.dropouts s)).
  { subst s1. unfold CassetteTapeBus.setBypass. bus_simpl.
    rewrite (proj2 (JS_gt_true _ _) Hi).
    rewrite scheduleDropout_on by done. bus_simpl. by rewrite Ht. }
  rewrite E1. bus_simpl. split; [done|]. split; [done|]. split.
  { unfold tracked. bus_simpl. tauto. }
  intros random'. cbv zeta.
  set (s2 := CassetteTapeBus.setDropouts 0 random' _).
  assert (E2 : s2 = CassetteTapeBus.mk false None (0 / 100)%Q [(id, due)]
                      (S (CassetteTapeBus.nextTimerId s)) (CassetteTapeBus.clock s)
                      (CassetteTapeBus.dropouts s)).
  { subst s2. unfold CassetteTapeBus.setDropouts. bus_simpl.
    rewrite JS_gt_false by (vm_compute; discriminate).
    unfold CassetteTapeBus.set_dropoutSchedulerId, CassetteTapeBus.clearTimeout.
    bus_simpl.
    rewrite filter_cons_True by (cbn; lia).
    rewrite filter_cons_False by (cbn; intros H; by apply H). by rewrite filter_nil. }
  rewrite E2. bus_simpl. split; [done|]. split; [done|]. intros q1 q2 q3.
  unfold CassetteTapeBus.fire. bus_simpl.
  cbn [list_find]. rewrite decide_True by done. cbn [fmap option_fmap option_map].
  rewrite filter_cons_False by (cbn; intros H; by apply H). rewrite filter_nil.
  unfold CassetteTapeBus.triggerDropout. bus_simpl.
  rewrite scheduleDropout_off by (bus_simpl; vm_compute; discriminate).
  bus_simpl. done.
Qed.

Lemma bypass_off_starts_second_timer_witness :
  length
    (CassetteTapeBus.timers
       (CassetteTapeBus.setBypass false 0
          (CassetteTapeBus.setDropouts 100 (1 # 2) (CassetteTapeBus.create 0))))
  = 2%nat.
Proof.
  destruct (bypass_off_starts_second_timer
              (CassetteTapeBus.setDropouts 100 (1 # 2) (CassetteTapeBus.create 0))
              1 (1100000 # 200) 0) as (H & _);
    [reflexivity|reflexivity|reflexivity|reflexivity|vm_compute; lia|].
  by rewrite H.
Defined.

(** ** Loading over a playing track, and muting before play *)

Lemma Math_min_same (a : Q) : JS.Math_min a a = a.
Proof. unfold JS.Math_min. by destruct (JS.lt a a). Qed.

(** The speed control on a source that plays a buffer the track no
    longer holds: only the rate changes. *)
Lemma setSpeed_detached (v now : Q) (t : Track.t) (src : BufferSource) :
  Track.isPlaying t = true -> Track.source t = Some src ->
  src_buffer src = DetachedBuffer ->
  exists src',
    Track.source (Track.setSpeed v now t) = Some src' /\
    src_buffer src' = DetachedBuffer /\
    src_playbackRate src' = Rabs (Track.playbackRate (Track.setSpeed v now t)) /\
    src_loop src' = src_loop src /\ src_loopEnd src' = src_loopEnd src /\
    Track.startTime (Track.setSpeed v now t) = Track.startTime t /\
    Track.isPlaying (Track.setSpeed v now t) = true.
Proof.
  intros Hp Hs Hd. destruct (setSpeed_shape v now t) as [rho E]. cbv zeta in E.
  rewrite E, Hs, Hp, Hd. rewrite !bool_decide_eq_false_2 by done.
  rewrite !andb_false_r. cbn [orb]. eexists. split; [reflexivity|]. cbn. done.
Qed.

(** X16.  Audio loaded into a track that is playing is not heard
    until the track is restarted.  After [loadFileToTrack] (and in the
    same way after a recording ends) the track holds the new buffer and
    its loop length, but keeps playing the source it had, with the old
    loop points; the speed control then changes the rate of that source
    and nothing else, whatever the direction asked for; a restart plays
    the new buffer over its whole duration. *)
Theorem reload_keeps_old_source (r : Recorder.t) (k : nat) (t : Track.t)
    (src : BufferSource) (b : AudioBuffer) (now : Q) :
  Recorder.tracks r !! k = Some t ->
  Track.isPlaying t = true -> Track.source t = Some src ->
  exists t1,
    Recorder.tracks (Recorder.loadFileToTrack k (Some b) now r) !! k = Some t1 /\
    Track.audioBuffer t1 = Some b /\
    Track.reversedBuffer t1 = Some (createReversedBuffer b) /\
    Track.loopLength t1 = duration b /\
    Track.isPlaying t1 = true /\ Track.startTime t1 = Track.startTime t /\
    Track.source t1 = Some (Track.detach src) /\
    Track.source (Track.onRecordingStop (Some b) t) = Some (Track.detach src) /\
    src_loopEnd (Track.detach src) = src_loopEnd src /\
    src_playbackRate (Track.detach src) = src_playbackRate src /\
    (forall v now', exists src',
       Track.source (Track.setSpeed v now' t1) = Some src' /\
       src_buffer src' = DetachedBuffer /\
       src_loopEnd src' = src_loopEnd src /\
       Track.startTime (Track.setSpeed v now' t1) = Track.startTime t) /\
    (forall now', exists src',
       Track.source (Track.play 0 now' (Track.stop t1)) = Some src' /\
       src_buffer src' <> DetachedBuffer /\
       (Track.mode t = loop -> src_loopEnd src' = duration b)).
Proof.
  intros Hk Hp Hs.
  set (t1 := Track.set_source (Track.detach <$> Track.source t)
               (Track.set_reversedBuffer (Some (createReversedBuffer b))
                  (Track.set_hasAudio true
                     (Track.set_loopLength (duration b)
                        (Track.set_audioBuffer (Some b) t))))).
  assert (E : Recorder.tracks (Recorder.loadFileToTrack k (Some b) now r) !! k
              = Some t1).
  { unfold Recorder.loadFileToTrack. rewrite Hk.
    cbn [Recorder.tracks Recorder.set_tracks].
    rewrite list_lookup_insert_eq by (by eapply lookup_lt_Some).
    f_equal.
    cbn [Track.isPlaying Track.set_source Track.set_reversedBuffer Track.set_hasAudio
         Track.set_loopLength Track.set_audioBuffer].
    by rewrite Hp. }
  assert (Hs1 : Track.source t1 = Some (Track.detach src)) by (cbn; by rewrite Hs).
  exists t1. split; [done|]. do 6 (split; [done|]).
  split; [cbn; by rewrite Hs|]. split; [done|]. split; [done|]. split.
  - intros v now'.
    destruct (setSpeed_detached v now' t1 (Track.detach src) Hp Hs1 eq_refl)
      as (src' & A & B & _ & _ & C & D & _).
    exists src'. done.
  - intros now'.
    destruct (play_starts 0 now' (Track.stop t1) b eq_refl eq_refl)
      as (_ & (src' & A & B & _ & _ & C) & _).
    exists src'. split; [done|]. split.
    + rewrite B. by case_if.
    + intros Hm. rewrite (C Hm). cbn. apply Math_min_same.
Qed.

Lemma reload_keeps_old_source_witness :
  exists t1,
    Recorder.tracks
      (Recorder.loadFileToTrack 0 (Some demoBuffer) 1
         (Recorder.loadFileToTrack 0 (Some demoBuffer) 0 (Recorder.init 44100 demoDraws)))
      !! 0%nat = Some t1 /\
    Track.source t1 = Some (Track.detach demoSource).
Proof.
  destruct (reload_keeps_old_source
              (Recorder.loadFileToTrack 0 (Some demoBuffer) 0 (Recorder.init 44100 demoDraws))
              0 demoTrack demoSource demoBuffer 1)
    as (t1 & A & _ & _ & _ & _ & _ & B & _); [reflexivity|reflexivity|reflexivity|].
  exists t1. split; [exact A|exact B].
Defined.

(** X17.  A track that is muted when [playAll] is called is left out of
    the transport: [playAll] does not start it, and taking the mute off
    afterwards raises its fader but starts nothing, so it stays silent
    until the next [playAll].  A track muted while it plays keeps playing
    with its fader at zero. *)
Theorem play_skips_muted (r : Recorder.t) (k : nat) (t : Track.t) (now : Q) :
  Recorder.isPlaying r = false ->
  Recorder.tracks r !! k = Some t ->
  Track.isPlaying t = false -> Track.source t = None ->
  Track.isMuted t = true ->
  let playing := Recorder.playAll now r in
  let unmuted := UI.handleMuteClick k playing in
  Recorder.tracks playing !! k = Some t /\
  Recorder.isPlaying playing = true /\
  (exists t', Recorder.tracks unmuted !! k = Some t' /\
     Track.isMuted t' = false /\ Track.channelFader t' = 0.8%Q /\
     Track.isPlaying t' = false /\ Track.source t' = None) /\
  Recorder.tracks (Recorder.playAll now unmuted) = Recorder.tracks unmuted /\
  (forall t0 : Track.t,
     Track.isPlaying (Track.setMute true t0) = Track.isPlaying t0 /\
     Track.source (Track.setMute true t0) = Track.source t0 /\
     Track.channelFader (Track.setMute true t0) = 0%Q).
Proof.
  intros Hr Hk Hp Hs Hm playing unmuted.
  assert (E : Recorder.tracks playing !! k = Some t).
  { subst playing. unfold Recorder.playAll, Recorder.play. rewrite Hr. cbn.
    rewrite list_lookup_fmap, Hk. cbn. by rewrite Hm, andb_false_r. }
  assert (Hflag : Recorder.isPlaying playing = true).
  { subst playing. unfold Recorder.playAll, Recorder.play. by rewrite Hr. }
  split; [done|]. split; [done|]. split; [|split].
  - subst unmuted. unfold UI.handleMuteClick, Recorder.getTrack. rewrite E. cbn.
    rewrite list_lookup_insert_eq by (by eapply lookup_lt_Some).
    eexists. split; [reflexivity|]. cbn. by rewrite Hm, Hp, Hs.
  - unfold Recorder.playAll, Recorder.play.
    assert (Hflag' : Recorder.isPlaying unmuted = true).
    { subst unmuted. unfold UI.handleMuteClick, Recorder.getTrack. by rewrite E. }
    by rewrite Hflag'.
  - done.
Qed.

Lemma play_skips_muted_witness :
  Recorder.tracks
    (Recorder.playAll 0 (UI.handleMuteClick 1 (Recorder.init 44100 demoDraws))) !! 1%nat
  = Some (Track.setMute true (Track.set_isMuted true (Track.create 1))).
Proof.
  destruct (play_skips_muted (UI.handleMuteClick 1 (Recorder.init 44100 demoDraws)) 1
              (Track.setMute true (Track.set_isMuted true (Track.create 1))) 0)
    as (H & _); [reflexivity|reflexivity|reflexivity|reflexivity|reflexivity|exact H].
Defined.

(** ** The tape bus controls *)

Lemma for_loop_fill {A : Type} (n : nat) (g : nat -> A) (d : A) :
  let filled := JS.for_loop n (fun i st => <[i := g i]> st) (replicate n d) in
  length filled = n /\ forall i, (i < n)%nat -> filled !! i = Some (g i).
Proof.
  pose (P := fun (k : nat) (st : list A) =>
    length st = n /\ forall i, (i < k)%nat -> st !! i = Some (g i)).
  apply (for_loop_ind P); unfold P; clear P.
  - split; [by rewrite length_replicate|]. intros i Hi. lia.
  - intros i st Hi [Hl IH]. split; [by rewrite length_insert|].
    intros j Hj. destruct (decide (j = i)) as [->|Hne].
    + rewrite list_lookup_insert_eq; [done|lia].
    + rewrite list_lookup_insert_ne by done. apply IH. lia.
Qed.

Lemma tanh_exp (x : R) :
  tanh x = ((exp x * exp x - 1) / (exp x * exp x + 1))%R.
Proof.
  unfold tanh, sinh, cosh. rewrite exp_Ropp.
  pose proof (exp_pos x). field. split; nra.
Qed.

Lemma tanh_lt (x y : R) : (x < y)%R -> (tanh x < tanh y)%R.
Proof.
  intros H. rewrite !tanh_exp.
  pose proof (exp_pos x) as Hx. pose proof (exp_increasing _ _ H) as Hxy.
  set (a := exp x) in *. set (b := exp y) in *.
  assert (Ha : (0 < a * a + 1)%R) by nra.
  assert (Hb : (0 < b * b + 1)%R) by nra.
  apply (Rmult_lt_reg_r ((a * a + 1) * (b * b + 1))%R); [nra|].
  replace ((a * a - 1) / (a * a + 1) * ((a * a + 1) * (b * b + 1)))%R
    with ((a * a - 1) * (b * b + 1))%R by (field; lra).
  replace ((b * b - 1) / (b * b + 1) * ((a * a + 1) * (b * b + 1)))%R
    with ((b * b - 1) * (a * a + 1))%R by (field; lra).
  nra.
Qed.

Lemma tanh_le (x y : R) : (x <= y)%R -> (tanh x <= tanh y)%R.
Proof.
  intros [H| ->]; [left; by apply tanh_lt|lra].
Qed.

Lemma tanh_0 : tanh 0 = 0%R.
Proof. rewrite tanh_exp, exp_0. lra. Qed.

Lemma tanh_opp (x : R) : tanh (- x) = (- tanh x)%R.
Proof.
  rewrite !tanh_exp, exp_Ropp. pose proof (exp_pos x). field.
  repeat split; nra.
Qed.

Lemma tanh_pos (x : R) : (0 < x)%R -> (0 < tanh x)%R.
Proof. intros H. rewrite <- tanh_0. by apply tanh_lt. Qed.

Lemma samples_Z : Z.of_nat TapeNodes.samples = 8192%Z.
Proof. unfold TapeNodes.samples. lia. Qed.

Lemma half_samples_Z : Z.of_nat (TapeNodes.samples / 2) = 4096%Z.
Proof. rewrite Nat2Z.inj_div, samples_Z. reflexivity. Qed.

Lemma curveInput_R (i : nat) :
  Q2R (curveInput i) = (IZR (Z.of_nat i) / 4096 - 1)%R.
Proof.
  unfold curveInput. rewrite samples_Z.
  rewrite Q2R_minus, Q2R_div by done. rewrite Q2R_mult.
  unfold Q2R at 1 2 3 4. cbn. lra.
Qed.

(** The transfer function the curve samples. *)
Lemma updateSaturationCurve_lookup (amount : Q) :
  let curve := TapeNodes.updateSaturationCurve amount in
  length curve = TapeNodes.samples /\
  forall i, (i < TapeNodes.samples)%nat ->
    curve !! i =
    Some (if JS.eq amount 0 then Q2R (curveInput i)
          else (tanh (Q2R (curveInput i) * Q2R (1 + amount * 10))
                / tanh (Q2R (1 + amount * 10)))%R).
Proof.
  unfold TapeNodes.updateSaturationCurve, JS.Math_tanh. cbv zeta.
  destruct (JS.eq amount 0).
  - apply (for_loop_fill TapeNodes.samples (fun i => Q2R (curveInput i)) 0%R).
  - pose proof (for_loop_fill TapeNodes.samples
      (fun i => (tanh (Q2R (curveInput i * (1 + amount * 10)))
                 / tanh (Q2R (1 + amount * 10)))%R) 0%R) as [L H].
    split; [exact L|]. intros i Hi. rewrite <- Q2R_mult. by apply H.
Qed.

(** X18.  The waveshaper curve that [setSaturation] installs, for a
    saturation amount that is not negative: it has 8192 points, it maps
    the lowest input to -1 and the middle input to 0, every point lies
    between -1 and 1, the points never fall from one to the next, the
    curve is odd about its middle point, and at amount 0 it is the
    identity.  The emphasis gains the same call sets cancel. *)
Theorem saturation_curve_shape (value : Q) (s : TapeNodes.t) :
  (0 <= value)%Q ->
  let s' := TapeNodes.setSaturation value s in
  let curve := TapeNodes.saturationCurve s' in
  curve = TapeNodes.updateSaturationCurve (value / 100) /\
  length curve = TapeNodes.samples /\
  curve !! 0%nat = Some (-1)%R /\
  curve !! (TapeNodes.samples / 2)%nat = Some 0%R /\
  (forall i, (i < TapeNodes.samples)%nat ->
     exists y, curve !! i = Some y /\ (-1 <= y <= 1)%R) /\
  (forall i j y z, (i <= j)%nat -> curve !! i = Some y -> curve !! j = Some z ->
     (y <= z)%R) /\
  (forall i y, (0 < i < TapeNodes.samples)%nat -> curve !! i = Some y ->
     curve !! (TapeNodes.samples - i)%nat = Some (- y)%R) /\
  (value == 0 -> forall i, (i < TapeNodes.samples)%nat ->
     curve !! i = Some (Q2R (curveInput i))) /\
  TapeNodes.preEmphasisGain s' + TapeNodes.deEmphasisGain s' == 0.
Proof.
  intros Hv s' curve.
  assert (Ec : curve = TapeNodes.updateSaturationCurve (value / 100)) by done.
  split; [done|].
  destruct (updateSaturationCurve_lookup (value / 100)) as [L H].
  cbv zeta in L, H. rewrite <- Ec in L, H.
  set (amount := (value / 100)%Q) in *.
  assert (Ha : (0 <= amount)%Q).
  { unfold amount, Qdiv. change (/ 100)%Q with (1 # 100)%Q. Lqa.lra. }
  set (d := Q2R (1 + amount * 10)) in *.
  assert (Hd : (1 <= d)%R).
  { unfold d. rewrite Q2R_plus, Q2R_mult.
    apply Qle_Rle in Ha. rewrite RMicromega.Q2R_0 in Ha.
    unfold Q2R at 1 3. cbn. lra. }
  assert (Htd : (0 < tanh d)%R) by (apply tanh_pos; lra).
  set (f := fun x : R =>
    if JS.eq amount 0 then x else (tanh (x * d) / tanh d)%R) in *.
  assert (Hf : forall i, (i < TapeNodes.samples)%nat ->
            curve !! i = Some (f (Q2R (curveInput i)))).
  { intros i Hi. rewrite (H i Hi). unfold f. by destruct (JS.eq amount 0). }
  assert (Hlt : forall x y, (x < y)%R -> (f x < f y)%R).
  { intros x y Hxy. unfold f. destruct (JS.eq amount 0); [done|].
    apply Rmult_lt_compat_r; [by apply Rinv_0_lt_compat|].
    apply tanh_lt. nra. }
  assert (Hopp : forall x, f (- x)%R = (- f x)%R).
  { intros x. unfold f. destruct (JS.eq amount 0); [done|].
    replace (- x * d)%R with (- (x * d))%R by lra. rewrite tanh_opp. field. lra. }
  assert (H1 : f 1%R = 1%R).
  { unfold f. destruct (JS.eq amount 0); [done|]. rewrite Rmult_1_l. field. lra. }
  assert (Hm1 : f (-1)%R = (-1)%R).
  { replace (-1)%R with (Ropp 1) by lra. rewrite Hopp, H1. done. }
  assert (H0 : f 0%R = 0%R).
  { unfold f. destruct (JS.eq amount 0); [done|]. rewrite Rmult_0_l, tanh_0. lra. }
  assert (Hx : forall i, (i < TapeNodes.samples)%nat ->
            (-1 <= Q2R (curveInput i) < 1)%R).
  { intros i Hi. rewrite curveInput_R.
    assert (A : (0 <= Z.of_nat i < 8192)%Z) by (pose proof samples_Z; lia).
    destruct A as [A1 A2]. apply IZR_le in A1. apply IZR_lt in A2. lra. }
  assert (Hlen : forall i y, curve !! i = Some y -> (i < TapeNodes.samples)%nat).
  { intros i y Hi. rewrite <- L. by eapply lookup_lt_Some. }
  split; [done|]. split.
  { rewrite Hf by (pose proof samples_Z; lia). f_equal.
    rewrite curveInput_R. change (Z.of_nat 0) with 0%Z.
    replace (0 / 4096 - 1)%R with (-1)%R by lra. done. }
  split.
  { rewrite Hf by (pose proof samples_Z; pose proof half_samples_Z; lia). f_equal.
    rewrite curveInput_R, half_samples_Z.
    replace (4096 / 4096 - 1)%R with 0%R by lra. done. }
  split.
  { intros i Hi. eexists. split; [by apply Hf|].
    destruct (Hx i Hi) as [A B]. split.
    - destruct A as [A|A].
      + left. rewrite <- Hm1. by apply Hlt.
      + rewrite <- A. right. by rewrite Hm1.
    - left. apply Rlt_le_trans with (f 1%R); [by apply Hlt|]. rewrite H1. lra. }
  split.
  { intros i j y z Hij Hi Hj.
    pose proof (Hlen _ _ Hi) as Li. pose proof (Hlen _ _ Hj) as Lj.
    rewrite Hf in Hi, Hj by done. inversion Hi; inversion Hj; subst y z.
    destruct (decide (i = j)) as [->|Hne]; [lra|].
    left. apply Hlt. rewrite !curveInput_R.
    assert (A : (Z.of_nat i < Z.of_nat j)%Z) by lia. apply IZR_lt in A. lra. }
  split.
  { intros i y Hi Hy. rewrite Hf in Hy by lia. inversion Hy; subst y.
    rewrite Hf by lia. f_equal. rewrite <- Hopp. f_equal.
    rewrite !curveInput_R.
    replace (Z.of_nat (TapeNodes.samples - i)) with (8192 - Z.of_nat i)%Z
      by (pose proof samples_Z; lia).
    rewrite minus_IZR. lra. }
  split.
  { intros E i Hi. rewrite Hf by done. unfold f.
    assert (E' : amount == 0) by (unfold amount; rewrite E; reflexivity).
    apply JS_eq_true in E'. by rewrite E'. }
  cbn. unfold Qdiv. change (/ 100)%Q with (1 # 100)%Q. Lqa.lra.
Qed.

Lemma saturation_curve_shape_witness :
  TapeNodes.preEmphasisGain (TapeNodes.setSaturation 50 TapeNodes.create)
  + TapeNodes.deEmphasisGain (TapeNodes.setSaturation 50 TapeNodes.create) == 0.
Proof.
  destruct (saturation_curve_shape 50 TapeNodes.create) as (_ & _ & _ & _ & _ & _ & _ & _ & H);
    [done|exact H].
Defined.

Lemma Rpower_10_m2 : Rpower 10 (-2) = (/ 100)%R.
Proof.
  replace (-2)%R with (Ropp 2) by lra. rewrite Rpower_Ropp. f_equal.
  change 2%R with (INR 2). rewrite Rpower_pow by lra. simpl. lra.
Qed.

Lemma setHiss_gain (value : Q) (s : TapeNodes.t) :
  TapeNodes.hissGain (TapeNodes.setHiss value s) =
  if JS.eq value 0 then 0%R else Rpower 10 (-7 / 2 + 3 / 200 * Q2R value).
Proof.
  unfold TapeNodes.setHiss. cbv zeta. cbn [TapeNodes.hissGain].
  destruct (JS.eq value 0) eqn:E.
  - apply JS_eq_true in E.
    assert (E' : value / 100 == 0) by (rewrite E; reflexivity).
    apply JS_eq_true in E'. by rewrite E'.
  - rewrite JS_eq_false.
    + unfold JS.Math_pow. f_equal.
      * unfold Q2R. cbn. lra.
      * rewrite Q2R_div by done. rewrite Q2R_plus, Q2R_mult, Q2R_div by done.
        rewrite Q2R_minus. unfold Q2R at 1 3 4 5 6. cbn. lra.
    + intros E'. assert (C : value == 0).
      { unfold Qdiv in E'. change (/ 100)%Q with (1 # 100)%Q in E'. Lqa.lra. }
      apply JS_eq_true in C. congruence.
Qed.

(** X19.  The hiss control.  At 0 the hiss gain is 0; at every other
    position up to 100 the gain is 10^(dB/20) for a level that runs
    linearly from -70 dB to -40 dB, so it is at least 10^(-3.5) and
    reaches 0.01 at 100, and it never falls as the control rises.  The
    gain thus jumps at 0: no position gives a gain between 0 and
    10^(-3.5). *)
Theorem hiss_gain_range (value : Q) (s : TapeNodes.t) :
  (0 <= value <= 100)%Q ->
  let gain := fun v => TapeNodes.hissGain (TapeNodes.setHiss v s) in
  (value == 0 -> gain value = 0%R) /\
  ((0 < value)%Q -> (Rpower 10 (-7 / 2) <= gain value <= / 100)%R) /\
  gain 100%Q = (/ 100)%R /\
  (forall w, (value <= w)%Q -> (gain value <= gain w)%R).
Proof.
  intros [Hlo Hhi] gain. unfold gain. split; [|split; [|split]].
  - intros E. rewrite setHiss_gain. apply JS_eq_true in E. by rewrite E.
  - intros Hpos. rewrite setHiss_gain.
    rewrite JS_eq_false by (intros E; rewrite E in Hpos; Lqa.lra).
    apply Qlt_Rlt in Hpos. apply Qle_Rle in Hhi.
    rewrite RMicromega.Q2R_0 in Hpos.
    assert (E100 : Q2R 100 = 100%R) by (unfold Q2R; cbn; lra).
    rewrite E100 in Hhi. split.
    + apply Rle_Rpower; lra.
    + rewrite <- Rpower_10_m2. apply Rle_Rpower; lra.
  - rewrite setHiss_gain. rewrite JS_eq_false by done.
    rewrite <- Rpower_10_m2. f_equal. unfold Q2R. cbn. lra.
  - intros w Hw. rewrite !setHiss_gain.
    destruct (JS.eq value 0) eqn:E.
    + destruct (JS.eq w 0); [lra|]. left. apply exp_pos.
    + assert (Hne : ~ value == 0).
      { intros C. apply JS_eq_true in C. congruence. }
      rewrite JS_eq_false by (intros C; rewrite C in Hw; Lqa.lra).
      apply Qle_Rle in Hw. apply Rle_Rpower; lra.
Qed.

Lemma hiss_gain_range_witness :
  TapeNodes.hissGain (TapeNodes.setHiss 100 TapeNodes.create) = (/ 100)%R.
Proof.
  destruct (hiss_gain_range 100 TapeNodes.create) as (_ & _ & H & _);
    [split; done|exact H].
Defined.

(** X20.  The wow, flutter and age controls over their range 0..100:
    the wow LFO runs between 0.5 and 2 Hz and slows down as the control
    rises, with a depth of at most 3 ms; the flutter LFO runs between 4
    and 12 Hz with a depth of at most 1.5 ms; age lowers the
    high-frequency rolloff from 18 kHz to no less than 4 kHz, raises the
    head bump to at most 6 dB and moves it from 80 Hz down to no less
    than 60 Hz.  Age leaves the hiss gain as it is. *)
Theorem tape_controls_in_range (value : Q) (s : TapeNodes.t) :
  (0 <= value <= 100)%Q ->
  let wow := TapeNodes.setWow value s in
  let flutter := TapeNodes.setFlutter value s in
  let age := TapeNodes.setAge value s in
  ((0.5 <= TapeNodes.wowLFOFrequency wow <= 2 /\
   0 <= TapeNodes.wowDepthGain wow <= 0.003 /\
   (forall w, value <= w ->
      TapeNodes.wowLFOFrequency (TapeNodes.setWow w s)
      <= TapeNodes.wowLFOFrequency wow)) /\
  (4 <= TapeNodes.flutterLFOFrequency flutter <= 12 /\
   0 <= TapeNodes.flutterDepthGain flutter <= 0.0015) /\
  (4000 <= TapeNodes.hfRolloffFrequency age <= 18000 /\
   0 <= TapeNodes.headBumpGain age <= 6 /\
   60 <= TapeNodes.headBumpFrequency age <= 80 /\
   TapeNodes.hissGain age = TapeNodes.hissGain s))%Q.
Proof.
  intros [Hlo Hhi]. cbn. unfold Qdiv. change (/ 100)%Q with (1 # 100)%Q.
  repeat split; try Lqa.lra. intros w Hw. Lqa.lra.
Qed.

Lemma tape_controls_in_range_witness :
  (0.5 <= TapeNodes.wowLFOFrequency (TapeNodes.setWow 100 TapeNodes.create) <= 2 /\
   4000 <= TapeNodes.hfRolloffFrequency (TapeNodes.setAge 100 TapeNodes.create)
   <= 18000)%Q.
Proof.
  destruct (tape_controls_in_range 100 TapeNodes.create)
    as ((H1 & _ & _) & _ & (H2 & _ & _)); [split; done|].
  split; [exact H1|exact H2].
Defined.

(** X21.  The hiss buffer: one channel of two seconds at the
    context's rate, in which sample [i] is the [i]-th random draw
    doubled less 1, a value between -1 and 1. *)
Theorem hiss_buffer_noise (rate : nat) (random : nat -> Q) :
  (forall i, is_random (random i)) ->
  let hiss := TapeNodes.createHissBuffer rate random in
  numberOfChannels hiss = 1%nat /\ buf_length hiss = (rate * 2)%nat /\
  wf_buffer hiss /\
  ((0 < rate)%nat -> duration hiss == 2) /\
  forall i, (i < rate * 2)%nat ->
    exists x, sampleAt hiss 0 i = Some x /\ x == random i * 2 - 1 /\
              (-1 <= x <= 1)%Q.
Proof.
  intros Hr hiss.
  destruct (reverse_channel_loop (fun i => (random i * 2 - 1)%Q) 0 (rate * 2)
              (createBuffer 1 (rate * 2) (inject_Z (Z.of_nat rate))))
    as [(Hn & Hl & Hs & Hwf) Hat].
  fold (TapeNodes.createHissBuffer rate random) in Hn, Hl, Hs, Hwf, Hat.
  fold hiss in Hn, Hl, Hs, Hwf, Hat.
  split; [exact Hn|]. split; [exact Hl|].
  split; [apply Hwf, createBuffer_wf|]. split.
  - intros Hpos. unfold duration. rewrite (double_proper _ 2); [vm_compute; reflexivity|].
    rewrite Hl, Hs. cbn [sampleRate buf_length createBuffer].
    rewrite Nat2Z.inj_mul, inject_Z_mult.
    assert (H0 : (0 < inject_Z (Z.of_nat rate))%Q).
    { change 0%Q with (inject_Z 0). rewrite <- Zlt_Qlt. lia. }
    change (inject_Z (Z.of_nat 2)) with 2%Q. field. Lqa.lra.
  - intros i Hi. exists (random i * 2 - 1)%Q.
    split; [|split; [reflexivity|]].
    + rewrite Hat. rewrite decide_True by done.
      by rewrite sampleAt_createBuffer by lia.
    + destruct (Hr i) as [A B]. split; Lqa.lra.
Qed.

Lemma hiss_buffer_noise_witness :
  exists x, sampleAt (TapeNodes.createHissBuffer 1 (fun _ => 1 # 2)) 0 1 = Some x /\
            x == 0.
Proof.
  destruct (hiss_buffer_noise 1 (fun _ => 1 # 2)) as (_ & _ & _ & _ & H);
    [intros i; split; done|].
  destruct (H 1%nat) as (x & A & B & _); [simpl; lia|].
  exists x. split; [exact A|]. rewrite B. reflexivity.
Defined.

(** ** Knobs *)

(** X22.  Dragging a knob.  After a press of the left button at height
    [y0] on a knob that shows [v0], every pointer move yields a value
    within the knob's range; it is the start value plus the height
    gained, [sensitivity] pixels (ten times as many with shift held)
    being worth the whole range, cut off at the ends; moving up never
    lowers the value and moving down never raises it.  A press of
    another button starts no drag, and after the release a move yields
    nothing.  A drag with one finger gives what the mouse gives without
    shift; a touch with two fingers starts no drag. *)
Theorem knob_drag_clamped (k : Knob.t) (y0 v0 : Q) :
  (Knob.min k <= Knob.max k)%Q -> (0 < Knob.sensitivity k)%Q ->
  (0 < Knob.fineSensitivity k)%Q ->
  (Knob.min k <= v0 <= Knob.max k)%Q ->
  let pressed := Knob.handleMouseDown 0 y0 v0 k in
  let range := (Knob.max k - Knob.min k)%Q in
  (forall y shift, exists v,
     Knob.handleMouseMove y shift pressed = Some v /\
     (Knob.min k <= v <= Knob.max k)%Q /\
     (let pixels := if shift then (Knob.sensitivity k * Knob.fineSensitivity k)%Q
                    else Knob.sensitivity k in
      let target := (v0 + (y0 - y) / pixels * range)%Q in
      (Knob.min k <= target <= Knob.max k -> v == target)%Q /\
      (target <= Knob.min k -> v == Knob.min k)%Q /\
      (Knob.max k <= target -> v == Knob.max k)%Q) /\
     ((y <= y0)%Q -> (v0 <= v)%Q) /\ ((y0 <= y)%Q -> (v <= v0)%Q)) /\
  (forall button y shift, button <> 0%Z ->
     Knob.handleMouseMove y shift (Knob.handleMouseDown button y0 v0 k)
     = Knob.handleMouseMove y shift k) /\
  (forall y shift,
     Knob.handleMouseMove y shift (Knob.handleMouseUp pressed) = None) /\
  (forall y,
     Knob.handleTouchMove [y] (Knob.handleTouchStart [y0] v0 k)
     = Knob.handleMouseMove y false pressed /\
     Knob.handleTouchMove [y] (Knob.handleTouchEnd (Knob.handleTouchStart [y0] v0 k))
     = None) /\
  (forall y y1 y2, Knob.handleTouchStart [y1; y2] v0 k = k /\
     Knob.handleTouchMove [y; y1] (Knob.handleTouchStart [y0] v0 k) = None).
Proof.
  intros Hmm Hs Hf Hv pressed range. split; [|split; [|split; [|split]]].
  - intros y shift.
    set (pixels := if shift then (Knob.sensitivity k * Knob.fineSensitivity k)%Q
                   else Knob.sensitivity k).
    set (target := (v0 + (y0 - y) / pixels * range)%Q).
    assert (Hp : (0 < pixels)%Q).
    { unfold pixels. destruct shift; [|done]. by apply Qmult_lt_0_compat. }
    assert (Hr : (0 <= range)%Q) by (unfold range; Lqa.lra).
    destruct (clamp_between (Knob.min k) (Knob.max k) target Hmm)
      as (A & B & C & D & E).
    cbv zeta in A, B, C, D, E.
    exists (JS.Math_max (Knob.min k) (JS.Math_min (Knob.max k) target)).
    split; [by destruct shift|]. split; [done|].
    split; [split; [intros [? ?]; by apply C|split; [exact D|exact E]]|].
    set (v := JS.Math_max (Knob.min k) (JS.Math_min (Knob.max k) target)) in *.
    clearbody v.
    assert (Hq : forall d, (0 <= d)%Q -> (0 <= d / pixels * range)%Q).
    { intros d Hd. apply Qmult_le_0_compat; [|done].
      apply Qle_shift_div_l; [done|]. Lqa.lra. }
    split.
    + intros Hy. pose proof (Hq (y0 - y)%Q ltac:(Lqa.lra)) as Hg.
      fold target in Hg.
      assert (Ht : (v0 <= target)%Q) by (unfold target; Lqa.lra).
      destruct (Qlt_le_dec (Knob.max k) target) as [Hlt|Hle].
      * rewrite E by Lqa.lra. Lqa.lra.
      * rewrite C by Lqa.lra. done.
    + intros Hy.
      assert (Hg : ((y0 - y) / pixels * range <= 0)%Q).
      { pose proof (Hq (y - y0)%Q ltac:(Lqa.lra)) as Hg.
        assert (Eq : ((y0 - y) / pixels * range == - ((y - y0) / pixels * range))%Q).
        { field. Lqa.lra. }
        rewrite Eq. Lqa.lra. }
      assert (Ht : (target <= v0)%Q) by (unfold target; Lqa.lra).
      destruct (Qlt_le_dec target (Knob.min k)) as [Hlt|Hle].
      * rewrite D by Lqa.lra. Lqa.lra.
      * rewrite C by Lqa.lra. done.
  - intros button y shift Hb. unfold Knob.handleMouseDown.
    destruct (button =? 0)%Z eqn:E; [|done]. apply Z.eqb_eq in E. done.
  - done.
  - done.
  - done.
Qed.

Lemma knob_drag_clamped_witness :
  exists v,
    Knob.handleMouseMove 50 false
      (Knob.handleMouseDown 0 100 (-100)
         (Knob.create (Some (-100)%Q) (Some 100%Q) 0 (UI.knobOptions true 0)))
    = Some v /\ v == 0.
Proof.
  destruct (knob_drag_clamped
              (Knob.create (Some (-100)%Q) (Some 100%Q) 0 (UI.knobOptions true 0))
              100 (-100)) as (H & _);
    [done|done|done|split; done|].
  destruct (H 50%Q false) as (v & A & _ & (B & _) & _).
  exists v. split; [exact A|]. rewrite B; [reflexivity|split; done].
Defined.

(** X23.  The mouse wheel.  One notch moves the value by one hundredth
    of the range (one thousandth with shift held), up when [deltaY] is
    negative and down otherwise, also when [deltaY] is 0, and the
    result is cut off at the ends of the range.  At the top a notch up
    changes nothing, and [setValue] then dispatches no event; likewise
    a notch down at the bottom. *)
Theorem knob_wheel_steps (k : Knob.t) (value : Q) (shift : bool) :
  (Knob.min k <= Knob.max k)%Q ->
  (Knob.min k <= value <= Knob.max k)%Q ->
  let step := ((Knob.max k - Knob.min k) / 100 * (if shift then 0.1 else 1))%Q in
  let notch := fun deltaY v => Knob.handleWheel deltaY shift v k in
  (forall deltaY,
     (Knob.min k <= notch deltaY value <= Knob.max k)%Q /\
     ((deltaY < 0)%Q -> (value + step <= Knob.max k)%Q ->
        notch deltaY value == value + step) /\
     ((deltaY < 0)%Q -> (Knob.max k <= value + step)%Q ->
        notch deltaY value == Knob.max k) /\
     ((0 <= deltaY)%Q -> (Knob.min k <= value - step)%Q ->
        notch deltaY value == value - step) /\
     ((0 <= deltaY)%Q -> (value - step <= Knob.min k)%Q ->
        notch deltaY value == Knob.min k)) /\
  (forall up, (up < 0)%Q ->
     Knob.setValue (Knob.max k) (notch up (Knob.max k)) = false) /\
  (forall down, (0 <= down)%Q ->
     Knob.setValue (Knob.min k) (notch down (Knob.min k)) = false).
Proof.
  intros Hmm Hv step notch.
  assert (Hstep : (0 <= step)%Q).
  { unfold step. apply Qmult_le_0_compat; [|by destruct shift].
    unfold Qdiv. change (/ 100)%Q with (1 # 100)%Q. Lqa.lra. }
  assert (Hn : forall deltaY v,
    notch deltaY v =
    JS.Math_max (Knob.min k)
      (JS.Math_min (Knob.max k) (v + (if JS.lt deltaY 0 then step else - step))%Q)).
  { intros deltaY v. unfold notch, Knob.handleWheel, step. by destruct shift. }
  assert (Hup : forall up v, (up < 0)%Q -> (Knob.min k <= v)%Q ->
            (v + step <= Knob.max k)%Q -> notch up v == v + step).
  { intros up v Hu H1 H2. rewrite Hn. rewrite (proj2 (JS_lt_true up 0) Hu).
    destruct (clamp_between (Knob.min k) (Knob.max k) (v + step) Hmm)
      as (_ & _ & C & _). apply C; Lqa.lra. }
  assert (Hdown : forall down v, (0 <= down)%Q -> (v <= Knob.max k)%Q ->
            (Knob.min k <= v - step)%Q -> notch down v == v - step).
  { intros down v Hd H1 H2. rewrite Hn. rewrite (JS_lt_false down 0 Hd).
    destruct (clamp_between (Knob.min k) (Knob.max k) (v + - step) Hmm)
      as (_ & _ & C & _). cbv zeta in C. rewrite C; Lqa.lra. }
  split; [|split].
  - intros deltaY. split; [|split; [|split; [|split]]].
    + rewrite Hn.
      destruct (clamp_between (Knob.min k) (Knob.max k)
                  (value + (if JS.lt deltaY 0 then step else - step)) Hmm)
        as (A & B & _). done.
    + intros Hd Hs. apply Hup; [done|Lqa.lra|done].
    + intros Hd Hs. rewrite Hn. rewrite (proj2 (JS_lt_true deltaY 0) Hd).
      destruct (clamp_between (Knob.min k) (Knob.max k) (value + step) Hmm)
        as (_ & _ & _ & _ & E). by apply E.
    + intros Hd Hs. apply Hdown; [done|Lqa.lra|done].
    + intros Hd Hs. rewrite Hn. rewrite (JS_lt_false deltaY 0 Hd).
      destruct (clamp_between (Knob.min k) (Knob.max k) (value + - step) Hmm)
        as (_ & _ & _ & D & _). apply D. Lqa.lra.
  - intros up Hu. unfold Knob.setValue. apply negb_false_iff, JS_eq_true.
    rewrite Hn. rewrite (proj2 (JS_lt_true up 0) Hu).
    destruct (clamp_between (Knob.min k) (Knob.max k) (Knob.max k + step) Hmm)
      as (_ & _ & _ & _ & E). cbv zeta in E. rewrite E; [reflexivity|Lqa.lra].
  - intros down Hd. unfold Knob.setValue. apply negb_false_iff, JS_eq_true.
    rewrite Hn. rewrite (JS_lt_false down 0 Hd).
    destruct (clamp_between (Knob.min k) (Knob.max k) (Knob.min k + - step) Hmm)
      as (_ & _ & _ & D & _). cbv zeta in D. rewrite D; [reflexivity|Lqa.lra].
Qed.

Lemma knob_wheel_steps_witness :
  Knob.handleWheel 0 false 0
    (Knob.create (Some (-100)%Q) (Some 100%Q) 0 (UI.knobOptions true 0)) == -2.
Proof.
  destruct (knob_wheel_steps
              (Knob.create (Some (-100)%Q) (Some 100%Q) 0 (UI.knobOptions true 0))
              0 false) as (H & _); [done|split; done|].
  destruct (H 0%Q) as (_ & _ & _ & D & _). rewrite D; [reflexivity|done|done].
Defined.

(** X24.  The rotation of a knob whose range is not empty: the angle
    runs from -135 degrees at the least value to 135 degrees at the
    greatest and rises with the value.  A bipolar knob centred at 0, as
    the speed knobs are set up, is marked 'reverse' exactly when the
    track its 'input' listener passes the value to then plays in
    reverse, and its double-click or reset value 0 is the speed 1x
    forward. *)
Theorem knob_angle_and_direction (k : Knob.t) (value : Q) :
  (Knob.min k < Knob.max k)%Q ->
  (Knob.min k <= value <= Knob.max k)%Q ->
  let angle := fun v => (Knob.updateVisual v k).1 in
  (-135 <= angle value <= 135)%Q /\
  angle (Knob.min k) == -135 /\ angle (Knob.max k) == 135 /\
  (forall w, (value <= w)%Q -> (angle value <= angle w)%Q) /\
  (Knob.isBipolar k = false -> (Knob.updateVisual value k).2 = None) /\
  (Knob.isBipolar k = true -> Knob.centerValue k == 0 ->
   forall now r n tr, Recorder.tracks r !! n = Some tr ->
     exists tr', Recorder.tracks (UI.onSpeedKnob n value now r) !! n = Some tr' /\
       tr' = Track.setSpeed value now tr /\
       (Knob.updateVisual value k).2 = Some (Track.isReversed tr')) /\
  (Knob.defaultValue k == 0 ->
   forall now tr,
     Knob.reset k = Knob.handleDoubleClick k /\
     Track.playbackRate (Track.setSpeed (Knob.handleDoubleClick k) now tr) = 1%R /\
     Track.isReversed (Track.setSpeed (Knob.handleDoubleClick k) now tr) = false).
Proof.
  intros Hmm [Hlo Hhi] angle.
  assert (Hr : (0 < Knob.max k - Knob.min k)%Q) by Lqa.lra.
  assert (Ha : forall v, angle v
            == -135 + (v - Knob.min k) / (Knob.max k - Knob.min k) * 270).
  { intros v. reflexivity. }
  assert (Hmono : forall v w, (v <= w)%Q -> (angle v <= angle w)%Q).
  { intros v w Hvw. rewrite !Ha.
    assert (E : (w - Knob.min k) / (Knob.max k - Knob.min k)
                == (v - Knob.min k) / (Knob.max k - Knob.min k)
                   + (w - v) / (Knob.max k - Knob.min k)) by (field; Lqa.lra).
    assert (P : (0 <= (w - v) / (Knob.max k - Knob.min k))%Q).
    { apply Qle_shift_div_l; [done|]. Lqa.lra. }
    rewrite E. Lqa.lra. }
  assert (Amin : angle (Knob.min k) == -135).
  { rewrite Ha. field. Lqa.lra. }
  assert (Amax : angle (Knob.max k) == 135).
  { rewrite Ha. field. Lqa.lra. }
  split; [|split; [done|split; [done|split; [|split; [|split]]]]].
  - split.
    + rewrite <- Amin. by apply Hmono.
    + rewrite <- Amax. by apply Hmono.
  - intros w Hw. by apply Hmono.
  - intros Hb. unfold Knob.updateVisual. cbn. by rewrite Hb.
  - intros Hb Hc now r n tr Hn. exists (Track.setSpeed value now tr).
    split.
    { unfold UI.onSpeedKnob, Recorder.getTrack. rewrite Hn.
      cbn [Recorder.tracks Recorder.set_tracks].
      apply list_lookup_insert_eq. by eapply lookup_lt_Some. }
    split; [done|].
    unfold Knob.updateVisual. cbn [snd]. rewrite Hb.
    f_equal. destruct (setSpeed_fields value now tr) as [_ ->].
    destruct (Qlt_le_dec value (Knob.centerValue k)) as [Hlt|Hle].
    + rewrite (proj2 (JS_lt_true _ _) Hlt).
      rewrite JS_eq_false by (intros E; rewrite E, Hc in Hlt; Lqa.lra).
      rewrite JS_gt_false by (rewrite Hc in Hlt; Lqa.lra). done.
    + rewrite (JS_lt_false _ _ Hle). rewrite Hc in Hle.
      destruct (JS.eq value 0) eqn:E; [done|].
      assert (Hne : ~ value == 0) by (intros C; apply JS_eq_true in C; congruence).
      rewrite (proj2 (JS_gt_true value 0)); [done|].
      apply Qle_lteq in Hle. destruct Hle as [?|C]; [done|]. by symmetry in C.
  - intros Hd now tr. split; [done|]. unfold Knob.handleDoubleClick.
    destruct (setSpeed_fields (Knob.defaultValue k) now tr) as [-> ->].
    apply JS_eq_true in Hd. by rewrite Hd.
Qed.

Lemma knob_angle_and_direction_witness :
  (Knob.updateVisual (-50)
     (Knob.create (Some (-100)%Q) (Some 100%Q) 0 (UI.knobOptions true 0))).2
  = Some (Track.isReversed (Track.setSpeed (-50) 0 (Track.create 0))).
Proof.
  destruct (knob_angle_and_direction
              (Knob.create (Some (-100)%Q) (Some 100%Q) 0 (UI.knobOptions true 0))
              (-50)) as (_ & _ & _ & _ & _ & H & _); [done|split; done|].
  destruct (H eq_refl ltac:(reflexivity) 0%Q (Recorder.init 44100 demoDraws) 0%nat
              (Track.create 0) eq_refl) as (tr' & _ & -> & E).
  exact E.
Defined.

(** ** The VU meters *)

Lemma frameInterval_pos : (0 < Visualizer.frameInterval)%Q.
Proof. done. Qed.

(** One animation callback: either nothing happens, or a frame is drawn
    and [lastFrameTime] advances by a whole number of frame intervals
    to within one interval before [now]. *)
Lemma animate_step (now : Q) (data : list Z) (v : Visualizer.t) :
  let v' := (Visualizer.animate now data v).1 in
  ((now - Visualizer.lastFrameTime v < Visualizer.frameInterval)%Q /\
   Visualizer.animate now data v = (v, None)) \/
  ((Visualizer.frameInterval <= now - Visualizer.lastFrameTime v)%Q /\
   (exists levels, Visualizer.animate now data v = (v', Some levels) /\
      (v', levels)
      = Visualizer.updateVUMeters data
          (Visualizer.mk (Visualizer.lastFrameTime v') (Visualizer.peakLeft v)
             (Visualizer.peakRight v))) /\
   (exists n : Z, (1 <= n)%Z /\
      Visualizer.lastFrameTime v'
      == Visualizer.lastFrameTime v + inject_Z n * Visualizer.frameInterval) /\
   (now - Visualizer.frameInterval < Visualizer.lastFrameTime v')%Q /\
   (Visualizer.lastFrameTime v' <= now)%Q).
Proof.
  cbv zeta. unfold Visualizer.animate.
  set (elapsed := (now - Visualizer.lastFrameTime v)%Q).
  destruct (JS.lt elapsed Visualizer.frameInterval) eqn:E.
  - left. apply JS_lt_true in E. done.
  - right.
    assert (Hge : (Visualizer.frameInterval <= elapsed)%Q).
    { apply Qnot_lt_le. intros C. apply JS_lt_true in C. congruence. }
    pose proof frameInterval_pos as Hpos.
    unfold JS.rem. rewrite JS_eq_false by (intros C; rewrite C in Hpos; done).
    set (q := (elapsed / Visualizer.frameInterval)%Q).
    assert (Eq : elapsed == q * Visualizer.frameInterval).
    { unfold q. field. intros C. rewrite C in Hpos. done. }
    assert (Hq : (1 <= q)%Q).
    { unfold q. apply Qle_shift_div_l; [done|]. Lqa.lra. }
    destruct (trunc_nonneg q) as (_ & T1 & T2); [Lqa.lra|].
    assert (Hn : (1 <= JS.trunc q)%Z).
    { change 1%Z with (JS.trunc 1). by apply trunc_mono. }
    set (n := JS.trunc q) in *.
    unfold Visualizer.updateVUMeters.
    destruct (Visualizer.sums data) as [sumLeft sumRight] eqn:Es.
    cbn [fst snd Visualizer.lastFrameTime Visualizer.peakLeft Visualizer.peakRight].
    split; [done|]. split; [eexists; split; reflexivity|].
    assert (Hi : (inject_Z n * Visualizer.frameInterval <= elapsed)%Q).
    { rewrite Eq. apply Qmult_le_compat_r; [done|]. by apply Qlt_le_weak. }
    assert (Hs : (elapsed < (inject_Z n + 1) * Visualizer.frameInterval)%Q).
    { rewrite Eq. by apply Qmult_lt_compat_r. }
    split; [exists n; split; [done|unfold elapsed; ring]|].
    unfold elapsed in *. split; Lqa.lra.
Qed.

Lemma animateAll_cons (now : Q) (data : list Z) (rest : list (Q * list Z))
    (v : Visualizer.t) :
  animateAll ((now, data) :: rest) v =
  let step := Visualizer.animate now data v in
  let run := animateAll rest step.1 in
  (run.1, match step.2 with Some _ => S run.2 | None => run.2 end).
Proof.
  cbn [animateAll]. destruct (Visualizer.animate now data v) as [v1 l].
  cbn [fst snd]. by destruct (animateAll rest v1).
Qed.

(** X25.  The meters are redrawn at most thirty times a second.  Over
    any run of animation callbacks, at whatever times they come, the
    frames drawn are at least one frame interval (1000/30 ms) apart on
    average: [lastFrameTime] advances by at least one interval per frame
    drawn and never passes the latest callback time.  A callback less
    than one interval after [lastFrameTime] draws nothing and changes
    nothing; any other draws a frame and leaves [lastFrameTime] within
    one interval before its own time. *)
Theorem vu_frame_rate (calls : list (Q * list Z)) (v : Visualizer.t) (latest : Q) :
  (forall now data, (now, data) ∈ calls -> (now <= latest)%Q) ->
  (Visualizer.lastFrameTime v <= latest)%Q ->
  let run := animateAll calls v in
  let drawn := inject_Z (Z.of_nat run.2) in
  (Visualizer.lastFrameTime v + drawn * Visualizer.frameInterval
   <= Visualizer.lastFrameTime run.1)%Q /\
  (Visualizer.lastFrameTime run.1 <= latest)%Q /\
  (drawn <= (latest - Visualizer.lastFrameTime v) * 30 / 1000)%Q /\
  (forall now data,
     ((now - Visualizer.lastFrameTime v < Visualizer.frameInterval)%Q ->
      Visualizer.animate now data v = (v, None)) /\
     ((Visualizer.frameInterval <= now - Visualizer.lastFrameTime v)%Q ->
      exists v' levels, Visualizer.animate now data v = (v', Some levels) /\
        (now - Visualizer.frameInterval < Visualizer.lastFrameTime v')%Q /\
        (Visualizer.lastFrameTime v' <= now)%Q)).
Proof.
  intros Hall Hv run drawn.
  assert (Hrun : (Visualizer.lastFrameTime v + drawn * Visualizer.frameInterval
                  <= Visualizer.lastFrameTime run.1)%Q /\
                 (Visualizer.lastFrameTime run.1 <= latest)%Q).
  { subst run drawn. revert v Hv Hall.
    induction calls as [|[now data] rest IH]; intros v Hv Hall.
    - cbn [animateAll fst snd]. change (inject_Z (Z.of_nat 0)) with 0%Q.
      split; [|done]. rewrite Qmult_0_l, Qplus_0_r. apply Qle_refl.
    - rewrite animateAll_cons. cbv zeta. cbn [fst snd].
      assert (Hnow : (now <= latest)%Q).
      { apply (Hall now data). apply elem_of_cons. by left. }
      assert (Hrest : forall now' data', (now', data') ∈ rest -> (now' <= latest)%Q).
      { intros now' data' Hin. apply (Hall now' data'). apply elem_of_cons. by right. }
      destruct (animate_step now data v) as [[_ E]|(_ & (levels & E & _) & (n & Hn & En) & _ & Hle)].
      + rewrite E. cbn [fst snd]. by apply IH.
      + cbv zeta in E, En, Hle. rewrite E. cbn [fst snd].
        set (v1 := (Visualizer.animate now data v).1) in *.
        destruct (IH v1) as [A B]; [Lqa.lra|done|]. split; [|done].
        rewrite Nat2Z.inj_succ. unfold Z.succ. rewrite inject_Z_plus.
        change (inject_Z 1) with 1%Q.
        assert (Hn' : (1 <= inject_Z n)%Q).
        { change 1%Q with (inject_Z 1). by rewrite <- Zle_Qle. }
        pose proof frameInterval_pos as Hpos.
        assert (Hm : (1 * Visualizer.frameInterval
                      <= inject_Z n * Visualizer.frameInterval)%Q).
        { apply Qmult_le_compat_r; [done|]. by apply Qlt_le_weak. }
        rewrite En in A.
        set (m := inject_Z (Z.of_nat (animateAll rest v1).2)) in *.
        set (x := (inject_Z n * Visualizer.frameInterval)%Q) in *.
        clearbody m x. Lqa.lra. }
  destruct Hrun as [A B]. split; [done|]. split; [done|]. split.
  - assert (E : (drawn * Visualizer.frameInterval == drawn * 1000 / 30)%Q).
    { unfold Visualizer.frameInterval, Visualizer.targetFPS. field. }
    rewrite E in A. clearbody drawn run.
    unfold Qdiv in *. change (/ 30)%Q with (1 # 30)%Q in A.
    change (/ 1000)%Q with (1 # 1000)%Q. Lqa.lra.
  - intros now data. split.
    + intros Hlt. destruct (animate_step now data v) as [[_ E]|(Hge & _)]; [done|].
      exfalso. Lqa.lra.
    + intros Hge. destruct (animate_step now data v)
        as [[Hlt _]|(_ & (levels & E & _) & _ & C & D)]; [exfalso; Lqa.lra|].
      eexists _, levels. split; [exact E|]. split; done.
Qed.

Lemma vu_frame_rate_witness :
  (inject_Z (Z.of_nat
     (animateAll [(0, []); (40, []); (50, []); (70, [])] Visualizer.create).2)
   <= (70 - Visualizer.lastFrameTime Visualizer.create) * 30 / 1000)%Q.
Proof.
  destruct (vu_frame_rate [(0, []); (40, []); (50, []); (70, [])]%Q
              Visualizer.create 70) as (_ & _ & H & _); [| |exact H].
  - intros now data Hin.
    repeat (apply elem_of_cons in Hin as [Hin|Hin];
            [injection Hin as -> _; done|]).
    by apply elem_of_nil in Hin.
  - done.
Defined.

(** The sums of squares lie between the bounds of their terms. *)
Lemma sums_bounds (data : list Z) (half : nat) (lo hi : Q) (side : bool) :
  length data = (2 * half)%nat ->
  let square := fun i =>
    (normalized data (i + (if side then half else 0%nat))
     * normalized data (i + (if side then half else 0%nat)))%Q in
  let count := inject_Z (Z.of_nat half) in
  let sum := if side then (Visualizer.sums data).2 else (Visualizer.sums data).1 in
  ((forall i, (i < half)%nat -> (lo <= square i)%Q) -> (count * lo <= sum)%Q) /\
  ((forall i, (i < half)%nat -> (square i <= hi)%Q) -> (sum <= count * hi)%Q).
Proof.
  intros Hlen square count sum. subst sum. unfold Visualizer.sums. cbv zeta.
  replace (length data / 2)%nat with half
    by (rewrite Hlen, Nat.mul_comm; symmetry; by apply Nat.div_mul).
  pose (P := fun (k : nat) (st : Q * Q) =>
    let c := inject_Z (Z.of_nat k) in
    let s := if side then st.2 else st.1 in
    ((forall i, (i < half)%nat -> (lo <= square i)%Q) -> (c * lo <= s)%Q) /\
    ((forall i, (i < half)%nat -> (square i <= hi)%Q) -> (s <= c * hi)%Q)).
  subst count. apply (for_loop_ind P); unfold P; clear P.
  - change (inject_Z (Z.of_nat 0)) with 0%Q.
    destruct side; cbn [fst snd]; split; intros _; Lqa.lra.
  - intros i [sl sr] Hi [A B]. cbv zeta in A, B |- *.
    rewrite Nat2Z.inj_succ. unfold Z.succ. rewrite inject_Z_plus.
    change (inject_Z 1) with 1%Q.
    set (c := inject_Z (Z.of_nat i)) in *. clearbody c.
    subst square. unfold normalized in *.
    destruct side; cbn [fst snd] in *.
    + split; intros H; [specialize (A H)|specialize (B H)]; specialize (H i Hi);
        cbv beta in H;
        set (y := ((Visualizer.byteAt data (i + half) - 128) / 128
                   * ((Visualizer.byteAt data (i + half) - 128) / 128))%Q) in *;
        clearbody y; Lqa.lra.
    + split; intros H; [specialize (A H)|specialize (B H)]; specialize (H i Hi);
        cbv beta in H; rewrite Nat.add_0_r in H;
        set (x := ((Visualizer.byteAt data i - 128) / 128
                   * ((Visualizer.byteAt data i - 128) / 128))%Q) in *;
        clearbody x; Lqa.lra.
Qed.

Lemma level_range (sum : Q) (half : nat) :
  (0 <= Visualizer.level sum half <= 1)%R.
Proof.
  unfold Visualizer.level, JS.Math_min_R, JS.Math_sqrt. cbv zeta.
  pose proof (sqrt_pos (Q2R (sum / inject_Z (Z.of_nat half)))) as H.
  unfold Rmin. destruct (Rle_dec _ _); lra.
Qed.

Lemma level_silent (sum : Q) (half : nat) :
  sum == 0 -> Visualizer.level sum half = 0%R.
Proof.
  intros E. unfold Visualizer.level, JS.Math_min_R, JS.Math_sqrt. cbv zeta.
  assert (E' : sum / inject_Z (Z.of_nat half) == 0) by (rewrite E; reflexivity).
  rewrite (Qeq_eqR _ _ E'), RMicromega.Q2R_0, sqrt_0.
  unfold Rmin. destruct (Rle_dec _ _); lra.
Qed.

Lemma level_loud (sum : Q) (half : nat) :
  (0 < half)%nat -> (inject_Z (Z.of_nat half) * (1 # 9) <= sum)%Q ->
  Visualizer.level sum half = 1%R.
Proof.
  intros Hh Hs. unfold Visualizer.level, JS.Math_min_R, JS.Math_sqrt. cbv zeta.
  assert (Hc : (0 < inject_Z (Z.of_nat half))%Q).
  { change 0%Q with (inject_Z 0). rewrite <- Zlt_Qlt. lia. }
  assert (Hq : (1 # 9 <= sum / inject_Z (Z.of_nat half))%Q).
  { apply Qle_shift_div_l; [done|]. rewrite Qmult_comm. done. }
  apply Qle_Rle in Hq.
  assert (E9 : Q2R (1 # 9) = (/ 3 * / 3)%R) by (unfold Q2R; cbn; lra).
  rewrite E9 in Hq. apply sqrt_le_1_alt in Hq.
  rewrite sqrt_square in Hq by lra.
  unfold Rmin. destruct (Rle_dec _ _); lra.
Qed.

Lemma holdPeak_cases (level peak : R) :
  ((peak < level)%R -> Visualizer.holdPeak level peak = level) /\
  ((level <= peak)%R -> Visualizer.holdPeak level peak = (peak * 0.95)%R).
Proof.
  unfold Visualizer.holdPeak, Visualizer.peakDecay.
  destruct (Rlt_dec peak level); split; intros; lra.
Qed.

Lemma square_of_third (x : Q) : (1 # 3 <= Qabs x)%Q -> (1 # 9 <= x * x)%Q.
Proof.
  intros H.
  assert (E : x * x == Qabs x * Qabs x) by (apply Qabs_case; intros; ring).
  rewrite E. set (a := Qabs x) in *. clearbody a.
  assert (H1 : ((1 # 3) * (1 # 3) <= a * (1 # 3))%Q)
    by (apply Qmult_le_compat_r; done).
  assert (H2 : (a * (1 # 3) <= a * a)%Q).
  { rewrite (Qmult_comm a (1 # 3)). apply Qmult_le_compat_r; [done|Lqa.lra]. }
  Lqa.lra.
Qed.

(** X26.  The levels and peak marks of one meter update, for an
    analyser array of even, non-zero length.  Both levels lie in [0, 1]:
    a level is 0 when every sample of its half is 0 (the byte 128) and 1
    as soon as every sample of its half is at least a third of full
    scale.  A peak mark jumps to a level above it and otherwise falls by
    5 %, so it stays in [0, 1] and at no less than 95 % of the level,
    but a level held steady shows its mark below it.  The frame time is
    left alone, and [clearVUMeters] puts both marks back to 0. *)
Theorem vu_levels_and_peaks (data : list Z) (half : nat) (v : Visualizer.t) :
  (0 < half)%nat -> length data = (2 * half)%nat ->
  (0 <= Visualizer.peakLeft v <= 1)%R -> (0 <= Visualizer.peakRight v <= 1)%R ->
  let out := Visualizer.updateVUMeters data v in
  let left := out.2.1 in
  let right := out.2.2 in
  (0 <= left <= 1)%R /\ (0 <= right <= 1)%R /\
  (0 <= Visualizer.peakLeft out.1 <= 1)%R /\
  (0 <= Visualizer.peakRight out.1 <= 1)%R /\
  (left * 0.95 <= Visualizer.peakLeft out.1)%R /\
  (right * 0.95 <= Visualizer.peakRight out.1)%R /\
  ((Visualizer.peakLeft v < left)%R -> Visualizer.peakLeft out.1 = left) /\
  ((left <= Visualizer.peakLeft v)%R ->
     Visualizer.peakLeft out.1 = (Visualizer.peakLeft v * 0.95)%R) /\
  ((Visualizer.peakRight v < right)%R -> Visualizer.peakRight out.1 = right) /\
  ((right <= Visualizer.peakRight v)%R ->
     Visualizer.peakRight out.1 = (Visualizer.peakRight v * 0.95)%R) /\
  Visualizer.lastFrameTime out.1 = Visualizer.lastFrameTime v /\
  ((forall i, (i < half)%nat -> normalized data i == 0) -> left = 0%R) /\
  ((forall i, (i < half)%nat -> normalized data (i + half) == 0) -> right = 0%R) /\
  ((forall i, (i < half)%nat -> (1 # 3 <= Qabs (normalized data i))%Q) ->
     left = 1%R) /\
  ((forall i, (i < half)%nat -> (1 # 3 <= Qabs (normalized data (i + half)))%Q) ->
     right = 1%R) /\
  Visualizer.peakLeft (Visualizer.clearVUMeters out.1) = 0%R /\
  Visualizer.peakRight (Visualizer.clearVUMeters out.1) = 0%R.
Proof.
  intros Hhalf Hlen HpL HpR out left right.
  assert (Eh : (length data / 2)%nat = half).
  { rewrite Hlen, Nat.mul_comm. by apply Nat.div_mul. }
  assert (Eout : out =
    (Visualizer.mk (Visualizer.lastFrameTime v)
       (Visualizer.holdPeak (Visualizer.level (Visualizer.sums data).1 half)
          (Visualizer.peakLeft v))
       (Visualizer.holdPeak (Visualizer.level (Visualizer.sums data).2 half)
          (Visualizer.peakRight v)),
     (Visualizer.level (Visualizer.sums data).1 half,
      Visualizer.level (Visualizer.sums data).2 half))).
  { subst out. unfold Visualizer.updateVUMeters. cbv zeta. rewrite Eh.
    by destruct (Visualizer.sums data). }
  assert (El : left = Visualizer.level (Visualizer.sums data).1 half)
    by (subst left; by rewrite Eout).
  assert (Er : right = Visualizer.level (Visualizer.sums data).2 half)
    by (subst right; by rewrite Eout).
  assert (EpL : Visualizer.peakLeft out.1
                = Visualizer.holdPeak left (Visualizer.peakLeft v))
    by (rewrite El, Eout; done).
  assert (EpR : Visualizer.peakRight out.1
                = Visualizer.holdPeak right (Visualizer.peakRight v))
    by (rewrite Er, Eout; done).
  assert (Hl : (0 <= left <= 1)%R) by (rewrite El; apply level_range).
  assert (Hr : (0 <= right <= 1)%R) by (rewrite Er; apply level_range).
  destruct (holdPeak_cases left (Visualizer.peakLeft v)) as [L1 L2].
  destruct (holdPeak_cases right (Visualizer.peakRight v)) as [R1 R2].
  rewrite <- EpL in L1, L2. rewrite <- EpR in R1, R2.
  assert (Hsilent : forall side : bool,
    (forall i, (i < half)%nat ->
       normalized data (i + (if side then half else 0%nat)) == 0) ->
    (if side then (Visualizer.sums data).2 else (Visualizer.sums data).1) == 0).
  { intros side Hz. pose proof (sums_bounds data half 0 0 side Hlen) as B.
    cbv zeta in B. destruct B as [B1 B2].
    assert (Hsq : forall i, (i < half)%nat ->
              normalized data (i + (if side then half else 0%nat))
              * normalized data (i + (if side then half else 0%nat)) == 0).
    { intros i Hi. rewrite (Hz i Hi). reflexivity. }
    rewrite Qmult_0_r in B1, B2. apply Qle_antisym.
    - apply B2. intros i Hi. rewrite (Hsq i Hi). apply Qle_refl.
    - apply B1. intros i Hi. rewrite (Hsq i Hi). apply Qle_refl. }
  assert (Hloud : forall side : bool,
    (forall i, (i < half)%nat ->
       (1 # 3 <= Qabs (normalized data (i + (if side then half else 0%nat))))%Q) ->
    (inject_Z (Z.of_nat half) * (1 # 9)
     <= (if side then (Visualizer.sums data).2 else (Visualizer.sums data).1))%Q).
  { intros side Hz.
    pose proof (sums_bounds data half (1 # 9) 1 side Hlen) as B.
    cbv zeta in B. destruct B as [B1 _]. apply B1.
    intros i Hi. by apply square_of_third, Hz. }
  clearbody left right out.
  split; [done|]. split; [done|].
  split. { destruct (Rlt_dec (Visualizer.peakLeft v) left) as [C|C];
           [rewrite (L1 C); lra|rewrite L2; lra]. }
  split. { destruct (Rlt_dec (Visualizer.peakRight v) right) as [C|C];
           [rewrite (R1 C); lra|rewrite R2; lra]. }
  split. { destruct (Rlt_dec (Visualizer.peakLeft v) left) as [C|C];
           [rewrite (L1 C); lra|rewrite L2; lra]. }
  split. { destruct (Rlt_dec (Visualizer.peakRight v) right) as [C|C];
           [rewrite (R1 C); lra|rewrite R2; lra]. }
  do 4 (split; [done|]).
  split; [by rewrite Eout|].
  split; [|split; [|split; [|split; [|by rewrite Eout]]]].
  - intros Hz. rewrite El. apply level_silent. apply (Hsilent false).
    intros i Hi. rewrite Nat.add_0_r. by apply Hz.
  - intros Hz. rewrite Er. apply level_silent. by apply (Hsilent true).
  - intros Hz. rewrite El. apply level_loud; [done|]. apply (Hloud false).
    intros i Hi. rewrite Nat.add_0_r. by apply Hz.
  - intros Hz. rewrite Er. apply level_loud; [done|]. by apply (Hloud true).
Qed.

Lemma vu_levels_and_peaks_witness :
  (Visualizer.updateVUMeters [128; 128]%Z Visualizer.create).2.1 = 0%R.
Proof.
  destruct (vu_levels_and_peaks [128; 128]%Z 1 Visualizer.create)
    as (_ & _ & _ & _ & _ & _ & _ & _ & _ & _ & _ & H & _);
    [lia|reflexivity|cbn; lra|cbn; lra|].
  apply H. intros i Hi. assert (i = 0%nat) as -> by lia. reflexivity.
Defined.

(** ** The first reverb impulse *)

Lemma exp_pow_nat (x : R) (n : nat) : (exp x ^ n)%R = exp (INR n * x).
Proof.
  induction n as [|n IH].
  - simpl. rewrite Rmult_0_l, exp_0. done.
  - rewrite S_INR. replace ((INR n + 1) * x)%R with (x + INR n * x)%R by lra.
    rewrite exp_plus, <- IH. done.
Qed.

(** The loop over [i] for one channel. *)
Lemma impulse_channel_loop (g : nat -> R -> R) (m e0 : R) (c n : nat)
    (impulse : list (list R)) (data0 : list R) :
  impulse !! c = Some data0 -> length data0 = n ->
  let filled :=
    (JS.for_loop n (fun i '(impulse, envelope) =>
       (alter (fun data => <[i := g i envelope]> data) c impulse,
        (envelope * m)%R)) (impulse, e0)).1 in
  length filled = length impulse /\
  (forall c', c' <> c -> filled !! c' = impulse !! c') /\
  exists data, filled !! c = Some data /\ length data = n /\
    forall i, (i < n)%nat -> data !! i = Some (g i (e0 * m ^ i)%R).
Proof.
  intros Hc Hl. cbv zeta.
  pose (P := fun (k : nat) (st : list (list R) * R) =>
    st.2 = (e0 * m ^ k)%R /\ length st.1 = length impulse /\
    (forall c', c' <> c -> st.1 !! c' = impulse !! c') /\
    exists data, st.1 !! c = Some data /\ length data = n /\
      forall i, (i < k)%nat -> data !! i = Some (g i (e0 * m ^ i)%R)).
  assert (H : P n (JS.for_loop n (fun i '(impulse, envelope) =>
       (alter (fun data => <[i := g i envelope]> data) c impulse,
        (envelope * m)%R)) (impulse, e0))).
  { apply (for_loop_ind P); unfold P; clear P.
    - cbn [fst snd]. split; [simpl; lra|]. split; [done|]. split; [done|].
      exists data0. split; [done|]. split; [done|]. intros i Hi. lia.
    - intros i [imp env] Hi (He & Hlen & Hother & data & Hd & Hdl & Hfill).
      cbn [fst snd] in *. split; [rewrite He; simpl; lra|].
      split; [by rewrite length_alter|]. split.
      + intros c' Hne. rewrite list_lookup_alter_ne by done. by apply Hother.
      + exists (<[i := g i env]> data). split.
        * rewrite list_lookup_alter_eq, Hd. done.
        * split; [by rewrite length_insert|]. intros j Hj.
          destruct (decide (j = i)) as [->|Hne].
          -- rewrite list_lookup_insert_eq by lia. by rewrite He.
          -- rewrite list_lookup_insert_ne by done. apply Hfill. lia. }
  destruct H as (_ & A & B & C). done.
Qed.

(** Both channels of the impulse have the length the loop ran over. *)
Lemma generateReverbImpulse_shape (sampleRate decay length_ : Q)
    (random : nat -> nat -> R) :
  let impulse := Impulse.generateReverbImpulse sampleRate decay length_ random in
  length impulse = 2%nat /\
  forall c data, impulse !! c = Some data ->
    length data = Z.to_nat (Qfloor (sampleRate * length_)).
Proof.
  intros impulse.
  set (lengthSamples := Z.to_nat (Qfloor (sampleRate * length_))).
  set (step := exp (- Q2R (1 / (sampleRate * decay)))).
  set (g := fun (c i : nat) (envelope : R) =>
    ((random c i * 2 - 1) * envelope * (if (c =? 0)%nat then 0.9 else 1.1) * 0.4)%R).
  set (impulse0 := replicate 2 (replicate lengthSamples 0%R)).
  destruct (impulse_channel_loop (g 0%nat) step 1.0%R 0 lengthSamples impulse0
              (replicate lengthSamples 0%R)) as (L0 & O0 & d0 & D0 & N0 & _);
    [done|by rewrite length_replicate|].
  cbv zeta in L0, O0, D0.
  set (impulse1 := (JS.for_loop lengthSamples _ (impulse0, 1.0%R)).1) in *.
  destruct (impulse_channel_loop (g 1%nat) step 1.0%R 1 lengthSamples impulse1
              (replicate lengthSamples 0%R)) as (L1 & O1 & d1 & D1 & N1 & _);
    [by rewrite O0|by rewrite length_replicate|].
  cbv zeta in L1, O1, D1.
  set (impulse2 := (JS.for_loop lengthSamples _ (impulse1, 1.0%R)).1) in *.
  assert (E : impulse = impulse2).
  { subst impulse. unfold Impulse.generateReverbImpulse. cbv zeta.
    rewrite (for_loop_S 1), (for_loop_S 0). reflexivity. }
  assert (Hlen : length impulse = 2%nat).
  { rewrite E, L1, L0. unfold impulse0. by rewrite length_replicate. }
  split; [exact Hlen|].
  intros c data Hc. destruct c as [|[|c]].
  - rewrite E, O1, D0 in Hc by done. by inversion Hc; subst.
  - rewrite E, D1 in Hc. by inversion Hc; subst.
  - apply lookup_lt_Some in Hc. lia.
Qed.

(** The buffer the convolver starts with is a well-formed stereo
    buffer at the context's rate. *)
Lemma initial_impulse_stereo (sampleRate : Q) (random : nat -> nat -> R) :
  stereo_at sampleRate (Impulse.buffer sampleRate 0.5 0.5 random).
Proof.
  destruct (generateReverbImpulse_shape sampleRate 0.5 0.5 random) as [Hl Hc].
  cbv zeta in Hl, Hc.
  split; [|done]. split; cbn [channelData numberOfChannels buf_length Impulse.buffer].
  - by rewrite length_map.
  - apply Forall_lookup. intros c ch Hch.
    rewrite list_lookup_fmap in Hch.
    destruct (Impulse.generateReverbImpulse sampleRate 0.5 0.5 random !! c)
      as [data|] eqn:Hd; [|done].
    cbn in Hch. inversion Hch; subst ch. rewrite length_map. by apply (Hc c).
Qed.

(** X27.  The impulse response the master reverb starts with, for a
    positive rate and decay and draws of [Math.random()] in [0, 1): two
    channels of [floor(sampleRate * length)] samples each, where sample
    [i] is a draw scaled to (-1, 1) times 0.4, times 0.9 on the left and
    1.1 on the right, times an envelope that starts at 1 and is
    multiplied by [exp(-1/(sampleRate*decay))] at every sample.  So the
    magnitude of sample [i] is at most 0.36 (left) or 0.44 (right)
    times [exp(-t/decay)] for its time [t = i/sampleRate]. *)
Theorem reverb_impulse_envelope (sampleRate decay length_ : Q)
    (random : nat -> nat -> R) :
  (0 < sampleRate)%Q -> (0 < decay)%Q ->
  (forall c i, (0 <= random c i < 1)%R) ->
  let impulse := Impulse.generateReverbImpulse sampleRate decay length_ random in
  let lengthSamples := Z.to_nat (Qfloor (sampleRate * length_)) in
  let shift := fun c : nat => if (c =? 0)%nat then 0.9%R else 1.1%R in
  let step := exp (- Q2R (1 / (sampleRate * decay))) in
  length impulse = 2%nat /\
  forall c, (c < 2)%nat ->
    exists data, impulse !! c = Some data /\ length data = lengthSamples /\
      forall i, (i < lengthSamples)%nat ->
        exists x, data !! i = Some x /\
          x = ((random c i * 2 - 1) * step ^ i * shift c * 0.4)%R /\
          (Rabs x <= 0.4 * shift c
                     * exp (- (INR i / Q2R sampleRate) / Q2R decay))%R.
Proof.
  intros Hsr Hd Hrand impulse lengthSamples shift step.
  set (g := fun (c i : nat) (envelope : R) =>
    ((random c i * 2 - 1) * envelope * shift c * 0.4)%R).
  set (impulse0 := replicate 2 (replicate lengthSamples 0%R)).
  destruct (impulse_channel_loop (g 0%nat) step 1.0%R 0 lengthSamples impulse0
              (replicate lengthSamples 0%R)) as (L0 & O0 & d0 & D0 & N0 & F0);
    [done|by rewrite length_replicate|].
  cbv zeta in L0, O0, D0.
  set (impulse1 := (JS.for_loop lengthSamples _ (impulse0, 1.0%R)).1) in *.
  destruct (impulse_channel_loop (g 1%nat) step 1.0%R 1 lengthSamples impulse1
              (replicate lengthSamples 0%R)) as (L1 & O1 & d1 & D1 & N1 & F1);
    [by rewrite O0|by rewrite length_replicate|].
  cbv zeta in L1, O1, D1.
  set (impulse2 := (JS.for_loop lengthSamples _ (impulse1, 1.0%R)).1) in *.
  assert (E : impulse = impulse2).
  { subst impulse. unfold Impulse.generateReverbImpulse. cbv zeta.
    rewrite (for_loop_S 1), (for_loop_S 0). reflexivity. }
  assert (Hbound : forall c i,
    (Rabs (g c i (step ^ i)%R)
     <= 0.4 * shift c * exp (- (INR i / Q2R sampleRate) / Q2R decay))%R).
  { intros c i. unfold g, step. rewrite exp_pow_nat.
    apply Qlt_Rlt in Hsr, Hd. rewrite RMicromega.Q2R_0 in Hsr, Hd.
    assert (Er : Q2R (1 / (sampleRate * decay))
                 = (/ (Q2R sampleRate * Q2R decay))%R).
    { rewrite Q2R_div.
      - rewrite Q2R_mult, RMicromega.Q2R_1. unfold Rdiv. lra.
      - intros C. apply Qeq_eqR in C. rewrite Q2R_mult, RMicromega.Q2R_0 in C. nra. }
    rewrite Er.
    replace (INR i * - / (Q2R sampleRate * Q2R decay))%R
      with (- (INR i / Q2R sampleRate) / Q2R decay)%R by (field; lra).
    set (e := exp _). assert (He : (0 < e)%R) by apply exp_pos.
    assert (Hs : (0 < shift c)%R) by (unfold shift; destruct (c =? 0)%nat; lra).
    destruct (Hrand c i) as [R0 R1].
    assert (Hu : (Rabs (random c i * 2 - 1) <= 1)%R)
      by (apply Rabs_le; lra).
    rewrite !Rabs_mult. rewrite (Rabs_pos_eq e), (Rabs_pos_eq (shift c)),
      (Rabs_pos_eq 0.4) by lra.
    assert (Hp : (0 < e * shift c * 0.4)%R).
    { apply Rmult_lt_0_compat; [by apply Rmult_lt_0_compat|lra]. }
    pose proof (Rmult_le_compat_r _ _ _ (Rlt_le _ _ Hp) Hu). lra. }
  split; [rewrite E, L1, L0; unfold impulse0; by rewrite length_replicate|].
  intros c Hc. destruct c as [|[|c]]; [| |lia].
  - exists d0. rewrite E, O1 by done. split; [done|]. split; [done|].
    intros i Hi. exists (g 0%nat i (step ^ i)%R).
    split; [rewrite (F0 i Hi); do 2 f_equal; lra|]. split; [done|]. apply Hbound.
  - exists d1. rewrite E. split; [done|]. split; [done|].
    intros i Hi. exists (g 1%nat i (step ^ i)%R).
    split; [rewrite (F1 i Hi); do 2 f_equal; lra|]. split; [done|]. apply Hbound.
Qed.

Lemma reverb_impulse_envelope_witness :
  length (Impulse.generateReverbImpulse 44100 0.5 0.5 (fun _ _ => 0%R)) = 2%nat.
Proof.
  destruct (reverb_impulse_envelope 44100 0.5 0.5 (fun _ _ => 0%R)) as [H _];
    [done|done|intros; lra|exact H].
Defined.

(** ** Disposing of the tape bus, and the reverb size slider *)

(** X28.  [dispose] ends the dropouts of a bus whose pending timers
    are all the one it tracks: none is pending afterwards, so whatever
    timer the runtime believes due, nothing fires, no dropout is logged
    and nothing is scheduled.  The bus keeps its intensity, though, so
    switching the bypass off afterwards schedules a dropout again. *)
Theorem dispose_ends_dropouts (s : CassetteTapeBus.t) :
  (forall p, p ∈ CassetteTapeBus.timers s ->
     CassetteTapeBus.dropoutSchedulerId s = Some p.1) ->
  let s' := CassetteTapeBus.dispose s in
  CassetteTapeBus.timers s' = [] /\
  CassetteTapeBus.dropouts s' = CassetteTapeBus.dropouts s /\
  CassetteTapeBus.dropoutIntensity s' = CassetteTapeBus.dropoutIntensity s /\
  (forall id random1 random2 random3,
     CassetteTapeBus.fire id random1 random2 random3 s' = s') /\
  (forall random, (0 < CassetteTapeBus.dropoutIntensity s)%Q ->
     CassetteTapeBus.timers (CassetteTapeBus.setBypass false random s')
     = [(CassetteTapeBus.nextTimerId s,
         (CassetteTapeBus.clock s
          + (15000 - CassetteTapeBus.dropoutIntensity s * 12000 + random * 5000))%Q)]).
Proof.
  intros Hall s'.
  assert (Ht : CassetteTapeBus.timers s' = []).
  { subst s'. unfold CassetteTapeBus.dispose.
    destruct (CassetteTapeBus.dropoutSchedulerId s) as [id|] eqn:E.
    - cbn. induction (CassetteTapeBus.timers s) as [|p l IH]; [done|].
      assert (Hp : p.1 = id).
      { specialize (Hall p ltac:(apply elem_of_cons; by left)). congruence. }
      rewrite filter_cons_False by (intros C; by apply C).
      apply IH. intros q Hq. apply Hall. apply elem_of_cons. by right.
    - destruct (CassetteTapeBus.timers s) as [|p l]; [done|].
      specialize (Hall p ltac:(apply elem_of_cons; by left)). done. }
  assert (Hf : forall f : CassetteTapeBus.t -> Q,
            (forall id x, f (CassetteTapeBus.clearTimeout id x) = f x) ->
            f s' = f s).
  { intros f Hfc. subst s'. unfold CassetteTapeBus.dispose.
    by destruct (CassetteTapeBus.dropoutSchedulerId s). }
  split; [done|]. split; [|split; [|split]].
  - subst s'. unfold CassetteTapeBus.dispose.
    by destruct (CassetteTapeBus.dropoutSchedulerId s).
  - by apply Hf.
  - intros id r1 r2 r3. unfold CassetteTapeBus.fire. by rewrite Ht.
  - intros random Hpos.
    assert (Hi : CassetteTapeBus.dropoutIntensity s'
                 = CassetteTapeBus.dropoutIntensity s) by (by apply Hf).
    assert (Hc : CassetteTapeBus.clock s' = CassetteTapeBus.clock s)
      by (by apply Hf).
    assert (Hn : CassetteTapeBus.nextTimerId s' = CassetteTapeBus.nextTimerId s).
    { subst s'. unfold CassetteTapeBus.dispose.
      by destruct (CassetteTapeBus.dropoutSchedulerId s). }
    unfold CassetteTapeBus.setBypass, CassetteTapeBus.scheduleDropout.
    cbn [CassetteTapeBus.dropoutIntensity CassetteTapeBus.bypassed].
    rewrite Hi. rewrite (proj2 (JS_gt_true _ _) Hpos).
    assert (Hle : JS.le (CassetteTapeBus.dropoutIntensity s) 0 = false).
    { destruct (JS.le _ _) eqn:E; [|done]. apply JS_le_true in E.
      exfalso. Lqa.lra. }
    rewrite Hle. cbn [orb CassetteTapeBus.setTimeout CassetteTapeBus.timers
                      CassetteTapeBus.nextTimerId CassetteTapeBus.clock].
    by rewrite Ht, Hn, Hc.
Qed.

Lemma dispose_ends_dropouts_witness :
  CassetteTapeBus.timers
    (CassetteTapeBus.dispose
       (CassetteTapeBus.setDropouts 50 0 (CassetteTapeBus.create 0))) = [].
Proof.
  destruct (dispose_ends_dropouts
              (CassetteTapeBus.setDropouts 50 0 (CassetteTapeBus.create 0)))
    as [H _]; [|exact H].
  intros p Hp. vm_compute in Hp. apply list_elem_of_singleton in Hp. by subst p.
Defined.

(** X29.  The master sliders of the page.  The handler of the reverb
    size slider passes 45 hundredths of the slider value to
    [setMasterReverbSize], which takes that as its amount, so a slider
    value [v] sets the size to 0.5 + 20.025 v seconds: 0.5 s at 0, more
    than 45 s from 2.23 on and 2003 s at 100.  When that size is not
    cached, the request sent to the worker once the timer runs out asks
    for an impulse of that decay and that length.  The reverb mix slider
    sets the wet gain to a hundredth of its value and the dry gain to
    the rest of 1, and the master fader sets the master gain to a
    hundredth of its value. *)
Theorem ui_reverb_size_scaling (value : Q) (r : Recorder.t) :
  let r' := UI.onMasterReverbSize value r in
  let size := Recorder.masterReverbSize r' in
  size == 0.5 + 20.025 * value /\
  (value == 0 -> size == 0.5) /\
  (value == 100 -> size == 2003) /\
  ((0 <= value <= 100)%Q -> (0.5 <= size <= 2003)%Q) /\
  ((2.23 <= value)%Q -> (45 < size)%Q) /\
  (~ cached (toFixed1 size) r ->
   (Recorder.onReverbSizeTimeout r').2
   = Some {| Recorder.wr_decay := size; Recorder.wr_length := size;
             Recorder.wr_sampleRate := Recorder.ctxSampleRate r |}) /\
  Recorder.reverbMix (UI.onMasterReverbMix value r) = (value / 100)%Q /\
  Recorder.reverbDry (UI.onMasterReverbMix value r) = (1 - value / 100)%Q /\
  Recorder.masterGain (UI.onMasterFader value r) = (value / 100)%Q.
Proof.
  intros r' size.
  assert (Es : size = (0.5 + value / 100 * 45 * 44.5)%Q).
  { subst size r'. unfold UI.onMasterReverbSize, Recorder.setMasterReverbSize.
    cbv zeta. by destruct (JSMap.get _ _). }
  assert (E : size == 0.5 + 20.025 * value).
  { rewrite Es. unfold Qdiv. change (/ 100)%Q with (1 # 100)%Q. ring. }
  split; [done|]. split; [intros H; rewrite E, H; reflexivity|].
  split; [intros H; rewrite E, H; reflexivity|].
  split; [intros [H1 H2]; rewrite E; split; Lqa.lra|].
  split; [intros H; rewrite E; Lqa.lra|].
  split; [|done].
  intros Hmiss. subst r'. unfold UI.onMasterReverbSize.
  rewrite Es in Hmiss. rewrite (setMasterReverbSize_miss _ r Hmiss).
  unfold Recorder.onReverbSizeTimeout. cbn. by rewrite Es.
Qed.

(** X30.  The fader of a muted track.  After the mute button has
    silenced a track, moving its fader sets the fader gain to a
    hundredth of the slider value while the track stays marked as
    muted: a playing track is heard again, yet [play] and the export
    still leave it out.  Playback and the other tracks are not touched,
    and taking the mute off puts the fader at 0.8 whatever the slider
    shows. *)
Theorem fader_moves_muted_track (r : Recorder.t) (k : nat) (t : Track.t) (value : Q) :
  Recorder.tracks r !! k = Some t -> Track.isMuted t = false ->
  let muted := UI.handleMuteClick k r in
  let moved := UI.onChannelFader k value muted in
  (exists t0, Recorder.tracks muted !! k = Some t0 /\
     Track.isMuted t0 = true /\ Track.channelFader t0 = 0%Q) /\
  (exists t', Recorder.tracks moved !! k = Some t' /\
     Track.isMuted t' = true /\ Track.channelFader t' = (value / 100)%Q /\
     Track.isPlaying t' = Track.isPlaying t /\ Track.source t' = Track.source t /\
     Track.audioBuffer t' = Track.audioBuffer t /\
     audible t' = None /\
     (Recorder.isPlaying moved = false ->
      Recorder.tracks (Recorder.playAll 0 moved) !! k = Some t')) /\
  (forall j, j <> k -> Recorder.tracks moved !! j = Recorder.tracks r !! j) /\
  (exists t'', Recorder.tracks (UI.handleMuteClick k moved) !! k = Some t'' /\
     Track.isMuted t'' = false /\ Track.channelFader t'' = 0.8%Q).
Proof.
  intros Hk Hm muted moved.
  assert (Hlt : (k < length (Recorder.tracks r))%nat) by (by eapply lookup_lt_Some).
  set (t0 := Track.setMute true (Track.set_isMuted true t)).
  assert (E0 : Recorder.tracks muted = <[k := t0]> (Recorder.tracks r)).
  { subst muted. unfold UI.handleMuteClick, Recorder.getTrack. rewrite Hk.
    cbn [Recorder.tracks Recorder.set_tracks]. subst t0.
    cbn [Track.isMuted Track.set_isMuted]. by rewrite Hm. }
  assert (H0 : Recorder.tracks muted !! k = Some t0).
  { rewrite E0. by apply list_lookup_insert_eq. }
  set (t1 := Track.setFader (value / 100) t0).
  assert (E1 : Recorder.tracks moved = <[k := t1]> (Recorder.tracks r)).
  { subst moved. unfold UI.onChannelFader, Recorder.getTrack. rewrite H0.
    cbn [Recorder.tracks Recorder.set_tracks]. rewrite E0.
    by rewrite list_insert_insert_eq. }
  assert (H1 : Recorder.tracks moved !! k = Some t1).
  { rewrite E1. by apply list_lookup_insert_eq. }
  split; [exists t0; done|]. split; [|split].
  - exists t1. split; [done|]. do 5 (split; [done|]). split.
    + unfold audible. cbn. by destruct (Track.audioBuffer t).
    + intros Hr. unfold Recorder.playAll, Recorder.play. rewrite Hr.
      cbn [Recorder.tracks Recorder.set_tracks Recorder.set_isPlaying].
      rewrite list_lookup_fmap, H1. cbn. by rewrite andb_false_r.
  - intros j Hj. rewrite E1. by apply list_lookup_insert_ne.
  - unfold UI.handleMuteClick, Recorder.getTrack. rewrite H1.
    cbn [Recorder.tracks Recorder.set_tracks]. eexists. split.
    + apply list_lookup_insert_eq. rewrite E1, length_insert. done.
    + done.
Qed.

Lemma fader_moves_muted_track_witness :
  exists t', Recorder.tracks
               (UI.onChannelFader 0 50 (UI.handleMuteClick 0 (Recorder.init 44100 demoDraws)))
             !! 0%nat = Some t' /\
    Track.isMuted t' = true /\ Track.channelFader t' = (50 / 100)%Q.
Proof.
  destruct (fader_moves_muted_track (Recorder.init 44100 demoDraws) 0 (Track.create 0) 50)
    as (_ & (t' & A & B & C & _) & _); [reflexivity|reflexivity|].
  exists t'. split; [exact A|]. split; [exact B|exact C].
Defined.

(** ** The master bus of a session *)

Lemma master_ok_same (rate : Q) (r r' : Recorder.t) :
  Recorder.ctxSampleRate r' = Recorder.ctxSampleRate r ->
  Recorder.reverbMix r' = Recorder.reverbMix r ->
  Recorder.reverbDry r' = Recorder.reverbDry r ->
  Recorder.masterLimiter r' = Recorder.masterLimiter r ->
  Recorder.reverbCache r' = Recorder.reverbCache r ->
  Recorder.masterReverbBuffer r' = Recorder.masterReverbBuffer r ->
  master_ok rate r -> master_ok rate r'.
Proof. unfold master_ok. by intros -> -> -> -> -> ->. Qed.

Lemma recorder_stop_master (r : Recorder.t) :
  Recorder.ctxSampleRate (Recorder.stop r) = Recorder.ctxSampleRate r /\
  Recorder.reverbMix (Recorder.stop r) = Recorder.reverbMix r /\
  Recorder.reverbDry (Recorder.stop r) = Recorder.reverbDry r /\
  Recorder.masterLimiter (Recorder.stop r) = Recorder.masterLimiter r /\
  Recorder.reverbCache (Recorder.stop r) = Recorder.reverbCache r /\
  Recorder.masterReverbBuffer (Recorder.stop r) = Recorder.masterReverbBuffer r.
Proof. unfold Recorder.stop. by destruct (negb _). Qed.

Lemma master_ok_stop (rate : Q) (r : Recorder.t) :
  master_ok rate r -> master_ok rate (Recorder.stop r).
Proof.
  destruct (recorder_stop_master r) as (A & B & C & D & E & F).
  by apply master_ok_same.
Qed.

Lemma copyToChannel_wf (b : AudioBuffer) (src : list Q) (channel : nat) :
  wf_buffer b -> wf_buffer (Recorder.copyToChannel b src channel).
Proof.
  intros [Hn Hl]. split; cbn.
  - by rewrite length_alter.
  - apply Forall_lookup. intros c ch Hc.
    destruct (decide (c = channel)) as [->|Hne].
    + rewrite list_lookup_alter, decide_True in Hc by done.
      destruct (channelData b !! channel) as [d|] eqn:Hd; cbn in Hc; [|done].
      inversion Hc; subst ch.
      pose proof (proj1 (Forall_lookup _ _) Hl _ _ Hd) as Hlen. cbn in Hlen.
      rewrite length_app, length_take, length_drop. lia.
    + rewrite list_lookup_alter_ne in Hc by done.
      apply (proj1 (Forall_lookup _ _) Hl _ _ Hc).
Qed.

Lemma delivered_stereo (m : ImpulseResponse) (r : Recorder.t) :
  stereo_at (Recorder.ctxSampleRate r) (delivered m r).
Proof.
  split; [|done]. unfold delivered. do 2 apply copyToChannel_wf. apply createBuffer_wf.
Qed.

Section MapValues.
Context {V : Type} (P : V -> Prop).
Implicit Types (m : list (string * V)) (k : string).

Lemma JSMap_set_Forall k (v : V) m :
  P v -> Forall (fun entry => P entry.2) m ->
  Forall (fun entry => P entry.2) (JSMap.set k v m).
Proof.
  intros Hv. induction m as [|[k' v'] m IH]; cbn; intros H.
  - by constructor.
  - apply Forall_cons in H as [H1 H2].
    destruct (decide (k' = k)); constructor; auto.
Qed.

Lemma JSMap_delete_Forall k m :
  Forall (fun entry => P entry.2) m ->
  Forall (fun entry => P entry.2) (JSMap.delete k m).
Proof.
  intros H. unfold JSMap.delete. induction H as [|e m He Hm IH]; [constructor|].
  destruct (decide (e.1 <> k)).
  - rewrite filter_cons_True by done. by constructor.
  - by rewrite filter_cons_False by done.
Qed.

Lemma JSMap_get_Forall k (v : V) m :
  Forall (fun entry => P entry.2) m -> JSMap.get k m = Some v -> P v.
Proof.
  induction m as [|[k' v'] m IH]; cbn; [done|].
  intros H. apply Forall_cons in H as [H1 H2].
  destruct (decide (k' = k)); [|by auto]. intros E. by inversion E; subst.
Qed.
End MapValues.

Lemma receive_master (m : ImpulseResponse) (r : Recorder.t) :
  Recorder.reverbMix (receive m r) = Recorder.reverbMix r /\
  Recorder.reverbDry (receive m r) = Recorder.reverbDry r /\
  Recorder.masterLimiter (receive m r) = Recorder.masterLimiter r.
Proof.
  unfold receive, Recorder.onReverbWorkerMessage. simpl.
  match goal with |- context [(5 <? ?n)%nat] => destruct (5 <? n)%nat end; [|done].
  by destruct (JSMap.firstKey _).
Qed.

Lemma master_ok_receive (rate : Q) (m : ImpulseResponse) (r : Recorder.t) :
  master_ok rate r -> master_ok rate (receive m r).
Proof.
  intros (Hrate & Hmix & Hlim & Hnd & Hsize & Hall & Hbuf).
  destruct (receive_buffer m r) as (A & _ & _ & B & C). cbv zeta in C.
  pose proof (delivered_stereo m r) as Hd. rewrite Hrate in Hd.
  assert (Hlen : length (JSMap.keys (Recorder.reverbCache r))
                 = length (Recorder.reverbCache r))
    by (unfold JSMap.keys; apply length_map).
  unfold JSMap.size in Hsize.
  pose proof (receive_keys m r) as Hkeys. cbv zeta in Hkeys.
  specialize (Hkeys Hnd ltac:(lia)).
  unfold master_ok. rewrite A, B.
  destruct (receive_master m r) as (M1 & M2 & M3). rewrite M1, M2, M3.
  split; [done|]. split; [done|]. split; [done|].
  assert (Hlen' : JSMap.size (Recorder.reverbCache (receive m r))
                  = length (JSMap.keys (Recorder.reverbCache (receive m r))))
    by (unfold JSMap.keys, JSMap.size; by rewrite length_map).
  split; [|split; [|split]].
  - rewrite Hkeys. destruct (decide _) as [Hin|Hout]; [done|].
    destruct (decide _) as [Hfull|Hroom].
    + apply NoDup_app. split; [|split].
      * destruct (JSMap.keys (Recorder.reverbCache r)); [done|].
        by apply NoDup_cons in Hnd as [_ ?].
      * intros k Hk Hk'. apply list_elem_of_singleton in Hk'. subst k.
        apply Hout. destruct (JSMap.keys (Recorder.reverbCache r)); [done|].
        apply elem_of_cons. by right.
      * apply NoDup_singleton.
    + apply NoDup_app. split; [done|]. split; [|apply NoDup_singleton].
      intros k Hk Hk'. apply list_elem_of_singleton in Hk'. by subst k.
  - rewrite Hlen', Hkeys. destruct (decide _) as [Hin|Hout]; [lia|].
    destruct (decide _) as [Hfull|Hroom].
    + rewrite length_app. cbn.
      destruct (JSMap.keys (Recorder.reverbCache r)); cbn in *; lia.
    + rewrite length_app. cbn. lia.
  - rewrite C.
    assert (H1 : Forall (fun entry => stereo_at rate entry.2)
                   (JSMap.set (cacheKey m) (delivered m r) (Recorder.reverbCache r)))
      by (by apply JSMap_set_Forall).
    destruct (_ <? _)%nat; [|done].
    destruct (JSMap.firstKey _); [|done]. by apply JSMap_delete_Forall.
  - eexists. split; [reflexivity|done].
Qed.

Lemma recorderStep_master (rate : Q) (op : RecorderOp) (r : Recorder.t) :
  master_ok rate r -> master_ok rate (recorderStep op r).
Proof.
  intros Hok. destruct op; cbn [recorderStep].
  - eapply master_ok_same; [..|exact Hok]; unfold Recorder.play;
      by destruct (Recorder.isPlaying r).
  - by apply master_ok_stop.
  - eapply master_ok_same; [..|exact Hok]; unfold Recorder.handleSolo;
      destruct (Recorder.tracks r !! trackNumber); try done; by case_if.
  - unfold Recorder.clearAll. eapply master_ok_same; [..|apply (master_ok_stop _ _ Hok)]; done.
  - eapply master_ok_same; [..|exact Hok]; unfold Recorder.loadFileToTrack;
      destruct (Recorder.tracks r !! trackNumber); try done; by destruct decoded.
  - rewrite exportMix_state. by apply master_ok_stop.
  - by eapply master_ok_same.
  - destruct Hok as (A & B & C & D & E & F & G). unfold master_ok. cbn.
    repeat (split; [done|]). split; [|done]. clear. Lqa.lra.
  - destruct Hok as (A & B & C & D & E & F & G).
    unfold Recorder.setMasterReverbSize.
    cbn [Recorder.reverbCache Recorder.set_masterReverbSize].
    destruct (JSMap.get _ _) as [b|] eqn:Hget.
    + unfold master_ok. cbn. repeat (split; [done|]).
      exists b. split; [done|].
      by eapply (JSMap_get_Forall (stereo_at rate)).
    + by unfold master_ok.
  - eapply master_ok_same; [..|exact Hok]; unfold Recorder.onReverbSizeTimeout;
      by destruct (Recorder.reverbSizeTimeout r).
  - by apply master_ok_receive.
  - by eapply master_ok_same.
  - by eapply master_ok_same.
  - eapply master_ok_same; [..|exact Hok]; unfold UI.handleMuteClick;
      by destruct (Recorder.getTrack trackNumber r).
  - eapply master_ok_same; [..|exact Hok];
      by destruct (Recorder.getTrack trackNumber r).
Qed.

(** X12.  In every state a session can reach: the wet and the dry gain
    of the reverb add up to one; the limiter keeps the settings it was
    created with, so every export is limited the same way; the impulse
    cache holds at most five entries, under different keys; the
    convolver always has an impulse, from the one [init] generates on;
    and the impulse in use and every cached one is a well-formed stereo
    buffer at the context's sample rate. *)
Theorem session_master_bus (rate : Q) (random : nat -> nat -> R)
    (ops : list RecorderOp) :
  let r := session rate random ops in
  Recorder.ctxSampleRate r = rate /\
  (Recorder.reverbMix r + Recorder.reverbDry r == 1)%Q /\
  Recorder.masterLimiter r = mkCompressor (-0.5) 0 20 0.001 0.010 /\
  NoDup (JSMap.keys (Recorder.reverbCache r)) /\
  (JSMap.size (Recorder.reverbCache r) <= 5)%nat /\
  (forall k b, JSMap.get k (Recorder.reverbCache r) = Some b ->
     wf_buffer b /\ numberOfChannels b = 2%nat /\ sampleRate b = rate) /\
  (exists b, Recorder.masterReverbBuffer r = Some b /\
     wf_buffer b /\ numberOfChannels b = 2%nat /\ sampleRate b = rate) /\
  Recorder.masterReverbBuffer (session rate random []) =
    Some (Impulse.buffer rate 0.5 0.5 random).
Proof.
  intros r.
  assert (H : master_ok rate r).
  { subst r. induction ops as [|op ops IH] using rev_ind.
    - unfold master_ok, session. cbn [fold_left].
      split; [done|]. split; [reflexivity|].
      split; [done|]. split; [apply NoDup_nil; done|]. split; [cbn; lia|].
      split; [by constructor|].
      exists (Impulse.buffer rate 0.5 0.5 random). split; [done|].
      apply initial_impulse_stereo.
    - rewrite session_snoc. by apply recorderStep_master. }
  destruct H as (A & B & C & D & E & F & G).
  repeat (split; [done|]). split; [|split; [exact G|done]].
  intros k b Hk. by eapply (JSMap_get_Forall (stereo_at rate)).
Qed.
